(* ===== verification/_CoqProject ===== *)
-Q . S2P
Prelude.v
Floats.v
Process.v
SchedCore.v
SchedTheory.v
SchedFIFO.v
SchedSJF.v
SchedRR.v
SchedLottery.v
SchedMLFQ.v
SchedProps.v
Steps.v
Mutexes.v
Semaphores.v
RWLocks.v
Dining.v
Visualizer.v
Drawing.v
GoText.v
Reports.v
Paging.v
Tlb.v
PageReplacement.v
FreeList.v
Buddy.v
AddressSpace.v
Banker.v
CondVars.v
Race.v
CpuMode.v
Syscalls.v
Lifecycle.v
Pipe.v
Ipc.v
NetIo.v
OsKernel.v
Gmp.v
ReportsCpu.v
ReportsMemory.v
ReportsSync.v
ReportsKernel.v
ReportsIo.v
Parallel.v
Debugger.v
LabsKernel.v
Labs.v
Main.v
