(* ===== verification/Prelude.v ===== *)
(** * Verification of the operating-system simulator

    The program is a simulator of an operating system written in Go: CPU
    schedulers and a goroutine runtime ([src/pkg/cpu]), memory management
    ([src/pkg/memory]), synchronisation primitives and classical concurrency
    problems ([src/pkg/concurrency]), a kernel with traps, system calls and a
    process table ([src/pkg/kernel]), inter-process communication
    ([src/pkg/ipc]), I/O multiplexing ([src/pkg/io]), a benchmark of parallelism
    ([src/pkg/parallelism]), text output ([src/pkg/visualizer]), and a command-line front end of labs
    ([src/cmd/os-sim]).  The parts are independent libraries that meet in
    three places: page replacement uses the page table and the TLB; the process
    table, the isolation lab and shared memory use address spaces, page tables
    and the semaphore; and the kernel drives a scheduler, the process table,
    the system calls and the trap table.  The front end runs all of them, one
    lab at a time, and prints their reports.

    ** Conventions

    A [uint64] is a [Z] whose arithmetic goes through [u64]; an [int] is a [Z]
    and goes through [i64] where it can leave the range (byte and event
    counters, ticks and identifiers are taken not to overflow).  A struct is a
    record with the update notation of this file, a pointer is an index or a
    location, nil is [None], a map is a [gmap], an error is a value of [error],
    a run-time panic is a [None] result.  A method that holds a mutex
    throughout is one atomic function; code that is concurrent below that level
    is a step function over the program counters of its threads, and [Steps]
    runs it under arbitrary schedules.  A [float64] is a number of the IEEE 754
    format of the Standard Library, and every operation rounds.  A string is a
    sequence of bytes.  What the language leaves open, such as the order of an
    iteration over a map, is an argument.

    ** Files

    - [Prelude]: this file; record update, tactics, machine integers, errors,
      formatting, sums, indexing and stable sorting.
    - [Floats]: the operations on [float64] the program uses, and the verbs that
      print them; [GoText]: what it uses of [strings], [strconv] and [bufio].
    - [Process]: control blocks, threads and the context switcher
      ([process.go], [thread.go], [context_switch.go]).
    - [SchedCore]: the steps the six schedulers share, the class [Scheduler]
      for the interface of [scheduler.go], and its laws [SchedulerLaws].
    - [SchedTheory]: the accounting of a run, proved from the laws.
    - [SchedFIFO], [SchedSJF] (SJF and STCF), [SchedRR], [SchedLottery],
      [SchedMLFQ]: one scheduler each ([sched_*.go]), an instance of the laws,
      and its policy.
    - [SchedProps]: the properties of every scheduler, and the metrics of
      [scheduler.go].
    - [Gmp]: goroutines, threads and processors with work stealing and hand-off
      ([gmp_runtime.go]).
    - [Steps]: schedules, reachability and invariants of step functions.
    - [Mutexes] ([mutex.go], [spinlock.go]), [Semaphores] ([semaphore.go]),
      [RWLocks] ([rwlock.go]), [CondVars] ([condvar.go]), [Dining]
      ([dining_philosophers.go]), [Race] ([race_demo.go], [atomics.go]),
      [Banker] ([deadlock_banker.go]).
    - [Paging] ([paging.go], [multilevel_pt.go]), [Tlb] ([tlb.go]),
      [PageReplacement] ([page_replacement.go]), [FreeList] and [Buddy]
      ([allocator.go]), [AddressSpace] ([address_space.go], [stack_heap.go]).
    - [CpuMode] ([cpu_mode.go], [trap_table.go]), [Syscalls] ([syscall.go]),
      [Lifecycle] ([process_lifecycle.go]), [OsKernel] ([os_kernel.go],
      [isolation.go], and the commands of the debugger of [main.go]).
    - [Pipe] ([pipe.go], with a model of [sync.Cond]), [Ipc]
      ([message_queue.go], [shared_memory.go]), [NetIo] (the files of
      [src/pkg/io]).
    - [Visualizer]: colours, escape sequences, tables and the merging of Gantt
      segments ([ansi.go], [table.go], [gantt.go]); [Drawing]: banners, boxes,
      charts and memory diagrams ([ansi.go], [gantt.go], [memory_map.go]).
    - [Reports]: tables built row by row and the order of iterations over maps;
      [ReportsCpu], [ReportsMemory], [ReportsSync], [ReportsKernel],
      [ReportsIo]: the functions of the components that print their state
      ([Render*], [Explain*], [FormatMetricsTable], [HitRate]).
    - [Parallel]: the benchmark and its report ([comparison.go]).
    - [Debugger]: the session of the step debugger ([runInteractiveDebugger] of
      [main.go]); [LabsKernel] and [Labs]: the thirteen labs ([run*Lab] of
      [main.go]); [Main]: the menu, the command line and [main].

    ** What is shown

    - Scheduling: under every scheduler a workload finishes within the sum of
      its bursts after the last arrival, and the reported times are consistent;
      each policy is characterised (completion order of FIFO, shortest job,
      shortest remaining time, bounded waiting of round robin, lottery shares,
      levels and allotments of the feedback queue).  The goroutine runtime
      loses no goroutine and completes all of them within [ticks_left] ticks,
      for any sequence of spawns and ticks and any random generator.
    - Memory: mapped pages translate as mapped, the two-level table agrees with
      a linear one, the TLB stays a partial function with LRU eviction, memory
      accesses keep frames and counters consistent, the free-list allocator on
      linked headers implements an allocator on a sequence of blocks and keeps
      the heap tiled and coalesced, the buddy allocator returns aligned disjoint
      blocks.
    - Concurrency, for any number of threads and every interleaving: mutual
      exclusion, permits, reader-writer exclusion, order and bounds of the
      bounded buffer, the exact range of the data race, completion of the
      ordered philosophers; the banker decides safety.
    - Kernel: user mode cannot change protected state, system calls return and
      log what the table says, the process table is a tree rooted at init, and
      the effect of each call on every branch.
    - Program: for every command line and every input, however it is cut into
      pieces, [main] does not panic and ends, apart from schedules that block
      the goroutines of two labs; the session of the debugger ends, keeps the
      process tree and leaves the kernel idle; a number that is typed is the
      number that is used; the concurrency lab prints its items in order when it
      returns, and the deadlock lab can always be continued to its end and
      prints one text under all schedules.
    - Reports: the heap report accounts for the whole heap, the process table
      has one row per process in every iteration order, the utilisation is a
      percentage in the arithmetic of [float64]; the counters of the benchmark
      lose no update.
    - Output: the lines of tables, boxes, banners and charts are aligned, with
      the one exception of the bottom of a box ([Box_columns]).
    - Communication: pipes are FIFO and lose no wake-up, attached segments share
      frames, the network poller neither loses nor invents goroutines.
    - Defects of the source are theorems too: the queueing mutex can lose a
      wake-up ([Mutex_lost_wakeup]), eviction leaves stale translations
      ([eviction_leaves_stale_translation]), forked processes can share memory
      ([Fork_memory_overlaps]), the debugger never schedules a process
      ([debugger_always_idle]), the isolation lab maps nothing
      ([isolation_test_maps_nothing]), the poller forgets a goroutine
      ([netpoller_forgets]), the pointer check wraps around
      ([ValidateUserPointer_spec]), the IPC lab attaches pages that do not exist
      ([sharedLab_maps_nothing]), and the menu keeps the input of the debugger
      ([menu_starves_debugger]).

    ** Loops and fuel

    Loops over slices are structural.  The loops with fuel are: the run of a
    scheduler ([drive]; the bound is the hypothesis of the theorems), the hand
    of the Clock policy (one more than the frames, since one round clears all
    use bits; [clock_total]), the block list of the allocator (the number of
    headers allocated; [repr_fuel]), the rounding of the buddy allocator (64 orders), the rounds of
    the safety check (one per process; it ends before), the victims of work
    stealing (one per processor), the heap report (the number of headers), and
    the loops of the debugger and the menu (the bytes of the input, since each
    turn consumes a line; [Scan_shorter]).

    ** Parameters

    The generator of [math/rand] is the class [Rng] with the documented range of
    [Intn].  Which waiter [sync.Cond.Signal] wakes, which case a [select] takes
    and how goroutines interleave are arguments of the steps.  The order of an
    iteration over a map is a [MapOrder], a permutation of its entries.  The
    case table of Unicode beyond ASCII, the sine and cosine, the number of
    processors and what the clock measures are arguments.

    ** Not modelled

    Wall-clock time: sleeps, the timeout with which the naive philosophers
    report their deadlock, and the durations of blocking reads.  The fatal error
    with which the Go runtime stops when all goroutines are asleep is a state in
    which no thread can take a step.  The tests are not part of the
    program. *)

From stdpp Require Export base tactics list numbers strings pretty gmap functions sorting fin_maps.
From Stdlib Require Export ZArith Lia.

#[export] Set Default Proof Using "Type".
Set Warnings "-postfix-notation-not-level-1".

Declare Scope go_scope.
Delimit Scope go_scope with go.
Open Scope go_scope.
Open Scope Z_scope.

(** ** Functional record update

    [r <| f := v |>] is the record [r] with field [f] replaced by [v] and
    [r <| f ::= g |>] applies [g] to the field.  A record type takes part by
    declaring its eta expansion as an [Eta] instance; the updater of a field
    is then computed from it. *)
Class Eta (R : Type) := eta : R → R.

Class Update {R T : Type} (f : R → T) := upd : (T → T) → R → R.
Arguments upd {R T} f {_} _ _ /.

Ltac solve_update :=
  lazymatch goal with
  | |- @Update ?R ?T ?f =>
      let i := constr:(_ : Eta R) in
      let h := eval hnf in i in
      let g := eval pattern f in h in
      lazymatch g with
      | ?k f =>
          let u := eval cbv beta in (λ (m : T → T), k (λ r : R, m (f r))) in
          exact u
      end
  end.

#[export] Hint Extern 0 (@Update _ _ _) => solve_update : typeclass_instances.

Notation "r <| f := v |>" := (upd f (λ _, v) r)
  (at level 12, left associativity, f at level 11, v at level 200,
   format "r  <| f  :=  v |>").
Notation "r <| f ::= g |>" := (upd f g r)
  (at level 12, left associativity, f at level 11, g at level 200,
   format "r  <| f  ::=  g |>").

(** ** Hint databases *)
Create HintDb go discriminated.
Create Rewrite HintDb go_list.
Create Rewrite HintDb heap.
Create Rewrite HintDb sched.
Create Rewrite HintDb sched_total.

(** ** Tactics *)
Ltac go_bool :=
  repeat match goal with
  | H : (_ <? _) = true |- _ => apply Z.ltb_lt in H
  | H : (_ <? _) = false |- _ => apply Z.ltb_ge in H
  | H : (_ <=? _) = true |- _ => apply Z.leb_le in H
  | H : (_ <=? _) = false |- _ => apply Z.leb_gt in H
  | H : (_ =? _) = true |- _ => apply Z.eqb_eq in H
  | H : (_ =? _) = false |- _ => apply Z.eqb_neq in H
  | H : (_ && _)%bool = true |- _ => apply andb_true_iff in H as [? ?]
  | H : (_ || _)%bool = false |- _ => apply orb_false_iff in H as [? ?]
  | H : negb _ = true |- _ => apply negb_true_iff in H
  | H : negb _ = false |- _ => apply negb_false_iff in H
  end.

(** Case analysis on the condition of an [if] of the goal. *)
Ltac case_if :=
  match goal with
  | |- context [if ?b then _ else _] => destruct b eqn:?
  end.

(** ** Machine integers

    A [uint64] is a [Z] in [0, 2^64) and every arithmetic operation of the
    source on one goes through [u64]; [i64] is the conversion to a signed
    64-bit [int] or [int64]. *)
Definition u64_mod : Z := 2 ^ 64.
Definition u64 (z : Z) : Z := z mod u64_mod.
Definition i64 (z : Z) : Z :=
  let m := u64 z in if m <? 2 ^ 63 then m else m - u64_mod.

Definition is_u64 (z : Z) : Prop := 0 ≤ z < u64_mod.
Definition is_i64 (z : Z) : Prop := - 2 ^ 63 ≤ z < 2 ^ 63.

Lemma u64_range z : is_u64 (u64 z).
Proof. unfold is_u64, u64, u64_mod. apply Z.mod_pos_bound. lia. Qed.

#[export] Hint Resolve u64_range : go.

Lemma u64_id z : is_u64 z → u64 z = z.
Proof. unfold is_u64, u64. intros. by apply Z.mod_small. Qed.

Lemma i64_id z : is_i64 z → i64 z = z.
Proof.
  unfold is_i64, i64, u64, u64_mod. intros Hz.
  destruct (Z.lt_ge_cases z 0).
  - rewrite <- (Z.mod_unique_pos z (2 ^ 64) (-1) (z + 2 ^ 64)) by lia.
    destruct (Z.ltb_spec (z + 2 ^ 64) (2 ^ 63)); lia.
  - rewrite Z.mod_small by lia. destruct (Z.ltb_spec z (2 ^ 63)); lia.
Qed.

Lemma i64_nonneg_inv z : is_u64 z → 0 ≤ i64 z → i64 z = z.
Proof.
  unfold i64. intros Hz. rewrite (u64_id z Hz). unfold is_u64, u64_mod in *.
  destruct (Z.ltb_spec z (2 ^ 63)); lia.
Qed.

(** ** Results of fallible operations

    An [error] keeps the text of the sentinel it wraps ([errors.Is] compares
    against it) and the full message.  A run-time panic of Go (nil
    dereference, index out of range) is the [None] of an [option]. *)
Record error := Error { err_is : string; err_msg : string }.

Definition errors_New (s : string) : error := Error s s.
Definition Errorf (s : string) : error := Error s s.
Definition Errorf_w (e : error) (rest : string) : error :=
  Error (err_is e) (err_msg e +:+ rest).

Inductive result (A : Type) :=
  | Ok (a : A)
  | Err (e : error).
Arguments Ok {A} a.
Arguments Err {A} e.

Definition is_ok {A} (r : result A) : bool :=
  match r with Ok _ => true | Err _ => false end.

(** ** Formatting of integers: [%d], [%X] and [%0nX] *)
Definition fmt_d (z : Z) : string := pretty z.

Definition hex_digit (z : Z) : string :=
  match z with
  | 0 => "0" | 1 => "1" | 2 => "2" | 3 => "3" | 4 => "4" | 5 => "5"
  | 6 => "6" | 7 => "7" | 8 => "8" | 9 => "9" | 10 => "A" | 11 => "B"
  | 12 => "C" | 13 => "D" | 14 => "E" | _ => "F"
  end.

Fixpoint hex_digits (fuel : nat) (z : Z) : string :=
  match fuel with
  | O => ""
  | S f => if z <? 16 then hex_digit z
           else hex_digits f (z / 16) +:+ hex_digit (z mod 16)
  end.

(** Sixteen digits are enough for 64 bits. *)
Definition fmt_X (z : Z) : string := hex_digits 16 z.

Definition pad_zeros (w : nat) (s : string) : string :=
  String.concat "" (replicate (w - String.length s) "0") +:+ s.

Definition fmt_0X (w : nat) (z : Z) : string := pad_zeros w (fmt_X z).

Definition fmt_v_bool (b : bool) : string := if b then "true" else "false".

(** ** Lists *)
Definition sumZ {A} (f : A → Z) (l : list A) : Z := foldr (λ x n, f x + n) 0 l.

Lemma sumZ_cons {A} (f : A → Z) x l : sumZ f (x :: l) = f x + sumZ f l.
Proof. done. Qed.

Lemma sumZ_app {A} (f : A → Z) l k : sumZ f (l ++ k) = sumZ f l + sumZ f k.
Proof. unfold sumZ. induction l; simpl in *; lia. Qed.

Lemma sumZ_fmap {A B} (f : B → Z) (g : A → B) l : sumZ f (g <$> l) = sumZ (λ x, f (g x)) l.
Proof. unfold sumZ. induction l; simpl; [done|by f_equal]. Qed.

Lemma sumZ_perm {A} (f : A → Z) l k : l ≡ₚ k → sumZ f l = sumZ f k.
Proof. unfold sumZ. induction 1; simpl in *; lia. Qed.

Lemma sumZ_ext {A} (f g : A → Z) l :
  (∀ x, x ∈ l → f x = g x) → sumZ f l = sumZ g l.
Proof.
  unfold sumZ. induction l as [|x l IH]; intros H; [done|]. simpl.
  rewrite (H x) by set_solver. rewrite IH; [done|]. set_solver.
Qed.

Lemma sumZ_nonneg {A} (f : A → Z) l : (∀ x, x ∈ l → 0 ≤ f x) → 0 ≤ sumZ f l.
Proof.
  unfold sumZ. induction l as [|x l IH]; intros H; [done|]. simpl.
  assert (0 ≤ f x) by (apply H; set_solver).
  assert (0 ≤ foldr (λ x n, f x + n) 0 l) by (apply IH; set_solver). lia.
Qed.

Lemma sumZ_le {A} (f g : A → Z) l :
  (∀ x, x ∈ l → f x ≤ g x) → sumZ f l ≤ sumZ g l.
Proof.
  unfold sumZ. induction l as [|x l IH]; intros H; [done|]. simpl.
  assert (f x ≤ g x) by (apply H; set_solver).
  assert (foldr (λ x n, f x + n) 0 l ≤ foldr (λ x n, g x + n) 0 l)
    by (apply IH; set_solver). lia.
Qed.

(** A sum changes by [d] when exactly one summand of a duplicate-free list
    changes by [d]. *)
Lemma sumZ_update_one {A} (f g : A → Z) l y d :
  NoDup l → y ∈ l → g y = f y + d →
  (∀ x, x ∈ l → x ≠ y → g x = f x) → sumZ g l = sumZ f l + d.
Proof.
  intros Hnd Hy Hg Hne. induction l as [|x l IH]; [set_solver|].
  apply NoDup_cons in Hnd as [Hx Hnd]. unfold sumZ in *. simpl.
  apply elem_of_cons in Hy as [->|Hy].
  - assert (foldr (λ x n, g x + n) 0 l = foldr (λ x n, f x + n) 0 l) as ->;
      [|lia]. apply sumZ_ext. intros z Hz. apply Hne; set_solver.
  - rewrite IH by set_solver. rewrite (Hne x) by set_solver. lia.
Qed.

(** The maximum of a list of non-negative values. *)
Definition maxZ {A} (f : A → Z) (l : list A) : Z := foldr (λ x n, Z.max (f x) n) 0 l.

Lemma maxZ_ge {A} (f : A → Z) l x : x ∈ l → f x ≤ maxZ f l.
Proof.
  unfold maxZ. induction l as [|y l IH]; [set_solver|].
  intros [->|Hx]%elem_of_cons; simpl; [lia|]. apply IH in Hx. lia.
Qed.

Lemma maxZ_nonneg {A} (f : A → Z) l : 0 ≤ maxZ f l.
Proof. unfold maxZ. induction l; simpl; lia. Qed.

Lemma maxZ_ext {A} (f g : A → Z) l :
  (∀ x, x ∈ l → f x = g x) → maxZ f l = maxZ g l.
Proof.
  unfold maxZ. induction l as [|x l IH]; intros H; [done|]. simpl.
  rewrite (H x) by set_solver. rewrite IH; [done|]. set_solver.
Qed.

Definition len {A} (l : list A) : Z := Z.of_nat (length l).

Lemma filter_ext_in {A} (P Q : A → Prop)
    `{!∀ x, Decision (P x), !∀ x, Decision (Q x)} (l : list A) :
  (∀ x, x ∈ l → P x ↔ Q x) → filter P l = filter Q l.
Proof.
  induction l as [|x l IH]; intros HPQ; [done|]. rewrite !filter_cons.
  rewrite IH by set_solver. destruct (HPQ x) as [H1 H2]; [set_solver|].
  repeat case_decide; tauto.
Qed.

Lemma filter_none {A} (P : A → Prop) `{!∀ x, Decision (P x)} (l : list A) :
  (∀ x, x ∈ l → ¬ P x) → filter P l = [].
Proof.
  induction l as [|x l IH]; intros HP; [done|].
  rewrite filter_cons, decide_False; [|apply HP; set_solver]. apply IH. set_solver.
Qed.

Lemma filter_all {A} (P : A → Prop) `{!∀ x, Decision (P x)} (l : list A) :
  (∀ x, x ∈ l → P x) → filter P l = l.
Proof.
  induction l as [|x l IH]; intros HP; [done|].
  rewrite filter_cons, decide_True by (apply HP; set_solver). f_equal. apply IH. set_solver.
Qed.

Lemma filter_ext_elem {A} (P Q : A → bool) (l : list A) :
  (∀ x, x ∈ l → P x = Q x) → filter (λ x, P x) l = filter (λ x, Q x) l.
Proof.
  induction l as [|x l IH]; intros H; [done|]. rewrite !filter_cons.
  rewrite (H x) by set_solver. rewrite IH by set_solver. done.
Qed.

(** [delete i l] of stdpp is [append(l[:i], l[i+1:]...)]. *)
Lemma delete_perm {A} (l : list A) i x :
  l !! i = Some x → l ≡ₚ x :: delete i l.
Proof. intros H. by apply delete_Permutation. Qed.

(** ** Slices indexed by Go integers

    [idx l i] is the element [l[i]], and [None], a panic, when the index is out
    of range; [upd_idx f i l] modifies the element at an index in range. *)
Definition idx {A} (l : list A) (i : Z) : option A :=
  if 0 <=? i then l !! Z.to_nat i else None.

Definition upd_idx {A} (f : A → A) (i : Z) (l : list A) : list A := alter f (Z.to_nat i) l.

Lemma idx_Some {A} (l : list A) i x :
  idx l i = Some x ↔ 0 ≤ i ∧ l !! Z.to_nat i = Some x.
Proof. unfold idx. destruct (Z.leb_spec 0 i); naive_solver lia. Qed.

Lemma idx_lt {A} (l : list A) i : is_Some (idx l i) ↔ 0 ≤ i < len l.
Proof.
  unfold idx, len. destruct (Z.leb_spec 0 i).
  - rewrite lookup_lt_is_Some. lia.
  - split; [by intros [? [=]]|lia].
Qed.

Lemma idx_None {A} (l : list A) i : idx l i = None ↔ i < 0 ∨ len l ≤ i.
Proof. rewrite eq_None_not_Some, idx_lt. lia. Qed.

Lemma len_snoc {A} (l : list A) x : len (l ++ [x]) = len l + 1.
Proof. unfold len. rewrite length_app. simpl. lia. Qed.

Lemma len_cons {A} (x : A) l : len (x :: l) = len l + 1.
Proof. unfold len. simpl. lia. Qed.

Lemma len_upd_idx {A} (f : A → A) i l : len (upd_idx f i l) = len l.
Proof. unfold len, upd_idx. by rewrite length_alter. Qed.

Lemma idx_upd_eq {A} (f : A → A) i l : 0 ≤ i → idx (upd_idx f i l) i = f <$> idx l i.
Proof.
  intros Hi. unfold idx, upd_idx. destruct (Z.leb_spec 0 i); [|lia].
  apply list_lookup_alter_eq.
Qed.

Lemma idx_upd_ne {A} (f : A → A) i j l : 0 ≤ i → i ≠ j → idx (upd_idx f i l) j = idx l j.
Proof.
  intros Hi Hne. unfold idx, upd_idx. destruct (Z.leb_spec 0 j); [|done].
  apply list_lookup_alter_ne. lia.
Qed.

Lemma idx_replicate {A} (x : A) n i : 0 ≤ i < n → idx (replicate (Z.to_nat n) x) i = Some x.
Proof.
  intros Hi. apply idx_Some. split; [lia|]. apply lookup_replicate. split; [done|lia].
Qed.

Lemma option_Forall2_r {A B} (P : A → B → Prop) mx y :
  option_Forall2 P mx (Some y) → ∃ x, mx = Some x ∧ P x y.
Proof. inversion 1. eauto. Qed.

Lemma option_Forall2_l {A B} (P : A → B → Prop) x my :
  option_Forall2 P (Some x) my → ∃ y, my = Some y ∧ P x y.
Proof. inversion 1. eauto. Qed.

Lemma idx_nat {A} (l : list A) (i : nat) : idx l (Z.of_nat i) = l !! i.
Proof. unfold idx. destruct (Z.leb_spec 0 (Z.of_nat i)); [by rewrite Nat2Z.id|lia]. Qed.

Lemma sumZ_upd_idx {A} (g : A → Z) (h : A → A) i l x :
  idx l i = Some x → sumZ g (upd_idx h i l) = sumZ g l - g x + g (h x).
Proof.
  intros [_ Hi]%idx_Some. unfold upd_idx, sumZ. revert Hi. generalize (Z.to_nat i). clear i.
  induction l as [|y l IH]; intros [|i] Hi; simpl in Hi; simplify_eq; csimpl; [lia|].
  rewrite (IH i Hi). lia.
Qed.

#[export] Hint Rewrite @len_upd_idx : go_list.

(** ** [sort.SliceStable]

    The stable sort of a slice by an integer key; a stable sort is determined
    by its specification, which the lemmas below state. *)
Fixpoint sort_insert {A} (key : A → Z) (x : A) (l : list A) : list A :=
  match l with
  | [] => [x]
  | y :: l' => if key x <=? key y then x :: l else y :: sort_insert key x l'
  end.

Definition SliceStable {A} (key : A → Z) (l : list A) : list A :=
  foldr (sort_insert key) [] l.
Arguments SliceStable {A} key l : simpl never.

Lemma sort_insert_perm {A} (key : A → Z) x l : sort_insert key x l ≡ₚ x :: l.
Proof.
  induction l as [|y l IH]; simpl; [done|]. case_if; [done|].
  rewrite IH. apply Permutation_swap.
Qed.

Lemma SliceStable_perm {A} (key : A → Z) l : SliceStable key l ≡ₚ l.
Proof.
  unfold SliceStable. induction l as [|x l IH]; simpl; [done|].
  by rewrite sort_insert_perm, IH.
Qed.

Lemma SliceStable_sorted {A} (key : A → Z) l :
  StronglySorted (λ x y, key x ≤ key y) (SliceStable key l).
Proof.
  unfold SliceStable. induction l as [|x l IH]; simpl; [constructor|].
  generalize dependent (foldr (sort_insert key) [] l). clear l.
  intros l Hs. induction Hs as [|y l Hs IH Hf]; simpl.
  - repeat constructor.
  - case_if; go_bool.
    + constructor; [by constructor|]. constructor; [done|].
      eapply Forall_impl; [done|]. simpl. lia.
    + constructor; [done|]. rewrite sort_insert_perm. constructor; [lia|done].
Qed.

Lemma SliceStable_stable {A} (key : A → Z) l z :
  filter (λ x, key x = z) (SliceStable key l) = filter (λ x, key x = z) l.
Proof.
  unfold SliceStable. induction l as [|x l IH]; simpl; [done|].
  rewrite filter_cons, <- IH. clear IH.
  pose proof (SliceStable_sorted key l) as Hs. unfold SliceStable in Hs.
  generalize dependent (foldr (sort_insert key) [] l). clear l.
  intros l Hs. induction l as [|y l IH]; simpl.
  - by rewrite filter_cons, filter_nil.
  - apply StronglySorted_inv in Hs as [Hs Hf]. case_if; go_bool.
    + by rewrite filter_cons.
    + rewrite !(filter_cons _ y), IH by done.
      repeat case_decide; try done; subst; lia.
Qed.

(** A stable sort is determined by sortedness and stability. *)
Lemma stable_unique {A} (key : A → Z) l1 l2 :
  StronglySorted (λ x y, key x ≤ key y) l1 → StronglySorted (λ x y, key x ≤ key y) l2 →
  (∀ z, filter (λ x, key x = z) l1 = filter (λ x, key x = z) l2) → l1 = l2.
Proof.
  revert l2. induction l1 as [|x l1 IH]; intros l2 Hs1 Hs2 Hf.
  - destruct l2 as [|y l2]; [done|]. specialize (Hf (key y)).
    by rewrite filter_nil, filter_cons, decide_True in Hf.
  - destruct l2 as [|y l2].
    { specialize (Hf (key x)). by rewrite filter_nil, filter_cons, decide_True in Hf. }
    apply StronglySorted_inv in Hs1 as [Hs1 Hx]. apply StronglySorted_inv in Hs2 as [Hs2 Hy].
    rewrite Forall_forall in Hx, Hy.
    assert (Hxy : key x = key y).
    { assert (Hin : ∀ z, z ∈ x :: l1 ↔ z ∈ y :: l2).
      { intros z. specialize (Hf (key z)).
        assert (z ∈ filter (λ w, key w = key z) (x :: l1) ↔
                z ∈ filter (λ w, key w = key z) (y :: l2)) as Hz by (by rewrite Hf).
        rewrite !list_elem_of_filter in Hz. tauto. }
      assert (key y ≤ key x).
      { destruct (proj1 (elem_of_cons l2 x y)) as [->|]; [|lia|by apply Hy].
        apply Hin. set_solver. }
      destruct (proj1 (elem_of_cons l1 y x)) as [->|]; [|lia|].
      { apply Hin. set_solver. } assert (key x ≤ key y) by (by apply Hx). lia. }
    pose proof (Hf (key x)) as Hk. rewrite !filter_cons, !decide_True in Hk by congruence.
    simplify_eq. f_equal. apply IH; [done..|]. intros z. specialize (Hf z).
    rewrite !filter_cons in Hf. by case_decide; simplify_eq.
Qed.

Lemma SliceStable_unique {A} (key : A → Z) l l' :
  StronglySorted (λ x y, key x ≤ key y) l' →
  (∀ z, filter (λ x, key x = z) l' = filter (λ x, key x = z) l) → l' = SliceStable key l.
Proof.
  intros Hs Hf. apply (stable_unique key); [done|apply SliceStable_sorted|].
  intros z. by rewrite SliceStable_stable.
Qed.

(** The first element of the sorted slice has the least key. *)
Lemma SliceStable_head {A} (key : A → Z) l x l' :
  SliceStable key l = x :: l' → x ∈ l ∧ ∀ y, y ∈ l → key x ≤ key y.
Proof.
  intros E. pose proof (SliceStable_perm key l) as Hp.
  pose proof (SliceStable_sorted key l) as Hs. rewrite E in Hp, Hs.
  apply StronglySorted_inv in Hs as [_ Hf]. rewrite Forall_forall in Hf.
  split; [rewrite <- Hp; set_solver|]. intros y. rewrite <- Hp.
  intros [->|Hy]%elem_of_cons; [lia|]. by apply Hf.
Qed.
