(* ===== verification/Floats.v ===== *)
(** * Floating point numbers

    The [float64] of the source as IEEE 754 binary64 numbers: the arithmetic of
    [SpecFloat] of the standard library with 53 bits of precision, and the
    verbs [%.1f], [%.2f] and [%.3f] of [fmt], which print the exact decimal
    value rounded to nearest, ties to even. *)

From Stdlib Require Import SpecFloat.
From S2P Require Import Prelude.

Definition prec : Z := 53.
Definition emax : Z := 1024.

Definition float64 : Type := spec_float.
Definition f_of_int (z : Z) : float64 := binary_normalize prec emax z 0 false.
Definition fadd : float64 → float64 → float64 := SFadd prec emax.
Definition fsub : float64 → float64 → float64 := SFsub prec emax.
Definition fmul : float64 → float64 → float64 := SFmul prec emax.
Definition fdiv : float64 → float64 → float64 := SFdiv prec emax.

(** The integer closest to [a / b], the even one of two. *)
Definition round_half_even (a b : Z) : Z :=
  let q := a / b in
  match 2 * (a `mod` b) ?= b with
  | Lt => q
  | Gt => q + 1
  | Eq => if Z.even q then q else q + 1
  end.

(** [m * 2 ^ e] in units of [10 ^ (- n)]. *)
Definition decimal (n : nat) (m e : Z) : Z :=
  let s := m * 10 ^ Z.of_nat n in
  if 0 <=? e then s * 2 ^ e else round_half_even s (2 ^ (- e)).

Definition fmt_fixed (n : nat) (q : Z) : string :=
  fmt_d (q / 10 ^ Z.of_nat n) +:+ "." +:+ pad_zeros n (fmt_d (q `mod` 10 ^ Z.of_nat n)).

Definition fmt_f (n : nat) (x : float64) : string :=
  match x with
  | S754_nan => "NaN"
  | S754_infinity s => (if s then "-" else "+") +:+ "Inf"
  | S754_zero s => (if s then "-" else "") +:+ fmt_fixed n 0
  | S754_finite s m e => (if s then "-" else "") +:+ fmt_fixed n (decimal n (Zpos m) e)
  end.

Example fmt_f_third : fmt_f 2 (fmul (fdiv (f_of_int 2) (f_of_int 3)) (f_of_int 100)) = "66.67"%string.
Proof. vm_compute. reflexivity. Qed.

Example fmt_f_tie : fmt_f 2 (fdiv (f_of_int 1) (f_of_int 8)) = "0.12"%string.
Proof. vm_compute. reflexivity. Qed.

(** ** Ratios are rounded into their range

    [within x k]: [x] is a number between 0 and the integer [k]. *)
Definition within (x : float64) (k : Z) : Prop :=
  match x with
  | S754_zero _ => 0 ≤ k
  | S754_finite false m e => e ≤ 0 ∧ Zpos m ≤ k * 2 ^ (- e)
  | _ => False
  end.

(** The least integer multiple of the unit that is not below a number given by
    its mantissa and what lies beyond it. *)
Definition inexact (l : location) : bool := match l with loc_Exact => false | _ => true end.
Definition ceil (m : Z) (l : location) : Z := m + Z.b2z (inexact l).
Definition ceil_mrs (r : shr_record) : Z := shr_m r + Z.b2z (shr_r r || shr_s r).

Lemma digits2_pos_spec p : 2 ^ (Zpos (digits2_pos p) - 1) ≤ Zpos p < 2 ^ Zpos (digits2_pos p).
Proof.
  induction p as [p IH|p IH|]; cbn [digits2_pos]; [| |done];
    rewrite Pos2Z.inj_succ; set (d := Zpos (digits2_pos p)) in *;
    replace (Z.succ d - 1) with (Z.succ (d - 1)) by lia;
    rewrite !Z.pow_succ_r by lia; lia.
Qed.

Lemma Zdigits2_le m n : 0 ≤ m < 2 ^ n → 0 ≤ n → Zdigits2 m ≤ n.
Proof.
  intros Hm Hn. destruct m as [|p|p]; [done| |lia]. cbn.
  pose proof (digits2_pos_spec p) as [Hp _]. destruct (Z.le_gt_cases (Zpos (digits2_pos p)) n); [done|].
  pose proof (Z.pow_le_mono_r 2 n (Zpos (digits2_pos p) - 1)). lia.
Qed.

Section round.
Context (k : Z).
Hypothesis Hk : 0 ≤ k < 2 ^ 52.

Lemma shr_1_ceil r e :
  0 ≤ shr_m r → e < 0 → ceil_mrs r ≤ k * 2 ^ (- e) →
  0 ≤ shr_m (shr_1 r) ∧ ceil_mrs (shr_1 r) ≤ k * 2 ^ (- (e + 1)).
Proof.
  intros Hm He. replace (- e) with (Z.succ (- (e + 1))) by lia. rewrite Z.pow_succ_r by lia.
  destruct r as [[|p|p] r s]; unfold ceil_mrs; cbn in *; [| |lia].
  - destruct r, s; cbn; lia.
  - destruct p as [p|p|]; cbn; destruct r, s; cbn; lia.
Qed.

Lemma iter_pos_nat {A} (f : A → A) p x : SpecFloat.iter_pos f p x = Nat.iter (Pos.to_nat p) f x.
Proof.
  revert x. induction p as [p IH|p IH|]; intros x; cbn [SpecFloat.iter_pos]; [| |done]; rewrite !IH.
  - rewrite Pos2Nat.inj_xI. change (S (2 * Pos.to_nat p)) with (1 + 2 * Pos.to_nat p)%nat.
    rewrite Nat.add_comm, !Nat.iter_add. replace (2 * Pos.to_nat p)%nat with (Pos.to_nat p + Pos.to_nat p)%nat by lia.
    by rewrite Nat.iter_add.
  - rewrite Pos2Nat.inj_xO. replace (2 * Pos.to_nat p)%nat with (Pos.to_nat p + Pos.to_nat p)%nat by lia.
    by rewrite Nat.iter_add.
Qed.

Lemma shr_ceil n r e :
  0 ≤ shr_m r → e + Z.of_nat n ≤ 0 → ceil_mrs r ≤ k * 2 ^ (- e) →
  0 ≤ shr_m (Nat.iter n shr_1 r) ∧ ceil_mrs (Nat.iter n shr_1 r) ≤ k * 2 ^ (- (e + Z.of_nat n)).
Proof.
  intros Hm. induction n as [|n IH]; intros He Hc; [by rewrite Z.add_0_r|].
  destruct IH as [H1 H2]; [lia|done|]. rewrite Nat2Z.inj_succ. cbn [Nat.iter].
  replace (e + Z.succ (Z.of_nat n)) with (e + Z.of_nat n + 1) by lia.
  apply shr_1_ceil; [done|lia|done].
Qed.

(** Shifting to the precision keeps the bound and a non-positive exponent. *)
Lemma shr_fexp_ceil m e l :
  0 ≤ m → e ≤ 0 → ceil m l ≤ k * 2 ^ (- e) →
  let '(r, e') := shr_fexp prec emax m e l in
  0 ≤ shr_m r ∧ e' ≤ 0 ∧ ceil_mrs r ≤ k * 2 ^ (- e').
Proof using Hk.
  intros Hm He Hc. unfold shr_fexp, shr.
  assert (ceil_mrs (shr_record_of_loc m l) = ceil m l ∧ shr_m (shr_record_of_loc m l) = m) as [Hr Hrm].
  { by destruct l as [|[]]. }
  assert (Zdigits2 m ≤ 52 - e).
  { apply Zdigits2_le; [|lia]. replace (52 - e) with (52 + - e) by lia. rewrite Z.pow_add_r by lia.
    unfold ceil in Hc. pose proof (Z.pow_pos_nonneg 2 (- e)). destruct (inexact l); cbn in Hc; nia. }
  assert (fexp prec emax (Zdigits2 m + e) ≤ 0) as Hf by (unfold fexp, emin, prec, emax; lia).
  destruct (fexp prec emax (Zdigits2 m + e) - e) as [|p|p] eqn:E; rewrite <- ?Hr in Hc.
  - by rewrite Hrm.
  - rewrite iter_pos_nat. replace (e + Zpos p) with (e + Z.of_nat (Pos.to_nat p)) by lia.
    destruct (shr_ceil (Pos.to_nat p) (shr_record_of_loc m l) e) as [H1 H2]; [lia|lia|done|].
    split; [done|]. split; [lia|done].
  - by rewrite Hrm.
Qed.

Lemma round_within m e l :
  0 ≤ m → e ≤ 0 → ceil m l ≤ k * 2 ^ (- e) → within (binary_round_aux prec emax false m e l) k.
Proof using Hk.
  intros Hm He Hc. unfold binary_round_aux.
  pose proof (shr_fexp_ceil m e l Hm He Hc) as H1. destruct (shr_fexp prec emax m e l) as [r e'].
  destruct H1 as (Hm1 & He1 & Hc1). set (m1 := round_nearest_even _ _).
  assert (0 ≤ m1 ∧ ceil m1 loc_Exact ≤ k * 2 ^ (- e')) as [Hm2 Hc2].
  { unfold ceil, m1, ceil_mrs in *. destruct r as [m' [] []]; cbn in *; try case_if; cbn; lia. }
  pose proof (shr_fexp_ceil m1 e' loc_Exact Hm2 He1 Hc2) as H2.
  destruct (shr_fexp prec emax m1 e' loc_Exact) as [r2 e2]. destruct H2 as (Hm3 & He2 & Hc3).
  unfold ceil_mrs in Hc3. destruct (shr_m r2) as [|p|p]; [cbn; lia| |lia].
  destruct (Z.leb_spec e2 (emax - prec)); [|unfold emax, prec in *; lia].
  cbn. split; [done|]. destruct (shr_r r2 || shr_s r2); cbn in Hc3; lia.
Qed.
End round.

Lemma iter_xO p q :
  Zpos (Pos.iter xO p q) = Zpos p * 2 ^ Zpos q ∧
  Zpos (digits2_pos (Pos.iter xO p q)) = Zpos (digits2_pos p) + Zpos q.
Proof.
  induction q as [|q [IH1 IH2]] using Pos.peano_ind; [cbn; lia|].
  rewrite Pos.iter_succ, Pos2Z.inj_succ, Z.pow_succ_r by lia. cbn [digits2_pos]. lia.
Qed.

(** A mantissa of full precision is not rounded. *)
Lemma round_exact m e :
  Zpos (digits2_pos m) = 53 → - 1074 ≤ e ≤ 971 →
  binary_round_aux prec emax false (Zpos m) e loc_Exact = S754_finite false m e.
Proof.
  intros Hd He. unfold binary_round_aux, shr_fexp. cbn [Zdigits2]. rewrite Hd.
  assert (fexp prec emax (53 + e) - e = 0) as -> by (unfold fexp, emin, prec, emax; lia).
  cbn. rewrite Hd. assert (fexp prec emax (53 + e) - e = 0) as -> by (unfold fexp, emin, prec, emax; lia).
  cbn. destruct (Z.leb_spec e (emax - prec)); [done|]. unfold emax, prec in *. lia.
Qed.

(** A positive integer below [2 ^ 53] is represented exactly, with all bits of
    the mantissa in use. *)
Lemma f_of_int_exact z :
  0 < z < 2 ^ 53 →
  ∃ m j, f_of_int z = S754_finite false m (- j) ∧ 0 ≤ j ∧ Zpos m = z * 2 ^ j ∧
    Zdigits2 (Zpos m) = 53 ∧ Zdigits2 z = 53 - j.
Proof.
  intros Hz. destruct z as [|p|p]; [lia| |lia]. unfold f_of_int, binary_normalize, binary_round.
  assert (Zpos (digits2_pos p) ≤ 53) as Hd by (apply (Zdigits2_le (Zpos p)); lia).
  assert (fexp prec emax (Zpos (digits2_pos p) + 0) = Zpos (digits2_pos p) - 53) as ->
    by (unfold fexp, emin, prec, emax; lia).
  unfold shl_align. rewrite Z.sub_0_r.
  destruct (Zpos (digits2_pos p) - 53) as [|q|q] eqn:E; [|lia|].
  - exists p, 0. rewrite round_exact by lia. cbn [Zdigits2]. split; [done|]. lia.
  - destruct (iter_xO p q) as [H1 H2]. exists (Pos.iter xO p q), (Zpos q).
    rewrite round_exact by lia. cbn [Z.opp Zdigits2]. split; [done|]. lia.
Qed.

Lemma digits2_mono a b : 0 < a ≤ b → Zdigits2 a ≤ Zdigits2 b.
Proof.
  intros Hab. destruct b as [|b|b]; [lia| |lia]. apply Zdigits2_le; [|cbn; lia].
  pose proof (digits2_pos_spec b). cbn [Zdigits2]. lia.
Qed.

Lemma inexact_new_location n r : inexact (new_location n r) = negb (r =? 0).
Proof. unfold new_location, new_location_even, new_location_odd. by destruct (Z.even n), (r =? 0). Qed.

(** The quotient of two integers is rounded into the unit interval when the
    first is not above the second. *)
Lemma fdiv_within a b :
  0 ≤ a ≤ b → 0 < b < 2 ^ 53 → within (fdiv (f_of_int a) (f_of_int b)) 1.
Proof.
  intros Ha Hb. destruct (f_of_int_exact b Hb) as (m2 & j2 & -> & Hj2 & Hm2 & Hd2 & Hz2).
  destruct (Z.eq_dec a 0) as [->|Ha0]; [cbn; lia|].
  destruct (f_of_int_exact a) as (m1 & j1 & -> & Hj1 & Hm1 & Hd1 & Hz1); [lia|].
  assert (0 < Zdigits2 a) by (by destruct a; [lia| |lia]).
  assert (Zdigits2 a ≤ Zdigits2 b) by (apply digits2_mono; lia). unfold fdiv, SFdiv, SFdiv_core_binary. cbn [xorb].
  rewrite Hd1, Hd2. set (e := Z.min _ _).
  assert (e ≤ - 53 ∧ e ≤ j2 - j1 - 53) as [He He'] by (unfold e, fexp, emin, prec, emax; lia).
  destruct (- j1 - - j2 - e) as [|s|s] eqn:Es; [lia| |lia].
  pose proof (Z_div_mod (Z.shiftl (Zpos m1) (Zpos s)) (Zpos m2)) as Hdm.
  destruct (Z.div_eucl _ _) as [q r]. destruct Hdm as [Hq Hr]; [lia|].
  rewrite Z.shiftl_mul_pow2 in Hq by lia.
  assert (Zpos m1 * 2 ^ Zpos s ≤ Zpos m2 * 2 ^ (- e)) as Hle.
  { rewrite Hm1, Hm2, <- !Z.mul_assoc, <- !Z.pow_add_r by lia.
    replace (j1 + Zpos s) with (j2 + - e) by lia. apply Z.mul_le_mono_nonneg_r; lia. }
  pose proof (Z.pow_pos_nonneg 2 (Zpos s)) as Hs. apply round_within; [lia|nia|lia|].
  unfold ceil. rewrite inexact_new_location. destruct (Z.eqb_spec r 0); cbn; nia.
Qed.

(** A percentage computed as the source does lies between 0 and 100. *)
Lemma percent_within a b :
  0 ≤ a ≤ b → 0 < b < 2 ^ 53 →
  within (fmul (fdiv (f_of_int a) (f_of_int b)) (f_of_int 100)) 100.
Proof.
  intros Ha Hb. pose proof (fdiv_within a b Ha Hb) as Hw.
  destruct (f_of_int_exact 100) as (m & j & -> & Hj & Hm & _); [lia|].
  destruct (fdiv _ _) as [s|s| |[] m1 e1]; cbn [within] in Hw; try done.
  unfold fmul, SFmul. cbn [xorb]. apply round_within; [lia..|]. unfold ceil. cbn [inexact Z.b2z].
  replace (- (e1 + - j)) with (- e1 + j) by lia. rewrite Z.pow_add_r by lia. nia.
Qed.

(** So it is printed as a decimal between 0 and 100. *)
Lemma decimal_within n m e k : e ≤ 0 → 0 ≤ k → Zpos m ≤ k * 2 ^ (- e) →
  0 ≤ decimal n (Zpos m) e ≤ k * 10 ^ Z.of_nat n.
Proof.
  intros He Hk Hm. unfold decimal. pose proof (Z.pow_pos_nonneg 10 (Z.of_nat n)) as H10.
  destruct (Z.leb_spec 0 e); [assert (e = 0) as -> by lia; cbn in *; nia|].
  unfold round_half_even. pose proof (Z.pow_pos_nonneg 2 (- e)) as H2.
  set (s := Zpos m * 10 ^ Z.of_nat n) in *. set (b := 2 ^ (- e)) in *.
  pose proof (Z.div_mod s b) as Hdm. pose proof (Z.mod_pos_bound s b) as Hr.
  assert (s ≤ k * 10 ^ Z.of_nat n * b) by (unfold s; nia).
  assert (0 ≤ s / b) by (apply Z.div_pos; unfold s; lia).
  destruct (Z.compare_spec (2 * (s `mod` b)) b); repeat case_if; nia.
Qed.
