(* ===== verification/Process.v ===== *)
(** * Process and thread control blocks

    Models [src/pkg/cpu/process.go], [src/pkg/cpu/thread.go] and the
    operations of [src/pkg/cpu/context_switch.go].  A [*Process] is a location
    of a heap of control blocks; a Go pointer that is not nil always refers to
    an object, so the heap is a total function and nil is the [None] of an
    option. *)

From S2P Require Import Prelude.

(** ** Control blocks *)
Inductive ProcessState :=
  | StateNew | StateReady | StateRunning | StateBlocked | StateTerminated.

#[export] Instance ProcessState_eq_dec : EqDecision ProcessState.
Proof. solve_decision. Defined.

Definition ProcessState_string (s : ProcessState) : string :=
  match s with
  | StateNew => "NEW" | StateReady => "READY" | StateRunning => "RUNNING"
  | StateBlocked => "BLOCKED" | StateTerminated => "TERMINATED"
  end.

Record Registers := mkRegisters {
  PC : Z; SP : Z; BP : Z; AX : Z; BX : Z; CX : Z; DX : Z; Flags : Z }.
#[export] Instance eta_Registers : Eta Registers := λ r,
  mkRegisters (PC r) (SP r) (BP r) (AX r) (BX r) (CX r) (DX r) (Flags r).

Definition zeroRegisters : Registers := mkRegisters 0 0 0 0 0 0 0 0.

(** Locations of [*Thread] and [*Process] objects. *)
Abbreviation tloc := nat (only parsing).
Abbreviation ploc := nat (only parsing).

Record Process := mkProcess {
  PID : Z;
  Name : string;
  State : ProcessState;
  Priority : Z;
  ArrivalTime : Z;
  BurstTime : Z;
  RemainingTime : Z;
  StartTime : Z;
  FinishTime : Z;
  WaitingTime : Z;
  Turnaround : Z;
  ResponseTime : Z;
  IOFrequency : Z;
  IODuration : Z;
  IOCounter : Z;
  RunTicks : Z;
  AllotmentUsed : Z;
  CurrentQueue : Z;
  Tickets : Z;
  PRegisters : Registers;
  MemoryBase : Z;
  MemoryLimit : Z;
  Threads : list tloc }.
#[export] Instance eta_Process : Eta Process := λ p,
  mkProcess (PID p) (Name p) (State p) (Priority p) (ArrivalTime p)
    (BurstTime p) (RemainingTime p) (StartTime p) (FinishTime p)
    (WaitingTime p) (Turnaround p) (ResponseTime p) (IOFrequency p)
    (IODuration p) (IOCounter p) (RunTicks p) (AllotmentUsed p)
    (CurrentQueue p) (Tickets p) (PRegisters p) (MemoryBase p)
    (MemoryLimit p) (Threads p).

Definition NewProcess (pid : Z) (name : string) (arrivalTime burstTime : Z) : Process := {|
  PID := pid; Name := name; State := StateNew; Priority := 0;
  ArrivalTime := arrivalTime; BurstTime := burstTime; RemainingTime := burstTime;
  StartTime := -1; FinishTime := -1; WaitingTime := 0; Turnaround := 0;
  ResponseTime := 0; IOFrequency := 0; IODuration := 0; IOCounter := 0;
  RunTicks := 0; AllotmentUsed := 0; CurrentQueue := 0; Tickets := 10;
  PRegisters := zeroRegisters <| PC := 0x00400000 |> <| SP := 0x7FFFFFFF |>;
  MemoryBase := 0; MemoryLimit := 0; Threads := [] |}.

Definition Clone (p : Process) : Process :=
  p <| State := StateNew |> <| RemainingTime := BurstTime p |>
    <| StartTime := -1 |> <| FinishTime := -1 |> <| WaitingTime := 0 |>
    <| Turnaround := 0 |> <| ResponseTime := 0 |> <| AllotmentUsed := 0 |>
    <| CurrentQueue := 0 |> <| RunTicks := 0 |> <| IOCounter := 0 |>.

Definition Process_String (p : Process) : string :=
  "PID:" +:+ fmt_d (PID p) +:+ " [" +:+ Name p +:+ "] State:" +:+
  ProcessState_string (State p) +:+ " Arr:" +:+ fmt_d (ArrivalTime p) +:+
  " Burst:" +:+ fmt_d (BurstTime p) +:+ " Rem:" +:+ fmt_d (RemainingTime p) +:+
  " Wait:" +:+ fmt_d (WaitingTime p) +:+ " Turnaround:" +:+ fmt_d (Turnaround p).

Inductive ThreadState :=
  | ThreadStateReady | ThreadStateRunning | ThreadStateBlocked
  | ThreadStateTerminated.

Definition ThreadState_string (s : ThreadState) : string :=
  match s with
  | ThreadStateReady => "READY" | ThreadStateRunning => "RUNNING"
  | ThreadStateBlocked => "BLOCKED" | ThreadStateTerminated => "TERMINATED"
  end.

Record Thread := mkThread {
  TID : Z; TPID : Z; TName : string; TState : ThreadState;
  TRegisters : Registers; StackBase : Z; StackLimit : Z; StackSize : Z }.

Definition NewThread (tid pid : Z) (name : string) (stackBase stackSize : Z) : Thread := {|
  TID := tid; TPID := pid; TName := name; TState := ThreadStateReady;
  StackBase := stackBase; StackSize := stackSize;
  StackLimit := u64 (stackBase - stackSize);
  TRegisters := zeroRegisters <| PC := 0x00401000 |> <| SP := stackBase |>
                              <| BP := stackBase |> |}.

Definition Thread_String (t : Thread) : string :=
  "TID:" +:+ fmt_d (TID t) +:+ " (PID:" +:+ fmt_d (TPID t) +:+ ") [" +:+
  TName t +:+ "] State:" +:+ ThreadState_string (TState t) +:+ " SP:0x" +:+
  fmt_0X 8 (SP (TRegisters t)) +:+ " Stack:[0x" +:+ fmt_0X 8 (StackLimit t) +:+
  "-0x" +:+ fmt_0X 8 (StackBase t) +:+ "]".

(** ** Context switches *)
Inductive ContextSwitchType := SwitchProcess | SwitchThread.

Record SwitchRecord := mkSwitchRecord {
  Timestamp : Z; SType : ContextSwitchType; FromEntity : string;
  ToEntity : string; CyclesCost : Z; TLBFlushed : bool;
  RegistersSaved : Registers }.

Record ContextSwitcher := mkContextSwitcher {
  TotalSwitches : Z; TotalCyclesCost : Z; History : list SwitchRecord;
  ThreadSwitchCycles : Z; ProcessSwitchCycles : Z }.
#[export] Instance eta_ContextSwitcher : Eta ContextSwitcher := λ c,
  mkContextSwitcher (TotalSwitches c) (TotalCyclesCost c) (History c)
    (ThreadSwitchCycles c) (ProcessSwitchCycles c).

Definition NewContextSwitcher : ContextSwitcher := {|
  TotalSwitches := 0; TotalCyclesCost := 0; History := [];
  ThreadSwitchCycles := 1000; ProcessSwitchCycles := 6000 |}.

Definition entity_name (p : Process) : string :=
  "P" +:+ fmt_d (PID p) +:+ "(" +:+ Name p +:+ ")".

(** [from] and [to] are pointers, possibly the same one: the writes to the
    outgoing control block are visible when the incoming one is read. *)
Definition SwitchProcessContext (time : Z) (from to : option ploc)
    (h : ploc → Process) (cs : ContextSwitcher)
    : SwitchRecord * (ploc → Process) * ContextSwitcher :=
  let cs := cs <| TotalSwitches ::= Z.succ |>
               <| TotalCyclesCost ::= Z.add (ProcessSwitchCycles cs) |> in
  let '(fromName, savedRegs, h) :=
    match from with
    | Some f =>
        let name := entity_name (h f) in
        let h := alter (λ p, p <| State := StateReady |>) f h in
        let h := alter (λ p, p <| PRegisters ::= λ r, r <| PC ::= λ v, u64 (v + 4) |> |>) f h in
        (name, PRegisters (h f), h)
    | None => ("IDLE", zeroRegisters, h)
    end in
  let '(toName, h) :=
    match to with
    | Some t =>
        let name := entity_name (h t) in
        let h := alter (λ p, p <| State := StateRunning |>) t h in
        let h :=
          if StartTime (h t) =? -1 then
            alter (λ p, p <| StartTime := time |>
                          <| ResponseTime := time - ArrivalTime p |>) t h
          else h in
        (name, h)
    | None => ("IDLE", h)
    end in
  let rec_ := {| Timestamp := time; SType := SwitchProcess;
                 FromEntity := fromName; ToEntity := toName;
                 CyclesCost := ProcessSwitchCycles cs; TLBFlushed := true;
                 RegistersSaved := savedRegs |} in
  (rec_, h, cs <| History ::= λ l, l ++ [rec_] |>).

(** ** Facts *)

(** The switcher's accounting invariant: the counters agree with the log. *)
Definition switcher_inv (cs : ContextSwitcher) : Prop :=
  TotalSwitches cs = len (History cs) ∧
  TotalCyclesCost cs = sumZ CyclesCost (History cs) ∧
  Forall (λ r, CyclesCost r = ProcessSwitchCycles cs ∧ TLBFlushed r = true)
    (History cs).

Lemma fn_alter_eq (f : Process → Process) (l : ploc) (h : ploc → Process) :
  alter f l h l = f (h l).
Proof. by rewrite fn_lookup_alter. Qed.

Lemma fn_alter_ne (f : Process → Process) (l k : ploc) (h : ploc → Process) :
  l ≠ k → alter f l h k = h k.
Proof. intros. by rewrite fn_lookup_alter_ne. Qed.

#[export] Hint Rewrite fn_alter_eq : heap.
#[export] Hint Rewrite fn_alter_ne using congruence : heap.

#[local] Arguments sumZ : simpl never.
#[local] Arguments len : simpl never.

(** A switch is logged, costs the cycles of a process switch and flushes the
    TLB; the counters stay in step with the log. *)
Lemma SwitchProcessContext_inv time from to h cs :
  switcher_inv cs → switcher_inv (SwitchProcessContext time from to h cs).2.
Proof.
  intros (Ht & Hc & Hf). unfold SwitchProcessContext.
  assert (∀ r, CyclesCost r = ProcessSwitchCycles cs → TLBFlushed r = true →
    switcher_inv (cs <| TotalSwitches ::= Z.succ |> <| TotalCyclesCost ::= Z.add (ProcessSwitchCycles cs) |>
      <| History ::= λ l, l ++ [r] |>)) as Hr.
  { intros r E1 E2. unfold switcher_inv. cbn. rewrite len_snoc, sumZ_app, sumZ_cons, Ht, Hc, E1.
    split_and!; [done|unfold sumZ; cbn; lia|]. apply Forall_app. by split; [|apply Forall_singleton]. }
  destruct from, to; by apply Hr.
Qed.

(** The effect on the control blocks when the two processes differ: the
    outgoing one is ready again with its program counter advanced, and these
    are the registers in the log; the incoming one runs, and its start and
    response times are set the first time only; no other block changes. *)
Lemma SwitchProcessContext_spec time f t h cs :
  f ≠ t → let '(r, h', _) := SwitchProcessContext time (Some f) (Some t) h cs in
  h' f = h f <| State := StateReady |> <| PRegisters := PRegisters (h f) <| PC ::= λ v, u64 (v + 4) |> |> ∧
  RegistersSaved r = PRegisters (h' f) ∧
  State (h' t) = StateRunning ∧ PRegisters (h' t) = PRegisters (h t) ∧
  (StartTime (h t) = -1 → StartTime (h' t) = time ∧ ResponseTime (h' t) = time - ArrivalTime (h t)) ∧
  (StartTime (h t) ≠ -1 → h' t = h t <| State := StateRunning |>) ∧
  ∀ l, l ≠ f → l ≠ t → h' l = h l.
Proof.
  intros Hne. unfold SwitchProcessContext. autorewrite with heap.
  change (StartTime (h t <| State := StateRunning |>)) with (StartTime (h t)).
  destruct (Z.eqb_spec (StartTime (h t)) (-1)); split_and!; autorewrite with heap; try done.
  all: intros l Hf Ht; by autorewrite with heap.
Qed.
