(* ===== verification/SchedCore.v ===== *)
(** * The common core of the CPU schedulers

    The six schedulers of [src/pkg/cpu/sched_*.go] share their bookkeeping:
    the admission of arriving processes, the waiting-time accounting, the
    dispatch of a process, the execution of one time unit and the completion
    test are the same statements in every [Tick].  This file models them once,
    states what one tick does to each process ([tick_spec]) and the interface
    [Scheduler] of [src/pkg/cpu/scheduler.go] with its laws, and proves that a
    tick assembled from the shared steps around any rescheduling decision
    meets the specification. *)

From S2P Require Import Prelude Process.

(** One block of a Gantt chart ([src/pkg/visualizer/gantt.go]). *)
Record GanttSegment := mkGanttSegment {
  EntityID : string; SegStart : Z; SegEnd : Z; SegColor : string }.

(** ** State and shared steps *)

(** The fields every scheduler struct has, with the heap the process pointers
    refer to. *)
Record Core := mkCore {
  heap : ploc → Process;
  allProcesses : list ploc;
  readyQueue : list ploc;
  running : option ploc;
  completed : list ploc;
  gantt : list GanttSegment;
  contextSwitches : Z;
  busyTime : Z;
  totalTime : Z }.
#[export] Instance eta_Core : Eta Core := λ c,
  mkCore (heap c) (allProcesses c) (readyQueue c) (running c) (completed c)
    (gantt c) (contextSwitches c) (busyTime c) (totalTime c).

Definition NewCore (h : ploc → Process) : Core := {|
  heap := h; allProcesses := []; readyQueue := []; running := None;
  completed := []; gantt := []; contextSwitches := 0; busyTime := 0;
  totalTime := 0 |}.

Definition core_AddProcess (l : ploc) (c : Core) : Core :=
  c <| allProcesses ::= λ ls, ls ++ [l] |>.

Definition arrives (t : Z) (p : Process) : bool :=
  (ArrivalTime p =? t) && bool_decide (State p = StateNew).

Definition admit_one (t : Z) (c : Core) (l : ploc) : Core :=
  if arrives t (heap c l) then
    c <| heap ::= alter (λ p, p <| State := StateReady |>) l |>
      <| readyQueue ::= λ q, q ++ [l] |>
  else c.

Definition admitArrivals (t : Z) (c : Core) : Core :=
  foldl (admit_one t) c (allProcesses c).

Definition wait_one (p : Process) : Process := p <| WaitingTime ::= Z.succ |>.

Definition age (c : Core) : Core :=
  c <| heap := foldl (λ h l, alter wait_one l h) (heap c) (readyQueue c) |>.

(** [running.State = StateRunning] and the first-run bookkeeping. *)
Definition start_p (t : Z) (p : Process) : Process :=
  let p := p <| State := StateRunning |> in
  if StartTime p =? -1
  then p <| StartTime := t |> <| ResponseTime := t - ArrivalTime p |>
  else p.

Definition start (t : Z) (l : ploc) (c : Core) : Core :=
  c <| running := Some l |> <| heap ::= alter (start_p t) l |>
    <| contextSwitches ::= Z.succ |>.

(** Putting the running process back at the end of the ready queue. *)
Definition preempt (c : Core) : Core :=
  match running c with
  | Some l =>
      c <| heap ::= alter (λ p, p <| State := StateReady |>) l |>
        <| readyQueue ::= λ q, q ++ [l] |> <| running := None |>
  | None => c
  end.

Definition tick_p (p : Process) : Process := p <| RemainingTime ::= Z.pred |>.

Definition finish_p (t : Z) (p : Process) : Process :=
  p <| State := StateTerminated |> <| FinishTime := t + 1 |>
    <| Turnaround := t + 1 - ArrivalTime p |>.

Definition segment (t : Z) (id : string) : GanttSegment :=
  mkGanttSegment id t (t + 1) "".

(** One time unit of the running process, or an idle one; [label] is the name
    of the process in the Gantt chart. *)
Definition exec_as (label : Process → string) (t : Z) (c : Core) : Core :=
  match running c with
  | Some l =>
      let c := c <| busyTime ::= Z.succ |> <| heap ::= alter tick_p l |> in
      let c := c <| gantt ::= λ g, g ++ [segment t (label (heap c l))] |> in
      if RemainingTime (heap c l) =? 0 then
        c <| heap ::= alter (finish_p t) l |> <| completed ::= λ d, d ++ [l] |>
          <| running := None |>
      else c
  | None => c <| gantt ::= λ g, g ++ [segment t "IDLE"] |>
  end.

Definition exec : Z → Core → Core := exec_as Name.

Definition allDone (c : Core) : bool :=
  (len (completed c) =? len (allProcesses c)) && (0 <? len (allProcesses c)).

(** ** What a tick does to one process *)
Definition admit_p (t : Z) (p : Process) : Process :=
  if arrives t p then p <| State := StateReady |> else p.

Definition age_p (p : Process) : Process :=
  if bool_decide (State p = StateReady) then wait_one p else p.

Definition preempt_p (p : Process) : Process :=
  if bool_decide (State p = StateRunning) then p <| State := StateReady |> else p.

Definition run_p (t : Z) (p : Process) : Process :=
  let p := tick_p p in if RemainingTime p =? 0 then finish_p t p else p.

Definition arrived_p (t : Z) (p : Process) : Process := age_p (admit_p t p).

Definition runnable (p : Process) : Prop :=
  State p = StateReady ∨ State p = StateRunning.

(** Two control blocks that differ at most in fields no scheduler decision
    about time depends on (the MLFQ level and allotment among them). *)
Record sched_eq (p q : Process) : Prop := mk_sched_eq {
  se_state : State p = State q;
  se_arrival : ArrivalTime p = ArrivalTime q;
  se_burst : BurstTime p = BurstTime q;
  se_remaining : RemainingTime p = RemainingTime q;
  se_start : StartTime p = StartTime q;
  se_finish : FinishTime p = FinishTime q;
  se_waiting : WaitingTime p = WaitingTime q;
  se_turnaround : Turnaround p = Turnaround q;
  se_response : ResponseTime p = ResponseTime q;
  se_tickets : Tickets p = Tickets q }.

Infix "≃" := sched_eq (at level 70) : go_scope.

#[export] Instance sched_eq_equiv : Equivalence sched_eq.
Proof.
  split.
  - by intros p.
  - by intros p q [].
  - intros p q r [] []. split; congruence.
Qed.

#[export] Instance State_proper : Proper (sched_eq ==> eq) State.
Proof. by intros p q []. Qed.
#[export] Instance arrives_proper t : Proper (sched_eq ==> eq) (arrives t).
Proof. intros p q []. unfold arrives. by rewrite se_arrival0, se_state0. Qed.
#[export] Instance admit_p_proper t : Proper (sched_eq ==> sched_eq) (admit_p t).
Proof.
  intros p q E. unfold admit_p. rewrite (arrives_proper t p q E).
  destruct E. case_if; split; simpl; congruence.
Qed.
#[export] Instance age_p_proper : Proper (sched_eq ==> sched_eq) age_p.
Proof.
  intros p q E. unfold age_p. rewrite (se_state _ _ E).
  destruct E. case_if; split; simpl; congruence.
Qed.
#[export] Instance arrived_p_proper t : Proper (sched_eq ==> sched_eq) (arrived_p t).
Proof. intros p q E. unfold arrived_p. by rewrite E. Qed.
#[export] Instance preempt_p_proper : Proper (sched_eq ==> sched_eq) preempt_p.
Proof.
  intros p q E. unfold preempt_p. rewrite (se_state _ _ E).
  destruct E. case_if; split; simpl; congruence.
Qed.
#[export] Instance start_p_proper t : Proper (sched_eq ==> sched_eq) (start_p t).
Proof.
  intros p q []. unfold start_p. simpl. rewrite se_start0.
  case_if; split; simpl; congruence.
Qed.
#[export] Instance tick_p_proper : Proper (sched_eq ==> sched_eq) tick_p.
Proof. intros p q []. split; simpl; congruence. Qed.
#[export] Instance finish_p_proper t : Proper (sched_eq ==> sched_eq) (finish_p t).
Proof. intros p q []. split; simpl; congruence. Qed.
#[export] Instance run_p_proper t : Proper (sched_eq ==> sched_eq) (run_p t).
Proof.
  intros p q E. unfold run_p. rewrite (se_remaining _ _ (tick_p_proper p q E)).
  case_if; [apply finish_p_proper|]; by apply tick_p_proper.
Qed.

(** ** The abstract tick *)

(** [ex] says whether the process is the one that runs in this tick. *)
Definition proc_step (t : Z) (ex : bool) (p p' : Process) : Prop :=
  let q := arrived_p t p in
  if ex then
    runnable q ∧
    (p' ≃ run_p t (start_p t q) ∨ State q = StateRunning ∧ p' ≃ run_p t q)
  else p' ≃ preempt_p q.

(** A tick at time [t] in which [r] runs.  It is work conserving: the CPU
    idles only when no process is runnable. *)
Record tick_spec (t : Z) (r : option ploc) (c c' : Core) : Prop := mk_tick_spec {
  ts_all : allProcesses c' = allProcesses c;
  ts_procs : ∀ l, l ∈ allProcesses c →
    proc_step t (bool_decide (r = Some l)) (heap c l) (heap c' l);
  ts_run : ∀ l, r = Some l → l ∈ allProcesses c;
  ts_idle : r = None →
    ∀ l, l ∈ allProcesses c → ¬ runnable (arrived_p t (heap c l));
  ts_busy : busyTime c' = busyTime c + (if r is Some _ then 1 else 0);
  ts_gantt : ∃ id, gantt c' = gantt c ++ [segment t id] ∧ (r = None → id = "IDLE") }.

(** Every process is in exactly the place its state says. *)
Definition queued (c : Core) : list ploc :=
  option_list (running c) ++ readyQueue c ++ completed c.

Record wf_core (c : Core) : Prop := mk_wf_core {
  wf_all : NoDup (allProcesses c);
  wf_queued : NoDup (queued c);
  wf_in : ∀ l, l ∈ queued c → l ∈ allProcesses c;
  wf_ready : ∀ l, l ∈ readyQueue c → State (heap c l) = StateReady;
  wf_running : ∀ l, running c = Some l → State (heap c l) = StateRunning;
  wf_completed : ∀ l, l ∈ completed c → State (heap c l) = StateTerminated;
  wf_new : ∀ l, l ∈ allProcesses c → State (heap c l) = StateNew ∨ l ∈ queued c }.

(** The three phases of a tick, as relations so that a scheduler with its own
    queue structure can refine them. *)
Record admitted (t : Z) (c c1 : Core) : Prop := mk_admitted {
  ad_all : allProcesses c1 = allProcesses c;
  ad_running : running c1 = running c;
  ad_completed : completed c1 = completed c;
  ad_gantt : gantt c1 = gantt c;
  ad_busy : busyTime c1 = busyTime c;
  ad_heap : ∀ l, l ∈ allProcesses c → heap c1 l ≃ arrived_p t (heap c l);
  ad_ready : readyQueue c1 ≡ₚ
    readyQueue c ++ filter (λ l, arrives t (heap c l)) (allProcesses c) }.

Record resched (t : Z) (c1 c2 : Core) : Prop := mk_resched {
  rs_all : allProcesses c2 = allProcesses c1;
  rs_completed : completed c2 = completed c1;
  rs_gantt : gantt c2 = gantt c1;
  rs_busy : busyTime c2 = busyTime c1;
  rs_perm : option_list (running c2) ++ readyQueue c2 ≡ₚ
            option_list (running c1) ++ readyQueue c1;
  rs_exec : ∀ l, running c2 = Some l →
    heap c2 l ≃ start_p t (heap c1 l) ∨ running c1 = Some l ∧ heap c2 l ≃ heap c1 l;
  rs_rest : ∀ l, running c2 ≠ Some l →
    heap c2 l ≃ if bool_decide (running c1 = Some l)
                then (heap c1 l) <| State := StateReady |> else heap c1 l;
  rs_work : running c2 = None → readyQueue c2 = [] }.

Record executed (t : Z) (c2 c3 : Core) : Prop := mk_executed {
  ex_all : allProcesses c3 = allProcesses c2;
  ex_ready : readyQueue c3 = readyQueue c2;
  ex_heap : ∀ l, heap c3 l ≃
    if bool_decide (running c2 = Some l) then run_p t (heap c2 l) else heap c2 l;
  ex_queues : match running c2 with
    | None => running c3 = None ∧ completed c3 = completed c2
    | Some l =>
        if RemainingTime (heap c2 l) =? 1
        then running c3 = None ∧ completed c3 = completed c2 ++ [l]
        else running c3 = Some l ∧ completed c3 = completed c2
    end;
  ex_busy : busyTime c3 = busyTime c2 + (if running c2 is Some _ then 1 else 0);
  ex_gantt : ∃ id, gantt c3 = gantt c2 ++ [segment t id] ∧
                   (running c2 = None → id = "IDLE") }.

(** *** States after each per-process step *)
Lemma start_p_state t p : State (start_p t p) = StateRunning.
Proof. unfold start_p. by case_if. Qed.

Lemma arrived_p_state t p :
  State (arrived_p t p) = if arrives t p then StateReady else State p.
Proof.
  unfold arrived_p, age_p, admit_p. destruct (arrives t p); simpl; [done|].
  by case_bool_decide.
Qed.

Lemma arrives_new t p : arrives t p = true → State p = StateNew.
Proof. unfold arrives. intros [_ H]%andb_true_iff. by apply bool_decide_eq_true in H. Qed.

Lemma run_p_remaining t p : RemainingTime (run_p t p) = RemainingTime p - 1.
Proof. unfold run_p. case_if; simpl; lia. Qed.

Lemma run_p_state t p :
  State (run_p t p) = if RemainingTime p =? 1 then StateTerminated else State p.
Proof.
  unfold run_p. simpl. destruct (Z.eqb_spec (Z.pred (RemainingTime p)) 0);
    destruct (Z.eqb_spec (RemainingTime p) 1); simpl; (done || lia).
Qed.

#[export] Hint Rewrite start_p_state arrived_p_state run_p_state : sched.

(** *** Each phase preserves well-formedness *)
Lemma elem_of_olist {A} (x : A) (o : option A) : x ∈ option_list o ↔ o = Some x.
Proof. destruct o; simpl; set_solver. Qed.

Section phases.
Context (t : Z).

Lemma wf_not_new c l : wf_core c → l ∈ queued c → State (heap c l) ≠ StateNew.
Proof.
  intros [] Hl. unfold queued in *.
  apply elem_of_app in Hl as [Hl|[Hl|Hl]%elem_of_app].
  - apply elem_of_olist in Hl. by rewrite wf_running0.
  - by rewrite wf_ready0.
  - by rewrite wf_completed0.
Qed.

Lemma arriving_spec c l :
  l ∈ filter (λ l, arrives t (heap c l)) (allProcesses c) ↔
  arrives t (heap c l) = true ∧ l ∈ allProcesses c.
Proof. by rewrite list_elem_of_filter, Is_true_true. Qed.

Lemma admitted_queued c c1 :
  admitted t c c1 →
  queued c1 ≡ₚ filter (λ l, arrives t (heap c l)) (allProcesses c) ++ queued c.
Proof.
  intros []. unfold queued. rewrite ad_running0, ad_completed0, ad_ready0.
  solve_Permutation.
Qed.

Lemma admitted_wf c c1 : wf_core c → admitted t c c1 → wf_core c1.
Proof.
  intros Hwf Had. pose proof (admitted_queued _ _ Had) as Hq.
  pose proof (λ l, wf_not_new c l Hwf) as Hnn.
  destruct Hwf, Had.
  assert (Hst : ∀ l, l ∈ queued c → State (heap c1 l) = State (heap c l)).
  { intros l Hl. rewrite (ad_heap0 l (wf_in0 _ Hl)), arrived_p_state.
    destruct (arrives t (heap c l)) eqn:E; [|done].
    by apply arrives_new, Hnn in E. }
  assert (Har : ∀ l, arrives t (heap c l) = true → l ∈ allProcesses c →
                     State (heap c1 l) = StateReady).
  { intros l E Hl. by rewrite (ad_heap0 l Hl), arrived_p_state, E. }
  split.
  - congruence.
  - rewrite Hq. apply NoDup_app. repeat split; auto using NoDup_filter.
    intros l [E%arrives_new _]%arriving_spec Hl. by apply (Hnn l).
  - intros l. rewrite Hq, ad_all0, elem_of_app, arriving_spec. naive_solver.
  - intros l. rewrite ad_ready0, elem_of_app, arriving_spec.
    intros [Hl|[E Hl]]; [|by apply Har].
    rewrite Hst; [by apply wf_ready0|]. unfold queued. set_solver.
  - intros l. rewrite ad_running0. intros Hl. rewrite Hst; [by apply wf_running0|].
    unfold queued. rewrite Hl. set_solver.
  - intros l. rewrite ad_completed0. intros Hl. rewrite Hst; [by apply wf_completed0|].
    unfold queued. set_solver.
  - intros l. rewrite ad_all0, Hq, elem_of_app, arriving_spec. intros Hl.
    destruct (arrives t (heap c l)) eqn:E; [auto|].
    rewrite (ad_heap0 l Hl), arrived_p_state, E.
    destruct (wf_new0 l Hl); auto.
Qed.

Lemma resched_queued c1 c2 : resched t c1 c2 → queued c2 ≡ₚ queued c1.
Proof.
  intros []. unfold queued. by rewrite !(assoc_L (++)), rs_perm0, rs_completed0.
Qed.

Lemma resched_state c1 c2 l :
  resched t c1 c2 → wf_core c1 →
  State (heap c2 l) =
    if bool_decide (running c2 = Some l) then StateRunning
    else if bool_decide (running c1 = Some l) then StateReady
    else State (heap c1 l).
Proof.
  intros [] Hwf. case_bool_decide as E2.
  - destruct (rs_exec0 l E2) as [->|[E1 ->]]; [apply start_p_state|].
    by apply (wf_running c1 Hwf).
  - rewrite (rs_rest0 l E2). by case_bool_decide.
Qed.

Lemma resched_wf c1 c2 : wf_core c1 → resched t c1 c2 → wf_core c2.
Proof.
  intros Hwf Hrs. pose proof (resched_queued _ _ Hrs) as Hq.
  pose proof (λ l, resched_state c1 c2 l Hrs Hwf) as Hst.
  assert (Hnd : NoDup (queued c2)) by (rewrite Hq; apply Hwf).
  assert (Hnr : ∀ l, running c2 = Some l → l ∉ readyQueue c2 ++ completed c2).
  { intros l E Hl. unfold queued in Hnd. rewrite E in Hnd. simpl in Hnd.
    by apply NoDup_cons in Hnd as []. }
  destruct Hwf, Hrs. split.
  - congruence.
  - done.
  - intros l. rewrite Hq, rs_all0. auto.
  - intros l Hl. rewrite Hst. case_bool_decide as E2.
    { by apply Hnr in E2; set_solver. }
    case_bool_decide as E1; [done|]. apply wf_ready0.
    assert (Hl' : l ∈ option_list (running c2) ++ readyQueue c2) by set_solver.
    rewrite rs_perm0, elem_of_app, elem_of_olist in Hl'. by destruct Hl'.
  - intros l Hl. rewrite Hst. by case_bool_decide.
  - intros l Hl. rewrite Hst.
    rewrite bool_decide_false by (intros E; apply (Hnr l E); set_solver).
    rewrite rs_completed0 in Hl. rewrite bool_decide_false; [by apply wf_completed0|].
    intros E. unfold queued in wf_queued0. rewrite E in wf_queued0.
    apply NoDup_cons in wf_queued0 as []. set_solver.
  - intros l. rewrite rs_all0, Hq, Hst. intros Hl.
    destruct (wf_new0 l Hl) as [Hn|]; [|by right].
    destruct (decide (l ∈ queued c1)) as [|Hnq]; [by right|left].
    rewrite bool_decide_false, bool_decide_false; [done| |].
    + intros E. apply Hnq. unfold queued. rewrite E. set_solver.
    + intros E. apply Hnq. rewrite <- Hq. unfold queued. rewrite E. set_solver.
Qed.

Lemma executed_queued c2 c3 : executed t c2 c3 → queued c3 ≡ₚ queued c2.
Proof.
  intros []. unfold queued. rewrite ex_ready0.
  destruct (running c2) as [l|].
  - destruct (_ =? 1); destruct ex_queues0 as [-> ->]; simpl; [|done]. solve_Permutation.
  - by destruct ex_queues0 as [-> ->].
Qed.

Lemma executed_wf c2 c3 : wf_core c2 → executed t c2 c3 → wf_core c3.
Proof.
  intros Hwf Hex. pose proof (executed_queued _ _ Hex) as Hq.
  assert (Hst : ∀ l, State (heap c3 l) =
    if bool_decide (running c2 = Some l) then
      if RemainingTime (heap c2 l) =? 1 then StateTerminated else StateRunning
    else State (heap c2 l)).
  { intros l. rewrite (ex_heap _ _ _ Hex). case_bool_decide as E; [|done].
    rewrite run_p_state. case_if; [done|]. by apply (wf_running c2). }
  assert (Hnr : ∀ l, running c2 = Some l → l ∉ readyQueue c2 ++ completed c2).
  { intros l E Hl. pose proof (wf_queued _ Hwf) as Hnd. unfold queued in Hnd.
    rewrite E in Hnd. simpl in Hnd. by apply NoDup_cons in Hnd as []. }
  destruct Hwf, Hex. split.
  - congruence.
  - by rewrite Hq.
  - intros l. rewrite Hq, ex_all0. auto.
  - intros l. rewrite ex_ready0, Hst. intros Hl.
    rewrite bool_decide_false by (intros E; apply (Hnr l E); set_solver). auto.
  - intros l Hl. rewrite Hst. destruct (running c2) as [k|]; [|destruct ex_queues0; congruence].
    destruct (RemainingTime (heap c2 k) =? 1) eqn:E;
      destruct ex_queues0 as [Hr _]; simplify_eq/=.
    by rewrite bool_decide_true, E.
  - intros l Hl. rewrite Hst. case_bool_decide as E.
    + rewrite E in ex_queues0. destruct (_ =? 1); [done|].
      destruct ex_queues0 as [_ Hc]. rewrite Hc in Hl.
      destruct (Hnr l E). apply elem_of_app. by right.
    + apply wf_completed0. destruct (running c2) as [k|];
        [destruct (_ =? 1)|]; destruct ex_queues0 as [_ Hc]; rewrite Hc in Hl;
        [|done..].
      apply elem_of_app in Hl as [?|Hl]; [done|].
      apply list_elem_of_singleton in Hl as ->. congruence.
  - intros l. rewrite ex_all0, Hq, Hst. intros Hl.
    destruct (wf_new0 l Hl) as [Hn|]; [|by right]. left.
    case_bool_decide as E; [|done]. by rewrite (wf_running0 l E) in Hn.
Qed.

(** After admission the runnable processes are the running and the queued ones. *)
Lemma admitted_runnable c c1 l :
  wf_core c → admitted t c c1 → l ∈ allProcesses c →
  runnable (arrived_p t (heap c l)) → running c1 = Some l ∨ l ∈ readyQueue c1.
Proof.
  intros Hwf Had Hl Hr. pose proof (admitted_wf _ _ Hwf Had) as Hwf1.
  unfold runnable in Hr. rewrite <- (ad_heap _ _ _ Had l Hl) in Hr.
  destruct (wf_new _ Hwf1 l) as [Hn|Hq].
  - by rewrite (ad_all _ _ _ Had).
  - destruct Hr; congruence.
  - unfold queued in Hq. rewrite !elem_of_app, elem_of_olist in Hq.
    destruct Hq as [?|[?|Hc%(wf_completed _ Hwf1)]]; [auto..|].
    destruct Hr; congruence.
Qed.

Lemma phases_runnable c c1 c2 :
  wf_core c → admitted t c c1 → resched t c1 c2 → running c2 = None →
  ∀ l, l ∈ allProcesses c → ¬ runnable (arrived_p t (heap c l)).
Proof.
  intros Hwf Had Hrs Hidle l Hl Hr.
  pose proof (rs_perm _ _ _ Hrs) as Hp. rewrite Hidle in Hp. simpl in Hp.
  rewrite (rs_work _ _ _ Hrs Hidle) in Hp. apply Permutation_nil_l in Hp.
  symmetry in Hp. apply app_eq_nil in Hp as [Hp1 Hp2].
  destruct (admitted_runnable _ _ _ Hwf Had Hl Hr) as [E|E].
  - by rewrite E in Hp1.
  - by rewrite Hp2 in E; apply elem_of_nil in E.
Qed.

(** A tick made of the three phases is a tick of the specification. *)
Theorem phases_tick c c1 c2 c3 :
  wf_core c → admitted t c c1 → resched t c1 c2 → executed t c2 c3 →
  wf_core c3 ∧ tick_spec t (running c2) c c3.
Proof.
  intros Hwf Had Hrs Hex.
  pose proof (admitted_wf _ _ Hwf Had) as Hwf1.
  pose proof (resched_wf _ _ Hwf1 Hrs) as Hwf2.
  split; [by eapply executed_wf|]. split.
  - by rewrite (ex_all _ _ _ Hex), (rs_all _ _ _ Hrs), (ad_all _ _ _ Had).
  - intros l Hl. unfold proc_step.
    pose proof (ad_heap _ _ _ Had l Hl) as Eh.
    case_bool_decide as E.
    + assert (Hq : l ∈ option_list (running c1) ++ readyQueue c1).
      { rewrite <- (rs_perm _ _ _ Hrs), E. set_solver. }
      apply elem_of_app in Hq. rewrite elem_of_olist in Hq.
      rewrite <- (State_proper _ _ Eh). split.
      { unfold runnable. rewrite <- (State_proper _ _ Eh). destruct Hq as [Hq|Hq].
        - right. by apply (wf_running _ Hwf1).
        - left. by apply (wf_ready _ Hwf1). }
      rewrite (ex_heap _ _ _ Hex l), bool_decide_true by done.
      destruct (rs_exec _ _ _ Hrs l E) as [->|[E1 ->]]; rewrite Eh; [by left|].
      right. split; [|done]. by rewrite <- Eh; apply (wf_running _ Hwf1).
    + rewrite (ex_heap _ _ _ Hex l), bool_decide_false by done.
      rewrite (rs_rest _ _ _ Hrs l E), <- Eh. unfold preempt_p.
      case_bool_decide as E1.
      * by rewrite bool_decide_true by (by apply (wf_running _ Hwf1)).
      * rewrite bool_decide_false; [done|]. intros Hst.
        destruct (wf_new _ Hwf1 l) as [Hn|Hq]; [by rewrite (ad_all _ _ _ Had)|congruence|].
        unfold queued in Hq. rewrite !elem_of_app, elem_of_olist in Hq.
        destruct Hq as [?|[Hq%(wf_ready _ Hwf1)|Hq%(wf_completed _ Hwf1)]]; congruence.
  - intros l E. rewrite <- (ad_all _ _ _ Had), <- (rs_all _ _ _ Hrs).
    apply (wf_in _ Hwf2). unfold queued. rewrite E. set_solver.
  - intros E. by eapply phases_runnable.
  - by rewrite (ex_busy _ _ _ Hex), (rs_busy _ _ _ Hrs), (ad_busy _ _ _ Had).
  - destruct (ex_gantt _ _ _ Hex) as (id & Hg & Hid). exists id.
    by rewrite Hg, (rs_gantt _ _ _ Hrs), (ad_gantt _ _ _ Had).
Qed.
End phases.

(** ** The shared steps refine the phases *)
Lemma fold_admit t ls c :
  NoDup ls →
  let c' := foldl (admit_one t) c ls in
  (∀ l, heap c' l = if bool_decide (l ∈ ls) then admit_p t (heap c l) else heap c l) ∧
  readyQueue c' = readyQueue c ++ filter (λ l, arrives t (heap c l)) ls ∧
  allProcesses c' = allProcesses c ∧ running c' = running c ∧
  completed c' = completed c ∧ gantt c' = gantt c ∧ busyTime c' = busyTime c ∧
  contextSwitches c' = contextSwitches c ∧ totalTime c' = totalTime c.
Proof.
  revert c. induction ls as [|k ls IH]; intros c Hnd.
  - simpl. rewrite app_nil_r. repeat split; try done.
  - apply NoDup_cons in Hnd as [Hk Hnd]. simpl.
    destruct (IH (admit_one t c k) Hnd) as (Hh & Hq & Hrest). clear IH.
    assert (Ho : ∀ l, l ≠ k → heap (admit_one t c k) l = heap c l).
    { intros l Hl. unfold admit_one. case_if; [|done]. simpl.
      by rewrite fn_alter_ne. }
    assert (Hc : heap (admit_one t c k) k = admit_p t (heap c k)).
    { unfold admit_one, admit_p. case_if; [|done]. simpl. by rewrite fn_alter_eq. }
    split; [|split].
    + intros l. rewrite Hh. destruct (decide (l = k)) as [->|Hne].
      * rewrite bool_decide_false by done. rewrite bool_decide_true by set_solver. done.
      * rewrite Ho by done.
        rewrite (bool_decide_ext (l ∈ k :: ls) (l ∈ ls)) by set_solver. done.
    + rewrite Hq.
      rewrite (filter_ext_elem (λ l, arrives t (heap (admit_one t c k) l))
                 (λ l, arrives t (heap c l)) ls)
        by (intros l Hl; rewrite Ho by set_solver; done).
      rewrite filter_cons. unfold admit_one.
      destruct (arrives t (heap c k)); simpl; [|done]. by rewrite <- app_assoc.
    + destruct Hrest as (-> & -> & -> & -> & -> & -> & ->).
      unfold admit_one. by case_if.
Qed.

Lemma fold_alter (f : Process → Process) ls (h : ploc → Process) :
  NoDup ls → ∀ l, foldl (λ h l, alter f l h) h ls l =
                  if bool_decide (l ∈ ls) then f (h l) else h l.
Proof.
  revert h. induction ls as [|k ls IH]; intros h Hnd l; simpl.
  - done.
  - apply NoDup_cons in Hnd as [Hk Hnd]. rewrite IH by done.
    destruct (decide (l = k)) as [->|Hne].
    + rewrite bool_decide_false by done. rewrite bool_decide_true by set_solver.
      by rewrite fn_alter_eq.
    + rewrite fn_alter_ne by done.
      by rewrite (bool_decide_ext (l ∈ k :: ls) (l ∈ ls)) by set_solver.
Qed.

Lemma admitted_core t c : wf_core c → admitted t c (age (admitArrivals t c)).
Proof.
  intros Hwf.
  destruct (fold_admit t (allProcesses c) c (wf_all _ Hwf))
    as (Hh & Hq & Ha & Hr & Hc & Hg & Hb & _ & _).
  fold (admitArrivals t c) in *.
  assert (Hnd : NoDup (readyQueue (admitArrivals t c))).
  { rewrite Hq. pose proof (wf_queued _ Hwf) as Hnd. unfold queued in Hnd.
    apply NoDup_app in Hnd as (_ & _ & Hnd). apply NoDup_app in Hnd as (Hnd & _ & _).
    apply NoDup_app. repeat split; [done| |apply NoDup_filter, (wf_all _ Hwf)].
    intros l Hl [E%arrives_new _]%arriving_spec.
    apply (wf_ready _ Hwf) in Hl. congruence. }
  split; simpl; try done; [|by rewrite Hq].
  intros l Hl. rewrite fold_alter by done.
  rewrite Hh, (bool_decide_true (l ∈ allProcesses c)) by done.
  unfold arrived_p, age_p.
  rewrite (bool_decide_ext (l ∈ readyQueue (admitArrivals t c))
             (State (admit_p t (heap c l)) = StateReady)); [done|].
  rewrite Hq, elem_of_app, arriving_spec. unfold admit_p.
  destruct (arrives t (heap c l)) eqn:E; simpl; [naive_solver|].
  split; [intros [?|[]]; [by apply (wf_ready _ Hwf)|done]|].
  intros Hst. left. destruct (wf_new _ Hwf l Hl) as [?|Hql]; [congruence|].
  unfold queued in Hql. rewrite !elem_of_app, elem_of_olist in Hql.
  destruct Hql as [Hql%(wf_running _ Hwf)|[?|Hql%(wf_completed _ Hwf)]]; congruence.
Qed.

(** The exact ready queue after admission, and the fields it leaves alone. *)
Lemma admit_exact t c :
  wf_core c →
  let c1 := age (admitArrivals t c) in
  readyQueue c1 = readyQueue c ++ filter (λ l, arrives t (heap c l)) (allProcesses c) ∧
  running c1 = running c ∧ completed c1 = completed c.
Proof.
  intros Hwf. destruct (fold_admit t (allProcesses c) c (wf_all _ Hwf))
    as (_ & Hq & _ & Hr & Hc & _). done.
Qed.

(** The queues in service order. *)
Definition service_order (c : Core) : list ploc :=
  completed c ++ option_list (running c) ++ readyQueue c.

Lemma service_order_exec t c : service_order (exec t c) = service_order c.
Proof.
  unfold service_order, exec, exec_as. destruct (running c) as [l|] eqn:Er; simpl;
    [|by rewrite Er].
  case_if; simpl; [by rewrite <- app_assoc|by rewrite Er].
Qed.

Lemma service_order_queued c : service_order c ≡ₚ queued c.
Proof. unfold service_order, queued. solve_Permutation. Qed.

Lemma service_order_done c :
  wf_core c → completed c ≡ₚ allProcesses c → service_order c = completed c.
Proof.
  intros Hwf Hc. pose proof (wf_queued _ Hwf) as Hnd.
  rewrite <- service_order_queued in Hnd.
  pose proof (wf_in _ Hwf) as Hin. setoid_rewrite <- service_order_queued in Hin.
  unfold service_order in *. apply NoDup_app in Hnd as (_ & Hnd & _).
  destruct (option_list (running c) ++ readyQueue c) as [|l q]; [apply app_nil_r|].
  destruct (Hnd l); [|set_solver]. rewrite Hc. apply Hin. set_solver.
Qed.

Lemma exec_heap label t c l :
  heap (exec_as label t c) l =
  if bool_decide (running c = Some l) then run_p t (heap c l) else heap c l.
Proof.
  unfold exec_as. destruct (running c) as [k|] eqn:Er; [|done]. simpl.
  rewrite fn_alter_eq. unfold run_p. destruct (decide (l = k)) as [->|Hne].
  - rewrite bool_decide_true by done. case_if; simpl; by rewrite !fn_alter_eq.
  - rewrite bool_decide_false by naive_solver. case_if; simpl; by rewrite !fn_alter_ne by done.
Qed.

Lemma exec_running label t c :
  running (exec_as label t c) = None ∨ running (exec_as label t c) = running c.
Proof.
  unfold exec_as. destruct (running c) as [k|] eqn:Er; simpl; [case_if; simpl|]; auto.
Qed.

Lemma exec_ready label t c q :
  exec_as label t c <| readyQueue := q |> = exec_as label t (c <| readyQueue := q |>).
Proof.
  unfold exec_as. simpl. destruct (running c) as [k|]; [|done]. by case_if.
Qed.

Lemma executed_as label t c : executed t c (exec_as label t c).
Proof.
  split; [..|intros l; by rewrite exec_heap| | |]; unfold exec_as;
    destruct (running c) as [l|] eqn:Er; simpl; rewrite ?fn_alter_eq; try done.
  - by case_if.
  - by case_if.
  - destruct (Z.eqb_spec (RemainingTime (tick_p (heap c l))) 0) as [E|E];
      destruct (Z.eqb_spec (RemainingTime (heap c l)) 1); simpl in *; (done || lia).
  - case_if; simpl; lia.
  - lia.
  - eexists. case_if; simpl; done.
  - exists "IDLE". done.
Qed.

Lemma executed_core t c : executed t c (exec t c).
Proof. apply executed_as. Qed.

(** Continuing with the running process, or dispatching the process at index
    [i] of the ready queue of an idle CPU. *)
Lemma resched_keep t c l : running c = Some l → resched t c c.
Proof.
  intros Hr. split; try done; rewrite ?Hr; [by right| |done].
  intros k Hk. by rewrite bool_decide_false by naive_solver.
Qed.

Lemma resched_idle t c : running c = None → readyQueue c = [] → resched t c c.
Proof. intros Hr Hq. split; try done; rewrite ?Hr; try done; naive_solver. Qed.

Definition dispatch (t : Z) (i : nat) (c : Core) : Core :=
  match readyQueue c !! i with
  | Some l => start t l (c <| readyQueue ::= delete i |>)
  | None => c
  end.

(** *** Only the first statement of a tick writes the total time *)
Lemma total_admit t c : totalTime (admitArrivals t c) = totalTime c.
Proof.
  unfold admitArrivals. generalize (allProcesses c). intros ls. revert c.
  induction ls as [|l ls IH]; intros c; [done|]. cbn [foldl]. rewrite IH. unfold admit_one. by case_if.
Qed.
Lemma total_age c : totalTime (age c) = totalTime c.
Proof. done. Qed.
Lemma total_dispatch t i c : totalTime (dispatch t i c) = totalTime c.
Proof. unfold dispatch. by destruct (readyQueue c !! i). Qed.
Lemma total_preempt c : totalTime (preempt c) = totalTime c.
Proof. unfold preempt. by destruct (running c). Qed.
Lemma total_exec_as f t c : totalTime (exec_as f t c) = totalTime c.
Proof. unfold exec_as. destruct (running c); [|done]. simpl. by case_if. Qed.
Lemma total_exec t c : totalTime (exec t c) = totalTime c.
Proof. apply total_exec_as. Qed.

#[export] Hint Rewrite total_admit total_age total_dispatch total_preempt total_exec_as total_exec : sched_total.

(** Preempting the running process first. *)
Lemma resched_preempt t c c2 :
  running c ≠ None → resched t (preempt c) c2 → resched t c c2.
Proof.
  intros Hr []. unfold preempt in *. destruct (running c) as [l|] eqn:Er; [|done].
  simpl in *. split; try done.
  - rewrite Er, rs_perm0. simpl. solve_Permutation.
  - intros k Hk. destruct (rs_exec0 k Hk) as [->|[? _]]; [|done]. left.
    destruct (decide (k = l)) as [->|]; [|by rewrite fn_alter_ne].
    rewrite fn_alter_eq. unfold start_p. simpl. by case_if.
  - intros k Hk. rewrite (rs_rest0 k Hk), Er.
    destruct (decide (k = l)) as [->|].
    + by rewrite fn_alter_eq, bool_decide_true.
    + rewrite fn_alter_ne by done. by rewrite bool_decide_false by naive_solver.
Qed.

(** *** Equivalent states

    States that agree up to the order of the ready queue and up to [≃]. *)
Record core_equiv (c c' : Core) : Prop := mk_core_equiv {
  ce_all : allProcesses c' = allProcesses c;
  ce_ready : readyQueue c' ≡ₚ readyQueue c;
  ce_running : running c' = running c;
  ce_completed : completed c' = completed c;
  ce_gantt : gantt c' = gantt c;
  ce_busy : busyTime c' = busyTime c;
  ce_heap : ∀ l, heap c' l ≃ heap c l }.

Lemma ready_proper p q :
  p ≃ q → p <| State := StateReady |> ≃ q <| State := StateReady |>.
Proof. intros []. by split. Qed.

Lemma wf_core_equiv c c' : core_equiv c c' → wf_core c → wf_core c'.
Proof.
  intros [] [].
  assert (Hq : queued c' ≡ₚ queued c).
  { unfold queued. by rewrite ce_running0, ce_ready0, ce_completed0. }
  split; rewrite ?ce_all0, ?ce_running0, ?ce_completed0; try done.
  - by rewrite Hq.
  - intros l. rewrite Hq. auto.
  - intros l. rewrite ce_ready0, ce_heap0. auto.
  - intros l. rewrite ce_heap0. auto.
  - intros l. rewrite ce_heap0. auto.
  - intros l. rewrite Hq, ce_heap0. auto.
Qed.

Lemma admitted_equiv t c c' c1 : core_equiv c c' → admitted t c' c1 → admitted t c c1.
Proof.
  intros [] []. split; try congruence.
  - intros l Hl. rewrite ad_heap0 by congruence. by rewrite (ce_heap0 l).
  - rewrite ad_ready0, ce_ready0, ce_all0. f_equiv.
    rewrite (filter_ext_elem (λ l, arrives t (heap c' l)) (λ l, arrives t (heap c l)));
      [done|]. intros l _. by rewrite (arrives_proper t _ _ (ce_heap0 l)).
Qed.

Lemma resched_equiv t c c' c2 : core_equiv c c' → resched t c' c2 → resched t c c2.
Proof.
  intros [] []. split; try done; try congruence.
  - by rewrite rs_perm0, ce_running0, ce_ready0.
  - intros l Hl. rewrite <- ce_running0, <- (ce_heap0 l). by apply rs_exec0.
  - intros l Hl. rewrite (rs_rest0 l Hl), ce_running0.
    case_bool_decide; [by apply ready_proper|done].
Qed.

Lemma executed_equiv t c c' c2 :
  core_equiv c c' → readyQueue c' = readyQueue c → executed t c' c2 → executed t c c2.
Proof.
  intros [] Hq []. split; rewrite <- ?ce_running0; try congruence.
  - intros l. rewrite (ex_heap0 l). case_bool_decide; by rewrite <- (ce_heap0 l).
  - destruct (running c') as [l|]; [|by rewrite <- ce_completed0].
    by rewrite <- (se_remaining _ _ (ce_heap0 l)), <- ce_completed0.
  - by rewrite <- ce_gantt0.
Qed.

(** Starting a process taken from anywhere in the ready queue. *)
Lemma resched_start t c q l :
  running c = None → l :: q ≡ₚ readyQueue c →
  resched t c (start t l (c <| readyQueue := q |>)).
Proof.
  intros Hr Hq. split; simpl; try done.
  - by rewrite Hr.
  - intros k [= <-]. left. by rewrite fn_alter_eq.
  - intros k Hk. rewrite fn_alter_ne by congruence. by rewrite Hr.
Qed.

Lemma resched_dispatch t i c l :
  running c = None → readyQueue c !! i = Some l → resched t c (dispatch t i c).
Proof.
  intros Hr Hl. unfold dispatch. rewrite Hl.
  apply (resched_start t c (delete i (readyQueue c)) l Hr). by rewrite <- delete_perm.
Qed.

(** [s.totalTime = currentTime + 1] does not matter to the other fields. *)
Lemma wf_core_totalTime c z : wf_core c → wf_core (c <| totalTime := z |>).
Proof. intros []. by split. Qed.

Lemma tick_spec_totalTime t r c c' z :
  tick_spec t r (c <| totalTime := z |>) c' → tick_spec t r c c'.
Proof. intros []. by split. Qed.

(** The tick of a scheduler built on [Core]: the shared steps around a
    rescheduling decision [f]. *)
Lemma core_tick t c (f : Core → Core) :
  wf_core c →
  (let c1 := age (admitArrivals t (c <| totalTime := t + 1 |>)) in
   admitted t (c <| totalTime := t + 1 |>) c1 → wf_core c1 → resched t c1 (f c1)) →
  let c2 := f (age (admitArrivals t (c <| totalTime := t + 1 |>))) in
  wf_core (exec t c2) ∧ tick_spec t (running c2) c (exec t c2).
Proof.
  intros Hwf%(wf_core_totalTime _ (t + 1)) Hf.
  pose proof (admitted_core t _ Hwf) as Had.
  pose proof (Hf Had (admitted_wf _ _ _ Hwf Had)) as Hrs.
  destruct (phases_tick _ _ _ _ _ Hwf Had Hrs (executed_core _ _)) as [Hwf' Hts].
  split; [done|]. by eapply tick_spec_totalTime.
Qed.

(** A decision that leaves a running process alone is not preemptive. *)
Lemma core_keeps t c (f : Core → Core) :
  wf_core c → (∀ c1 l, running c1 = Some l → f c1 = c1) → running c ≠ None →
  running (f (age (admitArrivals t (c <| totalTime := t + 1 |>)))) = running c.
Proof.
  intros Hwf%(wf_core_totalTime _ (t + 1)) Hf Hr.
  destruct (admit_exact t _ Hwf) as (_ & Hr1 & _).
  destruct (running c) as [l|] eqn:E; [|done].
  by rewrite (Hf _ l); rewrite Hr1.
Qed.

(** ** The [Scheduler] interface *)

(** The operations of the Go interface; [s_core] is the state its getters and
    the laws observe. *)
Class Scheduler (Sch : Type) := {
  s_Name : Sch → string;
  s_AddProcess : ploc → Sch → Sch;
  s_Tick : Z → Sch → option ploc * bool * Sch;
  s_core : Sch → Core }.

Definition GetCompleted `{Scheduler Sch} (s : Sch) : list ploc := completed (s_core s).
Definition GetGantt `{Scheduler Sch} (s : Sch) : list GanttSegment := gantt (s_core s).

(** What every scheduler promises to its clients.  [s_ok] is what the policy
    asks of the processes it is given. *)
Class SchedulerLaws (Sch : Type) `{Scheduler Sch} := {
  s_wf : Sch → Prop;
  s_ok : Process → Prop;
  s_wf_core : ∀ s, s_wf s → wf_core (s_core s);
  s_add_core : ∀ l s, s_core (s_AddProcess l s) = core_AddProcess l (s_core s);
  s_add_wf : ∀ l s, s_wf s → l ∉ allProcesses (s_core s) →
    State (heap (s_core s) l) = StateNew → s_ok (heap (s_core s) l) →
    s_wf (s_AddProcess l s);
  s_tick_wf : ∀ t s, s_wf s → s_wf (s_Tick t s).2;
  s_tick_spec : ∀ t s, s_wf s →
    ∃ r, tick_spec t r (s_core s) (s_core (s_Tick t s).2);
  s_tick_total : ∀ t s, totalTime (s_core (s_Tick t s).2) = t + 1;
  s_tick_result : ∀ t s,
    (s_Tick t s).1 = (running (s_core (s_Tick t s).2), allDone (s_core (s_Tick t s).2)) }.

(** Adding a fresh process keeps the core well formed. *)
Lemma core_add_wf l c :
  wf_core c → l ∉ allProcesses c → State (heap c l) = StateNew →
  wf_core (core_AddProcess l c).
Proof.
  intros [] Hl Hn. split; simpl; try done.
  - apply NoDup_app. repeat split; [done|set_solver|apply NoDup_singleton].
  - intros k Hk. apply elem_of_app. left. by apply wf_in0.
  - intros k [?|Hk%list_elem_of_singleton]%elem_of_app; [by apply wf_new0|].
    subst k. by left.
Qed.

Lemma new_core_wf h : wf_core (NewCore h).
Proof. split; simpl; try done; try constructor; set_solver. Qed.
