(* ===== verification/SchedTheory.v ===== *)
(** * Theorems about every scheduler

    Proved against the interface [SchedulerLaws] of [SchedCore]: the timing
    invariant of a process, the accounting identities, and that every set of
    jobs runs to completion.  The driver loop is the one of [runCPULab] in
    [src/cmd/os-sim/main.go]. *)

From S2P Require Import Prelude Process SchedCore.

(** ** The timing invariant of one process

    [pinv t p] holds of every process when the next tick is the one at time
    [t]. *)
Definition pinv (t : Z) (p : Process) : Prop :=
  0 ≤ ArrivalTime p ∧ 1 ≤ BurstTime p ∧
  match State p with
  | StateNew =>
      t ≤ ArrivalTime p ∧ RemainingTime p = BurstTime p ∧
      WaitingTime p = 0 ∧ StartTime p = -1
  | StateReady =>
      ArrivalTime p < t ∧ 1 ≤ RemainingTime p ≤ BurstTime p ∧
      WaitingTime p + (BurstTime p - RemainingTime p) = t - ArrivalTime p ∧
      1 ≤ WaitingTime p ∧
      (StartTime p = -1 ∧ RemainingTime p = BurstTime p ∨
       ArrivalTime p ≤ StartTime p < t ∧
       ResponseTime p = StartTime p - ArrivalTime p)
  | StateRunning =>
      ArrivalTime p < t ∧ 1 ≤ RemainingTime p ≤ BurstTime p ∧
      WaitingTime p + (BurstTime p - RemainingTime p) = t - ArrivalTime p + 1 ∧
      1 ≤ WaitingTime p ∧
      ArrivalTime p ≤ StartTime p < t ∧
      ResponseTime p = StartTime p - ArrivalTime p
  | StateBlocked => False
  | StateTerminated =>
      RemainingTime p = 0 ∧ FinishTime p ≤ t ∧
      Turnaround p = FinishTime p - ArrivalTime p ∧
      WaitingTime p + BurstTime p = Turnaround p + 1 ∧ 1 ≤ WaitingTime p ∧
      ArrivalTime p ≤ StartTime p < FinishTime p ∧
      ResponseTime p = StartTime p - ArrivalTime p
  end.

#[export] Instance pinv_proper t : Proper (sched_eq ==> iff) (pinv t).
Proof.
  intros p q []. unfold pinv. rewrite se_state. destruct (State q); lia. Qed.

Lemma pinv_arrived t p :
  0 ≤ t → pinv t p →
  let q := arrived_p t p in
  0 ≤ ArrivalTime q ∧ 1 ≤ BurstTime q ∧
  match State q with
  | StateReady =>
      ArrivalTime q ≤ t ∧ 1 ≤ RemainingTime q ≤ BurstTime q ∧
      WaitingTime q + (BurstTime q - RemainingTime q) = t + 1 - ArrivalTime q ∧
      1 ≤ WaitingTime q ∧
      (StartTime q = -1 ∧ RemainingTime q = BurstTime q ∨
       ArrivalTime q ≤ StartTime q < t ∧
       ResponseTime q = StartTime q - ArrivalTime q)
  | StateNew => pinv (t + 1) q
  | _ => pinv t q
  end.
Proof.
  intros Ht Hp. unfold arrived_p, admit_p, arrives, pinv in *.
  destruct (State p) eqn:E; simpl.
  - rewrite andb_true_r.
    destruct (Z.eqb_spec (ArrivalTime p) t); unfold age_p; simpl; [lia|].
    rewrite E. simpl. rewrite E. lia.
  - rewrite andb_false_r. unfold age_p. rewrite E. simpl. rewrite E. simpl. lia.
  - rewrite andb_false_r. unfold age_p. rewrite E. simpl. rewrite E. lia.
  - tauto.
  - rewrite andb_false_r. unfold age_p. rewrite E. simpl. rewrite E. lia.
Qed.

Lemma proc_step_pinv t ex p p' :
  0 ≤ t → pinv t p → proc_step t ex p p' → pinv (t + 1) p'.
Proof.
  intros Ht Hp. pose proof (pinv_arrived t p Ht Hp) as Hq. clear Hp.
  unfold proc_step. set (q := arrived_p t p) in *. clearbody q. simpl in Hq.
  destruct ex.
  - intros [Hr [->|[Hrun ->]]].
    + destruct Hr as [Hr|Hr]; rewrite Hr in Hq.
      * unfold run_p, start_p. simpl. destruct (Z.eqb_spec (StartTime q) (-1)); simpl;
          destruct (Z.eqb_spec (Z.pred (RemainingTime q)) 0); simpl;
          unfold pinv; simpl; lia.
      * unfold pinv in Hq. rewrite ?Hr in Hq. unfold run_p, start_p. simpl.
        destruct (Z.eqb_spec (StartTime q) (-1)); [lia|]. simpl.
        destruct (Z.eqb_spec (Z.pred (RemainingTime q)) 0); unfold pinv; simpl; lia.
    + rewrite Hrun in Hq. unfold pinv in Hq. rewrite Hrun in Hq. unfold run_p. simpl.
      destruct (Z.eqb_spec (Z.pred (RemainingTime q)) 0); unfold pinv; simpl;
        rewrite ?Hrun; lia.
  - intros ->. unfold preempt_p. case_bool_decide as E.
    + unfold pinv in *. rewrite E in Hq. simpl in *. lia.
    + unfold pinv in *. destruct (State q) eqn:E2; try done; rewrite ?E2 in Hq; lia.
Qed.

(** ** Processes that run without preemption *)
Definition np (t : Z) (p : Process) : Prop :=
  match State p with
  | StateNew | StateReady => RemainingTime p = BurstTime p ∧ StartTime p = -1
  | StateRunning => t - StartTime p = BurstTime p - RemainingTime p ∧ 0 ≤ StartTime p
  | StateTerminated => FinishTime p - StartTime p = BurstTime p
  | StateBlocked => True
  end.

#[export] Instance np_proper t : Proper (sched_eq ==> iff) (np t).
Proof. intros p q []. unfold np. rewrite se_state. destruct (State q); lia. Qed.

Lemma np_arrived t p : np t p → np t (arrived_p t p).
Proof.
  unfold arrived_p, admit_p. destruct (arrives t p) eqn:E.
  - apply arrives_new in E. unfold np. by rewrite E.
  - unfold age_p, np. case_bool_decide as E2; [|done]. simpl. by rewrite E2.
Qed.

Lemma proc_step_np t ex p p' :
  0 ≤ t → np t p → (State p = StateRunning → ex = true) → proc_step t ex p p' →
  np (t + 1) p'.
Proof.
  intros Ht Hn Hr. pose proof (np_arrived t p Hn) as Hq. clear Hn.
  assert (Hr' : State (arrived_p t p) = StateRunning → ex = true).
  { rewrite arrived_p_state. by destruct (arrives t p). }
  unfold proc_step. set (q := arrived_p t p) in *. clearbody q. clear Hr.
  destruct ex.
  - intros [Hrun Hp'].
    assert (Hs : np (t + 1) (run_p t (start_p t q)) ∧
                 (State q = StateRunning → np (t + 1) (run_p t q))).
    { unfold np in *. unfold run_p, start_p. simpl.
      split; [|intros E; rewrite E in Hq];
        [destruct Hrun as [E|E]; rewrite E in Hq;
         destruct (Z.eqb_spec (StartTime q) (-1)); simpl|];
        destruct (Z.eqb_spec (Z.pred (RemainingTime q)) 0); simpl; rewrite ?E; try lia. }
    destruct Hp' as [->|[E ->]]; naive_solver.
  - intros ->. unfold preempt_p. rewrite bool_decide_false by (intros E; by specialize (Hr' E)).
    unfold np in *. destruct (State q) eqn:E; try done. by specialize (Hr' eq_refl).
Qed.

(** ** Runs *)
Section runs.
Context `{Hlaws : SchedulerLaws Sch}.
Implicit Types (s : Sch) (t : Z) (n : nat).

Definition procs s : list ploc := allProcesses (s_core s).
Definition proc s (l : ploc) : Process := heap (s_core s) l.

(** [for _, p := range procs { s.AddProcess(p) }] *)
Definition add_all (ls : list ploc) s : Sch := foldl (λ s l, s_AddProcess l s) s ls.

(** [for t := t0; t < t0+n; t++ { _, done := s.Tick(t); if done { break } }] *)
Fixpoint drive n t s : bool * Sch :=
  match n with
  | O => (false, s)
  | S n =>
      let '(_, done, s') := s_Tick t s in
      if done : bool then (true, s') else drive n (t + 1) s'
  end.

(** The same loop without the early exit. *)
Fixpoint ticks n t s : Sch :=
  match n with
  | O => s
  | S n => ticks n (t + 1) (s_Tick t s).2
  end.

Definition inv t s : Prop :=
  s_wf s ∧ 0 ≤ t ∧ ∀ l, l ∈ procs s → pinv t (proc s l).

Lemma inv_tick t s : inv t s → inv (t + 1) (s_Tick t s).2.
Proof.
  intros (Hwf & Ht & Hp). destruct (s_tick_spec t s Hwf) as [r Hts].
  split; [by apply s_tick_wf|]. split; [lia|]. intros l Hl.
  unfold procs in *. rewrite (ts_all _ _ _ _ Hts) in Hl.
  eapply proc_step_pinv; [done|by apply Hp|by apply (ts_procs _ _ _ _ Hts)].
Qed.

Lemma procs_tick t s : s_wf s → procs (s_Tick t s).2 = procs s.
Proof. intros Hwf. destruct (s_tick_spec t s Hwf) as [r Hts]. apply Hts. Qed.

(** Induction over a run. *)
Lemma ticks_ind (P : Z → Sch → Prop) n t s :
  (∀ t s, inv t s → P t s → P (t + 1) (s_Tick t s).2) →
  inv t s → P t s → P (t + Z.of_nat n) (ticks n t s).
Proof.
  intros Hstep. revert t s. induction n as [|n IH]; intros t s Hi HP; simpl.
  - by rewrite Z.add_0_r.
  - replace (t + Z.of_nat (S n)) with (t + 1 + Z.of_nat n) by lia.
    by apply IH; [apply inv_tick|apply Hstep].
Qed.

Lemma inv_ticks n t s : inv t s → inv (t + Z.of_nat n) (ticks n t s).
Proof. intros Hi. apply (ticks_ind inv); eauto using inv_tick. Qed.

Lemma procs_ticks n t s : inv t s → procs (ticks n t s) = procs s.
Proof.
  intros Hi. apply (ticks_ind (λ _ s', procs s' = procs s)); [|done..].
  intros t' s' Hi' <-. by apply procs_tick, Hi'.
Qed.

(** *** Work *)
Definition work s : Z := sumZ (λ l, RemainingTime (proc s l)) (procs s).
Definition total_burst s : Z := sumZ (λ l, BurstTime (proc s l)) (procs s).

Lemma proc_step_remaining t p p' ex :
  proc_step t ex p p' →
  RemainingTime p' = RemainingTime p - (if ex : bool then 1 else 0) ∧
  BurstTime p' = BurstTime p ∧ ArrivalTime p' = ArrivalTime p.
Proof.
  assert (Hq : RemainingTime (arrived_p t p) = RemainingTime p ∧
               BurstTime (arrived_p t p) = BurstTime p ∧
               ArrivalTime (arrived_p t p) = ArrivalTime p).
  { unfold arrived_p, age_p, admit_p. repeat case_if; done. }
  unfold proc_step. set (q := arrived_p t p) in *. clearbody q.
  destruct ex.
  - intros [_ [[]|[_ []]]]; rewrite se_remaining, se_burst, se_arrival;
      unfold run_p, start_p; repeat case_if; simpl in *; lia.
  - intros []. rewrite se_remaining, se_burst, se_arrival.
    unfold preempt_p; repeat case_if; simpl in *; lia.
Qed.

Lemma work_tick t s r :
  s_wf s → tick_spec t r (s_core s) (s_core (s_Tick t s).2) →
  work (s_Tick t s).2 = work s - (if r is Some _ then 1 else 0) ∧
  total_burst (s_Tick t s).2 = total_burst s.
Proof.
  intros Hwf Hts. unfold work, total_burst. rewrite procs_tick by done.
  pose proof (wf_all _ (s_wf_core s Hwf)) as Hnd.
  assert (Hst : ∀ l, l ∈ procs s →
    RemainingTime (proc (s_Tick t s).2 l) =
      RemainingTime (proc s l) - (if bool_decide (r = Some l) then 1 else 0) ∧
    BurstTime (proc (s_Tick t s).2 l) = BurstTime (proc s l)).
  { intros l Hl. pose proof (ts_procs _ _ _ _ Hts l Hl) as Hp.
    apply proc_step_remaining in Hp as (? & ? & _). auto. }
  split; [|apply sumZ_ext; intros l Hl; by apply Hst].
  destruct r as [k|].
  - apply (sumZ_update_one (λ l, RemainingTime (proc s l)) _ _ k (-1)); [done| | |].
    + by apply (ts_run _ _ _ _ Hts).
    + destruct (Hst k) as [-> _]; [by apply (ts_run _ _ _ _ Hts)|].
      rewrite bool_decide_true by done. lia.
    + intros l Hl Hne. destruct (Hst l Hl) as [-> _].
      rewrite bool_decide_false by congruence. lia.
  - rewrite Z.sub_0_r. apply sumZ_ext. intros l Hl. destruct (Hst l Hl) as [-> _].
    rewrite bool_decide_false by done. lia.
Qed.

Definition last_arrival s : Z := maxZ (λ l, ArrivalTime (proc s l)) (procs s).

Lemma last_arrival_tick t s : s_wf s → last_arrival (s_Tick t s).2 = last_arrival s.
Proof.
  intros Hwf. unfold last_arrival. rewrite procs_tick by done.
  apply maxZ_ext. intros l Hl. destruct (s_tick_spec t s Hwf) as [r Hts].
  eapply proc_step_remaining, (ts_procs _ _ _ _ Hts l Hl).
Qed.

(** The remaining work plus the time until the last arrival: it goes down in
    every tick until the work is done. *)
Definition potential t s : Z := work s + Z.max 0 (last_arrival s - t).

Lemma pinv_remaining t p :
  pinv t p → 0 ≤ RemainingTime p ∧ (RemainingTime p = 0 → State p = StateTerminated).
Proof.
  unfold pinv. destruct (State p); intros; split; try lia; intros; try done; lia.
Qed.

Lemma work_cases t s :
  inv t s →
  0 < work s ∧ (∃ l, l ∈ procs s ∧ 0 < RemainingTime (proc s l)) ∨
  work s = 0 ∧ (∀ l, l ∈ procs s → State (proc s l) = StateTerminated).
Proof.
  intros (_ & _ & Hp). unfold work. induction (procs s) as [|l ls IH].
  - right. split; [done|set_solver].
  - unfold sumZ in *. simpl.
    destruct (pinv_remaining t (proc s l)) as [H0 H1]; [apply Hp; set_solver|].
    destruct (decide (RemainingTime (proc s l) = 0)) as [E|].
    + destruct IH as [(? & k & Hk & ?)|[? Hall]]; [set_solver|left|right].
      * split; [lia|]. exists k. set_solver.
      * split; [lia|]. intros k [->|Hk]%elem_of_cons; auto.
    + left. split; [|exists l; split; [set_solver|lia]].
      destruct IH as [[? _]|[? _]]; [set_solver|lia..].
Qed.

Lemma potential_tick t s :
  inv t s → 0 < work s → potential (t + 1) (s_Tick t s).2 + 1 ≤ potential t s.
Proof.
  intros Hi Hw. pose proof Hi as (Hwf & Ht & Hp).
  destruct (s_tick_spec t s Hwf) as [r Hts].
  destruct (work_tick t s r Hwf Hts) as [Hwk _].
  unfold potential. rewrite Hwk, last_arrival_tick by done.
  destruct r as [k|]; [lia|].
  destruct (work_cases t s Hi) as [(_ & l & Hl & HR)|[? _]]; [|lia].
  pose proof (ts_idle _ _ _ _ Hts eq_refl l Hl) as Hnr.
  pose proof (maxZ_ge (λ l, ArrivalTime (proc s l)) _ l Hl) as Hla.
  fold (last_arrival s) in Hla. simpl in Hla. specialize (Hp l Hl).
  assert (t < ArrivalTime (proc s l)); [|lia].
  fold (proc s l) in Hnr. unfold runnable in Hnr. rewrite arrived_p_state in Hnr.
  unfold pinv in Hp. unfold arrives in Hnr.
  destruct (State (proc s l)) eqn:E; simpl in Hnr;
    rewrite ?andb_true_r, ?andb_false_r in Hnr; try tauto; try lia.
  destruct (Z.eqb_spec (ArrivalTime (proc s l)) t); [tauto|lia].
Qed.

Lemma allDone_spec s :
  s_wf s → procs s ≠ [] →
  allDone (s_core s) = true ↔ ∀ l, l ∈ procs s → State (proc s l) = StateTerminated.
Proof.
  intros Hwf%s_wf_core Hne. unfold allDone, len. fold (procs s).
  assert (0 < length (procs s))%nat by (destruct (procs s); simpl; [done|lia]).
  pose proof (wf_queued _ Hwf) as Hnd. unfold queued in Hnd.
  apply NoDup_app in Hnd as (_ & _ & Hnd). apply NoDup_app in Hnd as (_ & _ & Hnd).
  assert (Hsub : completed (s_core s) ⊆+ procs s).
  { apply NoDup_submseteq; [done|]. intros l Hl. apply (wf_in _ Hwf).
    unfold queued. rewrite !elem_of_app. auto. }
  rewrite andb_true_iff, Z.eqb_eq, Z.ltb_lt. split.
  - intros [Hlen _] l Hl. apply (wf_completed _ Hwf).
    rewrite (submseteq_length_Permutation _ _ Hsub) by lia. done.
  - intros Hall. split; [|lia]. f_equal. apply Nat.le_antisymm.
    + by apply submseteq_length.
    + apply submseteq_length, NoDup_submseteq; [apply (wf_all _ Hwf)|].
      intros l Hl. specialize (Hall l Hl).
      destruct (wf_new _ Hwf l Hl) as [Hn|Hq]; [unfold proc in Hall; congruence|].
      unfold queued in Hq. rewrite !elem_of_app, elem_of_olist in Hq.
      destruct Hq as [Hq%(wf_running _ Hwf)|[Hq%(wf_ready _ Hwf)|?]]; [..|done];
        unfold proc in Hall; congruence.
Qed.

(** *** Completion *)
Lemma drive_completes_from n t s :
  inv t s → procs s ≠ [] → 0 < work s → potential t s ≤ Z.of_nat n →
  ∃ k s', drive n t s = (true, s') ∧ inv k s' ∧ procs s' = procs s ∧
    k ≤ t + Z.of_nat n ∧
    ∀ l, l ∈ procs s → State (proc s' l) = StateTerminated.
Proof.
  revert t s. induction n as [|n IH]; intros t s Hi Hne Hw Hn.
  { exfalso. unfold potential in Hn. lia. }
  simpl. pose proof (potential_tick t s Hi Hw) as Hpot.
  pose proof (inv_tick t s Hi) as Hi'. pose proof (procs_tick t s (proj1 Hi)) as Hps.
  pose proof (s_tick_result t s) as Hres.
  destruct (s_Tick t s) as [[res done] s']. simpl in *. simplify_eq/=.
  assert (Hne' : procs s' ≠ []) by congruence.
  pose proof (allDone_spec s' (proj1 Hi') Hne') as Hdone.
  destruct (allDone (s_core s')) eqn:E.
  - exists (t + 1), s'. do 3 (split; [done|]). split; [lia|].
    intros l Hl. apply Hdone; [done|congruence].
  - destruct (IH (t + 1) s') as (k & s2 & Hd & Hi2 & Hp2 & Hk & Hall);
      [done|done| |lia|].
    + destruct (work_cases _ _ Hi') as [[? _]|[_ Hall]]; [done|].
      by apply Hdone in Hall.
    + exists k, s2. do 2 (split; [done|]). split; [congruence|]. split; [lia|].
      intros l Hl. apply Hall. congruence.
Qed.

(** A scheduler that has been given fresh processes and has not ticked. *)
Definition fresh_job (p : Process) : Prop :=
  0 ≤ ArrivalTime p ∧ 1 ≤ BurstTime p ∧ State p = StateNew ∧
  RemainingTime p = BurstTime p ∧ WaitingTime p = 0 ∧ StartTime p = -1.

Definition loaded s : Prop :=
  s_wf s ∧ procs s ≠ [] ∧ ∀ l, l ∈ procs s → fresh_job (proc s l).

(** Handing fresh processes to a new scheduler. *)
Lemma add_all_core ls s :
  s_core (add_all ls s) = foldl (λ c l, core_AddProcess l c) (s_core s) ls.
Proof using Hlaws.
  unfold add_all. revert s. induction ls as [|l ls IH]; intros s; simpl; [done|].
  by rewrite IH, s_add_core.
Qed.

Lemma add_all_spec ls s :
  heap (s_core (add_all ls s)) = heap (s_core s) ∧ procs (add_all ls s) = procs s ++ ls.
Proof using Hlaws.
  unfold procs. rewrite add_all_core. generalize (s_core s).
  induction ls as [|l ls IH]; intros c; simpl; [by rewrite app_nil_r|].
  destruct (IH (core_AddProcess l c)) as [-> ->]. simpl. by rewrite <- app_assoc.
Qed.

Lemma add_all_wf ls s :
  s_wf s → NoDup (procs s ++ ls) →
  (∀ l, l ∈ ls → State (proc s l) = StateNew ∧ s_ok (proc s l)) → s_wf (add_all ls s).
Proof.
  unfold add_all, procs, proc. revert s.
  induction ls as [|l ls IH]; intros s Hwf Hnd Hok; simpl; [done|].
  apply IH.
  - apply s_add_wf; [done| |apply Hok; set_solver..].
    apply NoDup_app in Hnd as (_ & Hnd & _). intros Hl. apply (Hnd l Hl). set_solver.
  - rewrite s_add_core. simpl. by rewrite <- app_assoc.
  - rewrite s_add_core. simpl. intros k Hk. apply Hok. set_solver.
Qed.

Lemma add_all_loaded ls s :
  s_wf s → procs s = [] → ls ≠ [] → NoDup ls →
  Forall (λ l, fresh_job (proc s l) ∧ s_ok (proc s l)) ls → loaded (add_all ls s).
Proof.
  intros Hwf Hp Hne Hnd Hf. rewrite Forall_forall in Hf.
  destruct (add_all_spec ls s) as [Hh Hps]. rewrite Hp in Hps. simpl in Hps.
  split; [|split].
  - apply add_all_wf; [done|by rewrite Hp|]. intros l Hl.
    destruct (Hf l Hl) as [(_ & _ & ? & _) ?]. done.
  - congruence.
  - unfold proc. rewrite Hh, Hps. intros l Hl. by apply Hf.
Qed.

Lemma loaded_inv s : loaded s → inv 0 s.
Proof.
  intros (Hwf & _ & Hp). split; [done|]. split; [done|]. intros l Hl.
  destruct (Hp l Hl) as (? & ? & E & ?). unfold pinv. rewrite E. lia.
Qed.

Lemma ticks_wf n s : loaded s → s_wf (ticks n 0 s).
Proof. intros Hl. by eapply inv_ticks, loaded_inv. Qed.

Lemma loaded_empty s : loaded s → service_order (s_core s) = [].
Proof.
  intros (Hwf%s_wf_core & _ & Hp).
  destruct (service_order (s_core s)) as [|l q] eqn:E; [done|].
  assert (Hq : l ∈ queued (s_core s)) by (rewrite <- service_order_queued, E; set_solver).
  destruct (Hp l (wf_in _ Hwf l Hq)) as (_ & _ & Hn & _).
  by destruct (wf_not_new _ _ Hwf Hq).
Qed.

Lemma loaded_work s : loaded s → work s = total_burst s ∧ 0 < work s.
Proof.
  intros (_ & Hne & Hp). split.
  - apply sumZ_ext. intros l Hl. by destruct (Hp l Hl) as (? & ? & ? & ? & _).
  - unfold work. destruct (procs s) as [|l ls] eqn:E; [done|]. unfold sumZ. simpl.
    destruct (Hp l) as (? & ? & ? & ? & _); [set_solver|].
    assert (0 ≤ sumZ (λ l, RemainingTime (proc s l)) ls); [|unfold sumZ in *; lia].
    apply sumZ_nonneg. intros k Hk.
    destruct (Hp k) as (? & ? & ? & ? & _); [set_solver|lia].
Qed.

(** Where the loop ends every process has its final times, which satisfy the
    accounting identities. *)
Definition finished (p : Process) : Prop :=
  State p = StateTerminated ∧ RemainingTime p = 0 ∧
  Turnaround p = FinishTime p - ArrivalTime p ∧
  ResponseTime p = StartTime p - ArrivalTime p ∧ 0 ≤ ResponseTime p ∧
  BurstTime p ≤ Turnaround p ∧
  WaitingTime p = Turnaround p - BurstTime p + 1.

Lemma pinv_finished t p : pinv t p → State p = StateTerminated → finished p.
Proof. unfold pinv, finished. intros Hp E. rewrite E in Hp. split; [done|lia]. Qed.

Lemma completed_all s :
  s_wf s → (∀ l, l ∈ procs s → State (proc s l) = StateTerminated) →
  GetCompleted s ≡ₚ procs s.
Proof.
  intros Hwf%s_wf_core Hall. pose proof (wf_queued _ Hwf) as Hnd. unfold queued in Hnd.
  apply NoDup_app in Hnd as (_ & _ & Hnd). apply NoDup_app in Hnd as (_ & _ & Hnd).
  apply NoDup_Permutation; [done|apply (wf_all _ Hwf)|]. intros l. split.
  - intros Hl. apply (wf_in _ Hwf). unfold queued. rewrite !elem_of_app. auto.
  - intros Hl. specialize (Hall l Hl). unfold proc in Hall.
    destruct (wf_new _ Hwf l Hl) as [Hn|Hq]; [congruence|].
    unfold queued in Hq. rewrite !elem_of_app, elem_of_olist in Hq.
    destruct Hq as [Hq%(wf_running _ Hwf)|[Hq%(wf_ready _ Hwf)|?]]; [congruence..|done].
Qed.

(** The loop from time 0 finishes every job: the lemma behind the
    completion theorems of the schedulers. *)
Lemma drive_finishes n s :
  loaded s → total_burst s + last_arrival s ≤ Z.of_nat n →
  ∃ s', drive n 0 s = (true, s') ∧ GetCompleted s' ≡ₚ procs s ∧
        ∀ l, l ∈ procs s → finished (proc s' l).
Proof.
  intros Hl Hn. pose proof (loaded_work s Hl) as [Hw Hpos].
  pose proof (loaded_inv s Hl) as Hi. pose proof Hl as (_ & Hne & _).
  destruct (drive_completes_from n 0 s) as (k & s' & Hd & Hi' & Hp & _ & Hall);
    [done..| |].
  { unfold potential. rewrite Hw.
    pose proof (maxZ_nonneg (λ l, ArrivalTime (proc s l)) (procs s)) as Hla.
    fold (last_arrival s) in Hla. lia. }
  exists s'. split; [done|]. rewrite <- Hp in *. split.
  - apply completed_all; [apply Hi'|done].
  - intros l Hin. apply (pinv_finished k); [by apply Hi'|by apply Hall].
Qed.

(** The loop with its early exit is a number of ticks. *)
Lemma drive_ticks n t s b s' :
  drive n t s = (b, s') → ∃ k, s' = ticks k t s.
Proof.
  revert t s. induction n as [|n IH]; intros t s; simpl; [intros [= _ <-]; by exists O|].
  destruct (s_Tick t s) as [[res done] s1] eqn:E.
  destruct done.
  - intros [= _ <-]. exists 1%nat. simpl. by rewrite E.
  - intros [k ->]%IH. exists (S k). simpl. by rewrite E.
Qed.

(** *** Arrival times do not change, and a process arrives exactly at its time *)
Lemma arrival_tick t s l :
  s_wf s → l ∈ procs s →
  ArrivalTime (proc (s_Tick t s).2 l) = ArrivalTime (proc s l) ∧
  BurstTime (proc (s_Tick t s).2 l) = BurstTime (proc s l).
Proof.
  intros Hwf Hl. destruct (s_tick_spec t s Hwf) as [r Hts].
  destruct (proc_step_remaining _ _ _ _ (ts_procs _ _ _ _ Hts l Hl)) as (_ & ? & ?).
  done.
Qed.

Lemma arrival_ticks n t s l :
  inv t s → l ∈ procs s →
  ArrivalTime (proc (ticks n t s) l) = ArrivalTime (proc s l) ∧
  BurstTime (proc (ticks n t s) l) = BurstTime (proc s l).
Proof.
  intros Hi Hl.
  apply (ticks_ind (λ _ s', l ∈ procs s' ∧
    ArrivalTime (proc s' l) = ArrivalTime (proc s l) ∧
    BurstTime (proc s' l) = BurstTime (proc s l)) n t s); [|done..].
  intros t' s' Hi' (Hl' & Ha & Hb). destruct (arrival_tick t' s' l (proj1 Hi') Hl').
  rewrite procs_tick by apply Hi'. repeat split; congruence.
Qed.

Lemma pinv_arrives t p : pinv t p → arrives t p = bool_decide (ArrivalTime p = t).
Proof.
  unfold pinv, arrives. intros Hp. destruct (State p) eqn:E; simpl;
    rewrite ?andb_true_r, ?andb_false_r.
  - destruct (Z.eqb_spec (ArrivalTime p) t); by case_bool_decide.
  - by rewrite bool_decide_false by lia.
  - by rewrite bool_decide_false by lia.
  - tauto.
  - by rewrite bool_decide_false by lia.
Qed.

(** *** Non-preemptive schedulers *)
Definition keeps_running : Prop := ∀ t s, s_wf s →
  ∃ r, tick_spec t r (s_core s) (s_core (s_Tick t s).2) ∧
       (running (s_core s) ≠ None → r = running (s_core s)).

Lemma np_tick t s :
  keeps_running → inv t s → (∀ l, l ∈ procs s → np t (proc s l)) →
  ∀ l, l ∈ procs s → np (t + 1) (proc (s_Tick t s).2 l).
Proof.
  intros Hk (Hwf & Ht & Hp) Hn l Hl. destruct (Hk t s Hwf) as (r & Hts & Hr).
  apply (proc_step_np t (bool_decide (r = Some l)) (proc s l)); [done|by apply Hn| |].
  - intros E. apply bool_decide_eq_true. pose proof (s_wf_core s Hwf) as Hc.
    unfold proc in E. destruct (wf_new _ Hc l Hl) as [?|Hq]; [congruence|].
    unfold queued in Hq. rewrite !elem_of_app, elem_of_olist in Hq.
    destruct Hq as [Hq|[Hq%(wf_ready _ Hc)|Hq%(wf_completed _ Hc)]]; [|congruence..].
    rewrite Hr, Hq; congruence.
  - by apply (ts_procs _ _ _ _ Hts).
Qed.

Lemma np_ticks n t s :
  keeps_running → inv t s → (∀ l, l ∈ procs s → np t (proc s l)) →
  ∀ l, l ∈ procs s → np (t + Z.of_nat n) (proc (ticks n t s) l).
Proof.
  intros Hk Hi Hn. rewrite <- (procs_ticks n t s Hi).
  apply (ticks_ind (λ t s, ∀ l, l ∈ procs s → np t (proc s l))); [|done..].
  intros t' s' Hi' HP l Hl. rewrite procs_tick in Hl by apply Hi'. by apply np_tick.
Qed.

(** Under a non-preemptive policy a finished job ran in one piece. *)
Lemma drive_np n s s' :
  keeps_running → loaded s → drive n 0 s = (true, s') →
  (∀ l, l ∈ procs s → State (proc s' l) = StateTerminated) →
  ∀ l, l ∈ procs s → FinishTime (proc s' l) = StartTime (proc s' l) + BurstTime (proc s' l).
Proof.
  intros Hk Hl [k ->]%drive_ticks Hall l Hin.
  pose proof (np_ticks k 0 s Hk (loaded_inv s Hl)) as Hn.
  assert (H0 : ∀ l, l ∈ procs s → np 0 (proc s l)).
  { intros j Hj. destruct Hl as (_ & _ & Hp). destruct (Hp j Hj) as (? & ? & E & ? & ? & ?).
    unfold np. by rewrite E. }
  specialize (Hn H0 l Hin). unfold np in Hn. rewrite (Hall l Hin) in Hn. lia.
Qed.

(** *** Accounting *)
Lemma ticks_accounting n t s :
  inv t s →
  busyTime (s_core (ticks n t s)) + work (ticks n t s) = busyTime (s_core s) + work s ∧
  ∃ ids, GetGantt (ticks n t s) =
           GetGantt s ++ imap (λ i id, segment (t + Z.of_nat i) id) ids ∧
         length ids = n.
Proof.
  revert t s. induction n as [|n IH]; intros t s Hi; simpl.
  { split; [done|]. exists []. by rewrite app_nil_r. }
  destruct (s_tick_spec t s (proj1 Hi)) as [r Hts].
  destruct (work_tick t s r (proj1 Hi) Hts) as [Hw _].
  destruct (IH (t + 1) (s_Tick t s).2 (inv_tick t s Hi)) as (Hb & ids & Hg & Hlen).
  split; [rewrite Hb, (ts_busy _ _ _ _ Hts), Hw; lia|].
  destruct (ts_gantt _ _ _ _ Hts) as (id & Hg1 & _).
  exists (id :: ids). split; [|simpl; lia].
  rewrite Hg. unfold GetGantt at 1. rewrite Hg1, <- (assoc_L (++)). simpl.
  rewrite Z.add_0_r. do 2 f_equal. apply imap_ext. intros i x _. simpl.
  unfold segment. f_equal; lia.
Qed.
End runs.

(** ** The jobs of the CPU lab

    [procs] of [runCPULab]; every scheduler gets clones of them. *)
Definition lab_procs : list Process :=
  [NewProcess 1 "Job_A" 0 8; NewProcess 2 "Job_B" 1 4; NewProcess 3 "Job_C" 3 2].

Definition lab_heap (l : ploc) : Process :=
  Clone (default (NewProcess 0 "" 0 0) (lab_procs !! l)).

Definition lab_jobs : list ploc := seq 0 (length lab_procs).

Lemma lab_loaded `{SchedulerLaws Sch} (s : Sch) :
  s_wf s → heap (s_core s) = lab_heap → procs s = [] →
  Forall (λ l, s_ok (lab_heap l)) lab_jobs → loaded (add_all lab_jobs s).
Proof.
  intros Hwf Hh Hp Hok. apply add_all_loaded; [done..| |].
  - apply NoDup_seq.
  - unfold proc. rewrite Hh. rewrite Forall_forall in *. intros l Hl. split; [|by apply Hok].
    apply elem_of_seq in Hl. simpl in Hl.
    destruct l as [|[|[|?]]]; [..|lia]; repeat split; done.
Qed.
