(* ===== verification/SchedFIFO.v ===== *)
(** * First-in, first-out scheduling

    Models [src/pkg/cpu/sched_fifo.go]. *)

From S2P Require Import Prelude Process SchedCore SchedTheory.

Record FIFOScheduler := mkFIFO { fifo_core : Core }.

Definition NewFIFOScheduler (h : ploc → Process) : FIFOScheduler := mkFIFO (NewCore h).

Definition FIFO_Name (s : FIFOScheduler) : string := "FIFO (First-In, First-Out / FCFS)".

Definition FIFO_AddProcess (l : ploc) (s : FIFOScheduler) : FIFOScheduler :=
  mkFIFO (core_AddProcess l (fifo_core s)).

Definition FIFO_schedule (t : Z) (c : Core) : Core :=
  if bool_decide (running c = None) && (0 <? len (readyQueue c))
  then dispatch t 0 c else c.

Definition FIFO_Tick (t : Z) (s : FIFOScheduler) : option ploc * bool * FIFOScheduler :=
  let c := fifo_core s <| totalTime := t + 1 |> in
  let c := age (admitArrivals t c) in
  let c := FIFO_schedule t c in
  let c := exec t c in
  (running c, allDone c, mkFIFO c).
Arguments FIFO_Tick t s : simpl never.

#[export] Instance FIFO_scheduler : Scheduler FIFOScheduler := {|
  s_Name := FIFO_Name; s_AddProcess := FIFO_AddProcess; s_Tick := FIFO_Tick;
  s_core := fifo_core |}.

(** Dispatching the head of the queue of an idle CPU. *)
Lemma FIFO_schedule_resched t c : resched t c (FIFO_schedule t c).
Proof.
  unfold FIFO_schedule. destruct (running c) as [l|] eqn:Er; simpl.
  - by apply (resched_keep _ _ l).
  - destruct (readyQueue c) as [|l q] eqn:Eq; simpl; [by apply resched_idle|].
    apply (resched_dispatch t 0 c l); [done|]. by rewrite Eq.
Qed.

#[export] Instance FIFO_laws : SchedulerLaws FIFOScheduler.
Proof.
  refine {| s_wf := λ s : FIFOScheduler, wf_core (fifo_core s); s_ok := λ _, True |}.
  - done.
  - done.
  - intros. by apply core_add_wf.
  - intros t s Hwf. apply (core_tick t _ (FIFO_schedule t) Hwf).
    intros. apply FIFO_schedule_resched.
  - intros t s Hwf. eexists. apply (core_tick t _ (FIFO_schedule t) Hwf).
    intros. apply FIFO_schedule_resched.
  - intros t s. change (totalTime (exec t (FIFO_schedule t (age (admitArrivals t
      (fifo_core s <| totalTime := t + 1 |>))))) = t + 1). unfold FIFO_schedule.
    case_if; by autorewrite with sched_total.
  - done.
Defined.

(** ** First come, first served *)

Lemma FIFO_schedule_order t c : service_order (FIFO_schedule t c) = service_order c.
Proof.
  unfold FIFO_schedule. destruct (running c) as [l|] eqn:Er; simpl; [done|].
  destruct (readyQueue c) as [|l q] eqn:Eq; simpl; [done|].
  unfold dispatch, service_order. rewrite Eq, Er. simpl. by rewrite Eq.
Qed.

(** A tick appends the arrivals to the service order and changes nothing
    else in it. *)
Lemma FIFO_order_tick t s :
  wf_core (fifo_core s) →
  service_order (fifo_core (FIFO_Tick t s).2) =
  service_order (fifo_core s) ++
    filter (λ l, arrives t (heap (fifo_core s) l)) (allProcesses (fifo_core s)).
Proof.
  intros Hwf%(wf_core_totalTime _ (t + 1)). unfold FIFO_Tick. cbn [snd fifo_core].
  rewrite service_order_exec, FIFO_schedule_order.
  destruct (admit_exact t _ Hwf) as (Hq & Hr & Hc). unfold service_order.
  rewrite Hq, Hr, Hc. simpl. by rewrite <- !(assoc_L (++)).
Qed.

(** The service order at time [t] holds the processes that arrived before [t],
    by arrival time and, among equal times, in the order they were added. *)
Definition order_inv (key : ploc → Z) (t : Z) (s : FIFOScheduler) : Prop :=
  StronglySorted (λ x y, key x ≤ key y) (service_order (fifo_core s)) ∧
  ∀ z, filter (λ l, key l = z) (service_order (fifo_core s)) =
       if z <? t then filter (λ l, key l = z) (procs s) else [].

Lemma order_inv_lt key t s l :
  order_inv key t s → l ∈ service_order (fifo_core s) → key l < t.
Proof.
  intros [_ Hf] Hl. specialize (Hf (key l)). destruct (Z.ltb_spec (key l) t); [done|].
  by destruct (filter_nil_not_elem_of _ _ l Hf eq_refl).
Qed.

Lemma order_inv_tick key t s :
  inv t s → (∀ l, l ∈ procs s → ArrivalTime (proc s l) = key l) →
  order_inv key t s → order_inv key (t + 1) (FIFO_Tick t s).2.
Proof.
  intros Hi Hkey Ho. pose proof Hi as (Hwf & Ht & Hp).
  pose proof (λ l, order_inv_lt key t s l Ho) as Hlt. destruct Ho as [Hs Hf].
  assert (Ha : filter (λ l, arrives t (heap (fifo_core s) l)) (allProcesses (fifo_core s))
               = filter (λ l, key l = t) (procs s)).
  { apply filter_ext_in. intros l Hl. rewrite Is_true_true, (pinv_arrives t) by by apply Hp.
    rewrite bool_decide_eq_true, <- (Hkey l Hl). done. }
  unfold order_inv. rewrite FIFO_order_tick, Ha by done. split.
  - apply StronglySorted_app_2; [|done|].
    + intros x y Hx [Hy _]%list_elem_of_filter. apply Hlt in Hx. lia.
    + clear. induction (procs s) as [|x l IH]; [constructor|].
      rewrite filter_cons. case_decide; [|done]. constructor; [done|].
      apply Forall_forall. intros y [Hy _]%list_elem_of_filter. lia.
  - intros z. rewrite filter_app, Hf, list_filter_filter.
    change (FIFO_Tick t s) with (s_Tick t s). rewrite procs_tick by done.
    destruct (Z.ltb_spec z t), (Z.ltb_spec z (t + 1)); try lia.
    + rewrite (filter_none (λ l, key l = z ∧ key l = t)) by (intros; lia).
      by rewrite app_nil_r.
    + simpl. apply filter_ext_in. intros; simpl; lia.
    + simpl. apply filter_none. intros; simpl; lia.
Qed.

Lemma order_inv_ticks key n t s :
  inv t s → (∀ l, l ∈ procs s → ArrivalTime (proc s l) = key l) →
  order_inv key t s → order_inv key (t + Z.of_nat n) (ticks n t s).
Proof.
  intros Hi Hkey Ho.
  apply (ticks_ind (λ t s, (∀ l, l ∈ procs s → ArrivalTime (proc s l) = key l) ∧
                           order_inv key t s)); [|done..].
  intros t' s' Hi' [Hk Ho']. split; [|by apply order_inv_tick].
  intros l Hl. rewrite procs_tick in Hl by apply Hi'. rewrite <- (Hk l Hl).
  by apply (arrival_tick t' s' l (proj1 Hi')).
Qed.

Lemma FIFO_keeps_running : keeps_running (Sch := FIFOScheduler).
Proof.
  intros t s Hwf. eexists. split.
  - apply (core_tick t (fifo_core s) (FIFO_schedule t) Hwf).
    intros. apply FIFO_schedule_resched.
  - intros Hr. apply core_keeps; [done| |done].
    intros c1 l E. unfold FIFO_schedule. by rewrite E.
Qed.

Lemma FIFO_completed_order k s :
  loaded s → GetCompleted (ticks k 0 s) ≡ₚ procs s →
  (∀ l, l ∈ procs s → State (proc (ticks k 0 s) l) = StateTerminated) →
  GetCompleted (ticks k 0 s) = SliceStable (λ l, ArrivalTime (proc s l)) (procs s).
Proof.
  intros Hl Hc Hall. pose proof (loaded_inv s Hl) as Hi.
  set (key := λ l, ArrivalTime (proc s l)).
  destruct (order_inv_ticks key k 0 s) as [Hs Hf]; [done..| |].
  { unfold order_inv. change (fifo_core s) with (s_core s).
    rewrite (loaded_empty s Hl). split; [constructor|]. intros z.
    destruct (Z.ltb_spec z 0); [|done]. rewrite filter_nil. symmetry. apply filter_none.
    intros l Hin. destruct (proj2 (proj2 Hi) l Hin) as [? _]. unfold key. lia. }
  pose proof (inv_ticks k 0 s Hi) as (Hwf & _ & Hp). pose proof (procs_ticks k 0 s Hi) as Hps.
  rewrite <- Hps in Hc. apply (service_order_done _ Hwf) in Hc.
  change (completed (fifo_core (ticks k 0 s))) with (GetCompleted (ticks k 0 s)) in Hc.
  rewrite <- Hc. apply SliceStable_unique; [done|]. intros z. rewrite Hf, Hps.
  destruct (Z.ltb_spec z (0 + Z.of_nat k)); [done|]. symmetry. apply filter_none.
  intros l Hin Hz. pose proof Hin as Hin'. rewrite <- Hps in Hin'.
  specialize (Hp l Hin'). unfold pinv in Hp. rewrite (Hall l Hin) in Hp.
  assert (ArrivalTime (proc (ticks k 0 s) l) = key l); [|lia].
  by apply arrival_ticks.
Qed.

(** C24. Under FIFO every set of jobs is completed in the order of arrival,
    and the jobs that arrive together in the order in which they were added:
    the list of completed processes is the stable sort of the processes by
    arrival time.  No job is preempted: each one finishes exactly its burst
    time after it starts. *)
Theorem FIFO_completion_order (n : nat) (s : FIFOScheduler) :
  loaded s → total_burst s + last_arrival s ≤ Z.of_nat n →
  ∃ s', drive n 0 s = (true, s') ∧
    GetCompleted s' = SliceStable (λ l, ArrivalTime (proc s l)) (procs s) ∧
    ∀ l, l ∈ procs s →
      FinishTime (proc s' l) = StartTime (proc s' l) + BurstTime (proc s' l).
Proof.
  intros Hl Hn. destruct (drive_finishes n s Hl Hn) as (s' & Hd & Hc & Hf).
  exists s'. split; [done|]. split.
  - destruct (drive_ticks _ _ _ _ _ Hd) as [k ->].
    apply (FIFO_completed_order k); [done..|]. intros l Hin. apply Hf, Hin.
  - eapply (drive_np n s); [apply FIFO_keeps_running|done..|].
    intros l Hin. apply Hf, Hin.
Qed.

Definition lab_FIFO : FIFOScheduler := add_all lab_jobs (NewFIFOScheduler lab_heap).

Lemma FIFO_completion_order_witness :
  ∃ s', drive 100 0 lab_FIFO = (true, s') ∧
    GetCompleted s' = SliceStable (λ l, ArrivalTime (proc lab_FIFO l)) (procs lab_FIFO) ∧
    ∀ l, l ∈ procs lab_FIFO →
      FinishTime (proc s' l) = StartTime (proc s' l) + BurstTime (proc s' l).
Proof.
  apply FIFO_completion_order; [|by vm_compute].
  apply lab_loaded; [apply new_core_wf|done|done|by repeat constructor].
Defined.
