(* ===== verification/SchedSJF.v ===== *)
(** * Shortest job first and shortest time-to-completion first

    Models [src/pkg/cpu/sched_sjf.go]. *)

From S2P Require Import Prelude Process SchedCore SchedTheory.

(** Sorting the ready queue is invisible to the phases of a tick. *)
Definition sort_ready (key : Process → Z) (c : Core) : Core :=
  c <| readyQueue ::= SliceStable (λ l, key (heap c l)) |>.

Lemma resched_sort t key c c2 : resched t (sort_ready key c) c2 → resched t c c2.
Proof.
  intros []. unfold sort_ready in *. simpl in *. split; try done.
  by rewrite rs_perm, SliceStable_perm.
Qed.

Lemma sort_ready_empty key c : readyQueue (sort_ready key c) = [] → readyQueue c = [].
Proof.
  simpl. intros E. apply Permutation_nil_r. by rewrite <- SliceStable_perm, E.
Qed.

Lemma total_sort_ready key c : totalTime (sort_ready key c) = totalTime c.
Proof. done. Qed.
#[local] Hint Rewrite total_sort_ready : sched_total.

(** ** SJF *)
Record SJFScheduler := mkSJF { sjf_core : Core }.

Definition NewSJFScheduler (h : ploc → Process) : SJFScheduler := mkSJF (NewCore h).

Definition SJF_Name (s : SJFScheduler) : string :=
  "SJF (Shortest Job First - Non-Preemptive)".

Definition SJF_AddProcess (l : ploc) (s : SJFScheduler) : SJFScheduler :=
  mkSJF (core_AddProcess l (sjf_core s)).

Definition SJF_schedule (t : Z) (c : Core) : Core :=
  if bool_decide (running c = None) && (0 <? len (readyQueue c))
  then dispatch t 0 (sort_ready BurstTime c) else c.

Definition SJF_Tick (t : Z) (s : SJFScheduler) : option ploc * bool * SJFScheduler :=
  let c := sjf_core s <| totalTime := t + 1 |> in
  let c := age (admitArrivals t c) in
  let c := SJF_schedule t c in
  let c := exec t c in
  (running c, allDone c, mkSJF c).
Arguments SJF_Tick t s : simpl never.

#[export] Instance SJF_scheduler : Scheduler SJFScheduler := {|
  s_Name := SJF_Name; s_AddProcess := SJF_AddProcess; s_Tick := SJF_Tick;
  s_core := sjf_core |}.

Lemma SJF_schedule_resched t c : resched t c (SJF_schedule t c).
Proof.
  unfold SJF_schedule. destruct (running c) as [l|] eqn:Er; simpl.
  - by apply (resched_keep _ _ l).
  - destruct (readyQueue (sort_ready BurstTime c)) as [|l q] eqn:Eq.
    + apply sort_ready_empty in Eq. rewrite Eq. simpl. by apply resched_idle.
    + destruct (readyQueue c) as [|k q'] eqn:Eq'; [by simpl in Eq; rewrite Eq' in Eq|].
      apply (resched_sort t BurstTime), (resched_dispatch t 0 _ l); [done|].
      by rewrite Eq.
Qed.

#[export] Instance SJF_laws : SchedulerLaws SJFScheduler.
Proof.
  refine {| s_wf := λ s : SJFScheduler, wf_core (sjf_core s); s_ok := λ _, True |}.
  - done.
  - done.
  - intros. by apply core_add_wf.
  - intros t s Hwf. apply (core_tick t _ (SJF_schedule t) Hwf).
    intros. apply SJF_schedule_resched.
  - intros t s Hwf. eexists. apply (core_tick t _ (SJF_schedule t) Hwf).
    intros. apply SJF_schedule_resched.
  - intros t s. change (totalTime (exec t (SJF_schedule t (age (admitArrivals t
      (sjf_core s <| totalTime := t + 1 |>))))) = t + 1). unfold SJF_schedule.
    case_if; by autorewrite with sched_total.
  - done.
Defined.

(** ** STCF *)
Record STCFScheduler := mkSTCF { stcf_core : Core }.

Definition NewSTCFScheduler (h : ploc → Process) : STCFScheduler := mkSTCF (NewCore h).

Definition STCF_Name (s : STCFScheduler) : string :=
  "STCF (Shortest Time-to-Completion First - Preemptive)".

Definition STCF_AddProcess (l : ploc) (s : STCFScheduler) : STCFScheduler :=
  mkSTCF (core_AddProcess l (stcf_core s)).

(** The preempted process goes to the end of a non-empty queue, so the head of
    the queue is still [shortestReady]. *)
Definition STCF_schedule (t : Z) (c : Core) : Core :=
  if 0 <? len (readyQueue c) then
    let c := sort_ready RemainingTime c in
    match readyQueue c with
    | [] => c
    | shortestReady :: _ =>
        match running c with
        | None => dispatch t 0 c
        | Some r =>
            if RemainingTime (heap c shortestReady) <? RemainingTime (heap c r)
            then dispatch t 0 (preempt c) else c
        end
    end
  else c.

Definition STCF_Tick (t : Z) (s : STCFScheduler) : option ploc * bool * STCFScheduler :=
  let c := stcf_core s <| totalTime := t + 1 |> in
  let c := age (admitArrivals t c) in
  let c := STCF_schedule t c in
  let c := exec t c in
  (running c, allDone c, mkSTCF c).
Arguments STCF_Tick t s : simpl never.

#[export] Instance STCF_scheduler : Scheduler STCFScheduler := {|
  s_Name := STCF_Name; s_AddProcess := STCF_AddProcess; s_Tick := STCF_Tick;
  s_core := stcf_core |}.

Lemma STCF_schedule_resched t c : resched t c (STCF_schedule t c).
Proof.
  unfold STCF_schedule. destruct (readyQueue c) as [|k q'] eqn:Eq'.
  { simpl. destruct (running c) as [l|] eqn:Er; [by apply (resched_keep _ _ l)|].
    by apply resched_idle. }
  apply (resched_sort t RemainingTime). change (0 <? len (k :: q')) with true.
  destruct (readyQueue (sort_ready RemainingTime c)) as [|l q] eqn:Eq.
  { apply sort_ready_empty in Eq. congruence. }
  generalize dependent (sort_ready RemainingTime c). clear c k q' Eq'. intros c Eq.
  destruct (running c) as [r|] eqn:Er.
  - case_if; [|by apply (resched_keep _ _ r)].
    apply resched_preempt; [by rewrite Er|].
    apply (resched_dispatch t 0 _ l); unfold preempt; rewrite Er; simpl; [done|].
    by rewrite Eq.
  - apply (resched_dispatch t 0 _ l); [done|]. by rewrite Eq.
Qed.

#[export] Instance STCF_laws : SchedulerLaws STCFScheduler.
Proof.
  refine {| s_wf := λ s : STCFScheduler, wf_core (stcf_core s); s_ok := λ _, True |}.
  - done.
  - done.
  - intros. by apply core_add_wf.
  - intros t s Hwf. apply (core_tick t _ (STCF_schedule t) Hwf).
    intros. apply STCF_schedule_resched.
  - intros t s Hwf. eexists. apply (core_tick t _ (STCF_schedule t) Hwf).
    intros. apply STCF_schedule_resched.
  - intros t s. change (totalTime (exec t (STCF_schedule t (age (admitArrivals t
      (stcf_core s <| totalTime := t + 1 |>))))) = t + 1). unfold STCF_schedule.
    repeat case_match; by autorewrite with sched_total.
  - done.
Defined.

(** ** The policies *)

(** The processes a decision at time [t] chooses from, in terms of the control
    blocks at the start of the tick. *)
Lemma core_candidates t c l :
  wf_core c → l ∈ allProcesses c → runnable (arrived_p t (heap c l)) →
  let c1 := age (admitArrivals t (c <| totalTime := t + 1 |>)) in
  running c1 = Some l ∨ l ∈ readyQueue c1.
Proof.
  intros Hwf Hl Hr. apply wf_core_totalTime with (z := t + 1) in Hwf.
  by apply (admitted_runnable t _ _ l Hwf (admitted_core t _ Hwf)).
Qed.

(** Admission changes neither burst nor remaining times. *)
Lemma core_admitted_times t c l :
  wf_core c → l ∈ allProcesses c →
  let c1 := age (admitArrivals t (c <| totalTime := t + 1 |>)) in
  BurstTime (heap c1 l) = BurstTime (heap c l) ∧
  RemainingTime (heap c1 l) = RemainingTime (heap c l).
Proof.
  intros Hwf Hl. apply wf_core_totalTime with (z := t + 1) in Hwf.
  destruct (ad_heap _ _ _ (admitted_core t _ Hwf) l Hl).
  cbv zeta. rewrite se_burst, se_remaining. simpl. unfold arrived_p, age_p, admit_p.
  by repeat case_if.
Qed.

Lemma SJF_schedule_min t c x l :
  running c = None → running (SJF_schedule t c) = Some x → l ∈ readyQueue c →
  x ∈ readyQueue c ∧ BurstTime (heap c x) ≤ BurstTime (heap c l).
Proof.
  intros Hr. unfold SJF_schedule. rewrite Hr. simpl. case_if; [|congruence].
  unfold dispatch. simpl.
  destruct (SliceStable _ (readyQueue c)) as [|y q] eqn:E; simpl; [congruence|].
  intros [= <-] Hl. apply SliceStable_head in E as [Hy Hmin]. auto.
Qed.

Lemma core_queued_in t c l :
  wf_core c → let c1 := age (admitArrivals t (c <| totalTime := t + 1 |>)) in
  running c1 = Some l ∨ l ∈ readyQueue c1 → l ∈ allProcesses c.
Proof.
  intros Hwf. apply wf_core_totalTime with (z := t + 1) in Hwf.
  pose proof (admitted_core t _ Hwf) as Had. pose proof (admitted_wf _ _ _ Hwf Had) as Hwf1.
  intros c1 Hl. change (l ∈ allProcesses (c <| totalTime := t + 1 |>)).
  rewrite <- (ad_all _ _ _ Had). apply (wf_in _ Hwf1). unfold queued.
  rewrite !elem_of_app, elem_of_olist. tauto.
Qed.

(** In every tick SJF keeps the running process, and when the CPU is free
    it runs a runnable process whose burst time is the least of all runnable
    ones, the processes that arrive in this tick included. *)
Theorem SJF_runs_shortest_job (t : Z) (s : SJFScheduler) :
  wf_core (sjf_core s) →
  ∃ r, tick_spec t r (sjf_core s) (sjf_core (SJF_Tick t s).2) ∧
    (∀ k, running (sjf_core s) = Some k → r = Some k) ∧
    (∀ x l, running (sjf_core s) = None → r = Some x → l ∈ allProcesses (sjf_core s) →
       runnable (arrived_p t (heap (sjf_core s) l)) →
       BurstTime (heap (sjf_core s) x) ≤ BurstTime (heap (sjf_core s) l)).
Proof.
  intros Hwf. eexists. split; [|split].
  - apply (core_tick t _ (SJF_schedule t) Hwf). intros. apply SJF_schedule_resched.
  - intros k Hk. rewrite core_keeps; [done..| |congruence].
    intros c1 l E. unfold SJF_schedule. by rewrite E.
  - intros x l Hr Hx Hl Hrun.
    destruct (admit_exact t _ (wf_core_totalTime _ (t + 1) Hwf)) as (_ & Hr1 & _).
    pose proof (core_candidates t _ l Hwf Hl Hrun) as Hc.
    change (running (sjf_core s <| totalTime := t + 1 |>)) with (running (sjf_core s)) in Hr1.
    rewrite Hr in Hr1. destruct Hc as [Hc|Hc]; [congruence|].
    destruct (SJF_schedule_min t _ x l Hr1 Hx Hc) as [Hxq Hle].
    assert (Hxin : x ∈ allProcesses (sjf_core s)) by (apply (core_queued_in t); [done|by right]).
    destruct (core_admitted_times t _ x Hwf Hxin) as [<- _].
    destruct (core_admitted_times t _ l Hwf Hl) as [<- _]. done.
Qed.

Lemma STCF_schedule_min t c x :
  running (STCF_schedule t c) = Some x →
  (running c = Some x ∨ x ∈ readyQueue c) ∧
  (∀ l, running c = Some l ∨ l ∈ readyQueue c →
     RemainingTime (heap c x) ≤ RemainingTime (heap c l)) ∧
  (∀ k, running c = Some k → x ≠ k → RemainingTime (heap c x) < RemainingTime (heap c k)).
Proof.
  unfold STCF_schedule. destruct (readyQueue c) as [|z q'] eqn:Eq; simpl.
  { intros Hr. split; [by left|]. split; intros l; [|congruence].
    intros [?|?%elem_of_nil]; [|done]. simplify_eq. lia. }
  rewrite Eq. destruct (SliceStable _ (z :: q')) as [|y q] eqn:E.
  { apply (f_equal length) in E. by rewrite SliceStable_perm in E. }
  pose proof E as E'. apply SliceStable_head in E' as [Hy Hmin].
  destruct (running c) as [r|] eqn:Er.
  - case_if; go_bool.
    + unfold dispatch, preempt. simpl. rewrite ?Er. simpl. rewrite ?Eq, E. simpl.
      intros [= <-]. split; [by right|]. split.
      * intros l [?|Hl]; simplify_eq; [lia|by apply Hmin].
      * intros k ?; simplify_eq. lia.
    + simpl. rewrite Er. intros [= <-]. split; [by left|]. split; [|intros; simplify_eq].
      intros l [?|Hl]; simplify_eq; [lia|]. specialize (Hmin l Hl). lia.
  - unfold dispatch. simpl. rewrite ?Eq, E. simpl. intros [= <-].
    split; [by right|]. split; [|done]. intros l [?|Hl]; [done|by apply Hmin].
Qed.

(** C25. In every tick STCF runs a process whose remaining time is the least
    of all runnable ones, and it preempts the running process only for one
    that has strictly less left. *)
Theorem STCF_runs_shortest_remaining (t : Z) (s : STCFScheduler) :
  wf_core (stcf_core s) →
  ∃ r, tick_spec t r (stcf_core s) (stcf_core (STCF_Tick t s).2) ∧
    (∀ x l, r = Some x → l ∈ allProcesses (stcf_core s) →
       runnable (arrived_p t (heap (stcf_core s) l)) →
       RemainingTime (heap (stcf_core s) x) ≤ RemainingTime (heap (stcf_core s) l)) ∧
    (∀ x k, r = Some x → running (stcf_core s) = Some k → x ≠ k →
       RemainingTime (heap (stcf_core s) x) < RemainingTime (heap (stcf_core s) k)).
Proof.
  intros Hwf. eexists. split.
  { apply (core_tick t _ (STCF_schedule t) Hwf). intros. apply STCF_schedule_resched. }
  pose proof (λ l, core_candidates t _ l Hwf) as Hcand.
  pose proof (λ l, core_queued_in t _ l Hwf) as Hin.
  pose proof (λ l H, proj2 (core_admitted_times t _ l Hwf H)) as Htimes.
  destruct (admit_exact t _ (wf_core_totalTime _ (t + 1) Hwf)) as (_ & Hr1 & _).
  change (running (stcf_core s <| totalTime := t + 1 |>)) with (running (stcf_core s)) in Hr1.
  simpl in Htimes, Hin. set (c1 := age _) in *.
  split.
  - intros x l (Hx & Hmin & _)%STCF_schedule_min Hl Hrun.
    rewrite <- (Htimes x), <- (Htimes l) by auto. by apply Hmin, Hcand.
  - intros x k (Hx & _ & Hlt)%STCF_schedule_min Hk Hne. rewrite <- Hr1 in Hk.
    rewrite <- (Htimes x), <- (Htimes k) by auto. by apply Hlt.
Qed.

(** ** The CPU lab *)
Definition lab_SJF : SJFScheduler := add_all lab_jobs (NewSJFScheduler lab_heap).
Definition lab_STCF : STCFScheduler := add_all lab_jobs (NewSTCFScheduler lab_heap).

Lemma lab_SJF_wf n : wf_core (sjf_core (ticks n 0 lab_SJF)).
Proof.
  apply (ticks_wf (Hlaws := SJF_laws) n lab_SJF), lab_loaded; try done.
  - apply new_core_wf.
  - by repeat constructor.
Qed.

Lemma lab_STCF_wf n : wf_core (stcf_core (ticks n 0 lab_STCF)).
Proof.
  apply (ticks_wf (Hlaws := STCF_laws) n lab_STCF), lab_loaded; try done.
  - apply new_core_wf.
  - by repeat constructor.
Qed.

Lemma SJF_runs_shortest_job_witness :
  let s := ticks 8 0 lab_SJF in
  ∃ r, tick_spec 8 r (sjf_core s) (sjf_core (SJF_Tick 8 s).2) ∧
    (∀ k, running (sjf_core s) = Some k → r = Some k) ∧
    (∀ x l, running (sjf_core s) = None → r = Some x → l ∈ allProcesses (sjf_core s) →
       runnable (arrived_p 8 (heap (sjf_core s) l)) →
       BurstTime (heap (sjf_core s) x) ≤ BurstTime (heap (sjf_core s) l)).
Proof. exact (SJF_runs_shortest_job 8 _ (lab_SJF_wf 8)). Defined.

Lemma STCF_runs_shortest_remaining_witness :
  let s := ticks 1 0 lab_STCF in
  ∃ r, tick_spec 1 r (stcf_core s) (stcf_core (STCF_Tick 1 s).2) ∧
    (∀ x l, r = Some x → l ∈ allProcesses (stcf_core s) →
       runnable (arrived_p 1 (heap (stcf_core s) l)) →
       RemainingTime (heap (stcf_core s) x) ≤ RemainingTime (heap (stcf_core s) l)) ∧
    (∀ x k, r = Some x → running (stcf_core s) = Some k → x ≠ k →
       RemainingTime (heap (stcf_core s) x) < RemainingTime (heap (stcf_core s) k)).
Proof. exact (STCF_runs_shortest_remaining 1 _ (lab_STCF_wf 1)). Defined.
