(* ===== verification/SchedRR.v ===== *)
(** * Round robin

    Models [src/pkg/cpu/sched_rr.go]. *)

From S2P Require Import Prelude Process SchedCore SchedTheory.

Record RRScheduler := mkRR {
  rr_core : Core; rr_Quantum : Z; rr_currentSlice : Z }.

Definition NewRRScheduler (h : ploc → Process) (quantum : Z) : RRScheduler :=
  mkRR (NewCore h) (if quantum <=? 0 then 2 else quantum) 0.

Definition RR_Name (s : RRScheduler) : string :=
  "Round Robin (RR, Quantum = " +:+ fmt_d (rr_Quantum s) +:+ ")".

Definition RR_AddProcess (l : ploc) (s : RRScheduler) : RRScheduler :=
  mkRR (core_AddProcess l (rr_core s)) (rr_Quantum s) (rr_currentSlice s).

(** The quantum-expired check, which the lottery scheduler has as well. *)
Definition expire (quantum : Z) (cs : Core * Z) : Core * Z :=
  let '(c, slice) := cs in
  if bool_decide (running c ≠ None) && (quantum <=? slice)
  then (preempt c, 0) else (c, slice).

(** One time unit: the slice grows while a process runs and is reset when the
    process finishes. *)
Definition exec_slice (t : Z) (cs : Core * Z) : Core * Z :=
  let '(c, slice) := cs in
  let c' := exec t c in
  (c', match running c with
       | None => slice
       | Some _ => if running c' is Some _ then slice + 1 else 0
       end).

Definition RR_schedule (t quantum : Z) (cs : Core * Z) : Core * Z :=
  let '(c, slice) := expire quantum cs in
  if bool_decide (running c = None) && (0 <? len (readyQueue c))
  then (dispatch t 0 c, 0) else (c, slice).

Definition RR_Tick (t : Z) (s : RRScheduler) : option ploc * bool * RRScheduler :=
  let c := rr_core s <| totalTime := t + 1 |> in
  let c := age (admitArrivals t c) in
  let cs := RR_schedule t (rr_Quantum s) (c, rr_currentSlice s) in
  let '(c, slice) := exec_slice t cs in
  (running c, allDone c, mkRR c (rr_Quantum s) slice).
Arguments RR_Tick t s : simpl never.

#[export] Instance RR_scheduler : Scheduler RRScheduler := {|
  s_Name := RR_Name; s_AddProcess := RR_AddProcess; s_Tick := RR_Tick;
  s_core := rr_core |}.

(** ** Laws *)
Lemma expire_cases q c slice :
  (running c ≠ None ∧ q ≤ slice ∧ expire q (c, slice) = (preempt c, 0)) ∨
  ((running c = None ∨ slice < q) ∧ expire q (c, slice) = (c, slice)).
Proof.
  unfold expire. destruct (running c) as [l|] eqn:E; simpl; [|auto].
  destruct (Z.leb_spec q slice); [left|right]; auto.
Qed.

Lemma preempt_running c : running (preempt c) = None.
Proof. unfold preempt. by destruct (running c) eqn:E. Qed.

Lemma preempt_ready c l :
  running c = Some l → readyQueue (preempt c) = readyQueue c ++ [l].
Proof. unfold preempt. by intros ->. Qed.

Lemma RR_schedule_resched t q c slice :
  resched t c (RR_schedule t q (c, slice)).1.
Proof.
  unfold RR_schedule. destruct (expire_cases q c slice) as [(Hr & _ & ->)|[_ ->]].
  - apply resched_preempt; [done|]. rewrite preempt_running. simpl.
    destruct (readyQueue (preempt c)) as [|l ls] eqn:Eq; simpl.
    + apply resched_idle; [apply preempt_running|done].
    + apply (resched_dispatch t 0 _ l); [apply preempt_running|by rewrite Eq].
  - destruct (running c) as [l|] eqn:Er; simpl; [by apply (resched_keep _ _ l)|].
    destruct (readyQueue c) as [|l q'] eqn:Eq; simpl; [by apply resched_idle|].
    apply (resched_dispatch t 0 c l); [done|]. by rewrite Eq.
Qed.

Lemma RR_Tick_core t s :
  rr_core (RR_Tick t s).2 =
    exec t (RR_schedule t (rr_Quantum s)
      (age (admitArrivals t (rr_core s <| totalTime := t + 1 |>)), rr_currentSlice s)).1.
Proof. unfold RR_Tick. by destruct (RR_schedule _ _ _). Qed.

Lemma RR_core_tick t s :
  wf_core (rr_core s) →
  let c2 := (RR_schedule t (rr_Quantum s)
    (age (admitArrivals t (rr_core s <| totalTime := t + 1 |>)), rr_currentSlice s)).1 in
  wf_core (rr_core (RR_Tick t s).2) ∧
  tick_spec t (running c2) (rr_core s) (rr_core (RR_Tick t s).2).
Proof.
  intros Hwf. rewrite RR_Tick_core.
  apply (core_tick t _ (λ c, (RR_schedule t (rr_Quantum s) (c, rr_currentSlice s)).1) Hwf).
  intros. apply RR_schedule_resched.
Qed.

(** The slice counts the ticks of the current dispatch. *)
Definition slice_inv (quantum : Z) (c : Core) (slice : Z) : Prop :=
  match running c with None => slice = 0 | Some _ => 1 ≤ slice ≤ quantum end.

Lemma exec_slice_inv t q c slice :
  0 < q → match running c with None => slice = 0 | Some _ => 0 ≤ slice < q end →
  slice_inv q (exec_slice t (c, slice)).1 (exec_slice t (c, slice)).2.
Proof.
  intros Hq Hs. unfold slice_inv. simpl. unfold exec, exec_as.
  destruct (running c) as [l|] eqn:Er; simpl; [|by rewrite Er].
  destruct (_ =? 0); simpl; [done|]. rewrite Er. lia.
Qed.

Lemma RR_schedule_slice t q c slice :
  0 < q → slice_inv q c slice →
  match running (RR_schedule t q (c, slice)).1 with
  | None => (RR_schedule t q (c, slice)).2 = 0
  | Some _ => 0 ≤ (RR_schedule t q (c, slice)).2 < q
  end.
Proof.
  intros Hq Hs. unfold RR_schedule.
  assert (Hd : ∀ c : Core, running c = None → (0 <? len (readyQueue c)) = true →
    match running (dispatch t 0 c) with None => 0 = 0 | Some _ => 0 ≤ 0 < q end).
  { intros c' Hr Hl. unfold dispatch. destruct (readyQueue c') as [|l ls]; simpl; [done|lia]. }
  unfold slice_inv in Hs.
  destruct (expire_cases q c slice) as [(Hr & _ & ->)|[Hlt ->]];
    destruct (_ && _) eqn:Heqb; simpl.
  - apply Hd; [apply preempt_running|by apply andb_true_iff in Heqb as []].
  - by rewrite preempt_running.
  - apply andb_true_iff in Heqb as [Hr%bool_decide_eq_true Hl]. by apply Hd.
  - destruct (running c); [|done]. destruct Hlt; [done|lia].
Qed.

Definition RR_wf (s : RRScheduler) : Prop :=
  wf_core (rr_core s) ∧ 0 < rr_Quantum s ∧
  slice_inv (rr_Quantum s) (rr_core s) (rr_currentSlice s).

Lemma RR_tick_wf t s : RR_wf s → RR_wf (RR_Tick t s).2.
Proof.
  intros (Hwf & Hq & Hs). split; [by apply RR_core_tick|].
  unfold RR_Tick. destruct (RR_schedule _ _ _) as [c2 slice2] eqn:E. simpl.
  split; [done|]. apply (exec_slice_inv t _ c2 slice2 Hq).
  pose proof (RR_schedule_slice t (rr_Quantum s)
    (age (admitArrivals t (rr_core s <| totalTime := t + 1 |>))) (rr_currentSlice s) Hq) as Hsch.
  rewrite E in Hsch. apply Hsch. unfold slice_inv in *.
  by destruct (admit_exact t _ (wf_core_totalTime _ (t + 1) Hwf)) as (_ & -> & _).
Qed.

#[export] Instance RR_laws : SchedulerLaws RRScheduler.
Proof.
  refine {| s_wf := RR_wf; s_ok := λ _, True |}.
  - by intros s [].
  - done.
  - intros l s (Hwf & Hq & Hs) ???. split; [by apply core_add_wf|]. done.
  - intros t s. apply RR_tick_wf.
  - intros t s [Hwf _]. eexists. by apply RR_core_tick.
  - intros t s. unfold s_Tick, s_core, RR_scheduler, RR_Tick, RR_schedule, expire.
    repeat case_if; cbn [snd rr_core exec_slice]; by autorewrite with sched_total.
  - intros t s. unfold s_Tick, s_core. simpl. unfold RR_Tick.
    by destruct (RR_schedule _ _ _).
Defined.

(** ** Bounded waiting *)

(** The number of ticks before the process at index [i] of the ready queue
    gets the CPU, at most. *)
Definition wait_bound (q : Z) (c : Core) (slice : Z) (i : nat) : Z :=
  Z.of_nat i * q + (if running c is Some _ then q - slice else 0).

Lemma RR_schedule_wait t q c slice i l :
  0 < q → slice_inv q c slice → readyQueue c !! i = Some l →
  let '(c2, slice2) := RR_schedule t q (c, slice) in
  running c2 = Some l ∨
  0 ≤ slice2 < q ∧ running c2 ≠ None ∧ ∃ i', readyQueue c2 !! i' = Some l ∧
    Z.of_nat i' * q + (q - slice2) ≤ wait_bound q c slice i.
Proof.
  intros Hq Hs Hi. unfold RR_schedule, slice_inv, wait_bound in *.
  assert (Hd : ∀ c' : Core, readyQueue c' !! i = Some l →
    running (dispatch t 0 c') = Some l ∨
    running (dispatch t 0 c') ≠ None ∧ ∃ i', readyQueue (dispatch t 0 c') !! i' = Some l ∧
      Z.of_nat i' * q + (q - 0) ≤ Z.of_nat i * q).
  { intros c' Hi'. unfold dispatch.
    destruct (readyQueue c') as [|k ls] eqn:Eq; [done|]. simpl. rewrite Eq. simpl.
    destruct i as [|i]; simpl in Hi'; [by left|]. right. split; [done|].
    exists i. split; [done|]. lia. }
  destruct (expire_cases q c slice) as [(Hr & Hge & ->)|[Hlt ->]].
  - rewrite preempt_running. destruct (running c) as [r|] eqn:Er; [|done]. simpl.
    assert (Hi' : readyQueue (preempt c) !! i = Some l).
    { rewrite (preempt_ready c r Er). by apply lookup_app_l_Some. }
    destruct (readyQueue (preempt c)) as [|k ls] eqn:Eq; [done|]. rewrite <- Eq in *.
    assert ((0 <? len (readyQueue (preempt c))) = true) as -> by (by rewrite Eq).
    destruct (Hd _ Hi') as [?|(? & i' & ? & ?)]; [by left|right].
    split; [lia|]. split; [done|]. exists i'. split; [done|lia].
  - destruct (running c) as [r|] eqn:Er; simpl.
    + right. destruct Hlt as [?|Hlt]; [done|]. rewrite Er. split; [lia|].
      split; [done|]. exists i. split; [done|lia].
    + destruct (readyQueue c) as [|k ls] eqn:Eq; [done|]. rewrite <- Eq in *.
      assert ((0 <? len (readyQueue c)) = true) as -> by (by rewrite Eq).
      destruct (Hd _ Hi) as [?|(? & i' & ? & ?)]; [by left|right].
      split; [lia|]. split; [done|]. exists i'. split; [done|lia].
Qed.

Lemma RR_step t s i l :
  RR_wf s → readyQueue (rr_core s) !! i = Some l →
  let s' := (RR_Tick t s).2 in
  RemainingTime (heap (rr_core s') l) = RemainingTime (heap (rr_core s) l) - 1 ∨
  RemainingTime (heap (rr_core s') l) = RemainingTime (heap (rr_core s) l) ∧
  ∃ i', readyQueue (rr_core s') !! i' = Some l ∧
    wait_bound (rr_Quantum s') (rr_core s') (rr_currentSlice s') i' <
    wait_bound (rr_Quantum s) (rr_core s) (rr_currentSlice s) i.
Proof.
  intros (Hwf & Hq & Hs) Hi s'.
  destruct (RR_core_tick t s Hwf) as [_ Hts].
  destruct (admit_exact t _ (wf_core_totalTime _ (t + 1) Hwf)) as (Hrq & Hr1 & _).
  assert (Hl : l ∈ allProcesses (rr_core s)).
  { apply (wf_in _ Hwf). unfold queued. apply list_elem_of_lookup_2 in Hi. set_solver. }
  pose proof (ts_procs _ _ _ _ Hts l Hl) as [Hrem _]%proc_step_remaining.
  assert (Hi1 : readyQueue (age (admitArrivals t (rr_core s <| totalTime := t + 1 |>))) !! i = Some l).
  { rewrite Hrq. by apply lookup_app_l_Some. }
  subst s'. unfold RR_Tick in *.
  set (c1 := age (admitArrivals t (rr_core s <| totalTime := t + 1 |>))) in *.
  assert (Hs1 : slice_inv (rr_Quantum s) c1 (rr_currentSlice s)).
  { unfold slice_inv. by rewrite Hr1. }
  pose proof (RR_schedule_wait t _ c1 _ i l Hq Hs1 Hi1) as Hw.
  unfold wait_bound in *. rewrite Hr1 in Hw.
  destruct (RR_schedule _ _ _) as [c2 slice2] eqn:E. simpl in *.
  destruct Hw as [Hrun|(Hsl & Hrun & i' & Hi' & Hb)].
  { left. rewrite Hrem, Hrun, bool_decide_true by done. lia. }
  case_bool_decide as Hd; [left; lia|right]. split; [lia|]. exists i'.
  rewrite (ex_ready _ _ _ (executed_core t c2)). split; [done|].
  pose proof (ex_queues _ _ _ (executed_core t c2)) as Hex.
  destruct (running c2) as [r|]; [|done].
  destruct (_ =? 1); destruct Hex as [-> _]; lia.
Qed.

Lemma RR_wait n t s i l :
  RR_wf s → readyQueue (rr_core s) !! i = Some l →
  wait_bound (rr_Quantum s) (rr_core s) (rr_currentSlice s) i < Z.of_nat n →
  ∃ k, (k ≤ n)%nat ∧ RemainingTime (proc (ticks k t s) l) = RemainingTime (proc s l) - 1.
Proof.
  revert t s i. induction n as [|n IH]; intros t s i Hwf Hi Hn.
  { exfalso. destruct Hwf as (_ & ? & Hs). unfold wait_bound, slice_inv in *.
    destruct (running (rr_core s)); lia. }
  destruct (RR_step t s i l Hwf Hi) as [Hr|(Hr & i' & Hi' & Hlt)].
  { exists 1%nat. split; [lia|done]. }
  destruct (IH (t + 1) (RR_Tick t s).2 i') as (k & Hk & Hrem);
    [by apply RR_tick_wf|done|lia|].
  exists (S k). split; [lia|]. change (ticks (S k) t s) with (ticks k (t + 1) (RR_Tick t s).2).
  rewrite Hrem. unfold proc at 1. simpl. by rewrite Hr.
Qed.

(** C26. Round robin is free of starvation: a process that waits at index [i]
    of the ready queue is executed within [(i + 1) * Quantum] ticks, whatever
    else arrives in the meantime. *)
Theorem RR_bounded_waiting (t : Z) (s : RRScheduler) (i : nat) (l : ploc) :
  RR_wf s → readyQueue (rr_core s) !! i = Some l →
  ∃ k, Z.of_nat k ≤ (Z.of_nat i + 1) * rr_Quantum s ∧
    RemainingTime (proc (ticks k t s) l) = RemainingTime (proc s l) - 1.
Proof.
  intros Hwf Hi. pose proof Hwf as (_ & Hq & Hs).
  destruct (RR_wait (Z.to_nat ((Z.of_nat i + 1) * rr_Quantum s)) t s i l Hwf Hi)
    as (k & Hk & Hrem).
  - unfold wait_bound, slice_inv in *. destruct (running (rr_core s)); lia.
  - exists k. split; [lia|done].
Qed.

(** ** The CPU lab *)
Lemma NewRR_wf h quantum : RR_wf (NewRRScheduler h quantum).
Proof.
  split; [apply new_core_wf|]. split; [|done]. simpl.
  destruct (Z.leb_spec quantum 0); lia.
Qed.

Definition lab_RR : RRScheduler := add_all lab_jobs (NewRRScheduler lab_heap 2).

Lemma lab_RR_wf n : RR_wf (ticks n 0 lab_RR).
Proof.
  apply (ticks_wf (Hlaws := RR_laws) n lab_RR), lab_loaded; try done.
  - apply NewRR_wf.
  - by repeat constructor.
Qed.

Lemma RR_bounded_waiting_witness :
  let s := ticks 4 0 lab_RR in
  readyQueue (rr_core s) !! 1%nat = Some 2%nat ∧
  ∃ k, Z.of_nat k ≤ (Z.of_nat 1 + 1) * rr_Quantum s ∧
    RemainingTime (proc (ticks k 4 s) 2%nat) = RemainingTime (proc s 2%nat) - 1.
Proof.
  intros s. assert (Hi : readyQueue (rr_core s) !! 1%nat = Some 2%nat) by by vm_compute.
  split; [exact Hi|]. exact (RR_bounded_waiting 4 s 1 2%nat (lab_RR_wf 4) Hi).
Defined.
