(* ===== verification/SchedLottery.v ===== *)
(** * Lottery scheduling

    Models [src/pkg/cpu/sched_lottery.go].  The generator [math/rand] is a
    parameter with the documented contract of [Intn]. *)

From S2P Require Import Prelude Process SchedCore SchedTheory SchedRR.

(** [rand.New(rand.NewSource(seed))] and [Intn] of a [rand.Rand]: returns a
    non-negative pseudo-random number in the half-open interval from 0 to n. *)
Class Rng (R : Type) := {
  rand_New : Z → R;
  Intn : Z → R → Z * R;
  Intn_range : ∀ n r, 0 < n → 0 ≤ (Intn n r).1 < n }.

Section lottery.
Context `{Rng R}.

Record LotteryScheduler := mkLottery {
  lot_core : Core; lot_Quantum : Z; lot_currentSlice : Z; rng : R }.

Definition NewLotteryScheduler (h : ploc → Process) (quantum seed : Z) : LotteryScheduler :=
  mkLottery (NewCore h) (if quantum <=? 0 then 2 else quantum) 0 (rand_New seed).

Definition Lottery_Name (s : LotteryScheduler) : string :=
  "Lottery Scheduler (Proportional Share, Quantum=" +:+ fmt_d (lot_Quantum s) +:+ ")".

Definition Lottery_AddProcess (l : ploc) (s : LotteryScheduler) : LotteryScheduler :=
  mkLottery (core_AddProcess l (lot_core s)) (lot_Quantum s) (lot_currentSlice s) (rng s).

Definition totalTickets (c : Core) : Z := sumZ (λ l, Tickets (heap c l)) (readyQueue c).

(** The loop over the ready queue; [winnerIdx] stays 0 if it does not break. *)
Fixpoint find_winner (h : ploc → Process) (q : list ploc) (i : nat)
    (ticketSum winningTicket : Z) : nat :=
  match q with
  | [] => 0%nat
  | l :: q =>
      let ticketSum := ticketSum + Tickets (h l) in
      if winningTicket <? ticketSum then i
      else find_winner h q (S i) ticketSum winningTicket
  end.

(** Dispatching the holder of the winning ticket. *)
Definition draw (t winningTicket : Z) (c : Core) : Core :=
  dispatch t (find_winner (heap c) (readyQueue c) 0 0 winningTicket) c.

Definition Lottery_schedule (t quantum : Z) (cs : Core * Z) (g : R) : Core * Z * R :=
  let '(c, slice) := expire quantum cs in
  if bool_decide (running c = None) && (0 <? len (readyQueue c)) then
    if 0 <? totalTickets c then
      let '(winningTicket, g) := Intn (totalTickets c) g in
      (draw t winningTicket c, 0, g)
    else (c, slice, g)
  else (c, slice, g).

Definition Lottery_Tick (t : Z) (s : LotteryScheduler)
    : option ploc * bool * LotteryScheduler :=
  let c := lot_core s <| totalTime := t + 1 |> in
  let c := age (admitArrivals t c) in
  let '(cs, g) := Lottery_schedule t (lot_Quantum s) (c, lot_currentSlice s) (rng s) in
  let '(c, slice) := exec_slice t cs in
  (running c, allDone c, mkLottery c (lot_Quantum s) slice g).

#[export] Instance Lottery_scheduler : Scheduler LotteryScheduler := {|
  s_Name := Lottery_Name; s_AddProcess := Lottery_AddProcess; s_Tick := Lottery_Tick;
  s_core := lot_core |}.
End lottery.
Arguments LotteryScheduler R : clear implicits.
Arguments Lottery_Tick {R _} t s : simpl never.

(** ** The winner *)

(** The tickets held by the first [i] processes of a queue. *)
Definition tickets_before (h : ploc → Process) (q : list ploc) (i : nat) : Z :=
  sumZ (λ l, Tickets (h l)) (take i q).

Lemma find_winner_spec h q i acc w :
  (∀ l, l ∈ q → 0 ≤ Tickets (h l)) →
  acc ≤ w < acc + sumZ (λ l, Tickets (h l)) q →
  ∃ j l, find_winner h q i acc w = (i + j)%nat ∧ q !! j = Some l ∧
    acc + tickets_before h q j ≤ w < acc + tickets_before h q (S j).
Proof.
  revert i acc. induction q as [|k q IH]; intros i acc Hpos Hw.
  { unfold sumZ in Hw. simpl in Hw. lia. }
  assert (0 ≤ Tickets (h k)) by (apply Hpos; set_solver).
  unfold tickets_before, sumZ in *. simpl.
  destruct (Z.ltb_spec w (acc + Tickets (h k))).
  - exists 0%nat, k. simpl in *. split; [lia|]. split; [done|lia].
  - destruct (IH (S i) (acc + Tickets (h k))) as (j & l & -> & Hl & Hb);
      [set_solver|simpl in *; lia|].
    exists (S j), l. simpl in *. split; [lia|]. split; [done|lia].
Qed.

Lemma tickets_before_mono h q i j :
  (∀ l, l ∈ q → 0 ≤ Tickets (h l)) → (i ≤ j)%nat →
  tickets_before h q i ≤ tickets_before h q j.
Proof.
  intros Hpos Hij. unfold tickets_before.
  replace (take j q) with (take i q ++ drop i (take j q))
    by (rewrite <- (take_drop i (take j q)) at 2; by rewrite take_take, Nat.min_l).
  rewrite sumZ_app. enough (0 ≤ sumZ (λ l, Tickets (h l)) (drop i (take j q))) by lia.
  apply sumZ_nonneg. intros l Hl. apply Hpos.
  rewrite <- (take_drop j q). apply elem_of_app. left.
  rewrite <- (take_drop i (take j q)). apply elem_of_app. by right.
Qed.

Lemma find_winner_iff h q i l w :
  (∀ l, l ∈ q → 0 ≤ Tickets (h l)) → q !! i = Some l →
  0 ≤ w < sumZ (λ l, Tickets (h l)) q →
  find_winner h q 0 0 w = i ↔
  tickets_before h q i ≤ w < tickets_before h q i + Tickets (h l).
Proof.
  intros Hpos Hl Hw.
  assert (HS : ∀ j k, q !! j = Some k →
    tickets_before h q (S j) = tickets_before h q j + Tickets (h k)).
  { intros j k Hj. unfold tickets_before. rewrite (take_S_r q j k) by done.
    rewrite sumZ_app. unfold sumZ at 2. simpl. lia. }
  destruct (find_winner_spec h q 0 0 w Hpos) as (j & k & -> & Hk & Hb); [lia|].
  rewrite (HS j k Hk) in Hb. simpl. split.
  - intros ->. simplify_eq. lia.
  - intros Hi. destruct (Nat.lt_trichotomy j i) as [Hlt|[->|Hlt]]; [|done|].
    + pose proof (tickets_before_mono h q (S j) i Hpos Hlt). rewrite (HS j k Hk) in *. lia.
    + pose proof (tickets_before_mono h q (S i) j Hpos Hlt). rewrite (HS i l Hl) in *. lia.
Qed.

(** ** Proportional share *)
Lemma count_interval (P : Z → Prop) `{!∀ w, Decision (P w)} (a b n : Z) :
  0 ≤ a → 0 ≤ b → a + b ≤ n → (∀ w, 0 ≤ w < n → P w ↔ a ≤ w < a + b) →
  length (filter P (seqZ 0 n)) = Z.to_nat b.
Proof.
  intros Ha Hb Hn HP. replace n with (a + (b + (n - a - b))) by lia.
  rewrite !seqZ_app, !filter_app by lia. simpl.
  rewrite (filter_none P (seqZ 0 a)), (filter_none P (seqZ (a + b) _)).
  - rewrite app_nil_r. simpl. rewrite filter_all; [by rewrite length_seqZ|].
    intros w Hw%elem_of_seqZ. rewrite HP by lia. lia.
  - intros w Hw%elem_of_seqZ. rewrite HP by lia. lia.
  - intros w Hw%elem_of_seqZ. rewrite HP by lia. lia.
Qed.

Lemma draw_running t w c i l :
  NoDup (readyQueue c) → (∀ l, l ∈ readyQueue c → 0 ≤ Tickets (heap c l)) →
  readyQueue c !! i = Some l → 0 ≤ w < totalTickets c →
  running (draw t w c) = Some l ↔ find_winner (heap c) (readyQueue c) 0 0 w = i.
Proof.
  intros Hnd Hpos Hi Hw. unfold draw, dispatch.
  destruct (find_winner_spec (heap c) (readyQueue c) 0 0 w Hpos) as (j & k & -> & Hk & _).
  { unfold totalTickets in Hw. lia. }
  simpl. rewrite Hk. simpl. split; [|by intros ->; simplify_eq].
  intros [= ->]. by eapply NoDup_lookup.
Qed.


(** ** Laws *)
Section laws.
Context `{Rng R}.

Lemma draw_resched t w c :
  running c = None → (∀ l, l ∈ readyQueue c → 0 ≤ Tickets (heap c l)) →
  0 ≤ w < totalTickets c → resched t c (draw t w c).
Proof.
  intros Hr Hpos Hw. unfold draw.
  destruct (find_winner_spec (heap c) (readyQueue c) 0 0 w Hpos) as (j & k & -> & Hk & _).
  { unfold totalTickets in Hw. lia. }
  by apply (resched_dispatch t _ c k).
Qed.

Definition has_tickets (c : Core) : Prop :=
  ∀ l, running c = Some l ∨ l ∈ readyQueue c → 1 ≤ Tickets (heap c l).

Lemma totalTickets_pos c : has_tickets c → readyQueue c ≠ [] → 0 < totalTickets c.
Proof.
  intros Ht Hne. unfold totalTickets, has_tickets in *.
  destruct (readyQueue c) as [|l q]; [done|].
  assert (1 ≤ Tickets (heap c l)) by (apply Ht; set_solver).
  assert (0 ≤ sumZ (λ l, Tickets (heap c l)) q).
  { apply sumZ_nonneg. intros k Hk. enough (1 ≤ Tickets (heap c k)) by lia.
    apply Ht. set_solver. }
  unfold sumZ in *. simpl. lia.
Qed.

Lemma preempt_tickets c : has_tickets c → has_tickets (preempt c).
Proof.
  intros Ht l. unfold preempt. destruct (running c) as [k|] eqn:Er; [|apply Ht].
  simpl. intros [?|Hl]; [done|].
  assert (1 ≤ Tickets (heap c l)).
  { apply Ht. apply elem_of_app in Hl as [?|Hk%list_elem_of_singleton];
      [auto|]. subst k. auto. }
  destruct (decide (k = l)) as [->|]; [by rewrite fn_alter_eq|by rewrite fn_alter_ne].
Qed.

Lemma Lottery_schedule_resched t q c slice g :
  has_tickets c → resched t c (Lottery_schedule t q (c, slice) g).1.1.
Proof.
  intros Ht. unfold Lottery_schedule.
  assert (Hd : ∀ c : Core, has_tickets c → running c = None → readyQueue c ≠ [] →
    0 < totalTickets c ∧ resched t c (draw t (Intn (totalTickets c) g).1 c)).
  { intros c' Ht' Hr Hne. pose proof (totalTickets_pos c' Ht' Hne) as Hpos.
    split; [done|]. apply draw_resched; [done| |by apply Intn_range].
    intros l Hl. enough (1 ≤ Tickets (heap c' l)) by lia. apply Ht'. by right. }
  assert (Hfree : ∀ (c : Core) sl, has_tickets c → running c = None →
    resched t c (if 0 <? len (readyQueue c) then
      if 0 <? totalTickets c then
        let '(winningTicket, g) := Intn (totalTickets c) g in (draw t winningTicket c, 0, g)
      else (c, sl, g) else (c, sl, g)).1.1).
  { intros c' sl Ht' Hr. destruct (readyQueue c') as [|k ls] eqn:Eq; simpl.
    - by apply resched_idle.
    - destruct (Hd c' Ht' Hr) as [Hpos Hrs]; [by rewrite Eq|].
      destruct (Z.ltb_spec 0 (totalTickets c')); [|lia].
      by destruct (Intn _ _). }
  destruct (expire_cases q c slice) as [(Hr & _ & ->)|[_ ->]].
  - apply resched_preempt; [done|]. rewrite preempt_running.
    apply Hfree; [by apply preempt_tickets|apply preempt_running].
  - destruct (running c) as [l|] eqn:Er; simpl; [by apply (resched_keep _ _ l)|].
    by apply Hfree.
Qed.

Lemma Lottery_Tick_core t (s : LotteryScheduler R) :
  lot_core (Lottery_Tick t s).2 =
    exec t (Lottery_schedule t (lot_Quantum s)
      (age (admitArrivals t (lot_core s <| totalTime := t + 1 |>)), lot_currentSlice s) (rng s)).1.1.
Proof. unfold Lottery_Tick. by destruct (Lottery_schedule _ _ _) as [[]]. Qed.

(** Every process holds a ticket. *)
Definition Lottery_wf (s : LotteryScheduler R) : Prop :=
  wf_core (lot_core s) ∧
  ∀ l, l ∈ allProcesses (lot_core s) → 1 ≤ Tickets (heap (lot_core s) l).

Lemma Lottery_core_tick t s :
  Lottery_wf s → let s' := (Lottery_Tick t s).2 in
  wf_core (lot_core s') ∧ ∃ r, tick_spec t r (lot_core s) (lot_core s').
Proof.
  intros [Hwf Ht]. cbv zeta. rewrite Lottery_Tick_core.
  edestruct (core_tick t _ (λ c, (Lottery_schedule t (lot_Quantum s)
    (c, lot_currentSlice s) (rng s)).1.1) Hwf) as [Hwf' Hts]; [|eauto].
  intros c1 Had Hwf1. apply Lottery_schedule_resched. intros l Hl.
  assert (Hin : l ∈ allProcesses (lot_core s)).
  { change (l ∈ allProcesses (lot_core s <| totalTime := t + 1 |>)).
    rewrite <- (ad_all _ _ _ Had). apply (wf_in _ Hwf1). unfold queued.
    rewrite !elem_of_app, elem_of_olist. tauto. }
  rewrite (se_tickets _ _ (ad_heap _ _ _ Had l Hin)). simpl.
  unfold arrived_p, age_p, admit_p. repeat case_if; by apply Ht.
Qed.

Lemma proc_step_tickets t ex p p' : proc_step t ex p p' → Tickets p' = Tickets p.
Proof.
  assert (Hq : Tickets (arrived_p t p) = Tickets p).
  { unfold arrived_p, age_p, admit_p. by repeat case_if. }
  unfold proc_step. rewrite <- Hq. destruct ex.
  - intros [_ [[]|[_ []]]]; rewrite se_tickets; unfold run_p, start_p; by repeat case_if.
  - intros []. rewrite se_tickets. unfold preempt_p. by repeat case_if.
Qed.

Lemma Lottery_schedule_total t q cs g :
  totalTime (Lottery_schedule t q cs g).1.1 = totalTime cs.1.
Proof.
  destruct cs as [c slice]. unfold Lottery_schedule, expire, draw. case_if; cbn [fst];
    (case_if; [case_if; [destruct (Intn _ _)|]|]); cbn [fst]; by autorewrite with sched_total.
Qed.

#[export] Instance Lottery_laws : SchedulerLaws (LotteryScheduler R).
Proof.
  refine {| s_wf := Lottery_wf; s_ok := λ p, 1 ≤ Tickets p |}.
  - by intros s [].
  - done.
  - intros l s [Hwf Ht] Hl Hn Hok. split; [by apply core_add_wf|]. simpl in *.
    intros k [?|Hk%list_elem_of_singleton]%elem_of_app; [by apply Ht|by subst].
  - intros t s Hwf. destruct (Lottery_core_tick t s Hwf) as (Hwf' & r & Hts).
    change (Lottery_wf (Lottery_Tick t s).2). split; [done|]. intros l Hl. rewrite (ts_all _ _ _ _ Hts) in Hl.
    rewrite (proc_step_tickets _ _ _ _ (ts_procs _ _ _ _ Hts l Hl)). by apply Hwf.
  - intros t s Hwf. by apply Lottery_core_tick.
  - intros t s. unfold s_Tick, s_core, Lottery_scheduler, Lottery_Tick.
    pose proof (Lottery_schedule_total t (lot_Quantum s)
      (age (admitArrivals t (lot_core s <| totalTime := t + 1 |>)), lot_currentSlice s) (rng s)) as Ht.
    destruct (Lottery_schedule _ _ _ _) as [[c slice] g]. cbn [snd lot_core exec_slice fst] in *.
    autorewrite with sched_total in *. done.
  - intros t s. unfold s_Tick, s_core. simpl. unfold Lottery_Tick.
    by destruct (Lottery_schedule _ _ _) as [[]].
Defined.
End laws.

