(* ===== verification/SchedMLFQ.v ===== *)
(** * Multi-level feedback queue

    Models [src/pkg/cpu/sched_mlfq.go].  The scheduler has one queue per
    priority level instead of a single ready queue; its ticks refine the phases
    of [SchedCore] through the view [core_of], which concatenates the levels. *)

From S2P Require Import Prelude Process SchedCore SchedTheory SchedRR.

Record MLFQQueueConfig := mkConfig { Level : Z; Quantum : Z; Allotment : Z }.

#[export] Instance MLFQQueueConfig_inhabited : Inhabited MLFQQueueConfig :=
  populate (mkConfig 0 0 0).

(** The fields the struct shares with the other schedulers are in [mcore],
    whose ready queue is not used. *)
Record MLFQScheduler := mkMLFQ {
  mcore : Core;
  NumQueues : Z;
  Configs : list MLFQQueueConfig;
  Queues : list (list ploc);
  BoostPeriod : Z;
  ticksSinceBoost : Z;
  currentSlice : Z;
  BoostEvents : list Z }.
#[export] Instance eta_MLFQScheduler : Eta MLFQScheduler := λ s,
  mkMLFQ (mcore s) (NumQueues s) (Configs s) (Queues s) (BoostPeriod s)
    (ticksSinceBoost s) (currentSlice s) (BoostEvents s).

Definition NewMLFQScheduler (h : ploc → Process) (boostPeriod : Z) : MLFQScheduler :=
  let boostPeriod := if boostPeriod <=? 0 then 50 else boostPeriod in
  let configs := [mkConfig 0 2 4; mkConfig 1 4 8; mkConfig 2 8 16] in
  {| mcore := NewCore h; NumQueues := len configs; Configs := configs;
     Queues := replicate (length configs) []; BoostPeriod := boostPeriod;
     ticksSinceBoost := 0; currentSlice := 0; BoostEvents := [] |}.

Definition MLFQ_Name (s : MLFQScheduler) : string :=
  "MLFQ (Multi-Level Feedback Queue, " +:+ fmt_d (NumQueues s) +:+
  " Queues, Boost=" +:+ fmt_d (BoostPeriod s) +:+ ")".

Definition MLFQ_AddProcess (l : ploc) (s : MLFQScheduler) : MLFQScheduler :=
  s <| mcore ::= core_AddProcess l |>.

(** ** The steps of a tick *)
Definition set_hq (h : ploc → Process) (q : list (list ploc)) (s : MLFQScheduler)
    : MLFQScheduler :=
  s <| mcore ::= λ c, c <| heap := h |> |> <| Queues := q |>.

(** [s.Queues[q] = append(s.Queues[q], p)] *)
Definition enqueue (i : nat) (l : ploc) (q : list (list ploc)) : list (list ploc) :=
  alter (λ ls, ls ++ [l]) i q.

Definition toTop (p : Process) : Process :=
  p <| CurrentQueue := 0 |> <| AllotmentUsed := 0 |>.

Definition boost_one (hq : (ploc → Process) * list (list ploc)) (l : ploc)
    : (ploc → Process) * list (list ploc) :=
  (alter toTop l hq.1, enqueue 0 l hq.2).

(** Rule 5: every [BoostPeriod] ticks all jobs move to the topmost queue. *)
Definition MLFQ_boost (t : Z) (s : MLFQScheduler) : MLFQScheduler :=
  let s := s <| ticksSinceBoost ::= Z.succ |> in
  if BoostPeriod s <=? ticksSinceBoost s then
    let s := s <| BoostEvents ::= λ b, b ++ [t] |> <| ticksSinceBoost := 0 |> in
    let n := Z.to_nat (NumQueues s) in
    let allReady := concat (take n (Queues s)) in
    let cleared := replicate n [] ++ drop n (Queues s) in
    let '(h, q) := foldl boost_one (heap (mcore s), cleared) allReady in
    let h := match running (mcore s) with Some l => alter toTop l h | None => h end in
    set_hq h q s
  else s.

Definition arrive_one (t : Z) (hq : (ploc → Process) * list (list ploc)) (l : ploc)
    : (ploc → Process) * list (list ploc) :=
  if arrives t (hq.1 l)
  then (alter (λ p, toTop (p <| State := StateReady |>)) l hq.1, enqueue 0 l hq.2)
  else hq.

(** Rule 3: arriving jobs enter the topmost queue. *)
Definition MLFQ_admit (t : Z) (s : MLFQScheduler) : MLFQScheduler :=
  let '(h, q) :=
    foldl (arrive_one t) (heap (mcore s), Queues s) (allProcesses (mcore s)) in
  set_hq h q s.

Definition MLFQ_age (s : MLFQScheduler) : MLFQScheduler :=
  let queued := concat (take (Z.to_nat (NumQueues s)) (Queues s)) in
  set_hq (foldl (λ h l, alter wait_one l h) (heap (mcore s)) queued) (Queues s) s.

(** [s.Configs[p.CurrentQueue]]; the index is in range in every well-formed
    state, so the default of the total lookup is never used. *)
Definition config (s : MLFQScheduler) (p : Process) : MLFQQueueConfig :=
  Configs s !!! Z.to_nat (CurrentQueue p).

Definition put_back (f : Process → Process) (l : ploc) (s : MLFQScheduler) : MLFQScheduler :=
  let h := alter f l (heap (mcore s)) in
  set_hq h (enqueue (Z.to_nat (CurrentQueue (h l))) l (Queues s)) s
    <| mcore ::= λ c, c <| running := None |> |> <| currentSlice := 0 |>.

Definition demote (n : Z) (p : Process) : Process :=
  let p := if CurrentQueue p <? n - 1 then p <| CurrentQueue ::= Z.succ |> else p in
  p <| AllotmentUsed := 0 |> <| State := StateReady |>.

(** Rules 4 and 2: the running job is demoted when its allotment is used up,
    and otherwise goes to the back of its queue when its quantum has expired. *)
Definition MLFQ_check (s : MLFQScheduler) : MLFQScheduler :=
  match running (mcore s) with
  | None => s
  | Some l =>
      let p := heap (mcore s) l in
      let qCfg := config s p in
      if Allotment qCfg <=? AllotmentUsed p then put_back (demote (NumQueues s)) l s
      else if Quantum qCfg <=? currentSlice s
      then put_back (λ p, p <| State := StateReady |>) l s
      else s
  end.

(** Rule 1: the head of the highest non-empty queue. *)
Definition MLFQ_schedule (t : Z) (s : MLFQScheduler) : MLFQScheduler :=
  match running (mcore s) with
  | Some _ => s
  | None =>
      match list_find (λ q, q ≠ []) (take (Z.to_nat (NumQueues s)) (Queues s)) with
      | Some (i, l :: _) =>
          s <| Queues ::= alter tail i |> <| mcore ::= start t l |> <| currentSlice := 0 |>
      | _ => s
      end
  end.

Definition MLFQ_label (p : Process) : string :=
  Name p +:+ "(Q" +:+ fmt_d (CurrentQueue p) +:+ ")".

Definition spend_p (p : Process) : Process := p <| AllotmentUsed ::= Z.succ |>.

Definition MLFQ_exec (t : Z) (s : MLFQScheduler) : MLFQScheduler :=
  let c :=
    match running (mcore s) with
    | Some l => mcore s <| heap ::= alter spend_p l |>
    | None => mcore s
    end in
  let c' := exec_as MLFQ_label t c in
  s <| mcore := c' |>
    <| currentSlice := match running c with
                       | None => currentSlice s
                       | Some _ => if running c' is Some _ then currentSlice s + 1 else 0
                       end |>.

Definition MLFQ_Tick (t : Z) (s : MLFQScheduler) : option ploc * bool * MLFQScheduler :=
  let s := s <| mcore ::= λ c, c <| totalTime := t + 1 |> |> in
  let s := MLFQ_age (MLFQ_admit t (MLFQ_boost t s)) in
  let s := MLFQ_schedule t (MLFQ_check s) in
  let s := MLFQ_exec t s in
  (running (mcore s), allDone (mcore s), s).
Arguments MLFQ_Tick t s : simpl never.

Arguments MLFQ_exec t s : simpl never.

(** The view of the state as a scheduler with a single ready queue. *)
Definition core_of (s : MLFQScheduler) : Core :=
  mcore s <| readyQueue := concat (Queues s) |>.

#[export] Instance MLFQ_scheduler : Scheduler MLFQScheduler := {|
  s_Name := MLFQ_Name; s_AddProcess := MLFQ_AddProcess; s_Tick := MLFQ_Tick;
  s_core := core_of |}.

(** ** Queues by level *)
Definition at_level (q : list (list ploc)) (i : nat) (l : ploc) : Prop :=
  ∃ ls, q !! i = Some ls ∧ l ∈ ls.

Lemma elem_of_concat_level q l : l ∈ concat q ↔ ∃ i, at_level q i l.
Proof.
  unfold at_level. induction q as [|x q IH]; simpl.
  - split; [by intros ?%elem_of_nil|]. intros (i & ls & ? & ?). by rewrite lookup_nil in *.
  - rewrite elem_of_app, IH. split.
    + intros [?|(i & ls & ? & ?)]; [by exists 0%nat, x|by exists (S i), ls].
    + intros ([|i] & ls & Hi & ?); simpl in Hi; [simplify_eq; auto|]. right. eauto.
Qed.

Lemma concat_append i (a : list ploc) q :
  (i < length q)%nat → concat (alter (λ ls, ls ++ a) i q) ≡ₚ concat q ++ a.
Proof.
  revert i. induction q as [|x q IH]; intros i Hi; simpl in Hi; [lia|].
  destruct i as [|i]; csimpl; [solve_Permutation|].
  rewrite IH by lia. by rewrite (assoc_L (++)).
Qed.

Lemma at_level_append i (a : list ploc) q j l :
  (i < length q)%nat →
  at_level (alter (λ ls, ls ++ a) i q) j l ↔ at_level q j l ∨ j = i ∧ l ∈ a.
Proof.
  intros Hi. unfold at_level. destruct (decide (i = j)) as [->|Hne].
  - destruct (lookup_lt_is_Some_2 q j Hi) as [x Hx].
    rewrite list_lookup_alter_eq, Hx. simpl. split.
    + intros (? & [= <-] & [?|?]%elem_of_app); [left; eauto|auto].
    + intros [(ls & [= <-] & ?)|[_ ?]]; eexists; (split; [done|]); set_solver.
  - rewrite list_lookup_alter_ne by done. split; [auto|]. by intros [?|[-> _]].
Qed.

Lemma boost_fold ls h q :
  foldl boost_one (h, q) ls =
  (foldl (λ h l, alter toTop l h) h ls, alter (λ x, x ++ ls) 0%nat q).
Proof.
  revert h q. induction ls as [|l ls IH]; intros h q.
  - simpl. f_equal. destruct q; simpl; [done|]. by rewrite app_nil_r.
  - change (foldl boost_one (alter toTop l h, enqueue 0 l q) ls =
      (foldl (λ h l, alter toTop l h) (alter toTop l h) ls, alter (λ x, x ++ l :: ls) 0%nat q)).
    rewrite IH. f_equal. unfold enqueue. destruct q; simpl; [done|]. by rewrite <- app_assoc.
Qed.

Lemma arrive_fold t ls h q :
  NoDup ls →
  (∀ l, (foldl (arrive_one t) (h, q) ls).1 l =
     if bool_decide (l ∈ ls) && arrives t (h l)
     then toTop ((h l) <| State := StateReady |>) else h l) ∧
  (foldl (arrive_one t) (h, q) ls).2 =
    alter (λ x, x ++ filter (λ l, arrives t (h l)) ls) 0%nat q.
Proof.
  revert h q. induction ls as [|k ls IH]; intros h q Hnd; simpl.
  { split; [done|]. destruct q; simpl; [done|]. by rewrite app_nil_r. }
  apply NoDup_cons in Hnd as [Hk Hnd].
  set (hq := arrive_one t (h, q) k).
  assert (Ho : ∀ l, l ≠ k → hq.1 l = h l).
  { intros l Hl. subst hq. unfold arrive_one. simpl. case_if; [|done]. simpl.
    by rewrite fn_alter_ne. }
  destruct (IH hq.1 hq.2 Hnd) as [Hh Hq]. rewrite <- surjective_pairing in *. split.
  - intros l. rewrite Hh. destruct (decide (l = k)) as [->|Hne].
    + rewrite bool_decide_false by done. rewrite bool_decide_true by set_solver. simpl.
      subst hq. unfold arrive_one. simpl. case_if; [|done]. simpl. by rewrite fn_alter_eq.
    + rewrite Ho by done. by rewrite (bool_decide_ext (l ∈ k :: ls) (l ∈ ls)) by set_solver.
  - rewrite Hq.
    rewrite (filter_ext_elem (λ l, arrives t (hq.1 l)) (λ l, arrives t (h l)) ls)
      by (intros l Hl; rewrite Ho by set_solver; done).
    rewrite filter_cons. subst hq. unfold arrive_one. simpl.
    destruct (arrives t (h k)) eqn:E; simpl; [|done].
    unfold enqueue. destruct q; simpl; [done|]. by rewrite <- app_assoc.
Qed.

(** ** Invariant *)
Definition levels (cfgs : list MLFQQueueConfig) (h : ploc → Process)
    (q : list (list ploc)) : Prop :=
  ∀ i l, at_level q i l → CurrentQueue (h l) = Z.of_nat i ∧
    0 ≤ AllotmentUsed (h l) < Allotment (cfgs !!! i).

(** What holds throughout a tick. *)
Record shape (s : MLFQScheduler) : Prop := mk_shape {
  sh_num : 0 < NumQueues s;
  sh_queues : length (Queues s) = Z.to_nat (NumQueues s);
  sh_configs : Forall (λ c, 0 < Quantum c ∧ 0 < Allotment c) (Configs s);
  sh_configs_len : length (Configs s) = Z.to_nat (NumQueues s);
  sh_boost : 0 < BoostPeriod s;
  sh_levels : levels (Configs s) (heap (mcore s)) (Queues s) }.

(** The level and the allotment of the running process; [lo] is 0 before the
    execution step and 1 after it. *)
Definition running_ok (lo : Z) (s : MLFQScheduler) : Prop :=
  ∀ l, running (mcore s) = Some l →
    0 ≤ CurrentQueue (heap (mcore s) l) < NumQueues s ∧
    lo ≤ AllotmentUsed (heap (mcore s) l) ≤ Allotment (config s (heap (mcore s) l)).

Record MLFQ_wf (s : MLFQScheduler) : Prop := mk_MLFQ_wf {
  mw_core : wf_core (core_of s);
  mw_shape : shape s;
  mw_running : running_ok 1 s;
  mw_slice : ∀ l, running (mcore s) = Some l →
    1 ≤ currentSlice s ≤ Quantum (config s (heap (mcore s) l));
  mw_since : 0 ≤ ticksSinceBoost s < BoostPeriod s }.

Lemma config_pos s i :
  shape s → (i < Z.to_nat (NumQueues s))%nat →
  0 < Quantum (Configs s !!! i) ∧ 0 < Allotment (Configs s !!! i).
Proof.
  intros [] Hi. destruct (lookup_lt_is_Some_2 (Configs s) i) as [c Hc]; [lia|].
  rewrite (list_lookup_total_correct _ _ _ Hc).
  by apply (Forall_lookup_1 _ _ _ _ sh_configs0 Hc).
Qed.

(** ** Admission *)

(** A step that changes only the heap and the queues. *)
Lemma shape_set_hq s h q :
  shape s → length q = Z.to_nat (NumQueues s) → levels (Configs s) h q →
  shape (set_hq h q s).
Proof. intros [] Hq Hl. by split. Qed.

Lemma core_nodup s : wf_core (core_of s) → NoDup (concat (Queues s)).
Proof.
  intros Hwf. pose proof (wf_queued _ Hwf) as Hnd. unfold queued in Hnd.
  apply NoDup_app in Hnd as (_ & _ & Hnd). by apply NoDup_app in Hnd as (? & _).
Qed.

(** What a boost does, and that nothing else happens between boosts. *)
Lemma boost_spec t s :
  wf_core (core_of s) → shape s →
  MLFQ_boost t s = s <| ticksSinceBoost ::= Z.succ |> ∧
    ticksSinceBoost s + 1 < BoostPeriod s ∨
  BoostPeriod s ≤ ticksSinceBoost s + 1 ∧ ∃ h,
    MLFQ_boost t s =
      set_hq h (concat (Queues s) :: replicate (pred (Z.to_nat (NumQueues s))) [])
        (s <| BoostEvents ::= λ b, b ++ [t] |> <| ticksSinceBoost := 0 |>) ∧
    ∀ l, h l = if bool_decide (l ∈ concat (Queues s) ∨ running (mcore s) = Some l)
               then toTop (heap (mcore s) l) else heap (mcore s) l.
Proof.
  intros Hwf%core_nodup Hsh. unfold MLFQ_boost. simpl.
  destruct (Z.leb_spec (BoostPeriod s) (Z.succ (ticksSinceBoost s))); [right|left; split; [done|lia]].
  split; [lia|]. destruct Hsh. rewrite boost_fold.
  rewrite <- sh_queues0, firstn_all, drop_all, app_nil_r.
  destruct (length (Queues s)) as [|n] eqn:En; [lia|]. eexists. split; [reflexivity|].
  intros l. pose proof (fold_alter toTop _ (heap (mcore s)) Hwf l) as Hf.
  destruct (running (mcore s)) as [r|].
  - destruct (decide (r = l)) as [->|].
    + rewrite fn_alter_eq, Hf, (bool_decide_true (_ ∨ _)) by auto. by case_bool_decide.
    + rewrite fn_alter_ne, Hf by done.
      by rewrite (bool_decide_ext (l ∈ concat (Queues s) ∨ Some r = Some l)
                    (l ∈ concat (Queues s))) by naive_solver.
  - rewrite Hf. by rewrite (bool_decide_ext (l ∈ concat (Queues s) ∨ None = Some l)
                    (l ∈ concat (Queues s))) by naive_solver.
Qed.

Lemma concat_top (ls : list ploc) n : ls ++ concat (replicate n []) = ls.
Proof. induction n; simpl in *; [apply app_nil_r|done]. Qed.

Lemma at_level_top (ls : list ploc) n i l :
  at_level (ls :: replicate n []) i l → i = 0%nat ∧ l ∈ ls.
Proof.
  intros (x & Hx & Hl). destruct i as [|i]; simpl in Hx; [by simplify_eq|].
  apply lookup_replicate in Hx as [-> _]. by apply elem_of_nil in Hl.
Qed.

Lemma boost_ok t s :
  wf_core (core_of s) → shape s → running_ok 0 s → 0 ≤ ticksSinceBoost s < BoostPeriod s →
  let s' := MLFQ_boost t s in
  core_equiv (core_of s) (core_of s') ∧ shape s' ∧ running_ok 0 s' ∧
  0 ≤ ticksSinceBoost s' < BoostPeriod s' ∧ currentSlice s' = currentSlice s.
Proof.
  intros Hwf Hsh Hr Hb. pose proof (config_pos s 0 Hsh) as Hc0.
  destruct (boost_spec t s Hwf Hsh) as [[-> Hlt]|(Hge & h & -> & Hh)]; simpl.
  { split; [by split|]. split; [by destruct Hsh|]. split; [done|]. simpl. lia. }
  assert (Hn : (0 < Z.to_nat (NumQueues s))%nat) by (destruct Hsh; lia).
  specialize (Hc0 Hn). split; [|split; [|split; [|simpl; lia]]].
  - split; simpl; try done; [by rewrite concat_top|].
    intros l. rewrite Hh. by case_bool_decide.
  - apply shape_set_hq; [by destruct Hsh|simpl; rewrite length_replicate; lia|].
    intros i l [-> Hl]%at_level_top. rewrite Hh, bool_decide_true by auto. simpl. lia.
  - intros l. unfold config. simpl. intros Hl. rewrite Hh, bool_decide_true by auto. simpl.
    destruct Hsh. change (Z.to_nat 0) with 0%nat. lia.
Qed.

Lemma admit_spec t s :
  wf_core (core_of s) → ∃ h,
    MLFQ_admit t s =
      set_hq h (alter (λ x, x ++ filter (λ l, arrives t (heap (mcore s) l))
                                  (allProcesses (mcore s))) 0%nat (Queues s)) s ∧
    ∀ l, h l = if bool_decide (l ∈ allProcesses (mcore s)) && arrives t (heap (mcore s) l)
               then toTop ((heap (mcore s) l) <| State := StateReady |>)
               else heap (mcore s) l.
Proof.
  intros Hwf. unfold MLFQ_admit.
  destruct (arrive_fold t (allProcesses (mcore s)) (heap (mcore s)) (Queues s)
              (wf_all _ Hwf)) as [Hh Hq].
  destruct (foldl (arrive_one t) _ _) as [h q]. simpl in *. subst q. by exists h.
Qed.

(** Processes in a queue, or running, do not arrive. *)
Lemma queued_not_arriving t s l :
  wf_core (core_of s) → l ∈ concat (Queues s) ∨ running (mcore s) = Some l →
  arrives t (heap (mcore s) l) = false.
Proof.
  intros Hwf Hl. destruct (arrives _ _) eqn:E; [|done]. apply arrives_new in E.
  destruct (wf_not_new (core_of s) l Hwf); [|done]. unfold queued. simpl.
  rewrite !elem_of_app, elem_of_olist. tauto.
Qed.

Lemma admit_ok t s :
  wf_core (core_of s) → shape s → running_ok 0 s →
  shape (MLFQ_admit t s) ∧ running_ok 0 (MLFQ_admit t s).
Proof.
  intros Hwf Hsh Hr. destruct (admit_spec t s Hwf) as (h & -> & Hh).
  assert (Hn : (0 < Z.to_nat (NumQueues s))%nat) by (destruct Hsh; lia).
  pose proof (config_pos s 0 Hsh Hn) as Hc0. split.
  - apply shape_set_hq; [done|by rewrite length_alter; destruct Hsh|].
    intros i l. rewrite at_level_append by (destruct Hsh; lia).
    rewrite Hh. intros [Hl|[-> Hl]].
    + rewrite (queued_not_arriving t s l Hwf), andb_false_r
        by (left; apply elem_of_concat_level; eauto).
      by apply (sh_levels _ Hsh).
    + apply list_elem_of_filter in Hl as [Ha%Is_true_true Hl].
      rewrite Ha, bool_decide_true by done. simpl. lia.
  - intros l. unfold config. simpl. intros Hl. rewrite Hh.
    rewrite (queued_not_arriving t s), andb_false_r by auto. by apply Hr.
Qed.

Lemma age_spec s :
  NoDup (concat (Queues s)) → shape s → ∃ h,
    MLFQ_age s = set_hq h (Queues s) s ∧
    ∀ l, h l = if bool_decide (l ∈ concat (Queues s))
               then wait_one (heap (mcore s) l) else heap (mcore s) l.
Proof.
  intros Hnd Hsh. unfold MLFQ_age. destruct Hsh. rewrite <- sh_queues0, firstn_all.
  eexists. split; [reflexivity|]. intros l. by apply fold_alter.
Qed.

Lemma admitted_nodup t s :
  wf_core (core_of s) → shape s → NoDup (concat (Queues (MLFQ_admit t s))).
Proof.
  intros Hwf Hsh. destruct (admit_spec t s Hwf) as (h & -> & _). simpl.
  rewrite concat_append by (destruct Hsh; lia). apply NoDup_app.
  split; [by apply core_nodup|]. split; [|apply NoDup_filter, (wf_all _ Hwf)].
  intros l Hl [E _]%list_elem_of_filter.
  by rewrite (queued_not_arriving t s) in E by auto.
Qed.

(** Rules 3 and the waiting times: the admission phase of [SchedCore]. *)
Lemma admit_age_admitted t s :
  wf_core (core_of s) → shape s →
  admitted t (core_of s) (core_of (MLFQ_age (MLFQ_admit t s))).
Proof.
  intros Hwf Hsh. pose proof (admitted_nodup t s Hwf Hsh) as Hnd.
  assert (Hsh' : length (Queues s) = Z.to_nat (NumQueues s) ∧ (0 < length (Queues s))%nat)
    by (destruct Hsh; lia). destruct Hsh' as [Hq Hn].
  unfold MLFQ_age. destruct (admit_spec t s Hwf) as (h & Hs' & Hh). rewrite Hs' in *.
  simpl in Hnd. simpl. rewrite take_ge by (rewrite length_alter; lia).
  assert (Hc := concat_append 0 (filter (λ l, arrives t (heap (mcore s) l))
    (allProcesses (mcore s))) (Queues s) Hn).
  split; simpl; try done.
  intros l Hl. rewrite fold_alter, Hh, (bool_decide_true (l ∈ allProcesses _)) by done. simpl.
  rewrite (bool_decide_ext _ (l ∈ concat (Queues s) ∨
    l ∈ filter (λ l, arrives t (heap (mcore s) l)) (allProcesses (mcore s))))
    by (by rewrite Hc, elem_of_app).
  unfold arrived_p, admit_p, age_p. destruct (arrives t (heap (mcore s) l)) eqn:E.
  - rewrite bool_decide_true; [done|]. right. apply list_elem_of_filter.
    by rewrite Is_true_true.
  - rewrite (bool_decide_ext _ (State (heap (mcore s) l) = StateReady)); [done|].
    rewrite list_elem_of_filter, E. split.
    + intros [?|[[] _]]. by apply (wf_ready _ Hwf).
    + intros Hst. left. destruct (wf_new _ Hwf l Hl) as [?|Hql]; [simpl in *; congruence|].
      unfold queued in Hql. rewrite !elem_of_app, elem_of_olist in Hql.
      destruct Hql as [Hql%(wf_running _ Hwf)|[?|Hql%(wf_completed _ Hwf)]];
        simpl in *; congruence || done.
Qed.

Lemma age_ok s :
  NoDup (concat (Queues s)) → shape s → running_ok 0 s →
  shape (MLFQ_age s) ∧ running_ok 0 (MLFQ_age s).
Proof.
  intros Hnd Hsh Hr. destruct (age_spec s Hnd Hsh) as (h & -> & Hh). split.
  - apply shape_set_hq; [done|by destruct Hsh|]. intros i l Hl.
    destruct (sh_levels _ Hsh i l Hl). rewrite Hh. by case_bool_decide.
  - intros l. unfold config. simpl. intros Hl. specialize (Hr l Hl). rewrite Hh.
    by case_bool_decide.
Qed.

(** ** Rescheduling *)
Lemma put_back_ok f l s :
  wf_core (core_of s) → shape s → running (mcore s) = Some l →
  let p := f (heap (mcore s) l) in
  p ≃ (heap (mcore s) l) <| State := StateReady |> →
  0 ≤ CurrentQueue p < NumQueues s → 0 ≤ AllotmentUsed p < Allotment (config s p) →
  core_equiv (preempt (core_of s)) (core_of (put_back f l s)) ∧ shape (put_back f l s).
Proof.
  intros Hwf Hsh Hr p Hp Hcq Hal. unfold put_back. rewrite fn_alter_eq. fold p.
  assert (Hi : (Z.to_nat (CurrentQueue p) < length (Queues s))%nat) by (destruct Hsh; lia).
  assert (Hnl : ∀ i, ¬ at_level (Queues s) i l).
  { intros i Hl. pose proof (wf_queued _ Hwf) as Hnd. unfold queued in Hnd. simpl in Hnd.
    rewrite Hr in Hnd. apply NoDup_cons in Hnd as [Hnd _]. apply Hnd, elem_of_app. left.
    apply elem_of_concat_level. eauto. }
  split.
  - unfold preempt. simpl. rewrite Hr. split; simpl; try done.
    + unfold enqueue. by rewrite concat_append.
    + intros k. destruct (decide (l = k)) as [<-|]; [by rewrite !fn_alter_eq|].
      by rewrite !fn_alter_ne.
  - destruct Hsh. split; simpl; try done; [by unfold enqueue; rewrite length_alter|].
    intros i k. unfold enqueue. rewrite at_level_append by done.
    intros [Hk|[-> Hk%list_elem_of_singleton]].
    + rewrite fn_alter_ne by (intros ->; by apply (Hnl i)). by apply sh_levels0.
    + subst k. rewrite fn_alter_eq. fold p. rewrite Z2Nat.id by lia. done.
Qed.

(** Rules 2 and 4: what is left running has allotment and quantum to spend. *)
Lemma check_ok t s :
  wf_core (core_of s) → shape s → running_ok 0 s →
  shape (MLFQ_check s) ∧
  (∀ c2, resched t (core_of (MLFQ_check s)) c2 → resched t (core_of s) c2) ∧
  (∀ l, running (mcore (MLFQ_check s)) = Some l → MLFQ_check s = s ∧
     AllotmentUsed (heap (mcore s) l) < Allotment (config s (heap (mcore s) l)) ∧
     currentSlice s < Quantum (config s (heap (mcore s) l))).
Proof.
  intros Hwf Hsh Hr. unfold MLFQ_check.
  destruct (running (mcore s)) as [l|] eqn:Er;
    [|split; [done|]; split; [done|]; by rewrite Er].
  destruct (Hr l Er) as [Hcq Hal].
  assert (Hpb : ∀ f, core_equiv (preempt (core_of s)) (core_of (put_back f l s)) ∧
      shape (put_back f l s) → shape (put_back f l s) ∧
      (∀ c2, resched t (core_of (put_back f l s)) c2 → resched t (core_of s) c2) ∧
      (∀ k, running (mcore (put_back f l s)) = Some k → put_back f l s = s ∧
         AllotmentUsed (heap (mcore s) k) < Allotment (config s (heap (mcore s) k)) ∧
         currentSlice s < Quantum (config s (heap (mcore s) k)))).
  { intros f [He Hs]. split; [done|]. split; [|done]. intros c2 H2.
    apply resched_preempt; [by simpl; rewrite Er|]. by eapply resched_equiv. }
  destruct (Z.leb_spec (Allotment (config s (heap (mcore s) l)))
              (AllotmentUsed (heap (mcore s) l))).
  - apply Hpb, put_back_ok; try done; unfold demote.
    + by case_if.
    + destruct (Z.ltb_spec (CurrentQueue (heap (mcore s) l)) (NumQueues s - 1)); simpl; lia.
    + assert (Hn : ∀ i, 0 ≤ i < NumQueues s → 0 < Allotment (Configs s !!! Z.to_nat i)).
      { intros i Hi. apply (config_pos s _ Hsh). lia. }
      unfold config. destruct (Z.ltb_spec (CurrentQueue (heap (mcore s) l)) (NumQueues s - 1));
        simpl; (split; [lia|]); apply Hn; lia.
  - destruct (Z.leb_spec (Quantum (config s (heap (mcore s) l))) (currentSlice s)).
    + apply Hpb, put_back_ok; try done; unfold config in *; simpl; lia.
    + split; [done|]. split; [done|]. intros k. rewrite Er. intros [= <-]. auto.
Qed.

Lemma concat_tail q i l (ls : list ploc) :
  q !! i = Some (l :: ls) → l :: concat (alter tail i q) ≡ₚ concat q.
Proof.
  revert i. induction q as [|x q IH]; intros [|i] Hi; simpl in Hi; try done; csimpl.
  - by simplify_eq.
  - rewrite <- (IH i Hi). solve_Permutation.
Qed.

Lemma at_level_tail q i j l :
  at_level (alter tail i q) j l → at_level q j l.
Proof.
  intros (ls & Hls & Hl). unfold at_level. rewrite list_lookup_alter in Hls.
  case_decide; [subst j|by eauto].
  destruct (q !! i) as [[|x xs]|]; simplify_eq/=; [by apply elem_of_nil in Hl|].
  eexists. split; [done|]. by right.
Qed.

(** Rule 1. *)
Lemma schedule_cases t s :
  shape s → running (mcore s) = None →
  concat (Queues s) = [] ∧ MLFQ_schedule t s = s ∨
  ∃ i l ls, Queues s !! i = Some (l :: ls) ∧ (∀ j, (j < i)%nat → Queues s !! j = Some []) ∧
    MLFQ_schedule t s =
      s <| Queues ::= alter tail i |> <| mcore ::= start t l |> <| currentSlice := 0 |>.
Proof.
  intros Hsh Hr. unfold MLFQ_schedule. rewrite Hr, take_ge by (destruct Hsh; lia).
  destruct (list_find _ (Queues s)) as [[i [|l ls]]|] eqn:E.
  - by apply list_find_Some in E as (_ & ? & _).
  - right. apply list_find_Some in E as (Hi & _ & Hmin). exists i, l, ls.
    split; [done|]. split; [|done]. intros j Hj.
    destruct (lookup_lt_is_Some_2 (Queues s) j) as [x Hx].
    { apply lookup_lt_Some in Hi. lia. }
    rewrite Hx. f_equal. destruct (decide (x = [])) as [->|Hne]; [done|].
    by destruct (Hmin j x Hx Hj).
  - left. split; [|done]. apply list_find_None in E.
    induction E as [|x q Hx Hq IH]; simpl; [done|]. rewrite IH.
    destruct (decide (x = [])) as [->|]; tauto.
Qed.

(** The running process after the decision. *)
Definition decided (s : MLFQScheduler) : Prop := ∀ l, running (mcore s) = Some l →
  let p := heap (mcore s) l in
  0 ≤ CurrentQueue p < NumQueues s ∧ 0 ≤ AllotmentUsed p < Allotment (config s p) ∧
  0 ≤ currentSlice s < Quantum (config s p).

Lemma start_p_level t p :
  CurrentQueue (start_p t p) = CurrentQueue p ∧ AllotmentUsed (start_p t p) = AllotmentUsed p.
Proof. unfold start_p. by case_if. Qed.

Lemma schedule_ok t s :
  shape s → decided s →
  resched t (core_of s) (core_of (MLFQ_schedule t s)) ∧ shape (MLFQ_schedule t s) ∧
  decided (MLFQ_schedule t s).
Proof.
  intros Hsh Hd. destruct (running (mcore s)) as [r|] eqn:Er.
  { unfold MLFQ_schedule. rewrite Er. split; [|done]. by apply (resched_keep _ _ r). }
  destruct (schedule_cases t s Hsh Er) as [[Hc ->]|(i & l & ls & Hi & _ & ->)].
  { split; [|done]. by apply resched_idle. }
  assert (Hlv : ∀ k, CurrentQueue (alter (start_p t) l (heap (mcore s)) k) =
                       CurrentQueue (heap (mcore s) k) ∧
                     AllotmentUsed (alter (start_p t) l (heap (mcore s)) k) =
                       AllotmentUsed (heap (mcore s) k)).
  { intros k. destruct (decide (l = k)) as [->|]; [rewrite fn_alter_eq|by rewrite fn_alter_ne].
    apply start_p_level. }
  split; [|split].
  - apply (resched_start t (core_of s) _ l); [done|]. by apply (concat_tail _ i l ls).
  - destruct Hsh. split; simpl; try done; [by rewrite length_alter|].
    intros j k Hk%at_level_tail. destruct (Hlv k) as [-> ->]. by apply sh_levels0.
  - intros k. unfold config. simpl. intros [= <-]. destruct (Hlv l) as [-> ->].
    destruct (sh_levels _ Hsh i l) as [-> Hal]; [by eexists; split; [done|left]|].
    rewrite Nat2Z.id. assert (i < length (Queues s))%nat by by eapply lookup_lt_Some.
    destruct (config_pos s i Hsh); destruct Hsh; lia.
Qed.

(** ** Execution *)
Lemma exec_executed t s : executed t (core_of s) (core_of (MLFQ_exec t s)).
Proof.
  set (c := match running (mcore s) with
            | Some l => mcore s <| heap ::= alter spend_p l |>
            | None => mcore s
            end).
  change (core_of (MLFQ_exec t s))
    with (exec_as MLFQ_label t c <| readyQueue := concat (Queues s) |>).
  rewrite exec_ready.
  apply (executed_equiv _ _ (c <| readyQueue := concat (Queues s) |>));
    [|done|apply executed_as]. subst c.
  destruct (running (mcore s)) as [l|] eqn:Er; split; simpl; try done.
  intros k. destruct (decide (l = k)) as [->|]; [by rewrite fn_alter_eq|by rewrite fn_alter_ne].
Qed.

Lemma exec_level t s l :
  CurrentQueue (heap (mcore (MLFQ_exec t s)) l) = CurrentQueue (heap (mcore s) l) ∧
  AllotmentUsed (heap (mcore (MLFQ_exec t s)) l) =
    AllotmentUsed (heap (mcore s) l) +
    (if bool_decide (running (mcore s) = Some l) then 1 else 0).
Proof.
  assert (Hrun : ∀ p, CurrentQueue (run_p t p) = CurrentQueue p ∧
                      AllotmentUsed (run_p t p) = AllotmentUsed p).
  { intros p. unfold run_p. by case_if. }
  unfold MLFQ_exec. simpl. rewrite exec_heap.
  destruct (running (mcore s)) as [k|] eqn:Er; simpl; rewrite ?Er.
  - case_bool_decide as E; simplify_eq; [|rewrite fn_alter_ne by congruence; lia].
    rewrite fn_alter_eq. destruct (Hrun (spend_p (heap (mcore s) l))) as [-> ->]. simpl. lia.
  - simpl. lia.
Qed.

Lemma exec_ok t s :
  wf_core (core_of s) → shape s → decided s →
  shape (MLFQ_exec t s) ∧ running_ok 1 (MLFQ_exec t s) ∧
  ∀ l, running (mcore (MLFQ_exec t s)) = Some l →
    1 ≤ currentSlice (MLFQ_exec t s) ≤ Quantum (config s (heap (mcore (MLFQ_exec t s)) l)).
Proof.
  intros Hwf Hsh Hd. pose proof (exec_level t s) as Hlv.
  assert (Hrun : ∀ l, running (mcore (MLFQ_exec t s)) = Some l →
    running (mcore s) = Some l ∧ currentSlice (MLFQ_exec t s) = currentSlice s + 1).
  { intros l. unfold MLFQ_exec. simpl.
    set (c := match running (mcore s) with Some _ => _ | None => _ end).
    assert (Hc : running c = running (mcore s)).
    { subst c. by destruct (running (mcore s)) eqn:E. }
    rewrite <- Hc. clearbody c.
    destruct (exec_running MLFQ_label t c) as [E|E]; rewrite E; [done|]. by intros ->. }
  split; [|split].
  - destruct Hsh. split; try done. intros i l Hl. destruct (Hlv l) as [-> ->].
    rewrite bool_decide_false; [rewrite Z.add_0_r; by apply sh_levels0|].
    intros Hr. pose proof (wf_queued _ Hwf) as Hnd. unfold queued in Hnd. simpl in Hnd.
    rewrite Hr in Hnd. apply NoDup_cons in Hnd as [Hnd _]. apply Hnd, elem_of_app. left.
    apply elem_of_concat_level. eauto.
  - intros l [Hr _]%Hrun. specialize (Hd l Hr). simpl in Hd. unfold config in *.
    change (Configs (MLFQ_exec t s)) with (Configs s).
    change (NumQueues (MLFQ_exec t s)) with (NumQueues s).
    destruct (Hlv l) as [-> ->]. rewrite bool_decide_true by done. lia.
  - intros l Hl. destruct (Hrun l Hl) as [Hr ->]. specialize (Hd l Hr). simpl in Hd.
    unfold config in *. destruct (Hlv l) as [-> _]. lia.
Qed.

(** ** Laws *)

(** The settings and the boost counters, which only the boost changes. *)
Definition settings (s : MLFQScheduler) : Z * list MLFQQueueConfig * Z * Z * list Z :=
  (NumQueues s, Configs s, BoostPeriod s, ticksSinceBoost s, BoostEvents s).

Lemma admit_age_settings t s :
  let s' := MLFQ_age (MLFQ_admit t s) in
  settings s' = settings s ∧ currentSlice s' = currentSlice s.
Proof. unfold MLFQ_age, MLFQ_admit. by destruct (foldl _ _ _). Qed.

Lemma check_settings s : settings (MLFQ_check s) = settings s.
Proof. unfold MLFQ_check. destruct (running (mcore s)); [|done]. by repeat case_if. Qed.

Lemma schedule_settings t s : settings (MLFQ_schedule t s) = settings s.
Proof.
  unfold MLFQ_schedule. destruct (running (mcore s)); [done|].
  by destruct (list_find _ _) as [[? []]|].
Qed.

(** The state before the decision of a tick. *)
Lemma MLFQ_tick_admitted t s :
  MLFQ_wf s →
  let s3 := MLFQ_age (MLFQ_admit t (MLFQ_boost t
              (s <| mcore ::= λ c, c <| totalTime := t + 1 |> |>))) in
  admitted t (core_of s <| totalTime := t + 1 |>) (core_of s3) ∧
  wf_core (core_of s3) ∧ shape s3 ∧ running_ok 0 s3 ∧
  (∀ l, running (mcore s3) = Some l → 0 ≤ currentSlice s3) ∧
  0 ≤ ticksSinceBoost s3 < BoostPeriod s3.
Proof.
  intros [Hwf Hsh Hr Hsl Hb].
  set (s0 := s <| mcore ::= λ c, c <| totalTime := t + 1 |> |>).
  change (core_of s <| totalTime := t + 1 |>) with (core_of s0).
  assert (Hwf0 : wf_core (core_of s0)) by apply (wf_core_totalTime _ (t + 1) Hwf).
  assert (Hsh0 : shape s0) by by destruct Hsh.
  assert (Hr0 : running_ok 0 s0)
    by (intros l Hl; specialize (Hr l Hl); unfold config in *; simpl; lia).
  destruct (boost_ok t s0 Hwf0 Hsh0 Hr0 Hb) as (Heq & Hsh1 & Hr1 & Hb1 & Hsl1).
  pose proof (wf_core_equiv _ _ Heq Hwf0) as Hwf1. set (s1 := MLFQ_boost t s0) in *.
  destruct (admit_ok t s1 Hwf1 Hsh1 Hr1) as [Hsh2 Hr2].
  destruct (age_ok _ (admitted_nodup t s1 Hwf1 Hsh1) Hsh2 Hr2) as [Hsh3 Hr3].
  pose proof (admit_age_admitted t s1 Hwf1 Hsh1) as Had.
  destruct (admit_age_settings t s1) as [Hset Hsl3]. unfold settings in Hset.
  cbv zeta. set (s3 := MLFQ_age (MLFQ_admit t s1)) in *.
  split; [by eapply admitted_equiv|]. split; [by eapply admitted_wf|].
  split; [done|]. split; [done|]. split; [|simplify_eq; congruence].
  intros l Hl. rewrite Hsl3, Hsl1. simpl.
  enough (1 ≤ currentSlice s ≤ Quantum (config s (heap (mcore s) l))) by lia.
  apply Hsl. rewrite <- Hl.
  change (running (core_of s0) = running (core_of s3)).
  by rewrite (ad_running _ _ _ Had), (ce_running _ _ Heq).
Qed.

Lemma MLFQ_tick_ok t s :
  MLFQ_wf s → MLFQ_wf (MLFQ_Tick t s).2 ∧
  ∃ r, tick_spec t r (core_of s) (core_of (MLFQ_Tick t s).2).
Proof.
  intros Hs. destruct (MLFQ_tick_admitted t s Hs) as (Had & Hwf3 & Hsh3 & Hr3 & Hsl3 & Hb3).
  unfold MLFQ_Tick. cbn [snd]. set (s3 := MLFQ_age _) in *.
  destruct (check_ok t s3 Hwf3 Hsh3 Hr3) as (Hsh4 & Hrs4 & Hd4).
  assert (Hdec : decided (MLFQ_check s3)).
  { intros l Hl. destruct (Hd4 l Hl) as (E & Hal & Hsl). rewrite E in *.
    specialize (Hr3 l Hl). specialize (Hsl3 l Hl). cbv zeta. lia. }
  destruct (schedule_ok t _ Hsh4 Hdec) as (Hrs & Hsh5 & Hdec5). apply Hrs4 in Hrs.
  pose proof (resched_wf t _ _ Hwf3 Hrs) as Hwf5.
  destruct (exec_ok t _ Hwf5 Hsh5 Hdec5) as (Hsh6 & Hr6 & Hsl6).
  pose proof (wf_core_totalTime _ (t + 1) (mw_core _ Hs)) as Hwf0.
  destruct (phases_tick t _ _ _ _ Hwf0 Had Hrs (exec_executed t _)) as [Hwf6 Hts].
  split; [|eexists; by eapply tick_spec_totalTime].
  pose proof (schedule_settings t (MLFQ_check s3)) as Hset. rewrite check_settings in Hset.
  set (s5 := MLFQ_schedule t (MLFQ_check s3)) in *. clearbody s5.
  apply mk_MLFQ_wf; [exact Hwf6|exact Hsh6|exact Hr6|exact Hsl6|].
  change (0 ≤ ticksSinceBoost s5 < BoostPeriod s5). unfold settings in Hset.
  injection Hset as _ _ -> -> _. exact Hb3.
Qed.

Lemma MLFQ_tick_result t s :
  (MLFQ_Tick t s).1 =
  (running (core_of (MLFQ_Tick t s).2), allDone (core_of (MLFQ_Tick t s).2)).
Proof.
  unfold MLFQ_Tick. cbn [fst snd]. generalize (MLFQ_exec t (MLFQ_schedule t (MLFQ_check
    (MLFQ_age (MLFQ_admit t (MLFQ_boost t
      (s <| mcore ::= λ c, c <| totalTime := t + 1 |> |>))))))). by intros [].
Qed.

Lemma MLFQ_tick_total t s : totalTime (core_of (MLFQ_Tick t s).2) = t + 1.
Proof.
  unfold MLFQ_Tick. cbn [snd]. set (s0 := s <| mcore ::= _ |>).
  transitivity (totalTime (mcore s0)); [|done].
  assert (Hb : totalTime (mcore (MLFQ_boost t s0)) = totalTime (mcore s0)).
  { unfold MLFQ_boost. case_if; [|done]. by destruct (foldl boost_one _ _). }
  rewrite <- Hb. generalize (MLFQ_boost t s0). clear. intros s.
  assert (Ha : totalTime (mcore (MLFQ_age (MLFQ_admit t s))) = totalTime (mcore s)).
  { unfold MLFQ_admit. by destruct (foldl (arrive_one t) _ _). }
  rewrite <- Ha. generalize (MLFQ_age (MLFQ_admit t s)). clear. intros s.
  assert (Hc : totalTime (mcore (MLFQ_check s)) = totalTime (mcore s)).
  { unfold MLFQ_check. destruct (running (mcore s)); [|done]. by repeat case_if. }
  rewrite <- Hc. generalize (MLFQ_check s). clear. intros s.
  transitivity (totalTime (mcore (MLFQ_schedule t s))).
  - generalize (MLFQ_schedule t s). clear. intros s. unfold MLFQ_exec. cbn [core_of].
    change (totalTime (exec_as MLFQ_label t (match running (mcore s) with
      | Some l => mcore s <| heap ::= alter spend_p l |> | None => mcore s end)) = totalTime (mcore s)).
    rewrite total_exec_as. by destruct (running (mcore s)).
  - unfold MLFQ_schedule. destruct (running (mcore s)); [done|]. by repeat case_match.
Qed.

#[export] Instance MLFQ_laws : SchedulerLaws MLFQScheduler.
Proof.
  refine {| s_wf := MLFQ_wf; s_ok := λ _, True |}.
  - by intros s [].
  - done.
  - intros l s [] Hl Hn _. split; try done; [by apply (core_add_wf l (core_of s))|].
    by destruct mw_shape0.
  - intros t s Hs. by apply MLFQ_tick_ok.
  - intros t s Hs. by apply MLFQ_tick_ok.
  - apply MLFQ_tick_total.
  - apply MLFQ_tick_result.
Defined.

(** ** The rules *)
Lemma tick_settings t s :
  settings (MLFQ_Tick t s).2 =
  settings (MLFQ_boost t (s <| mcore ::= λ c, c <| totalTime := t + 1 |> |>)).
Proof.
  unfold MLFQ_Tick. cbn [snd]. set (s1 := MLFQ_boost _ _).
  pose proof (schedule_settings t (MLFQ_check (MLFQ_age (MLFQ_admit t s1)))) as E.
  rewrite check_settings in E. destruct (admit_age_settings t s1) as [E1 _].
  rewrite E1 in E. rewrite <- E. by set (s5 := MLFQ_schedule _ _).
Qed.

Lemma mod_succ t b :
  0 < b → 0 ≤ t →
  (t + 1) `mod` b = if b <=? t `mod` b + 1 then 0 else t `mod` b + 1.
Proof.
  intros Hb Ht. pose proof (Z.mod_pos_bound t b Hb).
  rewrite <- Z.add_mod_idemp_l by lia. destruct (Z.leb_spec b (t `mod` b + 1)).
  - replace (t `mod` b + 1) with b by lia. apply Z.mod_same. lia.
  - apply Z.mod_small. lia.
Qed.

Definition boost_times (b n : Z) : list Z := filter (λ u, (u + 1) `mod` b = 0) (seqZ 0 n).

Lemma boost_times_tick t s b :
  inv t s → BoostPeriod s = b →
  ticksSinceBoost s = t `mod` b → BoostEvents s = boost_times b t →
  let s' := (MLFQ_Tick t s).2 in
  BoostPeriod s' = b ∧ ticksSinceBoost s' = (t + 1) `mod` b ∧
  BoostEvents s' = boost_times b (t + 1).
Proof.
  intros (Hwf & Ht & _) Hb Hs He. cbv zeta. pose proof (tick_settings t s) as Hset.
  revert Hset. generalize (MLFQ_Tick t s).2. intros s' Hset.
  set (s0 := s <| mcore ::= λ c, c <| totalTime := t + 1 |> |>) in *.
  destruct Hwf as [Hc Hsh _ _ Hsince].
  assert (Hc0 : wf_core (core_of s0)) by apply (wf_core_totalTime _ (t + 1) Hc).
  assert (Hsh0 : shape s0) by by destruct Hsh.
  assert (Hbt : boost_times b (t + 1) =
    boost_times b t ++ if (t + 1) `mod` b =? 0 then [t] else []).
  { unfold boost_times. rewrite seqZ_app, filter_app by lia. simpl. f_equal.
    rewrite seqZ_cons, seqZ_nil, filter_cons, filter_nil by lia.
    destruct (Z.eqb_spec ((t + 1) `mod` b) 0); by case_decide. }
  assert (Hb0 : 0 < b) by (destruct Hsh; lia).
  pose proof (mod_succ t b Hb0 Ht) as Hm. pose proof (Z.mod_pos_bound t b Hb0).
  destruct (boost_spec t s0 Hc0 Hsh0) as [[E Hlt]|(Hge & h & E & _)];
    rewrite E in Hset; injection Hset as _ _ -> -> ->; simpl in *; subst b;
    rewrite Hbt, Hm, He; destruct (Z.leb_spec (BoostPeriod s) (t `mod` BoostPeriod s + 1));
    try lia; simpl.
  - split; [done|]. split; [lia|]. destruct (Z.eqb_spec (t `mod` BoostPeriod s + 1) 0); [lia|].
    by rewrite app_nil_r.
  - done.
Qed.

(** C28. Rules 2 and 4: after any number of ticks a process that waits in the
    queue of level [i] has level [i] and has used less than the allotment of
    that level; the running process has used at most the allotment of its
    level and has run at most the quantum of its level since its dispatch; and
    the last boost is less than a boost period ago. *)
Theorem MLFQ_levels_and_allotments (n : nat) (s : MLFQScheduler) :
  loaded s →
  let s' := ticks n 0 s in
  (∀ i l, at_level (Queues s') i l →
     CurrentQueue (heap (mcore s') l) = Z.of_nat i ∧
     0 ≤ AllotmentUsed (heap (mcore s') l) < Allotment (Configs s' !!! i)) ∧
  (∀ l, running (mcore s') = Some l →
     0 ≤ CurrentQueue (heap (mcore s') l) < NumQueues s' ∧
     1 ≤ AllotmentUsed (heap (mcore s') l) ≤ Allotment (config s' (heap (mcore s') l)) ∧
     1 ≤ currentSlice s' ≤ Quantum (config s' (heap (mcore s') l))) ∧
  0 ≤ ticksSinceBoost s' < BoostPeriod s'.
Proof.
  intros Hl. pose proof (ticks_wf n s Hl) as Hw. revert Hw.
  generalize (ticks n 0 s). intros s' [_ [] Hr Hsl Hb].
  split; [done|]. split; [|done]. intros l Hrun.
  destruct (Hr l Hrun). specialize (Hsl l Hrun). done.
Qed.

(** Rule 5: started from a new scheduler, the boosts happen exactly at
    the end of every period of [BoostPeriod] ticks. *)
Theorem MLFQ_boost_events (n : nat) (s : MLFQScheduler) :
  loaded s → ticksSinceBoost s = 0 → BoostEvents s = [] →
  BoostEvents (ticks n 0 s) = boost_times (BoostPeriod s) (Z.of_nat n).
Proof.
  intros Hl Hs He. pose proof (loaded_inv s Hl) as Hi.
  assert (0 < BoostPeriod s) by apply Hl.
  apply (ticks_ind (λ t s', BoostPeriod s' = BoostPeriod s ∧
    ticksSinceBoost s' = t `mod` BoostPeriod s ∧
    BoostEvents s' = boost_times (BoostPeriod s) t) n 0 s); [|done|].
  - intros t s1 Hi1 (Hb & Hs1 & He1). by apply boost_times_tick.
  - split; [done|]. by rewrite Z.mod_0_l by lia.
Qed.

(** C29. Rule 1: a free CPU is given to the process at the head of the
    highest non-empty queue, which leaves that queue; it stays idle only when
    all queues are empty. *)
Theorem MLFQ_runs_highest_priority (t : Z) (s : MLFQScheduler) :
  shape s → running (mcore s) = None →
  let s' := MLFQ_schedule t s in
  match running (mcore s') with
  | None => ∀ i l, ¬ at_level (Queues s) i l
  | Some l => ∃ i ls, Queues s !! i = Some (l :: ls) ∧
      (∀ j k, (j < i)%nat → ¬ at_level (Queues s) j k) ∧ Queues s' = <[i := ls]> (Queues s)
  end.
Proof.
  intros Hsh Hr s'. subst s'.
  destruct (schedule_cases t s Hsh Hr) as [[Hc ->]|(i & l & ls & Hi & Hmin & ->)].
  - rewrite Hr. intros i l Hl.
    assert (l ∈ concat (Queues s)) as Hin by (apply elem_of_concat_level; eauto).
    rewrite Hc in Hin. by apply elem_of_nil in Hin.
  - cbn [mcore running start]. exists i, ls. split; [done|]. split.
    + intros j k Hj (x & Hx & Hk). rewrite Hmin in Hx by done. simplify_eq.
      by apply elem_of_nil in Hk.
    + simpl. clear -Hi. revert i Hi. induction (Queues s) as [|x q IH]; [done|].
      intros [|i] Hi; simpl in *; [by simplify_eq|]. f_equal. by apply IH.
Qed.

(** ** The CPU lab *)
Lemma NewMLFQ_wf h boostPeriod : MLFQ_wf (NewMLFQScheduler h boostPeriod).
Proof.
  assert (Hb : 0 < (if boostPeriod <=? 0 then 50 else boostPeriod))
    by (destruct (Z.leb_spec boostPeriod 0); lia).
  split; simpl; try done; [apply new_core_wf|].
  split; simpl; try done; [by repeat constructor|].
  intros i l (x & Hx & Hl). do 3 (destruct i as [|i]; simpl in Hx;
    [simplify_eq; by apply elem_of_nil in Hl|]). done.
Qed.

Definition lab_MLFQ : MLFQScheduler := add_all lab_jobs (NewMLFQScheduler lab_heap 30).

Lemma lab_MLFQ_loaded : loaded lab_MLFQ.
Proof. apply lab_loaded; [apply NewMLFQ_wf|done|done|by repeat constructor]. Qed.

Lemma MLFQ_levels_and_allotments_witness :
  let s' := ticks 9 0 lab_MLFQ in
  (∀ i l, at_level (Queues s') i l →
     CurrentQueue (heap (mcore s') l) = Z.of_nat i ∧
     0 ≤ AllotmentUsed (heap (mcore s') l) < Allotment (Configs s' !!! i)) ∧
  (∀ l, running (mcore s') = Some l →
     0 ≤ CurrentQueue (heap (mcore s') l) < NumQueues s' ∧
     1 ≤ AllotmentUsed (heap (mcore s') l) ≤ Allotment (config s' (heap (mcore s') l)) ∧
     1 ≤ currentSlice s' ≤ Quantum (config s' (heap (mcore s') l))) ∧
  0 ≤ ticksSinceBoost s' < BoostPeriod s'.
Proof. exact (MLFQ_levels_and_allotments 9 lab_MLFQ lab_MLFQ_loaded). Defined.

Lemma MLFQ_boost_events_witness :
  BoostEvents (ticks 65 0 lab_MLFQ) = [29; 59].
Proof. exact (MLFQ_boost_events 65 lab_MLFQ lab_MLFQ_loaded eq_refl eq_refl). Defined.

Lemma MLFQ_runs_highest_priority_witness :
  let s := NewMLFQScheduler lab_heap 30 <| Queues := [[]; []; [0%nat]] |>
             <| mcore ::= λ c, c <| heap ::= λ h l, (h l) <| CurrentQueue := 2 |> |> |> in
  let s' := MLFQ_schedule 7 s in
  match running (mcore s') with
  | None => ∀ i l, ¬ at_level (Queues s) i l
  | Some l => ∃ i ls, Queues s !! i = Some (l :: ls) ∧
      (∀ j k, (j < i)%nat → ¬ at_level (Queues s) j k) ∧ Queues s' = <[i := ls]> (Queues s)
  end.
Proof.
  apply MLFQ_runs_highest_priority; [|done]. split; simpl; try done.
  - by repeat constructor.
  - intros i l (x & Hx & Hl). destruct i as [|[|[|i]]]; simpl in Hx; simplify_eq/=;
      [by apply elem_of_nil in Hl..|]. done.
Defined.
