(* ===== verification/SchedProps.v ===== *)
(** * What every scheduler guarantees

    The theorems of [SchedTheory] as properties of any implementation of the
    [Scheduler] interface that has the laws of [SchedCore], with the six
    schedulers of the CPU lab as instances. *)

From S2P Require Import Prelude Floats Process SchedCore SchedTheory.
From S2P Require Import SchedFIFO SchedSJF SchedRR SchedLottery SchedMLFQ.

Section props.
Context `{Hlaws : SchedulerLaws Sch}.

(** C1. Every scheduler runs every set of fresh jobs to completion: the driver
    loop ends within the total burst time plus the last arrival time, and then
    the completed list holds each process exactly once. *)
Theorem scheduler_completes (n : nat) (s : Sch) :
  loaded s → total_burst s + last_arrival s ≤ Z.of_nat n →
  ∃ s', drive n 0 s = (true, s') ∧ GetCompleted s' ≡ₚ procs s.
Proof.
  intros Hl Hn. destruct (drive_finishes n s Hl Hn) as (s' & Hd & Hc & _). eauto.
Qed.

(** C2. The times reported for every process of a finished run are consistent
    under every scheduler: turnaround is finish minus arrival, response is
    first run minus arrival, and the waiting time is turnaround minus burst
    plus one (the tick in which a process is dispatched counts as waited). *)
Theorem scheduler_times (n : nat) (s : Sch) :
  loaded s → total_burst s + last_arrival s ≤ Z.of_nat n →
  ∃ s', drive n 0 s = (true, s') ∧ ∀ l, l ∈ procs s →
    let p := proc s' l in
    State p = StateTerminated ∧ RemainingTime p = 0 ∧
    Turnaround p = FinishTime p - ArrivalTime p ∧
    ResponseTime p = StartTime p - ArrivalTime p ∧ 0 ≤ ResponseTime p ∧
    BurstTime p ≤ Turnaround p ∧
    WaitingTime p = Turnaround p - BurstTime p + 1.
Proof.
  intros Hl Hn. destruct (drive_finishes n s Hl Hn) as (s' & Hd & _ & Hf). eauto.
Qed.

(** Accounting: after any number of ticks the busy time is the work done
    so far, and the Gantt chart has exactly one segment of length one per tick,
    without gaps. *)
Theorem scheduler_accounting (n : nat) (s : Sch) :
  loaded s → busyTime (s_core s) = 0 → GetGantt s = [] →
  busyTime (s_core (ticks n 0 s)) = total_burst s - work (ticks n 0 s) ∧
  ∃ ids, GetGantt (ticks n 0 s) = imap (λ i id, segment (Z.of_nat i) id) ids ∧
         length ids = n.
Proof.
  intros Hl Hb Hg. destruct (ticks_accounting n 0 s (loaded_inv s Hl)) as (Hw & ids & Hgt & Hn).
  destruct (loaded_work s Hl) as [Hwk _]. split; [lia|]. exists ids. by rewrite Hgt, Hg.
Qed.

(** ** Metrics *)
Record Metrics := mkMetrics {
  TotalTime : Z; AvgTurnaroundTime : float64; AvgWaitingTime : float64; AvgResponseTime : float64;
  CPUUtilization : float64; Throughput : float64; TotalContextSwitches : Z }.

Definition CalculateMetrics (completed : list Process)
    (totalTime busyTime contextSwitches : Z) : Metrics :=
  let n := len completed in
  if n =? 0 then mkMetrics 0 (f_of_int 0) (f_of_int 0) (f_of_int 0) (f_of_int 0) (f_of_int 0) 0 else
  let sumTurnaround := foldl (λ a p, a + Turnaround p) 0 completed in
  let sumWaiting := foldl (λ a p, a + WaitingTime p) 0 completed in
  let sumResponse := foldl (λ a p, a + ResponseTime p) 0 completed in
  let utilization := if 0 <? totalTime
    then fmul (fdiv (f_of_int busyTime) (f_of_int totalTime)) (f_of_int 100) else f_of_int 0 in
  let throughput := if 0 <? totalTime then fdiv (f_of_int n) (f_of_int totalTime) else f_of_int 0 in
  mkMetrics totalTime (fdiv (f_of_int sumTurnaround) (f_of_int n)) (fdiv (f_of_int sumWaiting) (f_of_int n))
    (fdiv (f_of_int sumResponse) (f_of_int n)) utilization throughput contextSwitches.

Definition GetMetrics (s : Sch) : Metrics :=
  let c := s_core s in
  CalculateMetrics (heap c <$> completed c) (totalTime c) (busyTime c) (contextSwitches c).

Lemma foldl_sumZ {A} (f : A → Z) l a : foldl (λ a x, a + f x) a l = a + sumZ f l.
Proof.
  revert a. induction l as [|x l IH]; intros a; cbn [foldl]; [unfold sumZ; simpl; lia|].
  rewrite IH, sumZ_cons. lia.
Qed.

(** The reported averages of a finished run: the waiting times add up to the
    turnaround times minus the bursts, plus one tick per process. *)
Theorem scheduler_metrics (n : nat) (s : Sch) :
  loaded s → total_burst s + last_arrival s ≤ Z.of_nat n → procs s ≠ [] →
  ∃ s' tt, drive n 0 s = (true, s') ∧
    let k := len (procs s) in
    tt = sumZ (λ l, FinishTime (proc s' l) - ArrivalTime (proc s' l)) (procs s) ∧
    AvgTurnaroundTime (GetMetrics s') = fdiv (f_of_int tt) (f_of_int k) ∧
    AvgWaitingTime (GetMetrics s') =
      fdiv (f_of_int (tt - sumZ (λ l, BurstTime (proc s' l)) (procs s) + k)) (f_of_int k).
Proof.
  intros Hl Hn Hne. destruct (drive_finishes n s Hl Hn) as (s' & Hd & Hc & Hf).
  exists s'. eexists. split; [exact Hd|]. split; [reflexivity|].
  unfold GetMetrics, CalculateMetrics. unfold GetCompleted in Hc.
  assert (len (heap (s_core s') <$> completed (s_core s')) = len (procs s)) as Hlen.
  { unfold len. by rewrite length_fmap, Hc. }
  rewrite Hlen. assert (0 < len (procs s)) by (destruct (procs s); [done|unfold len; cbn; lia]).
  destruct (Z.eqb_spec (len (procs s)) 0); [lia|]. cbn [AvgTurnaroundTime AvgWaitingTime].
  rewrite !foldl_sumZ, !sumZ_fmap, !(sumZ_perm _ _ _ Hc). split; do 2 f_equal.
  - rewrite Z.add_0_l. apply sumZ_ext. intros l Hin. by destruct (Hf l Hin) as (_ & _ & Ht & _).
  - rewrite Z.add_0_l.
    transitivity (sumZ (λ l, (FinishTime (proc s' l) - ArrivalTime (proc s' l)) - BurstTime (proc s' l) + 1) (procs s)).
    + apply sumZ_ext. intros l Hin. destruct (Hf l Hin) as (_ & _ & Ht & _ & _ & _ & Hw).
      unfold proc in *. lia.
    + clear. induction (procs s) as [|l ls IH]; [done|]. rewrite !sumZ_cons, IH, len_cons. lia.
Qed.

Lemma busy_ticks n s :
  loaded s → busyTime (s_core s) = 0 →
  0 ≤ busyTime (s_core (ticks n 0 s)) ≤ Z.of_nat n ∧
  (0 < Z.of_nat n → totalTime (s_core (ticks n 0 s)) = Z.of_nat n).
Proof.
  intros Hl Hb.
  apply (ticks_ind (λ t s, 0 ≤ busyTime (s_core s) ≤ t ∧ (0 < t → totalTime (s_core s) = t)) n 0);
    [|by apply loaded_inv|lia].
  intros t s' (Hwf & Ht & _) [Hbs _]. destruct (s_tick_spec t s' Hwf) as [r Hts].
  rewrite (ts_busy _ _ _ _ Hts), s_tick_total. by destruct r; lia.
Qed.

(** C22. The utilisation reported after any number of ticks is a number between 0
    and 100, under every scheduler and in the arithmetic of [float64]; the
    total time is the number of ticks. *)
Theorem scheduler_utilization (n : nat) (s : Sch) :
  loaded s → busyTime (s_core s) = 0 → 0 < Z.of_nat n < 2 ^ 53 → GetCompleted (ticks n 0 s) ≠ [] →
  let m := GetMetrics (ticks n 0 s) in
  TotalTime m = Z.of_nat n ∧ within (CPUUtilization m) 100 ∧
  CPUUtilization m = fmul (fdiv (f_of_int (busyTime (s_core (ticks n 0 s)))) (f_of_int (Z.of_nat n)))
                          (f_of_int 100).
Proof.
  intros Hl Hb Hn Hc m. destruct (busy_ticks n s Hl Hb) as [Hbs Ht]. specialize (Ht (proj1 Hn)).
  unfold m, GetMetrics, CalculateMetrics. unfold GetCompleted in Hc.
  assert (0 < len (heap (s_core (ticks n 0 s)) <$> completed (s_core (ticks n 0 s)))) as Hlen.
  { destruct (completed _); [done|]. unfold len. cbn. lia. }
  destruct (Z.eqb_spec (len (heap (s_core (ticks n 0 s)) <$> completed (s_core (ticks n 0 s)))) 0); [lia|].
  rewrite Ht. destruct (Z.ltb_spec 0 (Z.of_nat n)); [|lia]. cbn [TotalTime CPUUtilization].
  split; [done|]. split; [|done]. by apply percent_within.
Qed.
End props.

(** ** The CPU lab *)

(** A linear congruential generator as an instance of [Rng]. *)
#[export] Instance lcg : Rng Z.
Proof.
  refine {| rand_New := λ seed, seed;
            Intn := λ n r, let r := (r * 1103515245 + 12345) `mod` 2 ^ 31 in (r `mod` n, r) |}.
  intros n r Hn. by apply Z.mod_pos_bound.
Defined.

Definition lab_Lottery : LotteryScheduler Z :=
  add_all lab_jobs (NewLotteryScheduler lab_heap 2 42).

Lemma lab_Lottery_loaded : loaded lab_Lottery.
Proof.
  apply lab_loaded; [|done|done|by repeat constructor].
  split; [apply new_core_wf|]. by intros l ?%elem_of_nil.
Qed.

Lemma scheduler_completes_witness :
  ∃ s', drive 100 0 lab_Lottery = (true, s') ∧ GetCompleted s' ≡ₚ procs lab_Lottery.
Proof. apply scheduler_completes; [exact lab_Lottery_loaded|by vm_compute]. Defined.

Lemma scheduler_times_witness :
  ∃ s', drive 100 0 lab_MLFQ = (true, s') ∧ ∀ l, l ∈ procs lab_MLFQ →
    let p := proc s' l in
    State p = StateTerminated ∧ RemainingTime p = 0 ∧
    Turnaround p = FinishTime p - ArrivalTime p ∧
    ResponseTime p = StartTime p - ArrivalTime p ∧ 0 ≤ ResponseTime p ∧
    BurstTime p ≤ Turnaround p ∧
    WaitingTime p = Turnaround p - BurstTime p + 1.
Proof. apply scheduler_times; [exact lab_MLFQ_loaded|by vm_compute]. Defined.

Lemma scheduler_accounting_witness :
  busyTime (s_core (ticks 5 0 lab_MLFQ)) = total_burst lab_MLFQ - work (ticks 5 0 lab_MLFQ) ∧
  ∃ ids, GetGantt (ticks 5 0 lab_MLFQ) = imap (λ i id, segment (Z.of_nat i) id) ids ∧
         length ids = 5%nat.
Proof. exact (scheduler_accounting 5 lab_MLFQ lab_MLFQ_loaded eq_refl eq_refl). Defined.

Lemma scheduler_utilization_witness :
  let m := GetMetrics (ticks 14 0 lab_MLFQ) in
  TotalTime m = 14 ∧ within (CPUUtilization m) 100 ∧
  CPUUtilization m = fmul (fdiv (f_of_int (busyTime (s_core (ticks 14 0 lab_MLFQ)))) (f_of_int 14))
                          (f_of_int 100).
Proof. apply (scheduler_utilization 14 lab_MLFQ lab_MLFQ_loaded eq_refl); [done|by vm_compute]. Defined.
