(* ===== verification/Steps.v ===== *)
(** * Interleavings of threads

    A concurrent component is a function [step a s]: the atomic step [a] in the
    state [s], or [None] when it is not possible.  The label [a] is the thread
    that takes the step, with the choices it makes where it has any.  A
    schedule is a sequence of labels. *)

From S2P Require Import Prelude.

Section Machine.
Context {L St : Type} (step : L → St → option St).

Fixpoint run (sched : list L) (s : St) : option St :=
  match sched with
  | [] => Some s
  | t :: sched => s ← step t s; run sched s
  end.

Inductive reachable (init : St) : St → Prop :=
  | reach_init : reachable init init
  | reach_step s a s' : reachable init s → step a s = Some s' → reachable init s'.

(** A property of the initial state that every step preserves holds in every
    reachable state. *)
Lemma reachable_inv (I : St → Prop) init s :
  I init → (∀ a s s', I s → step a s = Some s' → I s') → reachable init s → I s.
Proof. intros Hi Hs. induction 1; eauto. Qed.

Lemma run_app l1 l2 s : run (l1 ++ l2) s = run l1 s ≫= run l2.
Proof. revert s. induction l1 as [|t l1 IH]; intros s; simpl; [done|]. by destruct (step t s); simpl. Qed.

Lemma run_reachable init sched s s' :
  reachable init s → run sched s = Some s' → reachable init s'.
Proof.
  revert s. induction sched as [|t sched IH]; intros s Hr; simpl; [by intros [= <-]|].
  destruct (step t s) eqn:E; simpl; [|done]. apply IH. by econstructor.
Qed.

(** The same for the states that follow a given state. *)
Lemma run_inv (I : St → Prop) sched s s' :
  I s → (∀ a s s', I s → step a s = Some s' → I s') → run sched s = Some s' → I s'.
Proof.
  intros Hi Hs. revert s Hi. induction sched as [|t sched IH]; intros s Hi; simpl; [by intros [= <-]|].
  destruct (step t s) eqn:E; simpl; [|done]. apply IH. by eapply Hs.
Qed.
End Machine.

(** The first [n] threads only. *)
Definition among {St : Type} (n : nat) (step : nat → St → option St) (t : nat) (s : St) : option St :=
  if (t <? n)%nat then step t s else None.

Lemma among_Some {St : Type} n (step : nat → St → option St) t s s' :
  among n step t s = Some s' → (t < n)%nat ∧ step t s = Some s'.
Proof. unfold among. destruct (Nat.ltb_spec t n); naive_solver. Qed.

(** ** Program counters

    The position of every thread is a function from threads. *)
Lemma pc_insert {P : Type} (pcs : nat → P) t p u :
  <[t := p]> pcs u = if decide (u = t) then p else pcs u.
Proof.
  destruct (decide (u = t)) as [->|].
  - by rewrite fn_lookup_insert.
  - by rewrite fn_lookup_insert_ne.
Qed.

(** The number of the first [n] threads whose position satisfies [f]. *)
Definition count {P : Type} (f : P → bool) (n : nat) (pcs : nat → P) : Z :=
  sumZ (λ t, if f (pcs t) then 1 else 0) (seq 0 n).

Lemma count_insert {P : Type} (f : P → bool) n (pcs : nat → P) t p :
  (t < n)%nat →
  count f n (<[t := p]> pcs) =
    count f n pcs - (if f (pcs t) then 1 else 0) + (if f p then 1 else 0).
Proof.
  intros Ht. unfold count.
  rewrite (sumZ_update_one (λ u, if f (pcs u) then 1 else 0)
    (λ u, if f (<[t := p]> pcs u) then 1 else 0) (seq 0 n) t
    ((if f p then 1 else 0) - (if f (pcs t) then 1 else 0))).
  - lia.
  - apply NoDup_ListNoDup, seq_NoDup.
  - apply elem_of_seq. lia.
  - rewrite fn_lookup_insert. lia.
  - intros u _ Hu. by rewrite fn_lookup_insert_ne.
Qed.

Lemma count_nonneg {P : Type} (f : P → bool) n (pcs : nat → P) : 0 ≤ count f n pcs.
Proof. apply sumZ_nonneg. intros t _. destruct (f (pcs t)); lia. Qed.

Lemma count_pos {P : Type} (f : P → bool) n (pcs : nat → P) :
  0 < count f n pcs ↔ ∃ t, (t < n)%nat ∧ f (pcs t) = true.
Proof.
  unfold count. split.
  - intros Hc. destruct (decide (Exists (λ t, f (pcs t) = true) (seq 0 n))) as [He|He].
    + apply Exists_exists in He as (t & Ht & Hf). apply elem_of_seq in Ht. exists t. split; [lia|done].
    + rewrite (sumZ_ext _ (λ _, 0)) in Hc.
      * exfalso. clear He. induction (seq 0 n); unfold sumZ in *; simpl in *; lia.
      * intros t Ht. destruct (f (pcs t)) eqn:E; [|done]. destruct He. apply Exists_exists. eauto.
  - intros (t & Ht & Hf). assert (Hin : t ∈ seq 0 n) by (apply elem_of_seq; lia).
    induction (seq 0 n) as [|u l IH]; [by apply elem_of_nil in Hin|]. rewrite sumZ_cons.
    pose proof (sumZ_nonneg (λ t, if f (pcs t) then 1 else 0) l) as Hnn.
    assert (0 ≤ sumZ (λ t, if f (pcs t) then 1 else 0) l).
    { apply Hnn. intros v _. destruct (f (pcs v)); lia. }
    apply elem_of_cons in Hin as [->|Hin]; [rewrite Hf; lia|].
    specialize (IH Hin). destruct (f (pcs u)); lia.
Qed.

Lemma count_zero {P : Type} (f : P → bool) n (pcs : nat → P) t :
  count f n pcs = 0 → (t < n)%nat → f (pcs t) = false.
Proof.
  intros Hc Ht. destruct (f (pcs t)) eqn:E; [|done].
  assert (0 < count f n pcs) by (apply count_pos; eauto). lia.
Qed.
