(* ===== verification/Mutexes.v ===== *)
(** * The queueing mutex

    Models [Mutex] of [src/pkg/concurrency/mutex.go] and [Spinlock] of
    [src/pkg/concurrency/spinlock.go] as transition systems.  Every atomic
    access of the source is a step of its own, so that the fast path of one
    thread interleaves with the slow path and with [Unlock] of the others; a
    thread is a natural number and calls [Lock] and [Unlock] in turn, any
    number of times.  See [Steps] for schedules. *)

From S2P Require Import Prelude Steps.

(** Where a thread is: the statement of [Lock] or [Unlock] it executes next. *)
Inductive mutex_pc :=
  | Outside                 (** about to call [Lock]: the compare-and-swap *)
  | LockMu                  (** [m.mu.Lock()] of the slow path *)
  | LockAppend              (** [m.waiters = append(m.waiters, node)] *)
  | LockStore2              (** [atomic.StoreInt32(&m.state, 2)] *)
  | LockUnmu                (** [m.mu.Unlock()] *)
  | LockPark                (** [<-node.ready] *)
  | Critical                (** [Lock] has returned *)
  | UnlockMu                (** [m.mu.Lock()] of [Unlock] *)
  | UnlockCheck             (** [if len(m.waiters) > 0], popping the first *)
  | UnlockStore1 (next : nat)  (** [atomic.StoreInt32(&m.state, 1)] *)
  | UnlockUnmu1 (next : nat)   (** [m.mu.Unlock()] before waking [next] *)
  | UnlockClose (next : nat)   (** [close(next.ready)] *)
  | UnlockStore0            (** [atomic.StoreInt32(&m.state, 0)] *)
  | UnlockUnmu0.            (** the last [m.mu.Unlock()] *)

(** The node of a parked thread is identified with the thread; [ready] are the
    threads whose channel has been closed. *)
Record Mutex := mkMutex {
  state : Z; waiters : list nat; mu : option nat; ready : gset nat; pcs : nat → mutex_pc }.
#[export] Instance eta_Mutex : Eta Mutex := λ m,
  mkMutex (state m) (waiters m) (mu m) (ready m) (pcs m).

Definition NewMutex : Mutex := mkMutex 0 [] None ∅ (λ _, Outside).

Definition goto (t : nat) (p : mutex_pc) (m : Mutex) : Mutex := m <| pcs ::= <[t := p]> |>.

Definition mutex_step (t : nat) (m : Mutex) : option Mutex :=
  match pcs m t with
  | Outside =>
      if state m =? 0 then Some (goto t Critical (m <| state := 1 |>))
      else Some (goto t LockMu m)
  | LockMu =>
      match mu m with
      | None => Some (goto t LockAppend (m <| mu := Some t |>))
      | Some _ => None
      end
  | LockAppend => Some (goto t LockStore2 (m <| waiters ::= λ w, w ++ [t] |>))
  | LockStore2 => Some (goto t LockUnmu (m <| state := 2 |>))
  | LockUnmu => Some (goto t LockPark (m <| mu := None |>))
  | LockPark =>
      if bool_decide (t ∈ ready m)
      then Some (goto t Critical (m <| ready ::= λ r, r ∖ {[t]} |>))
      else None
  | Critical => Some (goto t UnlockMu m)
  | UnlockMu =>
      match mu m with
      | None => Some (goto t UnlockCheck (m <| mu := Some t |>))
      | Some _ => None
      end
  | UnlockCheck =>
      match waiters m with
      | next :: rest =>
          let m := m <| waiters := rest |> in
          Some (goto t (match rest with [] => UnlockStore1 next | _ => UnlockUnmu1 next end) m)
      | [] => Some (goto t UnlockStore0 m)
      end
  | UnlockStore1 next => Some (goto t (UnlockUnmu1 next) (m <| state := 1 |>))
  | UnlockUnmu1 next => Some (goto t (UnlockClose next) (m <| mu := None |>))
  | UnlockClose next => Some (goto t Outside (m <| ready ::= λ r, {[next]} ∪ r |>))
  | UnlockStore0 => Some (goto t UnlockUnmu0 (m <| state := 0 |>))
  | UnlockUnmu0 => Some (goto t Outside (m <| mu := None |>))
  end.

(** ** Mutual exclusion *)

(** The thread that owns the mutex: it is in its critical section or releasing
    it, or it is parked and its channel is closed.  While [Unlock] is about to
    wake [next], the releasing thread counts as the owner. *)
Definition owns (m : Mutex) (t : nat) : Prop :=
  match pcs m t with
  | Critical | UnlockMu | UnlockCheck | UnlockStore1 _ | UnlockUnmu1 _ | UnlockClose _
  | UnlockStore0 => True
  | LockPark => t ∈ ready m
  | _ => False
  end.

(** The statements executed while holding the internal lock. *)
Definition in_mu (p : mutex_pc) : bool :=
  match p with
  | LockAppend | LockStore2 | LockUnmu | UnlockCheck | UnlockStore1 _ | UnlockUnmu1 _
  | UnlockStore0 | UnlockUnmu0 => true
  | _ => false
  end.

Definition queued (p : mutex_pc) : bool :=
  match p with LockStore2 | LockUnmu | LockPark => true | _ => false end.

Definition waking (p : mutex_pc) : option nat :=
  match p with UnlockStore1 n | UnlockUnmu1 n | UnlockClose n => Some n | _ => None end.

Record inv (m : Mutex) : Prop := mk_inv {
  inv_one : ∀ t u, owns m t → owns m u → t = u;
  inv_state : ∀ t, owns m t → state m ≠ 0;
  inv_mu : ∀ t, in_mu (pcs m t) = true → mu m = Some t;
  inv_nodup : NoDup (waiters m);
  inv_waiters : ∀ t, t ∈ waiters m → queued (pcs m t) = true ∧ t ∉ ready m;
  inv_ready : ∀ t, t ∈ ready m → pcs m t = LockPark;
  inv_waking : ∀ t n, waking (pcs m t) = Some n →
                 pcs m n = LockPark ∧ (n ∉ ready m) ∧ (n ∉ waiters m) }.

Lemma inv_init : inv NewMutex.
Proof. split; unfold owns; simpl; try done; try set_solver. apply NoDup_nil_2. Qed.

(** One step of thread [t], case by case. *)
Local Ltac step_cases Hs Hpc :=
  unfold mutex_step, goto in Hs;
  match type of Hs with context [pcs ?m ?t] => destruct (pcs m t) eqn:Hpc end;
  repeat match type of Hs with
    | context [if ?b then _ else _] => destruct b eqn:Eb
    | context [match mu ?m with _ => _ end] => destruct (mu m) eqn:Emu
    | context [match waiters ?m with _ => _ end] => destruct (waiters m) as [|next rest] eqn:Ew
    end; simplify_eq Hs; intros <-; clear Hs; simpl in *;
  repeat match goal with
    | H : mu ?m = _ |- context [mu ?m] => rewrite H
    | H : waiters ?m = _ |- context [waiters ?m] => rewrite H
    end.

Lemma step_mu t m m' :
  inv m → mutex_step t m = Some m' → ∀ u, in_mu (pcs m' u) = true → mu m' = Some u.
Proof.
  intros [_ _ H3 _ _ _ _] Hs. pose proof (H3 t) as Ht. step_cases Hs Hpc;
    intros u; rewrite pc_insert; destruct (decide (u = t)) as [->|Hne]; intros Hu;
    try done; try (by apply H3); try (by rewrite Ht); apply H3 in Hu; try congruence;
    try (rewrite Ht in Hu by done; congruence).
Qed.

Lemma step_waiters t m m' :
  inv m → mutex_step t m = Some m' →
  NoDup (waiters m') ∧ ∀ u, u ∈ waiters m' → queued (pcs m' u) = true ∧ u ∉ ready m'.
Proof.
  intros [_ _ _ H4 H5 H6 H7] Hs.
  pose proof (H5 t) as Ht5. pose proof (H6 t) as Ht6. pose proof (H7 t) as Ht7.
  assert (Hold : ∀ p u, u ∈ waiters m → (t ∈ waiters m → queued p = true) →
    queued (<[t := p]> (pcs m) u) = true ∧ u ∉ ready m).
  { intros p u Hu Hp. rewrite pc_insert. destruct (H5 u Hu). by case_decide; subst; auto. }
  step_cases Hs Hpc;
    try (split; [done|]; intros u Hu; apply Hold; [done|]; intros [? _]%Ht5; done);
    try (split; [by apply NoDup_cons in H4 as [_ ?]|]; intros u Hu; apply Hold; [by right|];
         intros [? _]%Ht5; done).
  - split.
    + apply NoDup_app. split; [done|]. split; [|apply NoDup_singleton].
      intros x Hx ->%list_elem_of_singleton. by destruct (Ht5 Hx).
    + intros u [Hu| ->%list_elem_of_singleton]%elem_of_app.
      * apply Hold; [done|]. by intros [? _]%Ht5.
      * rewrite pc_insert, decide_True by done. split; [done|]. intros ?%Ht6. done.
  - split; [done|]. intros u Hu. apply bool_decide_eq_true_1 in Eb.
    assert (u ≠ t) by (intros ->; by destruct (Ht5 Hu)).
    rewrite pc_insert, decide_False by done. destruct (H5 u Hu). split; [done|set_solver].
  - split; [done|]. destruct (Ht7 next eq_refl) as (_ & _ & Hn). intros u Hu.
    destruct (Hold Outside u Hu) as [? ?]; [by intros [? _]%Ht5|]. split; [done|set_solver].
Qed.

Lemma step_ready t m m' :
  inv m → mutex_step t m = Some m' → ∀ u, u ∈ ready m' → pcs m' u = LockPark.
Proof.
  intros [_ _ _ _ _ H6 H7] Hs. pose proof (H6 t) as Ht6. pose proof (H7 t) as Ht7.
  step_cases Hs Hpc; intros u Hu; rewrite pc_insert; destruct (decide (u = t)) as [->|Hne];
    try (by apply H6); try (by apply Ht6 in Hu).
  - by apply elem_of_difference in Hu as [_ []%not_elem_of_singleton].
  - apply elem_of_difference in Hu as [Hu _]. auto.
  - destruct (Ht7 next eq_refl) as (? & _). apply elem_of_union in Hu as [->%elem_of_singleton|Hu].
    + congruence.
    + by apply Ht6 in Hu.
  - destruct (Ht7 next eq_refl) as (? & _). apply elem_of_union in Hu as [->%elem_of_singleton|Hu]; auto.
Qed.

Lemma step_waking t m m' :
  inv m → mutex_step t m = Some m' → ∀ u n, waking (pcs m' u) = Some n →
  pcs m' n = LockPark ∧ (n ∉ ready m') ∧ (n ∉ waiters m').
Proof.
  intros [H1 _ H3 H4 H5 H6 H7] Hs. pose proof (H3 t) as Ht3. pose proof (H7 t) as Ht7.
  assert (Hold : ∀ u n, u ≠ t → waking (pcs m u) = Some n →
    owns m u ∧ pcs m n = LockPark ∧ (n ∉ ready m) ∧ (n ∉ waiters m)).
  { intros u n Hu Hw. split; [|by eapply H7]. unfold owns. by destruct (pcs m u). }
  assert (Hpop : ∀ p k next rest, pcs m t = UnlockCheck → waiters m = next :: rest →
    Some next = Some k →
    (if decide (k = t) then p else pcs m k) = LockPark ∧ (k ∉ ready m) ∧ (k ∉ rest)).
  { intros p k next rest Hpc Ew [= <-]. rewrite Ew in *.
    destruct (H5 next) as [Hq Hr]; [by left|]. rewrite Hpc in Ht3. specialize (Ht3 eq_refl).
    apply NoDup_cons in H4 as [Hnr _]. assert (Hne : next ≠ t) by (intros ->; by rewrite Hpc in Hq).
    rewrite decide_False by done.
    split_and!; [|done..]. specialize (H3 next). destruct (pcs m next); try done;
      specialize (H3 eq_refl); congruence. }
  step_cases Hs Hpc; intros u k; rewrite !pc_insert;
    destruct (decide (u = t)) as [->|Hne]; intros Hw; try done;
    try (destruct (Hold u k Hne Hw) as (Hown & Hn1 & Hn2 & Hn3)).
  all: try (destruct (decide (k = t)) as [->|Hnt]; [congruence|done]).
  - rewrite decide_False by congruence. split_and!; [done..|]. rewrite not_elem_of_app.
    split; [done|]. intros ->%list_elem_of_singleton. congruence.
  - apply bool_decide_eq_true_1 in Eb. rewrite decide_False by (by intros ->).
    split_and!; [done| |done]. by intros [? _]%elem_of_difference.
  - by eapply Hpop.
  - rewrite decide_False by congruence. split_and!; [done..|apply not_elem_of_nil].
  - by eapply Hpop.
  - rewrite decide_False by congruence. split_and!; [done..|]. by apply not_elem_of_cons in Hn3 as [_ ?].
  - injection Hw as <-. destruct (Ht7 next eq_refl) as (Hp & ?). rewrite decide_False by congruence. done.
  - injection Hw as <-. destruct (Ht7 next eq_refl) as (Hp & ?). rewrite decide_False by congruence. done.
  - destruct Hne. apply H1; [done|]. unfold owns. by rewrite Hpc.
Qed.

(** Two states in which thread [u] owns the mutex alike. *)
Lemma owns_frame m m' u :
  pcs m' u = pcs m u → (u ∈ ready m' → u ∈ ready m) → owns m' u → owns m u.
Proof. intros Hp Hr. unfold owns. rewrite Hp. by destruct (pcs m u). Qed.

Definition owned_once (m : Mutex) : Prop :=
  (∀ u v, owns m u → owns m v → u = v) ∧ (∀ u, owns m u → state m ≠ 0).

(** A step that makes nobody an owner. *)
Lemma owned_once_frame m m' :
  owned_once m → (∀ u, owns m' u → owns m u) → state m' ≠ 0 ∨ state m' = state m →
  owned_once m'.
Proof.
  intros [H1 H2] Hsub Hst. split; [auto|]. intros u Hu. destruct Hst as [?| ->]; [done|]. eauto.
Qed.

(** A step after which only thread [w] can be an owner. *)
Lemma owned_once_only w m' :
  (∀ u, owns m' u → u = w) → state m' ≠ 0 ∨ ¬ owns m' w → owned_once m'.
Proof.
  intros Hw Hst. split; [intros u v ->%Hw ->%Hw; done|].
  intros u Hu. pose proof (Hw u Hu) as ->. by destruct Hst.
Qed.

Lemma step_owns t m m' : inv m → mutex_step t m = Some m' → owned_once m'.
Proof.
  intros Hinv Hs. destruct Hinv as [H1 H2 _ _ _ H6 H7]. assert (Ho : owned_once m) by (by split).
  assert (Hot : owns m t → ∀ u, owns m u → u = t) by (intros ???; by apply H1).
  assert (Hst : owns m t → state m ≠ 0) by apply H2. pose proof (H7 t) as Ht7.
  assert (Hfr : ∀ m2 p, pcs m2 = <[t := p]> (pcs m) → ready m2 ⊆ ready m →
    ∀ u, u ≠ t → owns m2 u → owns m u).
  { intros m2 p Hp Hr u Hu. apply owns_frame; [|by apply Hr]. by rewrite Hp, pc_insert, decide_False. }
  assert (Hsame : ∀ m2 p, pcs m2 = <[t := p]> (pcs m) → ready m2 ⊆ ready m →
    (owns m2 t → owns m t) → ∀ u, owns m2 u → owns m u).
  { intros m2 p Hp Hr Ht u Hu. destruct (decide (u = t)) as [->|]; [auto|]. by eapply Hfr. }
  unfold owns at 1 in Hot. unfold owns at 1 in Hst.
  step_cases Hs Hpc.
  1: { (* the fast path *)
    apply (owned_once_only t); [|by left]. intros u Hu. destruct (decide (u = t)) as [|Hne]; [done|].
    apply Z.eqb_eq in Eb. destruct (H2 u); [|done].
    by eapply (Hfr _ Critical); [..|exact Hu]. }
  all: try (eapply owned_once_frame; [done| |by (left + right)]; eapply Hsame; [done|done|];
    unfold owns; simpl; rewrite pc_insert, decide_True, ?Hpc by done; done).
  - (* not woken yet *)
    eapply owned_once_frame; [done| |by right]. eapply Hsame; [done|done|].
    unfold owns. simpl. rewrite pc_insert, decide_True by done. intros Hr%H6. congruence.
  - (* woken *)
    apply bool_decide_eq_true_1 in Eb. apply (owned_once_only t); [|by left; apply Hst].
    intros u Hu. destruct (decide (u = t)) as [|Hne]; [done|]. apply Hot; [done|].
    eapply (Hfr _ Critical); [..|exact Hu]; simpl; [done|set_solver|done].
  - (* waking [next] *)
    destruct (Ht7 next eq_refl) as (Hn1 & Hn2 & _).
    apply (owned_once_only next); [|by left; apply Hst]. intros u Hu.
    destruct (decide (u = next)) as [|Hn]; [done|]. exfalso.
    assert (u ≠ t) as Hne.
    { intros ->. unfold owns in Hu. simpl in Hu. by rewrite pc_insert, decide_True in Hu. }
    apply Hne, Hot; [done|]. eapply owns_frame; [| |exact Hu]; simpl.
    + by rewrite pc_insert, decide_False.
    + intros [?%elem_of_singleton|]%elem_of_union; done.
  - (* released *)
    apply (owned_once_only t).
    + intros u Hu. destruct (decide (u = t)) as [|Hne]; [done|]. apply Hot; [done|].
      by eapply (Hfr _ UnlockUnmu0); [..|exact Hu].
    + right. unfold owns. simpl. rewrite pc_insert, decide_True by done. tauto.
Qed.

Lemma mutex_step_inv t m m' : inv m → mutex_step t m = Some m' → inv m'.
Proof.
  intros Hinv Hs. destruct (step_owns t m m' Hinv Hs). destruct (step_waiters t m m' Hinv Hs).
  split; eauto using step_mu, step_ready, step_waking.
Qed.

(** C12. Mutual exclusion of the queueing mutex: whatever the number of threads
    and however the fast path, the slow path and Unlock interleave, at most one
    thread is between the return of Lock and the call of Unlock, and while one
    is, the state word is not 0, so that no other thread can take the fast
    path. *)
Theorem Mutex_mutual_exclusion m (Hreach : reachable mutex_step NewMutex m) :
  (∀ t u, pcs m t = Critical → pcs m u = Critical → t = u) ∧
  (∀ t, pcs m t = Critical → state m ≠ 0).
Proof.
  assert (inv m) as [H1 H2 _ _ _ _ _].
  { eapply reachable_inv; [apply inv_init|apply mutex_step_inv|done]. }
  split.
  - intros t u Ht Hu. apply H1; unfold owns; [by rewrite Ht|by rewrite Hu].
  - intros t Ht. apply (H2 t). unfold owns. by rewrite Ht.
Qed.

(** Thread 1 parks behind thread 0 and is woken by its Unlock. *)
Definition handoff : list nat := [0; 1; 1; 1; 1; 1; 0; 0; 0; 0; 0; 0; 1]%nat.

Lemma Mutex_mutual_exclusion_witness :
  ∃ m, run mutex_step handoff NewMutex = Some m ∧ pcs m 1%nat = Critical ∧
    ∀ t, pcs m t = Critical → t = 1%nat.
Proof.
  destruct (run mutex_step handoff NewMutex) as [m|] eqn:E; [|vm_compute in E; done].
  assert (E1 : pcs m 1%nat = Critical) by (vm_compute in E; injection E as <-; reflexivity).
  exists m. split; [done|]. split; [done|]. intros t Ht.
  destruct (Mutex_mutual_exclusion m) as [H _].
  - eapply run_reachable; [constructor|exact E].
  - by apply H.
Defined.

(** ** The lost wake-up *)

(** The state word is set, but every thread is outside or in the slow path of
    Lock and no channel is closed: nobody owns the mutex. *)
Definition acquiring (p : mutex_pc) : bool :=
  match p with
  | Outside | LockMu | LockAppend | LockStore2 | LockUnmu | LockPark => true
  | _ => false
  end.

Record abandoned (m : Mutex) : Prop := mk_abandoned {
  ab_state : state m ≠ 0;
  ab_ready : ready m = ∅;
  ab_pcs : ∀ t, acquiring (pcs m t) = true }.

(** No step leads out of such a state. *)
Lemma abandoned_step t m m' : abandoned m → mutex_step t m = Some m' → abandoned m'.
Proof.
  intros [Hst Hr Hp] Hs. pose proof (Hp t) as Ht.
  assert (Hpcs : ∀ p, acquiring p = true → ∀ u, acquiring (<[t := p]> (pcs m) u) = true).
  { intros p Ha u. rewrite pc_insert. by case_decide. }
  step_cases Hs Hpc; try done; try (split; simpl; [done..|by apply Hpcs]).
  - by apply Z.eqb_eq in Eb.
  - apply bool_decide_eq_true_1 in Eb. rewrite Hr in Eb. by apply not_elem_of_empty in Eb.
Qed.

(** Thread 1 fails the compare-and-swap while thread 0 holds the mutex, thread 0
    unlocks and finds no waiter, and only then does thread 1 enqueue itself. *)
Definition lost_wakeup : list nat := [0; 1; 0; 0; 0; 0; 0; 1; 1; 1; 1]%nat.

(** A wake-up can be lost: two threads can bring the mutex, without any
    misuse, into a state in which nobody holds it, one of them is parked, and
    from which no thread ever enters the critical section again, however the
    execution continues and however many threads call Lock. *)
Theorem Mutex_lost_wakeup :
  ∃ m, run mutex_step lost_wakeup NewMutex = Some m ∧ pcs m 1%nat = LockPark ∧
    (∀ t, pcs m t ≠ Critical) ∧
    ∀ sched m', run mutex_step sched m = Some m' → ∀ t, pcs m' t ≠ Critical.
Proof.
  destruct (run mutex_step lost_wakeup NewMutex) as [m|] eqn:E; [|vm_compute in E; done].
  assert (abandoned m ∧ pcs m 1%nat = LockPark) as [Hab Hpark].
  { vm_compute in E. injection E as <-. split; [|done]. split; [done|by vm_compute|].
    intros [|[|t]]; done. }
  assert (Hno : ∀ m, abandoned m → ∀ t, pcs m t ≠ Critical).
  { intros m0 [_ _ Hp] t Ht. specialize (Hp t). by rewrite Ht in Hp. }
  exists m. split_and!; [done..|by apply Hno|]. intros sched m' Hrun. apply Hno.
  eapply run_inv; [exact Hab|apply abandoned_step|exact Hrun].
Qed.

(** ** The spinlock *)
Inductive spin_pc := SpinOutside | SpinHeld.

Record Spinlock := mkSpinlock { spin_state : Z; spin_pcs : nat → spin_pc }.

Definition NewSpinlock : Spinlock := mkSpinlock 0 (λ _, SpinOutside).

(** [TryLock]: one compare-and-swap; [Lock] repeats it, so that a failed
    attempt is a step that changes nothing. *)
Definition TryLock (t : nat) (s : Spinlock) : bool * Spinlock :=
  if spin_state s =? 0 then (true, mkSpinlock 1 (<[t := SpinHeld]> (spin_pcs s)))
  else (false, s).

Definition spin_step (t : nat) (s : Spinlock) : option Spinlock :=
  match spin_pcs s t with
  | SpinOutside => Some (snd (TryLock t s))
  | SpinHeld => Some (mkSpinlock 0 (<[t := SpinOutside]> (spin_pcs s)))
  end.

Record spin_inv (s : Spinlock) : Prop := mk_spin_inv {
  si_one : ∀ t u, spin_pcs s t = SpinHeld → spin_pcs s u = SpinHeld → t = u;
  si_state : spin_state s = 0 ∧ (∀ t, spin_pcs s t = SpinOutside) ∨
             spin_state s = 1 ∧ (∃ t, spin_pcs s t = SpinHeld) }.

Lemma spin_step_inv t s s' : spin_inv s → spin_step t s = Some s' → spin_inv s'.
Proof.
  intros [H1 H2] Hs. unfold spin_step, TryLock in Hs. destruct (spin_pcs s t) eqn:Ht.
  - destruct H2 as [[E Hall]|[E Hone]]; rewrite E in Hs; simpl in Hs; injection Hs as <-.
    + split; simpl.
      * intros u v. rewrite !pc_insert. repeat case_decide; subst; [done|..]; rewrite ?Hall; done.
      * right. split; [done|]. exists t. by rewrite pc_insert, decide_True.
    + split; auto.
  - injection Hs as <-. split; simpl.
    + intros u v. rewrite !pc_insert. repeat case_decide; auto; done.
    + left. split; [done|]. intros u. rewrite pc_insert. case_decide as Hu; [done|].
      destruct (spin_pcs s u) eqn:E; [done|]. destruct Hu. by apply H1.
Qed.
