(* ===== verification/Semaphores.v ===== *)
(** * The counting semaphore

    Models [Semaphore] of [src/pkg/concurrency/semaphore.go] as a transition
    system.  All accesses to the fields happen under the internal mutex of the
    object, so the part of a call that holds it is one step; waking a parked
    thread is a step of its own. *)

From S2P Require Import Prelude Steps.

(** ** The semaphore *)
Inductive sem_pc :=
  | SemOutside              (** about to call [Wait] *)
  | SemParked               (** [<-ch] in [Wait] *)
  | SemWoken                (** the channel is closed, [Wait] can return *)
  | SemInside               (** [Wait] has returned, about to call [Signal] *)
  | SemClosing (ch : nat).  (** [close(ch)] in [Signal] *)

Record Semaphore := mkSem {
  value : Z; sem_waiters : list nat; sem_pcs : nat → sem_pc }.
#[export] Instance eta_Semaphore : Eta Semaphore := λ s,
  mkSem (value s) (sem_waiters s) (sem_pcs s).

Definition NewSemaphore (initialValue : Z) : Semaphore :=
  mkSem initialValue [] (λ _, SemOutside).

Definition sem_Wait (t : nat) (s : Semaphore) : Semaphore :=
  let s := s <| value ::= Z.pred |> in
  if value s <? 0
  then s <| sem_waiters ::= λ w, w ++ [t] |> <| sem_pcs ::= <[t := SemParked]> |>
  else s <| sem_pcs ::= <[t := SemInside]> |>.

Definition sem_Signal (t : nat) (s : Semaphore) : Semaphore :=
  let s := s <| value ::= Z.succ |> in
  match sem_waiters s with
  | ch :: rest => s <| sem_waiters := rest |> <| sem_pcs ::= <[t := SemClosing ch]> |>
  | [] => s <| sem_pcs ::= <[t := SemOutside]> |>
  end.

Definition sem_step (t : nat) (s : Semaphore) : option Semaphore :=
  match sem_pcs s t with
  | SemOutside => Some (sem_Wait t s)
  | SemParked => None
  | SemWoken => Some (s <| sem_pcs ::= <[t := SemInside]> |>)
  | SemInside => Some (sem_Signal t s)
  | SemClosing ch =>
      Some (s <| sem_pcs ::= λ p, <[ch := SemWoken]> (<[t := SemOutside]> p) |>)
  end.

Definition inside (p : sem_pc) : bool := match p with SemInside => true | _ => false end.
(** Threads that have passed a permit on, or been given one, and not used it. *)
Definition passing (p : sem_pc) : bool :=
  match p with SemWoken | SemClosing _ => true | _ => false end.
Definition target (p : sem_pc) : option nat :=
  match p with SemClosing ch => Some ch | _ => None end.

Record sem_inv (n : nat) (k : Z) (s : Semaphore) : Prop := mk_sem_inv {
  sv_permits : value s + count inside n (sem_pcs s) + count passing n (sem_pcs s) +
               len (sem_waiters s) = k;
  sv_value : len (sem_waiters s) = Z.max 0 (- value s);
  sv_nodup : NoDup (sem_waiters s);
  sv_queue : ∀ x, x ∈ sem_waiters s → (x < n)%nat ∧ sem_pcs s x = SemParked;
  sv_target : ∀ t x, target (sem_pcs s t) = Some x →
                (x < n)%nat ∧ sem_pcs s x = SemParked ∧ (x ∉ sem_waiters s);
  sv_one : ∀ t u x, target (sem_pcs s t) = Some x → target (sem_pcs s u) = Some x → t = u;
  sv_parked : ∀ x, sem_pcs s x = SemParked →
                x ∈ sem_waiters s ∨ ∃ t, (t < n)%nat ∧ target (sem_pcs s t) = Some x }.

Lemma sem_inv_init n k : 0 ≤ k → sem_inv n k (NewSemaphore k).
Proof.
  intros Hk. assert (Hz : ∀ f, f SemOutside = false → count f n (λ _, SemOutside) = 0).
  { intros f Hf. unfold count. induction (seq 0 n) as [|x l IH]; [done|].
    rewrite sumZ_cons, IH. by rewrite Hf. }
  split; unfold len; simpl; try done; [|lia|apply NoDup_nil_2|by intros ? ?%elem_of_nil].
  rewrite !Hz by done. lia.
Qed.

(** How the two counts change when thread [t] moves. *)
Local Ltac counts t Hpc :=
  rewrite ?(count_insert inside _ _ t), ?(count_insert passing _ _ t), ?Hpc by done; simpl.

(** Moving a thread that is neither parked nor a target keeps the queue. *)
Lemma sem_move n k s t p v w :
  sem_inv n k s → (t < n)%nat → sem_pcs s t ≠ SemParked → target (sem_pcs s t) = None →
  p ≠ SemParked → target p = None → w = sem_waiters s →
  v + count inside n (<[t := p]> (sem_pcs s)) + count passing n (<[t := p]> (sem_pcs s)) +
    len (sem_waiters s) = k →
  len (sem_waiters s) = Z.max 0 (- v) →
  sem_inv n k (mkSem v w (<[t := p]> (sem_pcs s))).
Proof.
  intros [_ _ H3 H4 H5 H6 H7] Hn Hpt Htt Hp Htp -> Hv Hl. split; simpl; [done..| | | |].
  - intros x Hx. destruct (H4 x Hx). rewrite pc_insert. case_decide; [by subst|done].
  - intros u x. rewrite !pc_insert. case_decide; [congruence|]. intros Hu.
    destruct (H5 u x Hu) as (? & ? & ?). case_decide; [by subst|done].
  - intros u u' x. rewrite !pc_insert. repeat case_decide; try congruence. eauto.
  - intros x. rewrite pc_insert. case_decide; [done|]. intros [?|(u & Hu & Hx)]%H7; [by left|].
    right. exists u. split; [done|]. rewrite pc_insert. case_decide; [congruence|done].
Qed.

Lemma sem_Wait_inv n k s t :
  sem_inv n k s → (t < n)%nat → sem_pcs s t = SemOutside → sem_inv n k (sem_Wait t s).
Proof.
  intros Hinv Ht Hpc. unfold sem_Wait. simpl. destruct (Z.ltb_spec (Z.pred (value s)) 0) as [Hv|Hv].
  - destruct Hinv as [H1 H2 H3 H4 H5 H6 H7].
    assert (Hnt : t ∉ sem_waiters s) by (intros [_ ?]%H4; congruence). split; simpl.
    + counts t Hpc. rewrite len_snoc. lia.
    + rewrite len_snoc. lia.
    + apply NoDup_app. split; [done|]. split; [|apply NoDup_singleton].
      by intros x Hx ->%list_elem_of_singleton.
    + intros x [Hx| ->%list_elem_of_singleton]%elem_of_app; rewrite pc_insert.
      * destruct (H4 x Hx). by case_decide.
      * by rewrite decide_True.
    + intros u x. rewrite !pc_insert. case_decide; [done|]. intros Hu.
      destruct (H5 u x Hu) as (? & ? & ?). rewrite not_elem_of_app, list_elem_of_singleton.
      case_decide; [congruence|]. done.
    + intros u u' x. rewrite !pc_insert. repeat case_decide; try done. eauto.
    + intros x. rewrite pc_insert. case_decide as Hx.
      { subst x. intros _. left. apply elem_of_app. right. by left. }
      intros [?|(u & Hu & Htx)]%H7; [left; by apply elem_of_app; left|].
      right. exists u. split; [done|]. rewrite pc_insert. case_decide; [subst; by rewrite Hpc in Htx|done].
  - apply sem_move; rewrite ?Hpc; try done; destruct Hinv as [H1 H2 _ _ _ _ _]; [|lia].
    counts t Hpc. lia.
Qed.

Lemma sem_Signal_inv n k s t :
  sem_inv n k s → (t < n)%nat → sem_pcs s t = SemInside → sem_inv n k (sem_Signal t s).
Proof.
  intros Hinv Ht Hpc. unfold sem_Signal. simpl. destruct (sem_waiters s) as [|ch rest] eqn:Ew; simpl.
  { pose proof Hinv as [H1 H2 _ _ _ _ _]. rewrite Ew in *. change (len []) with 0 in *.
    apply sem_move; rewrite ?Hpc, ?Ew; try done; change (len []) with 0; [|lia].
    counts t Hpc. lia. }
  destruct Hinv as [H1 H2 H3 H4 H5 H6 H7]. rewrite Ew in *. rewrite len_cons in *.
  apply NoDup_cons in H3 as [Hch Hnd]. destruct (H4 ch) as [Hchn Hchp]; [by left|]. split; simpl.
  - counts t Hpc. lia.
  - assert (0 ≤ len rest) by (unfold len; lia). lia.
  - done.
  - intros x Hx. destruct (H4 x) as [? ?]; [by right|]. rewrite pc_insert. case_decide; [congruence|done].
  - intros u x. rewrite !pc_insert. case_decide as Hu.
    + intros [= <-]. rewrite decide_False by congruence. done.
    + intros Hx. destruct (H5 u x Hx) as (? & ? & [_ ?]%not_elem_of_cons).
      rewrite decide_False by congruence. done.
  - intros u u' x. rewrite !pc_insert.
    assert (Hno : ∀ v, target (sem_pcs s v) ≠ Some ch).
    { intros v Hv. destruct (H5 v ch Hv) as (_ & _ & []). by left. }
    case_decide as Hu; case_decide as Hu'; simpl.
    + congruence.
    + intros [= <-] Hx. by destruct (Hno u').
    + intros Hx [= <-]. by destruct (Hno u).
    + eauto.
  - intros x. rewrite pc_insert. case_decide; [done|].
    intros [[->|?]%elem_of_cons|(u & Hu & Htx)]%H7.
    + right. exists t. split; [done|]. by rewrite pc_insert, decide_True.
    + by left.
    + right. exists u. split; [done|]. rewrite pc_insert.
      case_decide; [subst; by rewrite Hpc in Htx|done].
Qed.

Lemma sem_step_inv n k t s s' : sem_inv n k s → among n sem_step t s = Some s' → sem_inv n k s'.
Proof.
  intros Hinv [Ht Hs]%among_Some. unfold sem_step in Hs. destruct (sem_pcs s t) eqn:Hpc; simplify_eq.
  - by apply sem_Wait_inv.
  - pose proof Hinv as [H1 H2 _ _ _ _ _].
    apply (sem_move n k s t SemInside); rewrite ?Hpc; try done. counts t Hpc. lia.
  - by apply sem_Signal_inv.
  - destruct Hinv as [H1 H2 H3 H4 H5 H6 H7].
    destruct (H5 t ch) as (Hn & Hp & Hw); [by rewrite Hpc|]. assert (ch ≠ t) by congruence.
    split; simpl; [|done..| | | |].
    + rewrite !(count_insert _ _ _ ch), pc_insert, decide_False, Hp by done. counts t Hpc. lia.
    + intros x Hx. destruct (H4 x Hx). rewrite !pc_insert.
      rewrite decide_False by (by intros ->). rewrite decide_False by congruence. done.
    + intros u x. rewrite !pc_insert. do 2 (case_decide; [done|]). intros Hx.
      destruct (H5 u x Hx) as (? & ? & ?).
      rewrite decide_False; [rewrite decide_False by congruence; done|].
      intros ->. assert (u = t); [|done]. apply (H6 u t ch); [done|by rewrite Hpc].
    + intros u u' x. rewrite !pc_insert. repeat case_decide; try done. eauto.
    + intros x. rewrite !pc_insert. do 2 (case_decide; [done|]). intros [?|(u & Hu & Hx)]%H7; [by left|].
      right. exists u. split; [done|]. rewrite !pc_insert.
      case_decide; [subst; by rewrite Hp in Hx|]. case_decide; [|done].
      subst. rewrite Hpc in Hx. simpl in Hx. congruence.
Qed.

(** C33. Any number of threads, each of which calls Wait and Signal in turn on a
    semaphore that starts at k: never more than k of them are between Wait and
    Signal, the value is k minus the permits that are out minus the number of
    queued threads, threads are queued exactly when it is negative, and no
    wake-up is lost: while a thread is blocked and k is positive, some thread is
    inside, or about to wake or to be woken, and can take a step. *)
Theorem Semaphore_permits n k s
    (Hk : 0 ≤ k) (Hreach : reachable (among n sem_step) (NewSemaphore k) s) :
  count inside n (sem_pcs s) ≤ k ∧
  value s = k - count inside n (sem_pcs s) - count passing n (sem_pcs s) - len (sem_waiters s) ∧
  (sem_waiters s ≠ [] ↔ value s < 0) ∧
  (∀ x, sem_pcs s x = SemParked → 0 < k →
     ∃ t, (t < n)%nat ∧ is_Some (sem_step t s) ∧ sem_pcs s t ≠ SemOutside).
Proof.
  assert (sem_inv n k s) as [H1 H2 _ _ _ _ H7].
  { eapply reachable_inv; [by apply sem_inv_init|apply sem_step_inv|done]. }
  pose proof (count_nonneg inside n (sem_pcs s)). pose proof (count_nonneg passing n (sem_pcs s)).
  assert (Hstep : ∀ t, (t < n)%nat → inside (sem_pcs s t) || passing (sem_pcs s t) = true →
    ∃ t, (t < n)%nat ∧ is_Some (sem_step t s) ∧ sem_pcs s t ≠ SemOutside).
  { intros t Ht Hp. exists t. unfold sem_step. destruct (sem_pcs s t); try done; eauto. }
  split_and!; [lia|lia| |].
  - destruct (sem_waiters s) as [|y ys]; [change (len []) with 0 in H2; split; [done|lia]|].
    rewrite len_cons in H2. assert (0 ≤ len ys) by (unfold len; lia). split; [lia|done].
  - intros x [Hx|(t & Ht & Hx)]%H7 Hpos.
    + assert (0 < len (sem_waiters s)).
      { destruct (sem_waiters s); [by apply elem_of_nil in Hx|]. unfold len. simpl. lia. }
      assert (0 < count inside n (sem_pcs s) ∨ 0 < count passing n (sem_pcs s)) as [Hc|Hc] by lia;
        apply count_pos in Hc as (t & Ht & Hp); apply (Hstep t Ht); rewrite Hp; [done|by rewrite orb_true_r].
    + apply (Hstep t Ht). by destruct (sem_pcs s t).
Qed.

Lemma Semaphore_permits_witness :
  ∃ s, run (among 3 sem_step) [0; 1; 2; 0; 0; 2]%nat (NewSemaphore 2) = Some s ∧
    count inside 3 (sem_pcs s) ≤ 2.
Proof.
  destruct (run (among 3 sem_step) [0; 1; 2; 0; 0; 2]%nat (NewSemaphore 2)) as [s|] eqn:E;
    [|vm_compute in E; done].
  exists s. split; [done|]. apply (Semaphore_permits 3 2 s); [lia|].
  eapply run_reachable; [constructor|exact E].
Defined.
