(* ===== verification/RWLocks.v ===== *)
(** * The reader-writer lock

    Models [RWLock] of [src/pkg/concurrency/rwlock.go].  Every call holds the
    internal mutex except while it waits on a condition variable, so the part
    of a call up to its return or to a [Wait] is one step.  A condition
    variable of [sync] is the set of the threads that wait on it; [Signal]
    wakes one of them, which one is part of the label of the step. *)

From S2P Require Import Prelude Steps.

Inductive rw_pc :=
  | RWOutside               (** about to call [RLock] or [Lock] *)
  | RWaiting                (** in the loop of [RLock], after [readOK.Wait()] *)
  | Reading                 (** [RLock] has returned *)
  | WWaiting                (** in the loop of [Lock], after [writeOK.Wait()] *)
  | Writing.                (** [Lock] has returned *)

Record RWLock := mkRW {
  readersCount : Z; writerActive : bool; writerWaiters : Z;
  readOK : gset nat; writeOK : gset nat; rw_pcs : nat → rw_pc }.
#[export] Instance eta_RWLock : Eta RWLock := λ r,
  mkRW (readersCount r) (writerActive r) (writerWaiters r) (readOK r) (writeOK r) (rw_pcs r).

Definition NewRWLock : RWLock := mkRW 0 false 0 ∅ ∅ (λ _, RWOutside).

(** The loop head of [RLock]: wait, or acquire. *)
Definition tryRead (t : nat) (r : RWLock) : RWLock :=
  if writerActive r || (0 <? writerWaiters r)
  then r <| readOK ::= λ q, {[t]} ∪ q |> <| rw_pcs ::= <[t := RWaiting]> |>
  else r <| readersCount ::= Z.succ |> <| rw_pcs ::= <[t := Reading]> |>.

(** The loop head of [Lock]. *)
Definition tryWrite (t : nat) (r : RWLock) : RWLock :=
  if writerActive r || (0 <? readersCount r)
  then r <| writeOK ::= λ q, {[t]} ∪ q |> <| rw_pcs ::= <[t := WWaiting]> |>
  else r <| writerWaiters ::= Z.pred |> <| writerActive := true |>
         <| rw_pcs ::= <[t := Writing]> |>.

(** [writeOK.Signal()] wakes the waiting thread [pick]; the label is impossible
    when somebody waits but not [pick]. *)
Definition signalWriter (pick : nat) (r : RWLock) : option RWLock :=
  if decide (pick ∈ writeOK r) then Some (r <| writeOK ::= λ q, q ∖ {[pick]} |>)
  else if decide (writeOK r = ∅) then Some r else None.

Definition RUnlock (t pick : nat) (r : RWLock) : option RWLock :=
  let r := r <| readersCount ::= Z.pred |> <| rw_pcs ::= <[t := RWOutside]> |> in
  if readersCount r =? 0 then signalWriter pick r else Some r.

Definition rw_Unlock (t pick : nat) (r : RWLock) : option RWLock :=
  let r := r <| writerActive := false |> <| rw_pcs ::= <[t := RWOutside]> |> in
  if 0 <? writerWaiters r then signalWriter pick r else Some (r <| readOK := ∅ |>).

(** The label of a step: the thread, whether it wants to write when it calls
    the lock, and whom it wakes. *)
Record rw_act := mkAct { who : nat; toWrite : bool; pick : nat }.

Definition rw_step (a : rw_act) (r : RWLock) : option RWLock :=
  let t := who a in
  match rw_pcs r t with
  | RWOutside =>
      if toWrite a then Some (tryWrite t (r <| writerWaiters ::= Z.succ |>))
      else Some (tryRead t r)
  | RWaiting => if decide (t ∈ readOK r) then None else Some (tryRead t r)
  | Reading => RUnlock t (pick a) r
  | WWaiting => if decide (t ∈ writeOK r) then None else Some (tryWrite t r)
  | Writing => rw_Unlock t (pick a) r
  end.

Definition reading (p : rw_pc) : bool := match p with Reading => true | _ => false end.
Definition writing (p : rw_pc) : bool := match p with Writing => true | _ => false end.
Definition wwaiting (p : rw_pc) : bool := match p with WWaiting => true | _ => false end.

(** The first [n] threads. *)
Definition rw_among (n : nat) (a : rw_act) (r : RWLock) : option RWLock :=
  if (who a <? n)%nat then rw_step a r else None.

Record rw_inv (n : nat) (r : RWLock) : Prop := mk_rw_inv {
  ri_readers : readersCount r = count reading n (rw_pcs r);
  ri_writer : count writing n (rw_pcs r) = (if writerActive r then 1 else 0);
  ri_waiters : writerWaiters r = count wwaiting n (rw_pcs r);
  ri_excl : writerActive r = true → readersCount r = 0;
  ri_readQ : ∀ t, t ∈ readOK r → rw_pcs r t = RWaiting;
  ri_writeQ : ∀ t, t ∈ writeOK r → (t < n)%nat ∧ rw_pcs r t = WWaiting;
  ri_wwake : writeOK r ≠ ∅ → writerActive r = true ∨ 0 < readersCount r ∨
               ∃ u, (u < n)%nat ∧ rw_pcs r u = WWaiting ∧ (u ∉ writeOK r);
  ri_rwake : readOK r ≠ ∅ → writerActive r = true ∨ 0 < writerWaiters r }.

Lemma rw_inv_init n : rw_inv n NewRWLock.
Proof.
  assert (Hz : ∀ f, f RWOutside = false → count f n (λ _, RWOutside) = 0).
  { intros f Hf. unfold count. induction (seq 0 n) as [|x l IH]; [done|].
    rewrite sumZ_cons, IH. by rewrite Hf. }
  split; simpl; rewrite ?Hz; try done; intros t ?%not_elem_of_empty; done.
Qed.

Local Ltac counts t Hpc :=
  rewrite ?(count_insert reading _ _ t), ?(count_insert writing _ _ t),
    ?(count_insert wwaiting _ _ t), ?Hpc by done; simpl.

(** A waiting or arriving reader. *)
Lemma tryRead_inv n t r :
  rw_inv n r → (t < n)%nat → rw_pcs r t = RWOutside ∨ rw_pcs r t = RWaiting ∧ (t ∉ readOK r) →
  rw_inv n (tryRead t r).
Proof.
  intros [H1 H2 H3 H4 H5 H6 H7 H8] Ht Hp.
  assert (reading (rw_pcs r t) = false ∧ writing (rw_pcs r t) = false ∧ wwaiting (rw_pcs r t) = false)
    as (E1 & E2 & E3) by (by destruct Hp as [-> | [-> _]]).
  assert (Hw : ∀ p u, u ∈ writeOK r → (u < n)%nat ∧ <[t := p]> (rw_pcs r) u = WWaiting).
  { intros p u Hu. destruct (H6 u Hu) as [? Hu']. rewrite pc_insert. case_decide; [|done].
    subst. by rewrite Hu' in E3. }
  assert (Ha : ∀ p u, rw_pcs r u = WWaiting → <[t := p]> (rw_pcs r) u = WWaiting).
  { intros p u Hu. rewrite pc_insert. case_decide; [|done]. subst. by rewrite Hu in E3. }
  unfold tryRead. destruct (writerActive r || (0 <? writerWaiters r)) eqn:E; split; simpl;
    rewrite ?(count_insert reading _ _ t), ?(count_insert writing _ _ t),
      ?(count_insert wwaiting _ _ t), ?E1, ?E2, ?E3 by done; simpl; try lia; try done; auto.
  - intros u [->%elem_of_singleton|Hu]%elem_of_union; rewrite pc_insert; [by rewrite decide_True|].
    case_decide; [done|auto].
  - intros Hne. destruct (H7 Hne) as [?|[?|(u & ? & ? & ?)]]; eauto 10.
  - intros _. apply orb_true_iff in E as [?|?%Z.ltb_lt]; auto.
  - apply orb_false_iff in E as [E _]. rewrite E. done.
  - intros u Hu. rewrite pc_insert. case_decide; [|auto]. subst.
    destruct Hp as [Hp|[_ Hp]]; [apply H5 in Hu; congruence|done].
  - intros Hne. pose proof (count_nonneg reading n (rw_pcs r)). right. left. lia.
Qed.

(** An arriving or waiting writer; the arriving one counts itself first. *)
Lemma tryWrite_inv n t r d :
  rw_inv n r → (t < n)%nat →
  rw_pcs r t = RWOutside ∧ d = 1 ∨ rw_pcs r t = WWaiting ∧ (t ∉ writeOK r) ∧ d = 0 →
  rw_inv n (tryWrite t (r <| writerWaiters ::= λ w, w + d |>)).
Proof.
  intros [H1 H2 H3 H4 H5 H6 H7 H8] Ht Hp.
  assert (reading (rw_pcs r t) = false ∧ writing (rw_pcs r t) = false ∧ 0 ≤ d ∧
    (if wwaiting (rw_pcs r t) then 1 else 0) = 1 - d) as (E1 & E2 & Hd & E3)
    by (by destruct Hp as [[-> ->] | (-> & _ & ->)]).
  assert (Hr : ∀ p u, u ∈ readOK r → <[t := p]> (rw_pcs r) u = RWaiting).
  { intros p u Hu. pose proof (H5 u Hu) as Hu'. rewrite pc_insert. case_decide; [|done].
    subst. destruct Hp as [[? _]|(? & _)]; congruence. }
  unfold tryWrite. simpl. destruct (writerActive r || (0 <? readersCount r)) eqn:E; split; simpl;
    rewrite ?(count_insert reading _ _ t), ?(count_insert writing _ _ t),
      ?(count_insert wwaiting _ _ t), ?E1, ?E2, ?E3 by done; simpl; try lia; try done; auto.
  - intros u [->%elem_of_singleton|Hu]%elem_of_union; rewrite pc_insert; [by rewrite decide_True|].
    case_decide; [by subst|auto].
  - intros _. apply orb_true_iff in E as [?|?%Z.ltb_lt]; auto.
  - intros Hne. destruct (H8 Hne); [auto|]. right. lia.
  - apply orb_false_iff in E as [E _]. rewrite E in H2. lia.
  - apply orb_false_iff in E as [_ E%Z.ltb_ge]. pose proof (count_nonneg reading n (rw_pcs r)). lia.
  - intros u Hu. destruct (H6 u Hu) as [? Hu']. rewrite pc_insert. case_decide; [|done].
    subst. destruct Hp as [[? _]|(_ & ? & _)]; [congruence|done].
Qed.

(** What [Signal] guarantees. *)
Lemma signalWriter_inv n p r r' :
  readersCount r = count reading n (rw_pcs r) →
  count writing n (rw_pcs r) = (if writerActive r then 1 else 0) →
  writerWaiters r = count wwaiting n (rw_pcs r) →
  (writerActive r = true → readersCount r = 0) →
  (∀ t, t ∈ readOK r → rw_pcs r t = RWaiting) →
  (∀ t, t ∈ writeOK r → (t < n)%nat ∧ rw_pcs r t = WWaiting) →
  (readOK r ≠ ∅ → writerActive r = true ∨ 0 < writerWaiters r) →
  signalWriter p r = Some r' → rw_inv n r'.
Proof.
  intros H1 H2 H3 H4 H5 H6 H8 Hs. unfold signalWriter in Hs. case_decide as Hp.
  - injection Hs as <-. destruct (H6 p Hp) as [Hpn Hpw]. split; simpl; auto.
    + intros t [Ht _]%elem_of_difference. auto.
    + intros _. right. right. exists p. split_and!; [done..|]. set_solver.
  - case_decide as He; [|done]. injection Hs as <-. split; auto.
Qed.

(** Leaving thread [t] outside keeps the queues when it was in none. *)
Lemma leave_queues n t r :
  rw_inv n r → rw_pcs r t = Reading ∨ rw_pcs r t = Writing →
  (∀ u, u ∈ readOK r → <[t := RWOutside]> (rw_pcs r) u = RWaiting) ∧
  (∀ u, u ∈ writeOK r → (u < n)%nat ∧ <[t := RWOutside]> (rw_pcs r) u = WWaiting) ∧
  (∀ u, rw_pcs r u = WWaiting → <[t := RWOutside]> (rw_pcs r) u = WWaiting).
Proof.
  intros [_ _ _ _ H5 H6 _ _] Hpc.
  assert (Hw : ∀ u p, rw_pcs r u = p → p ≠ Reading → p ≠ Writing → <[t := RWOutside]> (rw_pcs r) u = p).
  { intros u p Hu ??. rewrite pc_insert. case_decide; [|done]. subst. by destruct Hpc. }
  split_and!.
  - intros u Hu. apply Hw; auto.
  - intros u Hu. destruct (H6 u Hu). split; [done|]. by apply Hw.
  - intros u Hu. by apply Hw.
Qed.

Lemma RUnlock_inv n t p r r' :
  rw_inv n r → (t < n)%nat → rw_pcs r t = Reading → RUnlock t p r = Some r' → rw_inv n r'.
Proof.
  intros Hinv Ht Hpc Hs. destruct (leave_queues n t r Hinv ltac:(auto)) as (Hr & Hw & Hw').
  destruct Hinv as [H1 H2 H3 H4 H5 H6 H7 H8]. unfold RUnlock in Hs. simpl in Hs.
  assert (Hpos : 0 < count reading n (rw_pcs r)) by (apply count_pos; exists t; by rewrite Hpc).
  assert (Hna : writerActive r = false).
  { destruct (writerActive r); [|done]. specialize (H4 eq_refl). lia. }
  destruct (Z.eqb_spec (Z.pred (readersCount r)) 0) as [E|E].
  - eapply signalWriter_inv; [..|exact Hs]; simpl; auto; counts t Hpc; lia.
  - injection Hs as <-. split; simpl; auto; counts t Hpc; try lia; try congruence.
Qed.

Lemma rw_Unlock_inv n t p r r' :
  rw_inv n r → (t < n)%nat → rw_pcs r t = Writing → rw_Unlock t p r = Some r' → rw_inv n r'.
Proof.
  intros Hinv Ht Hpc Hs. destruct (leave_queues n t r Hinv ltac:(auto)) as (Hr & Hw & Hw').
  destruct Hinv as [H1 H2 H3 H4 H5 H6 H7 H8]. unfold rw_Unlock in Hs. simpl in Hs.
  assert (Hpos : 0 < count writing n (rw_pcs r)) by (apply count_pos; exists t; by rewrite Hpc).
  assert (Ha : count writing n (rw_pcs r) = 1) by (destruct (writerActive r); lia).
  destruct (Z.ltb_spec 0 (writerWaiters r)) as [E|E].
  - eapply signalWriter_inv; [..|exact Hs]; simpl; auto; counts t Hpc; lia.
  - injection Hs as <-. split; simpl; auto; counts t Hpc; try lia; try done.
    intros [u Hu]%set_choose_L. destruct (H6 u Hu) as [Hun Hu'].
    assert (0 < count wwaiting n (rw_pcs r)); [|lia]. apply count_pos. exists u. by rewrite Hu'.
Qed.

Lemma rw_step_inv n a r r' : rw_inv n r → rw_among n a r = Some r' → rw_inv n r'.
Proof.
  intros Hinv Hs. unfold rw_among in Hs. destruct (Nat.ltb_spec (who a) n) as [Ht|]; [|done].
  unfold rw_step in Hs. destruct (rw_pcs r (who a)) eqn:Hpc.
  - destruct (toWrite a); injection Hs as <-.
    + apply (tryWrite_inv n (who a) r 1); auto.
    + apply tryRead_inv; auto.
  - case_decide; [done|]. injection Hs as <-. apply tryRead_inv; auto.
  - by eapply RUnlock_inv.
  - case_decide; [done|]. injection Hs as <-.
    pose proof (tryWrite_inv n (who a) r 0 Hinv Ht ltac:(auto)) as H'.
    replace (r <| writerWaiters ::= λ w, w + 0 |>) with r in H'; [done|].
    destruct r. simpl. by rewrite Z.add_0_r.
  - by eapply rw_Unlock_inv.
Qed.

(** C34. The reader-writer lock, for any number of threads that read and write
    in turn: at most one thread writes, and while one does nobody reads; no
    wake-up is lost: as long as a thread is parked on a condition variable, some
    thread is reading or writing or has been woken and can take its next step.
    Writers are preferred: while a writer waits, a new reader has to wait. *)
Theorem RWLock_exclusion n r (Hreach : reachable (rw_among n) NewRWLock r) :
  count writing n (rw_pcs r) ≤ 1 ∧
  (0 < count writing n (rw_pcs r) → count reading n (rw_pcs r) = 0) ∧
  (∀ t, t ∈ readOK r ∪ writeOK r → ∃ u, (u < n)%nat ∧
     (rw_pcs r u = Reading ∨ rw_pcs r u = Writing ∨ rw_pcs r u = WWaiting ∧ (u ∉ writeOK r))) ∧
  (∀ t, 0 < count wwaiting n (rw_pcs r) → rw_pcs (tryRead t r) t = RWaiting).
Proof.
  assert (rw_inv n r) as [H1 H2 H3 H4 H5 H6 H7 H8].
  { eapply reachable_inv; [apply rw_inv_init|apply rw_step_inv|done]. }
  assert (Hsome : ∀ f, 0 < count f n (rw_pcs r) → ∃ u, (u < n)%nat ∧ f (rw_pcs r u) = true)
    by (intros f; apply count_pos).
  assert (Hact : writerActive r = true → ∃ u, (u < n)%nat ∧ rw_pcs r u = Writing).
  { intros Ea. rewrite Ea in H2. destruct (Hsome writing) as (u & ? & Hu); [lia|].
    exists u. by destruct (rw_pcs r u). }
  assert (Hw : writeOK r ≠ ∅ → ∃ u, (u < n)%nat ∧
    (rw_pcs r u = Reading ∨ rw_pcs r u = Writing ∨ rw_pcs r u = WWaiting ∧ (u ∉ writeOK r))).
  { intros [Ha|[Hr|(u & ? & ? & ?)]]%H7; [|rewrite H1 in Hr|eauto 10].
    - destruct (Hact Ha) as (u & ? & ?). eauto 10.
    - destruct (Hsome reading Hr) as (u & ? & Hu). exists u. split; [done|].
      left. by destruct (rw_pcs r u). }
  split_and!.
  - destruct (writerActive r); lia.
  - intros Hpos. destruct (writerActive r); [rewrite <- H1; auto|lia].
  - intros t [Ht|Ht]%elem_of_union; [|apply Hw; set_solver].
    destruct H8 as [Ha|Hww]; [set_solver|destruct (Hact Ha) as (u & ? & ?); eauto 10|].
    rewrite H3 in Hww. destruct (Hsome wwaiting Hww) as (u & Hn & Hu).
    assert (rw_pcs r u = WWaiting) by (by destruct (rw_pcs r u)).
    destruct (decide (u ∈ writeOK r)); [apply Hw; set_solver|eauto 10].
  - intros t Hpos. unfold tryRead. rewrite <- H3 in Hpos. apply Z.ltb_lt in Hpos.
    rewrite Hpos, orb_true_r. simpl. by rewrite pc_insert, decide_True.
Qed.

Definition rw_demo : list rw_act :=
  [mkAct 0 false 0; mkAct 1 true 0; mkAct 2 false 0; mkAct 0 false 1; mkAct 1 true 0].

Lemma RWLock_exclusion_witness :
  ∃ r, run (rw_among 3) rw_demo NewRWLock = Some r ∧ rw_pcs r 1%nat = Writing ∧
    count reading 3 (rw_pcs r) = 0.
Proof.
  destruct (run (rw_among 3) rw_demo NewRWLock) as [r|] eqn:E; [|vm_compute in E; done].
  assert (E1 : rw_pcs r 1%nat = Writing) by (vm_compute in E; injection E as <-; reflexivity).
  exists r. split; [done|]. split; [done|].
  apply (RWLock_exclusion 3 r).
  - eapply run_reachable; [constructor|exact E].
  - apply count_pos. exists 1%nat. split; [lia|]. by rewrite E1.
Defined.
