(* ===== verification/Dining.v ===== *)
(** * Dining philosophers

    Models [DiningPhilosophers] of
    [src/pkg/concurrency/dining_philosophers.go]: the scenario in which every
    philosopher takes the left fork first, and the one with ordered forks.  A
    fork is a mutex; locking, eating (under the mutex of the counters) and
    unlocking are one step each. *)

From S2P Require Import Prelude Steps.

(** The forks of a philosopher. *)
Definition leftFork (id : nat) : nat := id.
Definition rightFork (n id : nat) : nat := ((id + 1) mod n)%nat.

(** The order in which the forks are taken, first and second: left then right,
    and the lower number first. *)
Definition naiveOrder (n id : nat) : nat * nat := (leftFork id, rightFork n id).
Definition hierarchyOrder (n id : nat) : nat * nat :=
  let firstFork := leftFork id in
  let secondFork := rightFork n id in
  if (secondFork <? firstFork)%nat then (secondFork, firstFork) else (firstFork, secondFork).

(** Where a philosopher is, in the round with the number [meal]. *)
Inductive phil_pc :=
  | Thinking                (** about to lock the first fork *)
  | HasFirst                (** about to lock the second fork *)
  | HasBoth                 (** about to eat *)
  | Eaten                   (** about to unlock the second fork *)
  | HoldsFirst.             (** about to unlock the first fork *)

Record DiningPhilosophers := mkDining {
  NumPhilosophers : nat; Forks : nat → bool; MealsEaten : nat → Z;
  meal : nat → nat; phil_pcs : nat → phil_pc }.
#[export] Instance eta_Dining : Eta DiningPhilosophers := λ d,
  mkDining (NumPhilosophers d) (Forks d) (MealsEaten d) (meal d) (phil_pcs d).

Definition NewDiningPhilosophers (n : Z) : DiningPhilosophers :=
  let n := if n <=? 0 then 5 else n in
  mkDining (Z.to_nat n) (λ _, false) (λ _, 0) (λ _, O) (λ _, Thinking).

(** One step of a philosopher who eats [goal] meals, with forks taken in the
    order [order]; [None] is a blocked or finished philosopher. *)
Definition phil_step (order : nat → nat → nat * nat) (goal : nat) (id : nat)
    (d : DiningPhilosophers) : option DiningPhilosophers :=
  let '(firstFork, secondFork) := order (NumPhilosophers d) id in
  match phil_pcs d id with
  | Thinking =>
      if (goal <=? meal d id)%nat || Forks d firstFork then None
      else Some (d <| Forks ::= <[firstFork := true]> |> <| phil_pcs ::= <[id := HasFirst]> |>)
  | HasFirst =>
      if Forks d secondFork then None
      else Some (d <| Forks ::= <[secondFork := true]> |> <| phil_pcs ::= <[id := HasBoth]> |>)
  | HasBoth =>
      Some (d <| MealsEaten ::= <[id := MealsEaten d id + 1]> |> <| phil_pcs ::= <[id := Eaten]> |>)
  | Eaten =>
      Some (d <| Forks ::= <[secondFork := false]> |> <| phil_pcs ::= <[id := HoldsFirst]> |>)
  | HoldsFirst =>
      Some (d <| Forks ::= <[firstFork := false]> |> <| meal ::= <[id := S (meal d id)]> |>
              <| phil_pcs ::= <[id := Thinking]> |>)
  end.

(** [RunDeadlockScenario] (one round) and [RunSafeResourceHierarchy]. *)
Definition RunDeadlockScenario (d : DiningPhilosophers) : nat → DiningPhilosophers → option DiningPhilosophers :=
  among (NumPhilosophers d) (phil_step naiveOrder 1).
Definition RunSafeResourceHierarchy (mealsGoal : nat) (d : DiningPhilosophers)
    : nat → DiningPhilosophers → option DiningPhilosophers :=
  among (NumPhilosophers d) (phil_step hierarchyOrder mealsGoal).

(** ** Who holds a fork *)
Definition holdsFirst (p : phil_pc) : bool := match p with Thinking => false | _ => true end.
Definition holdsSecond (p : phil_pc) : bool :=
  match p with HasBoth | Eaten => true | _ => false end.

Definition holds (order : nat → nat → nat * nat) (d : DiningPhilosophers) (id f : nat) : Prop :=
  (f = (order (NumPhilosophers d) id).1 ∧ holdsFirst (phil_pcs d id) = true) ∨
  (f = (order (NumPhilosophers d) id).2 ∧ holdsSecond (phil_pcs d id) = true).

(** A fork is locked exactly when one philosopher, and then only one, holds it. *)
Record forks_ok (n : nat) (locked : nat → bool) (H : nat → nat → Prop) : Prop := mk_forks_ok {
  fo_locked : ∀ f, locked f = true → ∃ id, (id < n)%nat ∧ H id f;
  fo_held : ∀ id f, (id < n)%nat → H id f → locked f = true;
  fo_one : ∀ id id' f, (id < n)%nat → (id' < n)%nat → H id f → H id' f → id = id' }.

Lemma forks_lock n locked H H' id f :
  forks_ok n locked H → (id < n)%nat → locked f = false →
  (∀ i g, (i < n)%nat → H' i g ↔ H i g ∨ (i = id ∧ g = f)) →
  forks_ok n (<[f := true]> locked) H'.
Proof.
  intros [H1 H2 H3] Hid Hf HH.
  assert (Hno : ∀ i, (i < n)%nat → ¬ H i f) by (intros i Hi Hh; apply H2 in Hh; congruence).
  split.
  - intros g. rewrite pc_insert. case_decide as Hg.
    + intros _. exists id. split; [done|]. apply HH; auto.
    + intros (i & Hi & Hh)%H1. exists i. split; [done|]. apply HH; auto.
  - intros i g Hi Hh. rewrite pc_insert. case_decide; [done|].
    apply (HH i g Hi) in Hh as [Hh|[-> ->]]; [eauto|done].
  - intros i i' g Hi Hi' Hh Hh'. apply (HH i g Hi) in Hh. apply (HH i' g Hi') in Hh'.
    destruct Hh as [Hh|[-> ->]], Hh' as [Hh'|[-> Eg]].
    + eauto.
    + subst. by destruct (Hno i Hi).
    + by destruct (Hno i' Hi').
    + done.
Qed.

Lemma forks_unlock n locked H H' id f :
  forks_ok n locked H → (id < n)%nat → H id f →
  (∀ i g, (i < n)%nat → H' i g ↔ H i g ∧ ¬ (i = id ∧ g = f)) →
  forks_ok n (<[f := false]> locked) H'.
Proof.
  intros [H1 H2 H3] Hid Hf HH. split.
  - intros g. rewrite pc_insert. case_decide as Hg; [done|].
    intros (i & Hi & Hh)%H1. exists i. split; [done|]. apply HH; naive_solver.
  - intros i g Hi Hh. apply (HH i g Hi) in Hh as [Hh Hne]. rewrite pc_insert.
    case_decide as Hg; [|eauto]. subst. destruct Hne. split; [|done]. eauto.
  - intros i i' g Hi Hi' Hh Hh'. apply (HH i g Hi) in Hh as [Hh _].
    apply (HH i' g Hi') in Hh' as [Hh' _]. eauto.
Qed.

Lemma forks_ext n locked H H' :
  forks_ok n locked H → (∀ i g, H' i g ↔ H i g) → forks_ok n locked H'.
Proof.
  intros [F1 F2 F3] HH. split; intros *; rewrite ?HH; eauto.
  intros (i & ? & ?)%F1. exists i. by rewrite HH.
Qed.

Section Order.
Context (order : nat → nat → nat * nat) (goal n : nat).
Hypothesis order_ne : ∀ id, (id < n)%nat → (order n id).1 ≠ (order n id).2.

Record din_inv (d : DiningPhilosophers) : Prop := mk_din_inv {
  di_n : NumPhilosophers d = n;
  di_forks : forks_ok n (Forks d) (holds order d);
  di_meals : ∀ id, (id < n)%nat → MealsEaten d id =
    Z.of_nat (meal d id) + (match phil_pcs d id with Eaten | HoldsFirst => 1 | _ => 0 end);
  di_goal : ∀ id, (id < n)%nat → (meal d id ≤ goal)%nat ∧
    (phil_pcs d id ≠ Thinking → (meal d id < goal)%nat) }.

(** What is held after philosopher [id] has moved to the position [p]. *)
Lemma holds_insert d d2 id p i g :
  NumPhilosophers d2 = NumPhilosophers d → phil_pcs d2 = <[id := p]> (phil_pcs d) →
  holds order d2 i g ↔
    if decide (i = id)
    then (g = (order (NumPhilosophers d) id).1 ∧ holdsFirst p = true) ∨
         (g = (order (NumPhilosophers d) id).2 ∧ holdsSecond p = true)
    else holds order d i g.
Proof. intros Hn Hp. unfold holds. rewrite Hn, Hp, pc_insert. by case_decide; subst. Qed.

(** The part of the invariant about meals, after such a move. *)
Lemma din_inv_move d d2 id p k e :
  din_inv d → (id < n)%nat →
  NumPhilosophers d2 = NumPhilosophers d → phil_pcs d2 = <[id := p]> (phil_pcs d) →
  (∀ i, meal d2 i = <[id := k]> (meal d) i) →
  (∀ i, MealsEaten d2 i = <[id := e]> (MealsEaten d) i) →
  forks_ok n (Forks d2) (holds order d2) →
  e = Z.of_nat k + (match p with Eaten | HoldsFirst => 1 | _ => 0 end) →
  (k ≤ goal)%nat → (p ≠ Thinking → (k < goal)%nat) → din_inv d2.
Proof.
  intros [Hn _ Hm Hg] Hid Hn2 Hp Hk He Hf2 Hek Hk1 Hk2. split; [congruence|done|..].
  - intros i Hi. rewrite He, Hp, Hk, !pc_insert. case_decide; [done|]. by apply Hm.
  - intros i Hi. rewrite Hp, Hk, !pc_insert. case_decide; [done|]. by apply Hg.
Qed.

Lemma insert_same {A : Type} (f : nat → A) id i : f i = <[id := f id]> f i.
Proof. rewrite pc_insert. case_decide; congruence. Qed.

Lemma phil_step_inv id d d' :
  (id < n)%nat → din_inv d → phil_step order goal id d = Some d' → din_inv d'.
Proof using order_ne.
  intros Hid Hinv Hs. pose proof Hinv as [Hn Hf Hm Hg]. pose proof (order_ne id Hid) as Hne.
  pose proof (Hm id Hid) as Hmid. destruct (Hg id Hid) as [Hg1 Hg2].
  unfold phil_step in Hs. rewrite Hn in Hs. destruct (order n id) as [f1 f2] eqn:Eo. simpl in Hne.
  assert (Hold : ∀ g, holds order d id g ↔
    (g = f1 ∧ holdsFirst (phil_pcs d id) = true) ∨ (g = f2 ∧ holdsSecond (phil_pcs d id) = true))
    by (unfold holds; by rewrite Hn, Eo).
  assert (Hh : ∀ d2 p, NumPhilosophers d2 = NumPhilosophers d →
    phil_pcs d2 = <[id := p]> (phil_pcs d) → ∀ i g, holds order d2 i g ↔
      if decide (i = id) then (g = f1 ∧ holdsFirst p = true) ∨ (g = f2 ∧ holdsSecond p = true)
      else holds order d i g)
    by (intros d2 p Hn2 Hp i g; rewrite (holds_insert d d2 id p) by done; by rewrite Hn, Eo).
  destruct (phil_pcs d id) eqn:Hpc.
  - destruct (_ || _) eqn:E; [done|]. injection Hs as <-.
    apply orb_false_iff in E as [E1%Nat.leb_gt E2].
    eapply (din_inv_move d _ id HasFirst); try done; try apply insert_same.
    eapply (forks_lock _ _ _ _ id f1 Hf Hid E2).
    intros i g Hi. rewrite (Hh _ HasFirst) by done. case_decide; [subst; rewrite Hold|]; simpl; naive_solver.
  - destruct (Forks d f2) eqn:E; [done|]. injection Hs as <-. specialize (Hg2 ltac:(done)).
    eapply (din_inv_move d _ id HasBoth); try done; try apply insert_same.
    eapply (forks_lock _ _ _ _ id f2 Hf Hid E).
    intros i g Hi. rewrite (Hh _ HasBoth) by done. case_decide; [subst; rewrite Hold|]; simpl; naive_solver.
  - injection Hs as <-. specialize (Hg2 ltac:(done)).
    eapply (din_inv_move d _ id Eaten (meal d id)); try done; try apply insert_same; [|lia].
    apply (forks_ext _ _ (holds order d)); [done|]. intros i g. rewrite (Hh _ Eaten) by done.
    case_decide; [|done]. subst. by rewrite Hold.
  - injection Hs as <-. specialize (Hg2 ltac:(done)).
    eapply (din_inv_move d _ id HoldsFirst); try done; try apply insert_same.
    eapply (forks_unlock _ _ _ _ id f2 Hf Hid); [apply Hold; auto|].
    intros i g Hi. rewrite (Hh _ HoldsFirst) by done. case_decide; [subst; rewrite Hold|]; simpl; naive_solver.
  - injection Hs as <-. specialize (Hg2 ltac:(done)).
    eapply (din_inv_move d _ id Thinking (S (meal d id)) (MealsEaten d id)); try done;
      try apply insert_same; try lia.
    eapply (forks_unlock _ _ _ _ id f1 Hf Hid); [apply Hold; auto|].
    intros i g Hi. rewrite (Hh _ Thinking) by done. case_decide; [subst; rewrite Hold|]; simpl; naive_solver.
Qed.

Lemma din_inv_init z :
  n = Z.to_nat (if z <=? 0 then 5 else z) → din_inv (NewDiningPhilosophers z).
Proof.
  clear order_ne.
  intros Hn. split; [by symmetry| |simpl; intros; lia|simpl; intros; split; [lia|done]].
  split; simpl; [done|..]; unfold holds; simpl; naive_solver.
Qed.

(** ** Work left *)
Definition stage (p : phil_pc) : Z :=
  match p with Thinking => 0 | HasFirst => 1 | HasBoth => 2 | Eaten => 3 | HoldsFirst => 4 end.

Definition work (d : DiningPhilosophers) (id : nat) : Z :=
  5 * (Z.of_nat goal - Z.of_nat (meal d id)) - stage (phil_pcs d id).

Definition total_work (d : DiningPhilosophers) : Z := sumZ (work d) (seq 0 n).

Lemma work_nonneg d id : din_inv d → (id < n)%nat → 0 ≤ work d id.
Proof.
  clear order_ne.
  intros [_ _ _ Hg] Hid. destruct (Hg id Hid) as [H1 H2]. unfold work.
  destruct (phil_pcs d id); simpl; try specialize (H2 ltac:(done)); lia.
Qed.

(** Every step does one unit of work. *)
Lemma step_work id d d' :
  (id < n)%nat → phil_step order goal id d = Some d' → total_work d' = total_work d - 1.
Proof.
  clear order_ne.
  intros Hid Hs. unfold total_work.
  rewrite (sumZ_update_one (work d) (work d') (seq 0 n) id (-1)).
  - lia.
  - apply NoDup_ListNoDup, seq_NoDup.
  - apply elem_of_seq. lia.
  - unfold phil_step in Hs. destruct (order _ id) as [f1 f2].
    destruct (phil_pcs d id) eqn:Hpc; try case_match; simplify_eq; unfold work; simpl;
      rewrite ?pc_insert, ?decide_True, ?Hpc by done; simpl; lia.
  - intros i _ Hne. unfold phil_step in Hs. destruct (order _ id) as [f1 f2].
    destruct (phil_pcs d id) eqn:Hpc; try case_match; simplify_eq; unfold work; simpl;
      rewrite ?pc_insert, ?decide_False by done; done.
Qed.

Lemma run_work sched d d' :
  run (among n (phil_step order goal)) sched d = Some d' →
  len sched + total_work d' = total_work d.
Proof.
  clear order_ne.
  revert d. induction sched as [|id sched IH]; intros d; [by intros [= ->]|]. cbn [run].
  destruct (among n _ id d) as [d1|] eqn:E; [|done]. intros Hr. specialize (IH d1 Hr).
  apply among_Some in E as [Hid Hs]. pose proof (step_work id d d1 Hid Hs).
  unfold len in *. simpl. lia.
Qed.

Lemma total_work_init z :
  n = Z.to_nat (if z <=? 0 then 5 else z) →
  total_work (NewDiningPhilosophers z) = 5 * Z.of_nat n * Z.of_nat goal.
Proof.
  clear order_ne.
  intros _. unfold total_work, work. simpl. rewrite <- (length_seq n 0) at 2.
  induction (seq 0 n) as [|i l IH]; [done|]. rewrite sumZ_cons, IH. simpl. lia.
Qed.
End Order.

(** ** Ordered forks *)
Lemma rightFork_eq n id :
  (id < n)%nat → rightFork n id = if decide (id + 1 = n)%nat then O else (id + 1)%nat.
Proof.
  intros Hid. unfold rightFork. case_decide as E.
  - rewrite E. apply Nat.Div0.mod_same.
  - apply Nat.mod_small. lia.
Qed.

Lemma hierarchy_lt n id :
  (2 ≤ n)%nat → (id < n)%nat →
  ((hierarchyOrder n id).1 < (hierarchyOrder n id).2 < n)%nat.
Proof.
  intros Hn Hid. unfold hierarchyOrder, leftFork. rewrite rightFork_eq by done.
  case_decide; destruct (Nat.ltb_spec (if decide (id + 1 = n)%nat then O else (id + 1)%nat) id);
    simpl; case_decide; try lia; destruct (Nat.ltb_spec 0 id); simpl; try lia;
    destruct (Nat.ltb_spec (id + 1) id); simpl; lia.
Qed.

Lemma phil_blocked order goal id d :
  phil_step order goal id d = None →
  (phil_pcs d id = Thinking ∧
     ((goal ≤ meal d id)%nat ∨ Forks d (order (NumPhilosophers d) id).1 = true)) ∨
  (phil_pcs d id = HasFirst ∧ Forks d (order (NumPhilosophers d) id).2 = true).
Proof.
  unfold phil_step. destruct (order (NumPhilosophers d) id) as [f1 f2]. simpl.
  destruct (phil_pcs d id); try done.
  - destruct (_ || _) eqn:E; [|done]. intros _. left. split; [done|].
    apply orb_true_iff in E as [?%Nat.leb_le|?]; auto.
  - destruct (Forks d f2) eqn:E; [|done]. auto.
Qed.

(** When nobody can move, nobody waits for a second fork: the holder of that
    fork would wait for a higher one. *)
Lemma no_circular_wait n goal d :
  (2 ≤ n)%nat → din_inv hierarchyOrder goal n d →
  (∀ id, (id < n)%nat → phil_step hierarchyOrder goal id d = None) →
  ∀ m id, (id < n)%nat → (n - (hierarchyOrder n id).1 ≤ m)%nat → phil_pcs d id ≠ HasFirst.
Proof.
  intros Hn [Hnum [F1 _ _] _ _] Hblk. induction m as [|m IH]; intros id Hid Hm Hpc;
    pose proof (hierarchy_lt n id Hn Hid) as Hlt; [lia|].
  destruct (phil_blocked _ _ _ _ (Hblk id Hid)) as [[? _]|[_ Hf]]; [congruence|].
  rewrite Hnum in Hf. apply F1 in Hf as (u & Hu & Hh).
  destruct (phil_blocked _ _ _ _ (Hblk u Hu)) as [[Hpu _]|[Hpu _]];
    unfold holds in Hh; rewrite Hnum, Hpu in Hh; simpl in Hh; [by destruct Hh as [[_ ?]|[_ ?]]|].
  destruct Hh as [[Hfu _]|[_ ?]]; [|done]. apply (IH u Hu); [lia|done].
Qed.

(** When nobody can move, everybody has finished and all forks are free. *)
Lemma hierarchy_finished n goal d :
  (2 ≤ n)%nat → din_inv hierarchyOrder goal n d →
  (∀ id, (id < n)%nat → phil_step hierarchyOrder goal id d = None) →
  (∀ f, Forks d f = false) ∧ ∀ id, (id < n)%nat → MealsEaten d id = Z.of_nat goal.
Proof.
  intros Hn Hinv Hblk. pose proof (no_circular_wait n goal d Hn Hinv Hblk) as Hno.
  assert (Hth : ∀ id, (id < n)%nat → phil_pcs d id = Thinking).
  { intros id Hid. destruct (phil_blocked _ _ _ _ (Hblk id Hid)) as [[? _]|[Hp _]]; [done|].
    by destruct (Hno n id Hid ltac:(lia)). }
  destruct Hinv as [Hnum [F1 _ _] Hm Hg].
  assert (Hfree : ∀ f, Forks d f = false).
  { intros f. destruct (Forks d f) eqn:E; [|done]. apply F1 in E as (u & Hu & Hh).
    unfold holds in Hh. rewrite (Hth u Hu) in Hh. by destruct Hh as [[_ ?]|[_ ?]]. }
  split; [done|]. intros id Hid. rewrite Hm, Hth by done. destruct (Hg id Hid) as [Hle _].
  destruct (phil_blocked _ _ _ _ (Hblk id Hid)) as [[_ [Hge|Hf]]|[Hp _]].
  - lia.
  - by rewrite Hfree in Hf.
  - by rewrite Hth in Hp.
Qed.

Lemma hierarchy_run_inv z mealsGoal sched d :
  2 ≤ z →
  run (RunSafeResourceHierarchy mealsGoal (NewDiningPhilosophers z)) sched (NewDiningPhilosophers z) =
    Some d →
  din_inv hierarchyOrder mealsGoal (Z.to_nat z) d ∧
  len sched + total_work mealsGoal (Z.to_nat z) d = 5 * z * Z.of_nat mealsGoal.
Proof.
  intros Hz Hrun. set (n := Z.to_nat z). assert (En : n = Z.to_nat (if z <=? 0 then 5 else z)).
  { subst n. destruct (Z.leb_spec z 0); [lia|done]. }
  assert (Hne : ∀ id, (id < n)%nat → (hierarchyOrder n id).1 ≠ (hierarchyOrder n id).2).
  { intros id Hid. pose proof (hierarchy_lt n id ltac:(lia) Hid). lia. }
  unfold RunSafeResourceHierarchy in Hrun. simpl in Hrun. rewrite <- En in Hrun. split.
  - eapply run_inv; [by apply din_inv_init| |exact Hrun].
    intros id s s' Hi [Hid Hs]%among_Some. by eapply phil_step_inv.
  - apply run_work in Hrun. rewrite total_work_init in Hrun by done. lia.
Qed.

Lemma total_work_nonneg goal n d :
  din_inv hierarchyOrder goal n d → 0 ≤ total_work goal n d.
Proof. intros Hi. apply sumZ_nonneg. intros id Hid%elem_of_seq. eapply work_nonneg; [exact Hi|lia]. Qed.

(** C14. The philosophers with ordered forks never deadlock and always finish:
    for at least two philosophers, every interleaving has at most 5 steps per
    meal to be eaten, so it ends; and it can only end, in a state where nobody
    can move, when every philosopher has eaten exactly mealsGoal meals and all
    forks are free. *)
Theorem Dining_hierarchy_completes z mealsGoal sched d
    (Hz : 2 ≤ z)
    (Hrun : run (RunSafeResourceHierarchy mealsGoal (NewDiningPhilosophers z)) sched
              (NewDiningPhilosophers z) = Some d) :
  len sched ≤ 5 * z * Z.of_nat mealsGoal ∧
  ((∀ id, (id < Z.to_nat z)%nat → phil_step hierarchyOrder mealsGoal id d = None) →
   (∀ f, Forks d f = false) ∧
   ∀ id, (id < Z.to_nat z)%nat → MealsEaten d id = Z.of_nat mealsGoal).
Proof.
  destruct (hierarchy_run_inv z mealsGoal sched d Hz Hrun) as [Hinv Hw].
  pose proof (total_work_nonneg _ _ _ Hinv). split; [lia|].
  intros Hblk. apply (hierarchy_finished (Z.to_nat z)); [lia|done|done].
Qed.

Lemma Dining_hierarchy_completes_witness :
  let d0 := NewDiningPhilosophers 2 in
  ∃ d, run (RunSafeResourceHierarchy 1 d0) [0; 0; 0; 0; 0; 1; 1; 1; 1; 1]%nat d0 = Some d ∧
    MealsEaten d 1%nat = 1.
Proof.
  intros d0.
  destruct (run (RunSafeResourceHierarchy 1 d0) [0; 0; 0; 0; 0; 1; 1; 1; 1; 1]%nat d0)
    as [d|] eqn:E; [|vm_compute in E; done].
  exists d. split; [done|].
  apply (Dining_hierarchy_completes 2 1 _ d ltac:(lia) E); [|lia].
  intros id Hid. vm_compute in E. injection E as <-. destruct id as [|[|id]]; [done|done|lia].
Defined.

(** ** Left forks first *)

(** The state after the first [k] philosophers have taken their left forks. *)
Definition left_taken (n k : nat) (d : DiningPhilosophers) : Prop :=
  NumPhilosophers d = n ∧ (∀ f, Forks d f = bool_decide (f < k)%nat) ∧
  (∀ i, phil_pcs d i = if decide (i < k)%nat then HasFirst else Thinking) ∧
  (∀ i, MealsEaten d i = 0) ∧ (∀ i, meal d i = O).

Lemma take_left n k d :
  (k < n)%nat → left_taken n k d →
  ∃ d', among n (phil_step naiveOrder 1) k d = Some d' ∧ left_taken n (S k) d'.
Proof.
  intros Hk (Hn & Hf & Hp & He & Hm). unfold among. destruct (Nat.ltb_spec k n); [|lia].
  unfold phil_step, naiveOrder, leftFork. simpl. rewrite Hp, decide_False by lia.
  rewrite Hm, Hf, bool_decide_eq_false_2 by lia. simpl. eexists. split; [reflexivity|].
  split_and!; simpl; [done| | |done|done].
  - intros f. rewrite pc_insert, Hf. case_decide; [symmetry; apply bool_decide_eq_true_2; lia|].
    apply bool_decide_ext. lia.
  - intros i. rewrite pc_insert, Hp. repeat case_decide; try done; lia.
Qed.

Lemma all_left n k d0 :
  (k ≤ n)%nat → left_taken n 0 d0 →
  ∃ d, run (among n (phil_step naiveOrder 1)) (seq 0 k) d0 = Some d ∧ left_taken n k d.
Proof.
  intros Hk H0. induction k as [|k IH]; [by exists d0|]. destruct IH as (d & E & Hd); [lia|].
  destruct (take_left n k d) as (d' & E' & Hd'); [lia|done|]. exists d'. split; [|done].
  rewrite seq_S, run_app, E. simpl. by rewrite E'.
Qed.

(** Taking the left fork first can deadlock, for any number of
    philosophers: when each of them takes its left fork before any takes the
    right one, the execution is stuck with every philosopher waiting for a fork
    and nobody having eaten. *)
Theorem Dining_naive_deadlock z (Hz : 0 < z) :
  ∃ d, run (RunDeadlockScenario (NewDiningPhilosophers z)) (seq 0 (Z.to_nat z))
         (NewDiningPhilosophers z) = Some d ∧
    (∀ id, (id < Z.to_nat z)%nat → phil_pcs d id = HasFirst ∧ MealsEaten d id = 0) ∧
    ∀ id, RunDeadlockScenario (NewDiningPhilosophers z) id d = None.
Proof.
  set (n := Z.to_nat z). assert (En : Z.to_nat (if z <=? 0 then 5 else z) = n).
  { subst n. destruct (Z.leb_spec z 0); [lia|done]. }
  unfold RunDeadlockScenario. simpl. rewrite En.
  destruct (all_left n n (NewDiningPhilosophers z)) as (d & E & Hn & Hf & Hp & He & Hm); [done| |].
  { by split_and!. }
  exists d. split; [done|]. split.
  - intros id Hid. rewrite Hp, decide_True by done. auto.
  - intros id. unfold among. destruct (Nat.ltb_spec id n) as [Hid|]; [|done].
    unfold phil_step, naiveOrder. rewrite Hp, decide_True, Hn, Hf, bool_decide_eq_true_2; [done| |done].
    rewrite rightFork_eq by done. case_decide; lia.
Qed.

Lemma Dining_naive_deadlock_witness :
  ∃ d, run (RunDeadlockScenario (NewDiningPhilosophers 5)) (seq 0 5) (NewDiningPhilosophers 5) = Some d ∧
    (∀ id, (id < 5)%nat → phil_pcs d id = HasFirst ∧ MealsEaten d id = 0).
Proof.
  destruct (Dining_naive_deadlock 5) as (d & ? & ? & _); [lia|]. by exists d.
Defined.
