(* ===== verification/Visualizer.v ===== *)
(** * Terminal rendering

    Models the colour codes and [StripANSI] of [src/pkg/visualizer/ansi.go],
    the tables of [src/pkg/visualizer/table.go] and the merging of segments of
    [src/pkg/visualizer/gantt.go].  Strings are sequences of bytes, as in the
    source, so the length of a string is its length in bytes. *)

From Stdlib Require Import Ascii String.
From S2P Require Import Prelude SchedCore.

(** ** Escape codes *)
Definition ESC : Ascii.ascii := Ascii.ascii_of_nat 27.
Definition csi (code : string) : string := String ESC ("[" +:+ code +:+ "m").

Definition Reset : string := csi "0".
Definition Bold : string := csi "1".
Definition Dim : string := csi "2".
Definition Italic : string := csi "3".
Definition Underline : string := csi "4".

Definition FgBlack : string := csi "30".
Definition FgRed : string := csi "31".
Definition FgGreen : string := csi "32".
Definition FgYellow : string := csi "33".
Definition FgBlue : string := csi "34".
Definition FgMagenta : string := csi "35".
Definition FgCyan : string := csi "36".
Definition FgWhite : string := csi "37".

Definition FgHiBlack : string := csi "90".
Definition FgHiRed : string := csi "91".
Definition FgHiGreen : string := csi "92".
Definition FgHiYellow : string := csi "93".
Definition FgHiBlue : string := csi "94".
Definition FgHiMagenta : string := csi "95".
Definition FgHiCyan : string := csi "96".
Definition FgHiWhite : string := csi "97".

Definition BgBlack : string := csi "40".
Definition BgRed : string := csi "41".
Definition BgGreen : string := csi "42".
Definition BgYellow : string := csi "43".
Definition BgBlue : string := csi "44".
Definition BgMagenta : string := csi "45".
Definition BgCyan : string := csi "46".
Definition BgWhite : string := csi "47".

Definition Colorize (color text : string) : string := color +:+ text +:+ Reset.
Definition Cyan (text : string) : string := Colorize FgCyan text.
Definition Green (text : string) : string := Colorize FgGreen text.
Definition Yellow (text : string) : string := Colorize FgYellow text.
Definition Red (text : string) : string := Colorize FgRed text.
Definition Blue (text : string) : string := Colorize FgBlue text.
Definition Magenta (text : string) : string := Colorize FgMagenta text.
Definition Gray (text : string) : string := Colorize FgHiBlack text.
Definition HiCyan (text : string) : string := Colorize FgHiCyan text.
Definition HiGreen (text : string) : string := Colorize FgHiGreen text.
Definition HiYellow (text : string) : string := Colorize FgHiYellow text.
Definition HiRed (text : string) : string := Colorize FgHiRed text.
Definition HiMagenta (text : string) : string := Colorize FgHiMagenta text.

Definition Badge (text bgColor fgColor : string) : string :=
  bgColor +:+ (fgColor +:+ Bold) +:+ " " +:+ text +:+ " " +:+ Reset.

(** The loop of [StripANSI], with its variable [inEscape]. *)
Fixpoint stripLoop (inEscape : bool) (str : string) : string :=
  match str with
  | "" => ""
  | String c str =>
      if Ascii.eqb c ESC then stripLoop true str else
      if inEscape then stripLoop (negb (Ascii.eqb c "m"%char)) str
      else String c (stripLoop false str)
  end%string.

Definition StripANSI (str : string) : string := stripLoop false str.

(** [strings.Repeat] *)
Definition Repeat (s : string) (n : Z) : string :=
  String.concat "" (replicate (Z.to_nat n) s).

Definition slen (s : string) : Z := Z.of_nat (String.length s).

(** ** Tables *)
Record Table := mkTable {
  Headers : list string; Rows : list (list string); Align : list string }.
#[export] Instance eta_Table : Eta Table := λ t, mkTable (Headers t) (Rows t) (Align t).

Definition NewTable (headers : list string) : Table :=
  mkTable headers [] (replicate (length headers) ""%string).
Definition AddRow (cols : list string) (t : Table) : Table := t <| Rows ::= λ r, r ++ [cols] |>.
Definition SetAlignment (align : list string) (t : Table) : Table := t <| Align := align |>.

Definition padString (s : string) (width : Z) (align : string) : string :=
  let rawLen := slen (StripANSI s) in
  if width <=? rawLen then s else
  let pad := width - rawLen in
  if bool_decide (align = "right"%string) then Repeat " " pad +:+ s
  else if bool_decide (align = "center"%string) then
    let left := pad / 2 in
    let right := pad - left in
    Repeat " " left +:+ s +:+ Repeat " " right
  else s +:+ Repeat " " pad.

(** One row of the loop that computes the column widths. *)
Fixpoint widen (colWidths : list Z) (row : list string) : list Z :=
  match colWidths, row with
  | w :: ws, cell :: row =>
      (let l := slen (StripANSI cell) in if w <? l then l else w) :: widen ws row
  | ws, _ => ws
  end.

Definition colWidths (t : Table) : list Z :=
  foldl widen ((λ h, slen (StripANSI h)) <$> Headers t) (Rows t).

(** A horizontal border with its left, middle and right corner. *)
Fixpoint borderCells (middle : string) (ws : list Z) : string :=
  match ws with
  | [] => ""
  | [w] => Repeat "─" (w + 2)
  | w :: ws => Repeat "─" (w + 2) +:+ middle +:+ borderCells middle ws
  end%string.
Definition newline : string := String (Ascii.ascii_of_nat 10) "".
Definition border (left middle right : string) (ws : list Z) : string :=
  FgCyan +:+ left +:+ borderCells middle ws +:+ right +:+ newline +:+ Reset.

Definition headerCell (h : string) (w : Z) : string :=
  " " +:+ Bold +:+ FgHiWhite +:+ padString h w "center" +:+ Reset +:+ " " +:+
  FgCyan +:+ "│" +:+ Reset.
Definition headerLine (t : Table) : string :=
  FgCyan +:+ "│" +:+ Reset +:+
  String.concat "" (zip_with headerCell (Headers t) (colWidths t)) +:+ newline.

Definition alignOf (t : Table) (i : nat) : string :=
  match Align t !! i with
  | Some a => if bool_decide (a ≠ ""%string) then a else "left"
  | None => "left"
  end.
Definition cellText (t : Table) (row : list string) (i : nat) (w : Z) : string :=
  " " +:+ padString (default ""%string (row !! i)) w (alignOf t i) +:+ " " +:+
  FgCyan +:+ "│" +:+ Reset.
Definition rowLine (t : Table) (row : list string) : string :=
  FgCyan +:+ "│" +:+ Reset +:+ String.concat "" (imap (cellText t row) (colWidths t)) +:+ newline.

Definition Render (t : Table) : string :=
  let ws := colWidths t in
  border "┌" "┬" "┐" ws +:+ headerLine t +:+ border "├" "┼" "┤" ws +:+
  String.concat "" (rowLine t <$> Rows t) +:+ border "└" "┴" "┘" ws.

(** ** Gantt charts *)
(** The loop that groups adjacent segments of the same entity. *)
Definition mergeStep (merged : list GanttSegment) (seg : GanttSegment) : list GanttSegment :=
  match last merged with
  | Some l =>
      if bool_decide (EntityID l = EntityID seg) && (SegEnd l =? SegStart seg)
      then removelast merged ++ [mkGanttSegment (EntityID l) (SegStart l) (SegEnd seg) (SegColor l)]
      else merged ++ [seg]
  | None => merged ++ [seg]
  end.
Definition mergeSegments (segments : list GanttSegment) : list GanttSegment :=
  foldl mergeStep [] segments.

(** ** Visible text *)

(** The value of [inEscape] after a text. *)
Fixpoint escAfter (inEscape : bool) (str : string) : bool :=
  match str with
  | "" => inEscape
  | String c str =>
      if Ascii.eqb c ESC then escAfter true str else
      if inEscape then escAfter (negb (Ascii.eqb c "m"%char)) str else escAfter false str
  end%string.

(** A text that ends outside an escape sequence. *)
Definition closed (s : string) : Prop := escAfter false s = false.

Lemma strip_app b s1 s2 : stripLoop b (s1 +:+ s2) = stripLoop b s1 +:+ stripLoop (escAfter b s1) s2.
Proof.
  revert b. induction s1 as [|c s1 IH]; intros b; simpl; [done|].
  destruct (Ascii.eqb c ESC); [apply IH|]. destruct b; [apply IH|]. simpl. by rewrite IH.
Qed.

Lemma escAfter_app b s1 s2 : escAfter b (s1 +:+ s2) = escAfter (escAfter b s1) s2.
Proof.
  revert b. induction s1 as [|c s1 IH]; intros b; simpl; [done|].
  destruct (Ascii.eqb c ESC); [apply IH|]. destruct b; apply IH.
Qed.

Lemma slen_app s1 s2 : slen (s1 +:+ s2) = slen s1 + slen s2.
Proof.
  unfold slen. rewrite <- Nat2Z.inj_add. f_equal.
  induction s1 as [|c s1 IH]; simpl; [done|by f_equal].
Qed.

Lemma closed_app s1 s2 : closed s1 → closed s2 → closed (s1 +:+ s2).
Proof. unfold closed. intros H1 H2. by rewrite escAfter_app, H1. Qed.

(** The number of visible bytes. *)
Definition vis (s : string) : Z := slen (StripANSI s).

Lemma vis_app s1 s2 : closed s1 → vis (s1 +:+ s2) = vis s1 + vis s2.
Proof. intros H. unfold vis, StripANSI. by rewrite strip_app, H, slen_app. Qed.

Lemma vis_concat ss :
  Forall closed ss → closed (String.concat "" ss) ∧ vis (String.concat "" ss) = sumZ vis ss.
Proof.
  induction 1 as [|s ss Hs Hss IH]; [done|]. destruct IH as [IH1 IH2].
  assert (String.concat "" (s :: ss) = s +:+ String.concat "" ss) as ->.
  { destruct ss; simpl; [|done]. clear. induction s as [|c s IH]; [done|].
    change (String c s = String c (s +:+ "")). by rewrite <- IH. }
  split; [by apply closed_app|]. rewrite vis_app, sumZ_cons, IH2; done.
Qed.

Lemma spaces n : 0 ≤ n → closed (Repeat " " n) ∧ vis (Repeat " " n) = n.
Proof.
  intros Hn. unfold Repeat. destruct (vis_concat (replicate (Z.to_nat n) " "%string)) as [H1 H2].
  { by apply Forall_replicate. }
  split; [done|]. rewrite H2. rewrite <- (Z2Nat.id n) at 2 by done. generalize (Z.to_nat n).
  intros k. induction k as [|k IH]; [done|]. cbn [replicate]. rewrite sumZ_cons, IH.
  change (vis " ") with 1. lia.
Qed.

(** Padding makes a text as wide as required, unless it is wider already. *)
Lemma padString_vis s width align :
  closed s → closed (padString s width align) ∧ vis (padString s width align) = Z.max width (vis s).
Proof.
  intros Hs. unfold padString. fold (vis s). destruct (Z.leb_spec width (vis s)); [split; [done|lia]|].
  destruct (spaces (width - vis s)) as [Hc Hv]; [lia|].
  destruct (spaces ((width - vis s) / 2)) as [Hc1 Hv1]; [apply Z.div_pos; lia|].
  destruct (spaces (width - vis s - (width - vis s) / 2)) as [Hc2 Hv2].
  { pose proof (Z.div_le_upper_bound (width - vis s) 2 (width - vis s)). lia. }
  repeat case_bool_decide; (split; [auto using closed_app|]); rewrite !vis_app by auto; lia.
Qed.

(** ** Column widths *)
Lemma widen_spec ws row i w :
  ws !! i = Some w →
  ∃ w', widen ws row !! i = Some w' ∧ w ≤ w' ∧ ∀ c, row !! i = Some c → vis c ≤ w'.
Proof.
  revert row i. induction ws as [|x ws IH]; intros row i Hi; [done|].
  destruct row as [|c row]; simpl; [exists w; split; [done|]; split; [lia|done]|].
  destruct i as [|i]; simpl in *; [|by apply IH]. injection Hi as ->. eexists. split; [done|].
  fold (vis c). destruct (Z.ltb_spec w (vis c)); (split; [lia|]); intros ? [= <-]; lia.
Qed.

Lemma widen_length ws row : length (widen ws row) = length ws.
Proof. revert row. induction ws as [|x ws IH]; intros [|c row]; simpl; auto. Qed.

Lemma widen_all_spec rows ws i w :
  ws !! i = Some w →
  ∃ w', foldl widen ws rows !! i = Some w' ∧ w ≤ w' ∧
        ∀ row c, row ∈ rows → row !! i = Some c → vis c ≤ w'.
Proof.
  revert ws w. induction rows as [|r rows IH]; intros ws w Hi; simpl.
  { exists w. split; [done|]. split; [lia|]. by intros ? ? ?%elem_of_nil. }
  destruct (widen_spec ws r i w Hi) as (w1 & H1 & Hle & Hr).
  destruct (IH _ _ H1) as (w2 & H2 & Hle2 & Hrs). exists w2. split; [done|]. split; [lia|].
  intros row c [->|Hrow]%elem_of_cons Hc; [|by eapply Hrs]. specialize (Hr _ Hc). lia.
Qed.

Lemma colWidths_length t : length (colWidths t) = length (Headers t).
Proof.
  unfold colWidths. rewrite <- (length_fmap (λ h, slen (StripANSI h)) (Headers t)).
  generalize ((λ h, slen (StripANSI h)) <$> Headers t).
  induction (Rows t) as [|r rows IH]; intros ws; simpl; [done|]. by rewrite IH, widen_length.
Qed.

(** Every column is at least as wide as its header and its cells. *)
Lemma colWidths_spec t i w :
  colWidths t !! i = Some w →
  (∀ h, Headers t !! i = Some h → vis h ≤ w) ∧
  ∀ row c, row ∈ Rows t → row !! i = Some c → vis c ≤ w.
Proof.
  intros Hw. destruct (lookup_lt_is_Some_2 (Headers t) i) as [h Hh].
  { rewrite <- colWidths_length. by eapply lookup_lt_Some. }
  destruct (widen_all_spec (Rows t) ((λ h, slen (StripANSI h)) <$> Headers t) i (vis h))
    as (w' & Hw' & Hle & Hr); [by rewrite list_lookup_fmap, Hh|].
  fold (colWidths t) in Hw'. rewrite Hw in Hw'. injection Hw' as <-. split; [|done].
  intros h' Hh'. rewrite Hh in Hh'. by injection Hh' as <-.
Qed.

(** ** Lines of a table *)
Lemma headerCell_vis h w :
  closed h → vis h ≤ w → closed (headerCell h w) ∧ vis (headerCell h w) = w + 5.
Proof.
  intros Hh Hw. destruct (padString_vis h w "center" Hh) as [Hc Hv]. unfold headerCell.
  split; [repeat apply closed_app; done|]. repeat rewrite vis_app by done. rewrite Hv.
  change (vis " ") with 1. change (vis Bold) with 0. change (vis FgHiWhite) with 0.
  change (vis Reset) with 0. change (vis FgCyan) with 0. change (vis "│") with 3. lia.
Qed.

Lemma cellText_vis t row i w :
  closed (default ""%string (row !! i)) → vis (default ""%string (row !! i)) ≤ w →
  closed (cellText t row i w) ∧ vis (cellText t row i w) = w + 5.
Proof.
  intros Hh Hw. destruct (padString_vis _ w (alignOf t i) Hh) as [Hc Hv]. unfold cellText.
  split; [repeat apply closed_app; done|]. repeat rewrite vis_app by done. rewrite Hv.
  change (vis " ") with 1. change (vis Reset) with 0. change (vis FgCyan) with 0.
  change (vis "│") with 3. lia.
Qed.

(** A line of cells of the widths [ws], each with its frame. *)
Definition lineWidth (ws : list Z) : Z := 3 + sumZ (λ w, w + 5) ws + 1.

Lemma line_vis cells ws :
  Forall2 (λ c w, closed c ∧ vis c = w + 5) cells ws →
  vis (FgCyan +:+ "│" +:+ Reset +:+ String.concat "" cells +:+ newline) = lineWidth ws.
Proof.
  intros Hcs. destruct (vis_concat cells) as [Hc Hv].
  { clear -Hcs. induction Hcs as [|c w cs ws [Hc _] _ IH]; by constructor. }
  repeat rewrite vis_app by done. rewrite Hv. unfold lineWidth.
  assert (sumZ vis cells = sumZ (λ w, w + 5) ws) as ->.
  { clear -Hcs. induction Hcs as [|c w cs ws [_ Hv] _ IH]; [done|]. rewrite !sumZ_cons. lia. }
  change (vis FgCyan) with 0. change (vis "│") with 3. change (vis Reset) with 0.
  change (vis newline) with 1. lia.
Qed.

Lemma nonneg_widths t w : w ∈ colWidths t → 0 ≤ w.
Proof.
  intros [i Hi]%list_elem_of_lookup_1. destruct (lookup_lt_is_Some_2 (Headers t) i) as [h Hh].
  { rewrite <- colWidths_length. by eapply lookup_lt_Some. }
  destruct (colWidths_spec t i w Hi) as [H _]. specialize (H h Hh). unfold vis, slen in H. lia.
Qed.

(** A rendered table is aligned: when no header or cell leaves a colour
    sequence open, the header line and all row lines have the same number of
    visible bytes, the column widths plus the frame, whatever colours the
    cells contain and however many cells a row has. *)
Theorem Table_lines_aligned t
    (Hheaders : Forall closed (Headers t)) (Hrows : Forall (Forall closed) (Rows t)) :
  vis (headerLine t) = lineWidth (colWidths t) ∧
  ∀ row, row ∈ Rows t → vis (rowLine t row) = lineWidth (colWidths t).
Proof.
  split.
  - apply line_vis. apply Forall2_same_length_lookup_2.
    { rewrite length_zip_with, colWidths_length. lia. }
    intros i c w Hc Hw. rewrite lookup_zip_with in Hc.
    destruct (Headers t !! i) as [h|] eqn:Hh; [|done]. simpl in Hc. rewrite Hw in Hc.
    injection Hc as <-. apply headerCell_vis.
    + by eapply Forall_lookup_1.
    + by apply (colWidths_spec t i w).
  - intros row Hrow. apply line_vis. apply Forall2_same_length_lookup_2; [by rewrite length_imap|].
    intros i c w Hc Hw. rewrite list_lookup_imap, Hw in Hc. injection Hc as <-.
    rewrite Forall_forall in Hrows. specialize (Hrows row Hrow). apply cellText_vis.
    + destruct (row !! i) as [x|] eqn:Hx; [by eapply Forall_lookup_1|done].
    + destruct (row !! i) as [x|] eqn:Hx; simpl.
      * by eapply (colWidths_spec t i w).
      * apply list_elem_of_lookup_2, nonneg_widths in Hw. done.
Qed.

Lemma Table_lines_aligned_witness :
  let t := AddRow ["P1"; Red "BLOCKED"; "3"] (AddRow ["P2"; Green "READY"]
             (SetAlignment ["left"; "center"; "right"] (NewTable ["PID"; "State"; "Ticks"]))) in
  vis (headerLine t) = lineWidth (colWidths t) ∧
  ∀ row, row ∈ Rows t → vis (rowLine t row) = lineWidth (colWidths t).
Proof. intros t. apply (Table_lines_aligned t); repeat constructor. Defined.

(** ** Merging of segments *)
Definition units (s : GanttSegment) : list (Z * string) :=
  (λ t, (t, EntityID s)) <$> seqZ (SegStart s) (SegEnd s - SegStart s).

Definition mergeable (a b : GanttSegment) : Prop :=
  EntityID a = EntityID b ∧ SegEnd a = SegStart b.

Definition compact (ss : list GanttSegment) : Prop :=
  ∀ i a b, ss !! i = Some a → ss !! S i = Some b → ¬ mergeable a b.

Lemma compact_snoc ss s :
  compact ss → (∀ l, last ss = Some l → ¬ mergeable l s) → compact (ss ++ [s]).
Proof.
  intros Hc Hl i a b Ha Hb. destruct (decide (S i < length ss)%nat).
  - rewrite lookup_app_l in Ha, Hb by lia. by eapply Hc.
  - rewrite lookup_app_r in Hb by lia. apply list_lookup_singleton_Some in Hb as [? <-].
    apply Hl. rewrite last_lookup. rewrite lookup_app_l in Ha by lia.
    by replace (pred (length ss)) with i by lia.
Qed.

Lemma compact_app_l s1 s2 : compact (s1 ++ s2) → compact s1.
Proof. intros Hc i a b Ha Hb. eapply (Hc i); by apply lookup_app_l_Some. Qed.

Lemma mergeStep_ok merged seg :
  compact merged → (∀ s, s ∈ merged → SegStart s ≤ SegEnd s) → SegStart seg ≤ SegEnd seg →
  compact (mergeStep merged seg) ∧
  (∀ s, s ∈ mergeStep merged seg → SegStart s ≤ SegEnd s) ∧
  (mergeStep merged seg ≫= units) = (merged ≫= units) ++ units seg.
Proof.
  intros Hc Hok Hs. unfold mergeStep. destruct merged as [|l m _] using rev_ind; simpl.
  { split_and!; [by intros [|[]]|by intros ? ->%list_elem_of_singleton|by rewrite app_nil_r]. }
  rewrite last_snoc. case_bool_decide as Hid; simpl.
  - destruct (Z.eqb_spec (SegEnd l) (SegStart seg)) as [He|He].
    + rewrite removelast_last. assert (Hl := Hok l ltac:(set_solver)). split_and!.
      * apply compact_snoc; [by eapply compact_app_l|]. intros p Hp [Hp1 Hp2]. simpl in *.
        apply (Hc (pred (length m)) p l); [| |done].
        -- apply lookup_app_l_Some. by rewrite <- last_lookup.
        -- assert (m ≠ []) by (by intros ->). destruct m; [done|]. by apply list_lookup_middle.
      * intros s [H| ->%list_elem_of_singleton]%elem_of_app; [apply Hok; set_solver|]. simpl. lia.
      * rewrite !bind_app, <- app_assoc. f_equal. simpl. rewrite !app_nil_r. unfold units. simpl.
        rewrite Hid, <- fmap_app. f_equal.
        rewrite <- He. replace (SegEnd seg - SegStart l)
          with ((SegEnd l - SegStart l) + (SegEnd seg - SegEnd l)) by lia.
        rewrite seqZ_app by lia. do 2 f_equal; lia.
    + split_and!; [|set_solver|by rewrite !bind_app; simpl; rewrite !app_nil_r].
      apply compact_snoc; [done|]. intros p. rewrite last_snoc. intros [= <-] []. done.
  - split_and!; [|set_solver|by rewrite !bind_app; simpl; rewrite !app_nil_r].
    apply compact_snoc; [done|]. intros p. rewrite last_snoc. intros [= <-] []. done.
Qed.

Lemma mergeSegments_ok segs merged :
  compact merged → (∀ s, s ∈ merged → SegStart s ≤ SegEnd s) →
  (∀ s, s ∈ segs → SegStart s ≤ SegEnd s) →
  compact (foldl mergeStep merged segs) ∧
  (foldl mergeStep merged segs ≫= units) = (merged ≫= units) ++ (segs ≫= units).
Proof.
  revert merged. induction segs as [|s segs IH]; intros merged Hc Hm Hs; simpl.
  { by rewrite app_nil_r. }
  destruct (mergeStep_ok merged s) as (H1 & H2 & H3); [done..|apply Hs; by left|].
  destruct (IH _ H1 H2) as [H4 H5]; [intros; apply Hs; by right|].
  by rewrite H5, H3, app_assoc.
Qed.

(** Merging the segments of a Gantt chart changes neither which entity
    runs in which time unit nor the order, and leaves no two neighbouring
    segments of one entity that touch. *)
Theorem mergeSegments_spec segs (Hsegs : ∀ s, s ∈ segs → SegStart s ≤ SegEnd s) :
  (mergeSegments segs ≫= units) = (segs ≫= units) ∧ compact (mergeSegments segs).
Proof.
  destruct (mergeSegments_ok segs []) as [H1 H2]; [by intros []|by intros ? ?%elem_of_nil|done|].
  done.
Qed.

Lemma mergeSegments_spec_witness :
  let segs := [segment 0 "P1"; segment 1 "P1"; segment 2 "P2"; segment 3 "P1"] in
  (mergeSegments segs ≫= units) = (segs ≫= units) ∧ compact (mergeSegments segs).
Proof.
  intros segs. apply (mergeSegments_spec segs). unfold segs.
  intros s Hs. repeat (apply elem_of_cons in Hs as [->|Hs]; [simpl; lia|]).
  by apply elem_of_nil in Hs.
Defined.
