(* ===== verification/Drawing.v ===== *)
(** * Banners, boxes, charts and diagrams

    Models the remaining functions of [src/pkg/visualizer]: the banners and
    boxes of [ansi.go], the drawing of Gantt charts of [gantt.go] and the
    diagrams of [memory_map.go].  A terminal shows one column per character, so
    alignment is stated on the number of UTF-8 characters that are not part of
    an escape sequence. *)

From Stdlib Require Import Ascii String.
From S2P Require Import Prelude SchedCore Visualizer.

(** ** Banners and boxes *)
Definition SectionHeader (title : string) : string :=
  let width := 70 in
  let pad := width - slen title - 4 in
  let pad := if pad <? 2 then 2 else pad in
  let leftPad := pad / 2 in
  let rightPad := pad - leftPad in
  let border := Repeat "═" width in
  let content := "║ " +:+ Repeat " " leftPad +:+ (Bold +:+ FgHiCyan +:+ title +:+ Reset) +:+
    Repeat " " rightPad +:+ " ║" in
  newline +:+ (FgCyan +:+ border +:+ Reset) +:+ newline +:+ content +:+ newline +:+
  (FgCyan +:+ border +:+ Reset) +:+ newline.

Definition SubHeader (title : string) : string :=
  let pad := 70 - slen title in
  let pad := if pad <? 4 then 4 else pad in
  newline +:+ FgHiYellow +:+ "── " +:+ (Bold +:+ FgHiWhite) +:+ title +:+ " " +:+
  (FgHiYellow +:+ Repeat "─" pad +:+ Reset) +:+ newline.

Definition boxWidth (title : string) (lines : list string) : Z :=
  let maxLen := foldl (λ m l, if m <? slen (StripANSI l) then slen (StripANSI l) else m)
    (slen title) lines in
  let width := maxLen + 4 in
  if width <? 40 then 40 else width.

Definition boxTop (title : string) (width : Z) : string :=
  let titlePad := width - slen title - 4 in
  let titlePad := if titlePad <? 0 then 0 else titlePad in
  FgCyan +:+ "┌─ " +:+ (Bold +:+ FgHiWhite) +:+ title +:+ " " +:+
  (FgCyan +:+ Repeat "─" titlePad) +:+ "┐" +:+ Reset.

Definition boxLine (width : Z) (l : string) : string :=
  let cleanLen := slen (StripANSI l) in
  let pad := width - cleanLen - 2 in
  let pad := if pad <? 0 then 0 else pad in
  FgCyan +:+ "│" +:+ Reset +:+ " " +:+ l +:+ Repeat " " pad +:+ FgCyan +:+ "│" +:+ Reset.

Definition boxBottom (width : Z) : string :=
  FgCyan +:+ "└" +:+ Repeat "─" width +:+ "┘" +:+ Reset.

Definition Box (title : string) (lines : list string) : string :=
  let width := boxWidth title lines in
  boxTop title width +:+ newline +:+
  String.concat "" ((λ l, boxLine width l +:+ newline) <$> lines) +:+
  boxBottom width +:+ newline.

(** ** Gantt charts *)
Definition palette : list string :=
  [FgHiGreen; FgHiYellow; FgHiCyan; FgHiMagenta; FgHiBlue; FgGreen; FgYellow; FgCyan].

(** One step of the loop that gives every entity a colour; the second
    component is [pIdx]. *)
Definition colorStep (acc : gmap string string * nat) (seg : GanttSegment) : gmap string string * nat :=
  let '(colorMap, pIdx) := acc in
  if bool_decide (EntityID seg = "IDLE"%string) then (<[EntityID seg := FgHiBlack]> colorMap, pIdx)
  else match colorMap !! EntityID seg with
  | Some _ => (colorMap, pIdx)
  | None => (<[EntityID seg := default ""%string (palette !! (pIdx mod length palette)%nat)]> colorMap, S pIdx)
  end.
Definition colorMapOf (merged : list GanttSegment) : gmap string string :=
  (foldl colorStep (∅, 0%nat) merged).1.

Definition segWidth (seg : GanttSegment) : Z :=
  let width := (SegEnd seg - SegStart seg) * 3 in
  let width := if width <? 5 then 5 else width in
  if 20 <? width then 20 else width.

Definition segColor (colorMap : gmap string string) (seg : GanttSegment) : string :=
  if bool_decide (SegColor seg = ""%string) then default ""%string (colorMap !! EntityID seg)
  else SegColor seg.

(** A border of the chart: the cells, with [joint] between them. *)
Fixpoint ganttBorder (joint : string) (merged : list GanttSegment) : string :=
  match merged with
  | [] => ""
  | [seg] => Repeat "─" (segWidth seg)
  | seg :: rest => Repeat "─" (segWidth seg) +:+ joint +:+ ganttBorder joint rest
  end%string.

Definition ganttLabel (colorMap : gmap string string) (seg : GanttSegment) : string :=
  let lbl := (segColor colorMap seg +:+ Bold) +:+ EntityID seg +:+ Reset in
  padString lbl (segWidth seg) "center" +:+ FgCyan +:+ "│" +:+ Reset.

(** [%-2d] *)
Definition fmt_d_left (w : Z) (z : Z) : string := fmt_d z +:+ Repeat " " (w - slen (fmt_d z)).

Fixpoint ganttTimes (currentPos : Z) (merged : list GanttSegment) : string :=
  match merged with
  | [] => ""%string
  | seg :: rest =>
      let targetPos := currentPos + segWidth seg + 1 in
      let endStr := fmt_d (SegEnd seg) in
      let spacing := targetPos - currentPos - slen endStr in
      let spacing := if spacing <? 1 then 1 else spacing in
      Repeat " " spacing +:+ endStr +:+ ganttTimes targetPos rest
  end.

Definition ganttTop (merged : list GanttSegment) : string :=
  FgCyan +:+ "┌" +:+ ganttBorder "┬" merged +:+ "┐" +:+ Reset.
Definition ganttBottom (merged : list GanttSegment) : string :=
  FgCyan +:+ "└" +:+ ganttBorder "┴" merged +:+ "┘" +:+ Reset.
Definition ganttLabels (merged : list GanttSegment) : string :=
  FgCyan +:+ "│" +:+ Reset +:+ String.concat "" (ganttLabel (colorMapOf merged) <$> merged).

Definition RenderGanttChart (segments : list GanttSegment) : string :=
  if len segments =? 0 then "No execution recorded." +:+ newline else
  let merged := mergeSegments segments in
  match merged with
  | [] => ""%string
  | first :: _ =>
      ganttTop merged +:+ newline +:+ ganttLabels merged +:+ newline +:+
      ganttBottom merged +:+ newline +:+
      (FgHiWhite +:+ fmt_d_left 2 (SegStart first) +:+ ganttTimes 2 merged +:+ Reset) +:+ newline
  end.

(** ** Diagrams of memory *)

(** [%032b] *)
Fixpoint bin_digits (fuel : nat) (z : Z) : string :=
  match fuel with
  | O => ""%string
  | S fuel => (if z <? 2 then ""%string else bin_digits fuel (z / 2)) +:+
              (if Z.even z then "0" else "1")%string
  end.
Definition fmt_0b (w : nat) (z : Z) : string := pad_zeros w (bin_digits 64 z).

Definition RenderAddressSpaceLayout
    (maxAddr stackTop stackBottom heapBottom heapTop dataEnd textEnd : Z) : string :=
  let x := λ v, "0x" +:+ fmt_0X 8 v in
  SubHeader "Process Virtual Address Space (OSTEP Chapter 13)" +:+
  String.concat "" ((λ l, l +:+ newline) <$>
   ["  " +:+ FgHiBlack +:+ x maxAddr +:+ Reset +:+ " ┌───────────────────────────────────────┐  " +:+
      FgHiBlack +:+ "High Memory" +:+ Reset;
    "             │  " +:+ FgHiBlack +:+ "Kernel Space (Protected)" +:+ Reset +:+ "            │";
    "  " +:+ FgCyan +:+ x stackTop +:+ Reset +:+ " ├───────────────────────────────────────┤";
    "             │  " +:+ (Bold +:+ FgHiGreen) +:+ "Stack (grows DOWN ↓)" +:+ Reset +:+
      "                │  Local variables, return addrs";
    "  " +:+ FgGreen +:+ x stackBottom +:+ Reset +:+ " │  " +:+ FgGreen +:+ "↑ Stack Pointer (SP)" +:+ Reset +:+
      "               │";
    "             │                  ↓                    │";
    "             │             (Unallocated)             │";
    "             │                  ↑                    │";
    "  " +:+ FgYellow +:+ x heapTop +:+ Reset +:+ " │  " +:+ FgYellow +:+ "↑ Program Break (brk)" +:+ Reset +:+
      "               │";
    "             │  " +:+ (Bold +:+ FgHiYellow) +:+ "Heap (grows UP ↑)" +:+ Reset +:+
      "                  │  Dynamic malloc / make / new";
    "  " +:+ FgCyan +:+ x heapBottom +:+ Reset +:+ " ├───────────────────────────────────────┤";
    "             │  " +:+ (Bold +:+ FgHiMagenta) +:+ "Data & BSS Segment" +:+ Reset +:+
      "                 │  Globals & static variables";
    "  " +:+ FgCyan +:+ x dataEnd +:+ Reset +:+ " ├───────────────────────────────────────┤";
    "             │  " +:+ (Bold +:+ FgHiCyan) +:+ "Code / Text Segment (Read-Only)" +:+ Reset +:+
      "    │  Executable machine instructions";
    "  " +:+ FgCyan +:+ "0x00000000" +:+ Reset +:+ " └───────────────────────────────────────┘  " +:+
      FgHiBlack +:+ "Low Memory (0x0)" +:+ Reset]).

Definition RenderTranslationDiagram (vAddr vpn offset pfn pAddr : Z) (tlbHit : bool) : string :=
  let status := if tlbHit then Badge "TLB HIT" BgGreen FgHiWhite
                else Badge "TLB MISS (Page Table Walk)" BgRed FgHiWhite in
  newline +:+ String.concat "" ((λ l, l +:+ newline) <$>
   [status;
    "  Virtual Address:   " +:+ FgHiCyan +:+ "0x" +:+ fmt_0X 8 vAddr +:+ Reset +:+ " (Binary: " +:+
      fmt_0b 32 vAddr +:+ ")";
    "  ├── VPN (Page Num): " +:+ FgHiYellow +:+ "0x" +:+ fmt_0X 4 vpn +:+ Reset +:+ " (" +:+ fmt_d vpn +:+ ")";
    "  └── Offset:         " +:+ FgHiMagenta +:+ "0x" +:+ fmt_0X 4 offset +:+ Reset +:+ " (" +:+
      fmt_d offset +:+ " bytes into page)";
    "          │";
    "          ▼ Translation (Page Table / TLB): VPN " +:+ fmt_d vpn +:+ " ──► PFN " +:+ fmt_d pfn;
    "          │";
    "  Physical Address:  " +:+ FgHiGreen +:+ "0x" +:+ fmt_0X 8 pAddr +:+ Reset +:+ " [PFN: 0x" +:+
      fmt_0X 4 pfn +:+ " | Offset: 0x" +:+ fmt_0X 4 offset +:+ "]"]).

(** ** Columns *)

(** A byte that continues a UTF-8 character. *)
Definition continues (c : Ascii.ascii) : bool :=
  let n := Z.of_nat (Ascii.nat_of_ascii c) in (128 <=? n) && (n <? 192).
Fixpoint runes (s : string) : Z :=
  match s with
  | ""%string => 0
  | String c s => if continues c then runes s else 1 + runes s
  end.
Definition columns (s : string) : Z := runes (StripANSI s).

(** A text of which every visible byte is a character of its own. *)
Definition plain (s : string) : Prop := closed s ∧ columns s = vis s.

Lemma runes_app s1 s2 : runes (s1 +:+ s2) = runes s1 + runes s2.
Proof.
  induction s1 as [|c s1 IH]; [done|].
  change (runes (String c s1 +:+ s2)) with (runes (String c (s1 +:+ s2))). cbn [runes].
  destruct (continues c); rewrite IH; lia.
Qed.

Lemma columns_app s1 s2 : closed s1 → columns (s1 +:+ s2) = columns s1 + columns s2.
Proof. intros H. unfold columns, StripANSI. by rewrite strip_app, H, runes_app. Qed.

Lemma columns_concat ss :
  Forall closed ss → columns (String.concat "" ss) = sumZ columns ss.
Proof.
  induction 1 as [|s ss Hs Hss IH]; [done|]. rewrite sumZ_cons, <- IH, <- columns_app by done.
  f_equal. destruct ss; simpl; [|done]. clear. induction s as [|c s IH]; [done|].
  change (String c s = String c (s +:+ "")). by rewrite <- IH.
Qed.

Lemma columns_Repeat s n :
  closed s → 0 ≤ n → closed (Repeat s n) ∧ columns (Repeat s n) = n * columns s.
Proof.
  intros Hs Hn. unfold Repeat.
  assert (Forall closed (replicate (Z.to_nat n) s)) as Hall by by apply Forall_replicate.
  split; [by apply vis_concat|]. rewrite columns_concat by done.
  rewrite <- (Z2Nat.id n) at 2 by done. generalize (Z.to_nat n). intros k.
  induction k as [|k IH]; [done|]. cbn [replicate]. rewrite sumZ_cons, IH. lia.
Qed.

Ltac solve_closed := by repeat first [done|apply closed_app].

(** Distributes [columns] over a concatenation. *)
Ltac columns :=
  repeat (rewrite columns_app; [|solve_closed]);
  repeat match goal with
  | |- context [columns ?s] => let n := eval vm_compute in (columns s) in
      lazymatch n with Z0 => idtac | Zpos _ => idtac end; change (columns s) with n
  end.

Lemma spaces_columns n : 0 ≤ n → columns (Repeat " " n) = n.
Proof. intros Hn. destruct (columns_Repeat " " n) as [_ ->]; [done|done|]. change (columns " ") with 1. lia. Qed.
Lemma dashes_columns n : 0 ≤ n → closed (Repeat "─" n) ∧ columns (Repeat "─" n) = n.
Proof. intros Hn. destruct (columns_Repeat "─" n) as [? ->]; [done|done|]. change (columns "─") with 1. split; [done|lia]. Qed.
Lemma spaces_closed n : 0 ≤ n → closed (Repeat " " n).
Proof. intros Hn. by apply spaces. Qed.

(** ** Boxes *)
Lemma boxWidth_spec title lines :
  let w := boxWidth title lines in
  40 ≤ w ∧ slen title + 4 ≤ w ∧ ∀ l, l ∈ lines → vis l + 4 ≤ w.
Proof.
  unfold boxWidth. set (f := λ m l, if m <? slen (StripANSI l) then slen (StripANSI l) else m).
  assert (∀ ls m, m ≤ foldl f m ls ∧ ∀ l, l ∈ ls → vis l ≤ foldl f m ls) as Hf.
  { induction ls as [|x ls IH]; intros m; cbn [foldl]; [split; [lia|by intros l ?%elem_of_nil]|].
    destruct (IH (f m x)) as [H1 H2].
    assert (m ≤ f m x ∧ vis x ≤ f m x) as [H3 H4].
    { unfold f. fold (vis x). destruct (Z.ltb_spec m (vis x)); lia. }
    split; [lia|]. intros l [->|Hl]%elem_of_cons; [lia|by apply H2]. }
  destruct (Hf lines (slen title)) as [H1 H2]. cbv zeta. case_if; go_bool; split_and!; try lia.
  all: intros l Hl; specialize (H2 l Hl); lia.
Qed.

(** The top and the lines of a box are equally wide; the bottom is one column
    wider. *)
Theorem Box_columns title lines :
  plain title → vis title = slen title → Forall plain lines →
  let w := boxWidth title lines in
  columns (boxTop title w) = w + 1 ∧
  Forall (λ l, columns (boxLine w l) = w + 1) lines ∧
  columns (boxBottom w) = w + 2.
Proof.
  intros [Htc Ht] Hts Hl w. destruct (boxWidth_spec title lines) as (H40 & Hw & Hls). fold w in H40, Hw, Hls.
  split_and!.
  - unfold boxTop. cbv zeta. destruct (Z.ltb_spec (w - slen title - 4) 0); [lia|].
    destruct (dashes_columns (w - slen title - 4)) as [Hd Hdc]; [lia|].
    columns. rewrite Hdc. lia.
  - apply Forall_forall. intros l Hin. destruct (proj1 (Forall_forall _ _) Hl l Hin) as [Hc Hv].
    specialize (Hls l Hin). unfold boxLine. fold (vis l). cbv zeta.
    destruct (Z.ltb_spec (w - vis l - 2) 0); [lia|].
    pose proof (spaces_closed (w - vis l - 2) ltac:(lia)). columns. rewrite spaces_columns by lia. lia.
  - unfold boxBottom. destruct (dashes_columns w) as [Hd Hdc]; [lia|]. columns. rewrite Hdc. lia.
Qed.

(** A banner is 70 columns wide when its title has at most 64. *)
Theorem SectionHeader_columns title :
  plain title → vis title = slen title → slen title ≤ 64 →
  ∃ border content, SectionHeader title =
    newline +:+ border +:+ newline +:+ content +:+ newline +:+ border +:+ newline ∧
    columns border = 70 ∧ columns content = 70.
Proof.
  intros [Hc Hv] Hs Hle. unfold SectionHeader. cbv zeta.
  destruct (Z.ltb_spec (70 - slen title - 4) 2); [lia|].
  set (pad := 70 - slen title - 4) in *.
  assert (0 ≤ pad / 2 ≤ pad) as Hp by (split; [apply Z.div_pos; lia|apply Z.div_le_upper_bound; lia]).
  pose proof (spaces_closed (pad / 2) ltac:(lia)). pose proof (spaces_closed (pad - pad / 2) ltac:(lia)).
  eexists _, _. split; [reflexivity|]. split.
  - destruct (columns_Repeat "═" 70) as [Hb Hbc]; [done|lia|]. columns. done.
  - columns. rewrite !spaces_columns by lia. unfold pad in *. lia.
Qed.

(** ** Gantt charts *)
Lemma segWidth_range seg : 5 ≤ segWidth seg ≤ 20.
Proof. unfold segWidth. cbv zeta. repeat case_if; go_bool; lia. Qed.

Lemma ganttBorder_columns joint merged :
  closed joint → columns joint = 1 → merged ≠ [] →
  closed (ganttBorder joint merged) ∧
  columns (ganttBorder joint merged) = sumZ (λ s, segWidth s + 1) merged - 1.
Proof.
  intros Hj Hj1. induction merged as [|seg rest IH]; [done|]. intros _.
  pose proof (segWidth_range seg). destruct (dashes_columns (segWidth seg)) as [Hd Hdc]; [lia|].
  rewrite sumZ_cons. destruct rest as [|s2 rest].
  - split; [exact Hd|]. cbn [ganttBorder]. rewrite Hdc. unfold sumZ. simpl. lia.
  - destruct IH as [IHc IHn]; [done|]. change (ganttBorder joint (seg :: s2 :: rest)) with
      (Repeat "─" (segWidth seg) +:+ joint +:+ ganttBorder joint (s2 :: rest)).
    split; [auto using closed_app|]. rewrite !columns_app, IHn, Hdc, Hj1 by done. lia.
Qed.

Lemma ganttLabel_columns cm seg :
  closed (segColor cm seg) → columns (segColor cm seg) = 0 → vis (segColor cm seg) = 0 →
  plain (EntityID seg) → vis (EntityID seg) ≤ segWidth seg →
  closed (ganttLabel cm seg) ∧ columns (ganttLabel cm seg) = segWidth seg + 1.
Proof.
  intros Hc Hc0 Hv0 [Hi Hin] Hle. unfold ganttLabel. cbv zeta.
  set (lbl := (segColor cm seg +:+ Bold) +:+ EntityID seg +:+ Reset).
  assert (closed lbl) as Hl by (unfold lbl; solve_closed).
  assert (columns lbl = vis (EntityID seg)) as Hlc by (unfold lbl; columns; lia).
  assert (vis lbl = vis (EntityID seg)) as Hlv.
  { unfold lbl. rewrite !vis_app by solve_closed.
    change (vis Bold) with 0. change (vis Reset) with 0. lia. }
  destruct (padString_vis lbl (segWidth seg) "center" Hl) as [Hp _].
  assert (columns (padString lbl (segWidth seg) "center") = segWidth seg) as Hpc.
  { unfold padString. fold (vis lbl). destruct (Z.leb_spec (segWidth seg) (vis lbl)); [lia|].
    rewrite bool_decide_false, bool_decide_true by done. cbv zeta.
    set (pad := segWidth seg - vis lbl) in *.
    assert (0 ≤ pad / 2 ≤ pad) by (split; [apply Z.div_pos; lia|apply Z.div_le_upper_bound; lia]).
    pose proof (spaces_closed (pad / 2) ltac:(lia)). columns. rewrite !spaces_columns by lia. lia. }
  split; [solve_closed|]. columns. lia.
Qed.

Lemma palette_invisible i :
  (i < 8)%nat → let c := default ""%string (palette !! i) in closed c ∧ columns c = 0 ∧ vis c = 0.
Proof. intros Hi. do 8 (destruct i as [|i]; [by split_and!; vm_compute|]). lia. Qed.

(** The colour of a segment that has none of its own takes no room. *)
Lemma colorStep_invisible acc seg :
  map_Forall (λ _ c, closed c ∧ columns c = 0 ∧ vis c = 0) acc.1 →
  map_Forall (λ _ c, closed c ∧ columns c = 0 ∧ vis c = 0) (colorStep acc seg).1 ∧
  dom (colorStep acc seg).1 = {[EntityID seg]} ∪ dom acc.1.
Proof.
  destruct acc as [cm k]. cbn [fst]. intros Hcm. unfold colorStep. case_bool_decide.
  - split; [by apply map_Forall_insert_2|]. cbn. set_solver.
  - destruct (cm !! EntityID seg) eqn:E; cbn [fst].
    + split; [done|]. apply elem_of_dom_2 in E. set_solver.
    + split; [|set_solver]. apply map_Forall_insert_2; [|done].
      apply palette_invisible, Nat.mod_upper_bound. lia.
Qed.

Lemma colorMapOf_invisible merged :
  map_Forall (λ _ c, closed c ∧ columns c = 0 ∧ vis c = 0) (colorMapOf merged) ∧
  ∀ seg, seg ∈ merged → EntityID seg ∈ dom (colorMapOf merged).
Proof.
  unfold colorMapOf.
  assert (∀ acc, map_Forall (λ _ c, closed c ∧ columns c = 0 ∧ vis c = 0) acc.1 →
    map_Forall (λ _ c, closed c ∧ columns c = 0 ∧ vis c = 0) (foldl colorStep acc merged).1 ∧
    dom acc.1 ⊆ dom (foldl colorStep acc merged).1 ∧
    ∀ seg, seg ∈ merged → EntityID seg ∈ dom (foldl colorStep acc merged).1) as Hind.
  { induction merged as [|s l IH]; intros acc Hacc; cbn [foldl].
    { split_and!; [done..|by intros s ?%elem_of_nil]. }
    destruct (colorStep_invisible acc s Hacc) as [H1 H2]. destruct (IH _ H1) as (H3 & H4 & H5).
    split_and!; [done|set_solver|]. intros seg [->|Hin]%elem_of_cons; [set_solver|auto]. }
  destruct (Hind (∅, 0%nat)) as (H1 & _ & H3); [apply map_Forall_empty|]. by split.
Qed.

(** The borders and the labels of a chart are equally wide, if the segments have
    no colour of their own and names of at most five columns. *)
Theorem RenderGanttChart_columns merged :
  merged ≠ [] →
  Forall (λ s, SegColor s = ""%string ∧ plain (EntityID s) ∧ vis (EntityID s) ≤ 5) merged →
  columns (ganttTop merged) = columns (ganttLabels merged) ∧
  columns (ganttBottom merged) = columns (ganttLabels merged).
Proof.
  intros Hne Hall. rewrite Forall_forall in Hall.
  destruct (ganttBorder_columns "┬" merged) as [Ht Htn]; [done..|].
  destruct (ganttBorder_columns "┴" merged) as [Hb Hbn]; [done..|].
  destruct (colorMapOf_invisible merged) as [Hinv Hdom].
  assert (∀ s, s ∈ merged → closed (ganttLabel (colorMapOf merged) s) ∧
    columns (ganttLabel (colorMapOf merged) s) = segWidth s + 1) as Hlab.
  { intros s Hs. destruct (Hall s Hs) as (E & Hp & H5). pose proof (segWidth_range s).
    assert (segColor (colorMapOf merged) s = default ""%string (colorMapOf merged !! EntityID s)) as Hc
      by (unfold segColor; by rewrite bool_decide_true).
    specialize (Hdom s Hs). apply elem_of_dom in Hdom as [c Ec]. rewrite Ec in Hc. cbn in Hc.
    destruct (Hinv _ _ Ec) as (? & ? & ?). apply ganttLabel_columns; rewrite ?Hc; [done..|lia]. }
  assert (columns (String.concat "" (ganttLabel (colorMapOf merged) <$> merged)) =
    sumZ (λ s, segWidth s + 1) merged) as Hcc.
  { rewrite columns_concat by (apply Forall_fmap, Forall_forall; intros s Hs; by apply Hlab).
    rewrite sumZ_fmap. apply sumZ_ext. intros s Hs. by apply Hlab. }
  unfold ganttTop, ganttBottom, ganttLabels. split; columns; lia.
Qed.
