(* ===== verification/GoText.v ===== *)
(** * Text: runes, words, numbers and lines

    What the command line front end ([src/cmd/os-sim/main.go]) and the reports
    use of the packages [strings], [strconv] and [bufio]: decoding of UTF-8,
    [TrimSpace], [Fields], [ToLower], [Join], [TrimRight], [Atoi] and a
    [Scanner] that reads lines.  Strings are sequences of bytes. *)

From Stdlib Require Import Ascii String.
From S2P Require Import Prelude Visualizer.

Definition byte (a : Ascii.ascii) : Z := Z.of_N (Ascii.N_of_ascii a).
Definition chr (b : Z) : Ascii.ascii := Ascii.ascii_of_N (Z.to_N b).

(** ** UTF-8

    [decodeRunes s] cuts [s] into its runes, each with the bytes that encode it; a
    byte that is not part of a valid encoding is a rune error of its own. *)
Definition RuneError : Z := 0xFFFD.
Definition between (lo b hi : Z) : bool := (lo <=? b) && (b <=? hi).
Definition is_cont (b : Z) : bool := between 0x80 b 0xBF.

(** The range of the second byte of an encoding, by its first byte. *)
Definition second_ok (b0 b1 : Z) : bool :=
  if b0 =? 0xE0 then between 0xA0 b1 0xBF else
  if b0 =? 0xED then between 0x80 b1 0x9F else
  if b0 =? 0xF0 then between 0x90 b1 0xBF else
  if b0 =? 0xF4 then between 0x80 b1 0x8F else is_cont b1.

Definition bytes_of (l : list Ascii.ascii) : string := string_of_list_ascii l.

Fixpoint decodeRunes (s : string) : list (Z * string) :=
  match s with
  | EmptyString => []
  | String a0 s1 =>
      let b0 := byte a0 in
      let bad (_ : unit) := (RuneError, bytes_of [a0]) :: decodeRunes s1 in
      if b0 <? 0x80 then (b0, bytes_of [a0]) :: decodeRunes s1 else
      match s1 with
      | EmptyString => bad tt
      | String a1 s2 =>
          let b1 := byte a1 in
          if between 0xC2 b0 0xDF then
            if is_cont b1
            then ((b0 - 0xC0) * 64 + (b1 - 0x80), bytes_of [a0; a1]) :: decodeRunes s2 else bad tt
          else
          match s2 with
          | EmptyString => bad tt
          | String a2 s3 =>
              let b2 := byte a2 in
              if between 0xE0 b0 0xEF then
                if second_ok b0 b1 && is_cont b2
                then ((b0 - 0xE0) * 4096 + (b1 - 0x80) * 64 + (b2 - 0x80), bytes_of [a0; a1; a2])
                     :: decodeRunes s3
                else bad tt
              else
              match s3 with
              | EmptyString => bad tt
              | String a3 s4 =>
                  let b3 := byte a3 in
                  if between 0xF0 b0 0xF4 && second_ok b0 b1 && is_cont b2 && is_cont b3
                  then ((b0 - 0xF0) * 262144 + (b1 - 0x80) * 4096 + (b2 - 0x80) * 64 + (b3 - 0x80),
                        bytes_of [a0; a1; a2; a3]) :: decodeRunes s4
                  else bad tt
              end
          end
      end
  end.

(** The text of a list of runes. *)
Definition text_of (rs : list (Z * string)) : string := String.concat "" (snd <$> rs).

Definition encode_rune (r : Z) : string :=
  if r <? 0x80 then bytes_of [chr r] else
  if r <? 0x800 then bytes_of [chr (0xC0 + r / 64); chr (0x80 + r `mod` 64)] else
  if r <? 0x10000 then
    bytes_of [chr (0xE0 + r / 4096); chr (0x80 + r / 64 `mod` 64); chr (0x80 + r `mod` 64)]
  else
    bytes_of [chr (0xF0 + r / 262144); chr (0x80 + r / 4096 `mod` 64);
              chr (0x80 + r / 64 `mod` 64); chr (0x80 + r `mod` 64)].

(** [unicode.IsSpace] *)
Definition IsSpace (r : Z) : bool :=
  between 9 r 13 || (r =? 0x20) || (r =? 0x85) || (r =? 0xA0) || (r =? 0x1680) ||
  between 0x2000 r 0x200A || (r =? 0x2028) || (r =? 0x2029) || (r =? 0x202F) ||
  (r =? 0x205F) || (r =? 0x3000).

(** ** Words *)
Fixpoint drop_space (rs : list (Z * string)) : list (Z * string) :=
  match rs with
  | r :: rs' => if IsSpace (fst r) then drop_space rs' else rs
  | [] => []
  end.

Definition TrimSpace (s : string) : string :=
  text_of (reverse (drop_space (reverse (drop_space (decodeRunes s))))).

(** The words of a text; [cur] is the word being read, if any. *)
Fixpoint words (cur : option string) (rs : list (Z * string)) : list string :=
  match rs with
  | [] => option_list cur
  | (r, b) :: rs =>
      if IsSpace r then option_list cur ++ words None rs
      else words (Some (default ""%string cur +:+ b)) rs
  end.

Definition Fields (s : string) : list string := words None (decodeRunes s).

(** [strings.ToLower]: the case table of Unicode beyond ASCII is [lower]. *)
Definition lower_ascii (r : Z) : Z := if between 65 r 90 then r + 32 else r.
Definition ToLower (lower : Z → Z) (s : string) : string :=
  String.concat "" ((λ r, encode_rune (if fst r <? 0x80 then lower_ascii (fst r) else lower (fst r)))
                    <$> decodeRunes s).

(** [strings.Join], and [strings.TrimRight] for a single byte. *)
Definition Join (ss : list string) (sep : string) : string := String.concat sep ss.
Fixpoint TrimRight (s : string) (c : Ascii.ascii) : string :=
  match s with
  | EmptyString => EmptyString
  | String a s => match TrimRight s c with
                  | EmptyString => if Ascii.eqb a c then EmptyString else String a EmptyString
                  | s => String a s
                  end
  end.

(** ** [strconv.Atoi] *)
Definition ErrSyntax : error := errors_New "invalid syntax".
Definition ErrRange : error := errors_New "value out of range".
Definition maxUint64 : Z := 2 ^ 64 - 1.
Definition digit (a : Ascii.ascii) : option Z :=
  if between 48 (byte a) 57 then Some (byte a - 48) else None.

Fixpoint parseUint (n : Z) (s : string) : Z * option error :=
  match s with
  | EmptyString => (n, None)
  | String a s =>
      match digit a with
      | None => (0, Some ErrSyntax)
      | Some d =>
          if maxUint64 / 10 + 1 <=? n then (maxUint64, Some ErrRange)
          else if maxUint64 <? n * 10 + d then (maxUint64, Some ErrRange)
          else parseUint (n * 10 + d) s
      end
  end.

Definition ParseUint (s : string) : Z * option error :=
  match s with EmptyString => (0, Some ErrSyntax) | _ => parseUint 0 s end.

Definition ParseInt (neg : bool) (digits : string) : Z * option error :=
  match ParseUint digits with
  | (un, e) =>
      if bool_decide (err_is <$> e = Some (err_is ErrSyntax)) then (0, e)
      else if negb neg && (2 ^ 63 <=? un) then (2 ^ 63 - 1, Some ErrRange)
      else if neg && (2 ^ 63 <? un) then (- 2 ^ 63, Some ErrRange)
      else (if neg then - un else un, None)
  end.

Definition Atoi (s : string) : Z * option error :=
  match s with
  | String a s' =>
      if Ascii.eqb a "+" then ParseInt false s'
      else if Ascii.eqb a "-" then ParseInt true s'
      else ParseInt false s
  | EmptyString => (0, Some ErrSyntax)
  end.

(** ** [bufio.Scanner]

    The standard input is the list of what its successive reads return; reads
    at the end of the file return nothing.  A scanner keeps the bytes it has
    read beyond the last line.  A line of 64 KiB or more ends the scan. *)
Record Scanner := mkScanner { sc_buf : string; sc_stopped : bool }.
#[export] Instance eta_Scanner : Eta Scanner := λ s, mkScanner (sc_buf s) (sc_stopped s).
Definition NewScanner : Scanner := mkScanner "" false.

Definition MaxScanTokenSize : Z := 64 * 1024.

(** The bytes before the first newline and those after it. *)
Fixpoint cut_line (s : string) : option (string * string) :=
  match s with
  | EmptyString => None
  | String a s =>
      if Ascii.eqb a (Ascii.ascii_of_nat 10) then Some (EmptyString, s)
      else (λ p : string * string, (String a p.1, p.2)) <$> cut_line s
  end.

(** A line without a carriage return at its end. *)
Fixpoint dropCR (s : string) : string :=
  match s with
  | EmptyString => EmptyString
  | String a EmptyString =>
      if Ascii.eqb a (Ascii.ascii_of_nat 13) then EmptyString else s
  | String a s => String a (dropCR s)
  end.

Fixpoint scanLoop (buf : string) (stdin : list string) : option string * Scanner * list string :=
  match cut_line buf with
  | Some (line, rest) =>
      if MaxScanTokenSize <=? slen line then (None, mkScanner "" true, stdin)
      else (Some (dropCR line), mkScanner rest false, stdin)
  | None =>
      if MaxScanTokenSize <=? slen buf then (None, mkScanner "" true, stdin) else
      match stdin with
      | chunk :: stdin => scanLoop (buf +:+ chunk) stdin
      | [] => (match buf with EmptyString => None | _ => Some (dropCR buf) end, mkScanner "" true, [])
      end
  end.

(** [Scan] and [Text]: the next line, if there is one. *)
Definition Scan (sc : Scanner) (stdin : list string) : option string * Scanner * list string :=
  if sc_stopped sc then (None, sc, stdin) else scanLoop (sc_buf sc) stdin.

(** ** Properties of the functions on text *)
Lemma byte_range a : 0 ≤ byte a < 256.
Proof. unfold byte. pose proof (Ascii.N_ascii_bounded a). lia. Qed.

Lemma app_cons_str a s1 s2 : (String a s1) +:+ s2 = String a (s1 +:+ s2).
Proof. done. Qed.
Lemma app_nil_str s : s +:+ "" = s.
Proof. induction s as [|a s IH]; [done|]. by rewrite app_cons_str, IH. Qed.
Lemma app_assoc_str s1 s2 s3 : s1 +:+ s2 +:+ s3 = (s1 +:+ s2) +:+ s3.
Proof. induction s1 as [|a s1 IH]; [done|]. by rewrite !app_cons_str, IH. Qed.

Fixpoint str_all (P : Ascii.ascii → bool) (s : string) : bool :=
  match s with EmptyString => true | String a s => P a && str_all P s end.

Lemma str_all_app P s1 s2 : str_all P (s1 +:+ s2) = str_all P s1 && str_all P s2.
Proof.
  induction s1 as [|a s1 IH]; [done|]. rewrite app_cons_str. cbn [str_all]. by rewrite IH, andb_assoc.
Qed.

(** *** Decoding keeps the bytes *)
Lemma concat_cons s ss : String.concat "" (s :: ss) = s +:+ String.concat "" ss.
Proof. destruct ss; [by rewrite app_nil_str|done]. Qed.

Lemma runes_text s : text_of (decodeRunes s) = s.
Proof.
  unfold text_of. remember (String.length s) as n eqn:Hn. assert (String.length s ≤ n)%nat as Hs by lia.
  clear Hn. revert s Hs. induction n as [|n IH]; intros [|a0 s1] Hs; simpl in Hs; [done|lia|done|].
  assert (∀ r b s, (String.length s ≤ n)%nat →
    String.concat "" (snd <$> (r, bytes_of b) :: decodeRunes s) = bytes_of b +:+ s) as Hc.
  { intros r b s Hl. rewrite fmap_cons, concat_cons. by rewrite IH. }
  cbn [decodeRunes]. case_if; [apply Hc; lia|].
  destruct s1 as [|a1 s2]; [apply Hc; simpl; lia|]. simpl in Hs.
  case_if; [case_if; apply Hc; simpl; lia|].
  destruct s2 as [|a2 s3]; [apply Hc; simpl; lia|]. simpl in Hs.
  case_if; [case_if; apply Hc; simpl; lia|].
  destruct s3 as [|a3 s4]; [apply Hc; simpl; lia|]. simpl in Hs.
  case_if; apply Hc; simpl; lia.
Qed.

(** *** Words *)
Definition graphic (a : Ascii.ascii) : bool := between 33 (byte a) 126.

Lemma runes_ascii a s : byte a < 0x80 → decodeRunes (String a s) = (byte a, bytes_of [a]) :: decodeRunes s.
Proof. intros Ha. cbn [decodeRunes]. by destruct (Z.ltb_spec (byte a) 128); [|lia]. Qed.

Lemma graphic_range a : graphic a = true → 33 ≤ byte a ≤ 126.
Proof. unfold graphic, between. intros. go_bool. lia. Qed.

Lemma graphic_no_space a : graphic a = true → IsSpace (byte a) = false.
Proof.
  intros Ha%graphic_range. unfold IsSpace, between.
  repeat (apply orb_false_iff; split); try (apply Z.eqb_neq; lia); apply andb_false_iff;
    rewrite !Z.leb_gt; lia.
Qed.

Lemma words_word cur w s :
  str_all graphic w = true → w ≠ ""%string →
  words cur (decodeRunes (w +:+ s)) = words (Some (default ""%string cur +:+ w)) (decodeRunes s).
Proof.
  revert cur. induction w as [|a w IH]; intros cur Hw Hne; [done|]. clear Hne.
  simpl in Hw. apply andb_true_iff in Hw as [Ha Hw]. pose proof (graphic_range a Ha).
  rewrite app_cons_str, runes_ascii by lia. cbn [words].
  rewrite (graphic_no_space a Ha). destruct w as [|a' w]; [done|].
  rewrite IH by done. do 2 f_equal. symmetry. exact (app_assoc_str _ (bytes_of [a]) _).
Qed.

(** Joining words with blanks and cutting the text at blanks are inverse. *)
Lemma Fields_Join ws :
  Forall (λ w, str_all graphic w = true ∧ w ≠ ""%string) ws → Fields (Join ws " ") = ws.
Proof.
  unfold Fields, Join. induction 1 as [|w ws [Hw Hne] Hws IH]; [done|].
  destruct ws as [|w' ws].
  - cbn [String.concat]. rewrite <- (app_nil_str w) at 1. by rewrite words_word.
  - change (String.concat " " (w :: w' :: ws)) with (w +:+ " " +:+ String.concat " " (w' :: ws)).
    rewrite words_word by done. cbn [default].
    rewrite app_cons_str, runes_ascii by done. set (t := String.concat " " (w' :: ws)) in *.
    change (w :: words None (decodeRunes t) = w :: w' :: ws). by rewrite IH.
Qed.

(** *** Numbers *)
Lemma digit_char x : (x < 10)%N → digit (pretty_N_char x) = Some (Z.of_N x).
Proof.
  intros Hx. destruct x as [|p]; [done|].
  do 4 (destruct p as [p|p|]; try done); exfalso; lia.
Qed.

Lemma digit_graphic a d : digit a = Some d → graphic a = true.
Proof.
  unfold digit, graphic, between. case_if; [|done]. intros _. go_bool.
  apply andb_true_iff. rewrite !Z.leb_le. lia.
Qed.

Lemma pretty_go_parse x s :
  Z.of_N x < 2 ^ 64 → parseUint 0 (pretty_N_go x s) = parseUint (Z.of_N x) s.
Proof.
  revert s. induction (N.lt_wf_0 x) as [x _ IH]; intros s Hx.
  destruct (decide (x = 0)%N) as [->|Hne]; [done|].
  assert (x `mod` 10 < 10)%N as Hm by (apply N.mod_lt; lia).
  assert (Z.of_N (x `div` 10) * 10 + Z.of_N (x `mod` 10) = Z.of_N x) as Hdm.
  { pose proof (N.div_mod x 10). lia. }
  rewrite pretty_N_go_step by lia. rewrite IH; [|apply N.div_lt; lia|].
  2: { rewrite N2Z.inj_div. apply Z.div_lt_upper_bound; lia. }
  cbn [parseUint]. rewrite digit_char by lia.
  destruct (Z.leb_spec (maxUint64 / 10 + 1) (Z.of_N (x `div` 10))) as [H|H].
  { change (maxUint64 / 10 + 1) with 1844674407370955162 in H.
    rewrite N2Z.inj_div in H. apply (Z.mul_le_mono_nonneg_r _ _ 10) in H; [|done].
    pose proof (Z.mul_div_le (Z.of_N x) 10). lia. }
  rewrite Hdm. destruct (Z.ltb_spec maxUint64 (Z.of_N x)) as [H'|H']; [|done].
  unfold maxUint64 in H'. lia.
Qed.

(** The digits of a positive number are graphic characters, the first of them a
    digit. *)
Lemma pretty_go_digits x s :
  str_all graphic s = true → str_all graphic (pretty_N_go x s) = true ∧
  ((0 < x)%N → ∃ a s', pretty_N_go x s = String a s' ∧ is_Some (digit a)).
Proof.
  revert s. induction (N.lt_wf_0 x) as [x _ IH]; intros s Hs.
  destruct (decide (x = 0)%N) as [->|Hne]; [split; [done|lia]|].
  pose proof (digit_char (x `mod` 10)) as Hd. rewrite pretty_N_go_step by lia.
  destruct (IH (x `div` 10)%N) with (s := String (pretty_N_char (x `mod` 10)) s) as [H1 H2].
  { apply N.div_lt; lia. }
  { cbn [str_all]. rewrite Hs, (digit_graphic _ (Z.of_N (x `mod` 10))); [done|].
    apply Hd, N.mod_lt. lia. }
  split; [done|]. intros _. destruct (decide (x `div` 10 = 0)%N) as [->|H0]; [|by apply H2, N.neq_0_lt_0].
  eexists _, _. split; [done|]. eexists. apply Hd, N.mod_lt. lia.
Qed.

Lemma fmt_d_pos p :
  ∃ a s, fmt_d (Zpos p) = String a s ∧ is_Some (digit a) ∧ str_all graphic (String a s) = true ∧
         (Zpos p < 2 ^ 64 → parseUint 0 (String a s) = (Zpos p, None)).
Proof.
  change (fmt_d (Zpos p)) with (pretty_N_go (Npos p) "").
  destruct (pretty_go_digits (Npos p) "" eq_refl) as [H1 H2].
  destruct (H2 eq_refl) as (a & s & E & Ha). exists a, s. rewrite <- E. split; [done|].
  split; [done|]. split; [done|]. intros Hp. by rewrite pretty_go_parse by lia.
Qed.

(** The decimal text of an integer reads back as that integer. *)
Lemma Atoi_fmt_d z : is_i64 z → Atoi (fmt_d z) = (z, None).
Proof.
  unfold is_i64. intros Hz. destruct z as [|p|p]; [done|..];
    destruct (fmt_d_pos p) as (a & s & E & [d Ha] & _ & Hp).
  - rewrite E. unfold Atoi. destruct (Ascii.eqb_spec a "+") as [->|_]; [done|].
    destruct (Ascii.eqb_spec a "-") as [->|_]; [done|]. unfold ParseInt, ParseUint. rewrite Hp by lia.
    rewrite bool_decide_eq_false_2 by done. destruct (Z.leb_spec (2 ^ 63) (Zpos p)); [lia|done].
  - change (fmt_d (Zneg p)) with (String "-" (fmt_d (Zpos p))). rewrite E. unfold Atoi. cbn [Ascii.eqb].
    change (ParseInt true (String a s) = (Zneg p, None)). unfold ParseInt, ParseUint.
    rewrite Hp by lia. rewrite bool_decide_eq_false_2 by done.
    destruct (Z.ltb_spec (2 ^ 63) (Zpos p)); [lia|done].
Qed.

Lemma fmt_d_graphic z : str_all graphic (fmt_d z) = true ∧ fmt_d z ≠ ""%string.
Proof.
  destruct z as [|p|p]; [done|..]; destruct (fmt_d_pos p) as (a & s & E & _ & Hg & _).
  - by rewrite E.
  - change (fmt_d (Zneg p)) with (String "-" (fmt_d (Zpos p))). rewrite E. by cbn [str_all] in *.
Qed.

(** Every result is in the range of an [int], whatever the text. *)
Lemma parseUint_range n s : 0 ≤ n ≤ maxUint64 → 0 ≤ (parseUint n s).1 ≤ maxUint64.
Proof.
  revert n. induction s as [|a s IH]; intros n Hn; [done|]. cbn [parseUint].
  destruct (digit a) as [d|] eqn:Ed; [|cbn; unfold maxUint64; lia].
  assert (0 ≤ d) by (unfold digit, between in Ed; case_match; simplify_eq; go_bool; lia).
  destruct (Z.leb_spec (maxUint64 / 10 + 1) n); [cbn; unfold maxUint64; lia|].
  destruct (Z.ltb_spec maxUint64 (n * 10 + d)); [cbn; unfold maxUint64; lia|]. apply IH. lia.
Qed.

Lemma Atoi_range s : is_i64 (Atoi s).1.
Proof.
  assert (∀ b s, is_i64 (ParseInt b s).1) as H.
  { clear s. intros b s. unfold ParseInt, is_i64.
    assert (0 ≤ (ParseUint s).1 ≤ maxUint64) as Hu.
    { destruct s as [|a s]; [done|]. by apply (parseUint_range 0). }
    destruct (ParseUint s) as [un e]. cbn [fst] in Hu. case_if; [done|].
    destruct b; cbn [negb andb]; case_if; cbn [fst]; go_bool; lia. }
  unfold Atoi. destruct s as [|a s]; [done|]. repeat case_if; apply H.
Qed.

(** *** Lines

    [next_line s] is the first line of a text and what follows it. *)
Definition next_line (s : string) : option (string * string) :=
  match cut_line s with
  | Some (line, rest) => if MaxScanTokenSize <=? slen line then None else Some (dropCR line, rest)
  | None =>
      if MaxScanTokenSize <=? slen s then None else
      match s with EmptyString => None | _ => Some (dropCR s, ""%string) end
  end.

(** What a scanner has yet to read. *)
Definition unread (sc : Scanner) (stdin : list string) : string :=
  if sc_stopped sc then ""%string else sc_buf sc +:+ String.concat "" stdin.

Lemma cut_line_app s1 s2 :
  cut_line (s1 +:+ s2) =
  match cut_line s1 with
  | Some (l, r) => Some (l, r +:+ s2)
  | None => (λ p, (s1 +:+ p.1, p.2)) <$> cut_line s2
  end.
Proof.
  induction s1 as [|a s1 IH].
  - change (EmptyString +:+ s2) with s2. cbn [cut_line]. by destruct (cut_line s2) as [[l r]|].
  - rewrite app_cons_str. cbn [cut_line]. destruct (Ascii.eqb a _); [done|]. rewrite IH.
    destruct (cut_line s1) as [[l r]|]; [done|]. by destruct (cut_line s2) as [[l r]|].
Qed.

Lemma cut_line_slen s l r : cut_line s = Some (l, r) → slen s = slen l + 1 + slen r.
Proof.
  revert l. induction s as [|a s IH]; intros l; cbn [cut_line]; [done|].
  assert (∀ a t, slen (String a t) = 1 + slen t) as Hc by (intros; unfold slen; cbn [String.length]; lia).
  destruct (Ascii.eqb a _); [intros [= <- <-]; by rewrite Hc|].
  destruct (cut_line s) as [[l' r']|]; intros [= <- <-]. cbn [fst]. rewrite !Hc, (IH l' eq_refl). lia.
Qed.

Lemma slen_nonneg s : 0 ≤ slen s.
Proof. unfold slen. lia. Qed.

(** A scan returns the next line of the text not yet read, however the reads
    cut that text into pieces. *)
Lemma scanLoop_next buf stdin o sc stdin' :
  scanLoop buf stdin = (o, sc, stdin') →
  let s := buf +:+ String.concat "" stdin in
  o = fst <$> next_line s ∧ (∀ l r, next_line s = Some (l, r) → unread sc stdin' = r).
Proof.
  revert buf. induction stdin as [|chunk stdin IH]; intros buf; cbn [scanLoop].
  - rewrite app_nil_str. unfold next_line. destruct (cut_line buf) as [[l r]|].
    + case_if; intros [= <- <- <-]; [done|]. split; [done|]. intros ?? [= <- <-].
      unfold unread. cbn. by rewrite app_nil_str.
    + case_if; intros [= <- <- <-]; [done|]. destruct buf as [|a buf]; [done|].
      split; [done|]. by intros ?? [= <- <-].
  - rewrite concat_cons. unfold next_line. rewrite cut_line_app.
    destruct (cut_line buf) as [[l r]|] eqn:Ec.
    + case_if; intros [= <- <- <-]; [done|]. split; [done|]. intros ?? [= <- <-].
      unfold unread. cbn [sc_stopped sc_buf]. by rewrite concat_cons.
    + destruct (MaxScanTokenSize <=? slen buf) eqn:El.
      * intros [= <- <- <-]. apply Z.leb_le in El.
        pose proof (slen_nonneg (chunk +:+ String.concat "" stdin)).
        enough (next_line (buf +:+ chunk +:+ String.concat "" stdin) = None) as Hn.
        { unfold next_line in Hn. rewrite cut_line_app, Ec in Hn. by rewrite Hn. }
        unfold next_line. rewrite cut_line_app, Ec.
        destruct (cut_line (chunk +:+ String.concat "" stdin)) as [[l r]|]; cbn [fmap option_fmap option_map fst snd]; rewrite slen_app.
        -- pose proof (slen_nonneg l). by destruct (Z.leb_spec MaxScanTokenSize (slen buf + slen l)); [|lia].
        -- by destruct (Z.leb_spec MaxScanTokenSize (slen buf + slen (chunk +:+ String.concat "" stdin))); [|lia].
      * intros Hs. destruct (IH _ Hs) as [H1 H2]. rewrite <- app_assoc_str in H1, H2.
        unfold next_line in H1, H2. rewrite cut_line_app, Ec in H1, H2. done.
Qed.

Lemma Scan_next sc stdin o sc' stdin' :
  Scan sc stdin = (o, sc', stdin') →
  o = fst <$> next_line (unread sc stdin) ∧
  (∀ l r, next_line (unread sc stdin) = Some (l, r) → unread sc' stdin' = r).
Proof.
  unfold Scan. destruct (sc_stopped sc) eqn:E; [intros [= <- <- <-]|intros Hs%scanLoop_next];
    unfold unread at 1 2; rewrite E; [by cbn|done].
Qed.

(** Each line that is read leaves less to be read. *)
Lemma next_line_shorter s l r : next_line s = Some (l, r) → slen r < slen s.
Proof.
  unfold next_line. destruct (cut_line s) as [[l' r']|] eqn:E.
  - case_if; intros [= <- <-]. pose proof (cut_line_slen _ _ _ E). pose proof (slen_nonneg l'). lia.
  - case_if; [done|]. destruct s as [|a s]; intros [= <- <-]. unfold slen. cbn [String.length]. lia.
Qed.

Lemma Scan_shorter sc stdin l sc' stdin' :
  Scan sc stdin = (Some l, sc', stdin') → slen (unread sc' stdin') < slen (unread sc stdin).
Proof.
  intros Hs. destruct (Scan_next _ _ _ _ _ Hs) as [H1 H2].
  destruct (next_line (unread sc stdin)) as [[l' r]|] eqn:E; [|done].
  rewrite (H2 _ _ eq_refl). by eapply next_line_shorter.
Qed.

(** *** Lines of words *)
Definition printable (a : Ascii.ascii) : bool := between 32 (byte a) 126.

Lemma graphic_printable s : str_all graphic s = true → str_all printable s = true.
Proof.
  induction s as [|a s IH]; [done|]. cbn [str_all]. intros [Ha%graphic_range Hs]%andb_true_iff.
  rewrite IH by done. unfold printable, between. apply andb_true_iff. split; [|done].
  apply andb_true_iff. rewrite !Z.leb_le. lia.
Qed.

Lemma printable_range a : printable a = true → 32 ≤ byte a ≤ 126.
Proof. unfold printable, between. intros. go_bool. lia. Qed.

Lemma printable_line s rest :
  str_all printable s = true → slen s < MaxScanTokenSize →
  next_line (s +:+ String (Ascii.ascii_of_nat 10) rest) = Some (s, rest).
Proof.
  intros Hs Hl. unfold next_line.
  assert (cut_line (s +:+ String (Ascii.ascii_of_nat 10) rest) = Some (s, rest)) as ->.
  { clear Hl. induction s as [|a s IH]; [done|]. cbn [str_all] in Hs.
    apply andb_true_iff in Hs as [Ha%printable_range Hs]. rewrite app_cons_str. cbn [cut_line].
    destruct (Ascii.eqb_spec a (Ascii.ascii_of_nat 10)) as [->|_]; [by destruct Ha|]. by rewrite IH. }
  destruct (Z.leb_spec MaxScanTokenSize (slen s)); [lia|]. do 2 f_equal.
  clear -Hs. induction s as [|a s IH]; [done|]. cbn [str_all] in Hs.
  apply andb_true_iff in Hs as [Ha%printable_range Hs]. cbn [dropCR]. rewrite IH by done.
  destruct s; [|done]. destruct (Ascii.eqb_spec a (Ascii.ascii_of_nat 13)) as [->|_]; [by destruct Ha|done].
Qed.

Lemma decode_app s1 s2 :
  str_all printable s1 = true → decodeRunes (s1 +:+ s2) = decodeRunes s1 ++ decodeRunes s2.
Proof.
  induction s1 as [|a s1 IH]; intros Hs; [done|]. cbn [str_all] in Hs.
  apply andb_true_iff in Hs as [Ha%printable_range Hs].
  rewrite app_cons_str, !runes_ascii by lia. by rewrite IH.
Qed.

Definition starts_word (rs : list (Z * string)) : Prop :=
  match rs with [] => False | r :: _ => IsSpace (fst r) = false end.

Lemma drop_space_word rs1 rs2 : starts_word rs1 → drop_space (rs1 ++ rs2) = rs1 ++ rs2.
Proof. destruct rs1 as [|r rs1]; [done|]. simpl. by intros ->. Qed.

Lemma runes_words s :
  str_all graphic s = true → s ≠ ""%string →
  starts_word (decodeRunes s) ∧ starts_word (reverse (decodeRunes s)).
Proof.
  intros Hs Hne.
  assert (Forall (λ r, IsSpace (fst r) = false) (decodeRunes s) ∧ decodeRunes s ≠ []) as [Hall Hn].
  { destruct s as [|a s]; [done|]. clear Hne. split.
    - revert Hs. generalize (String a s). clear. intros s. induction s as [|a s IH]; intros Hs; [constructor|].
      cbn [str_all] in Hs. apply andb_true_iff in Hs as [Ha Hs]. pose proof (graphic_range a Ha).
      rewrite runes_ascii by lia. constructor; [by apply graphic_no_space|auto].
    - cbn [str_all] in Hs. apply andb_true_iff in Hs as [Ha%graphic_range _]. by rewrite runes_ascii by lia. }
  split.
  - destruct (decodeRunes s); [done|]. by apply Forall_cons in Hall as [? _].
  - apply Forall_reverse in Hall. destruct (reverse (decodeRunes s)) eqn:E.
    + apply (f_equal reverse) in E. by rewrite reverse_involutive in E.
    + by apply Forall_cons in Hall as [? _].
Qed.

(** A text that begins and ends with a word has no space to trim. *)
Lemma TrimSpace_words w1 s w2 :
  str_all graphic w1 = true → w1 ≠ ""%string → str_all printable s = true →
  str_all graphic w2 = true → w2 ≠ ""%string → TrimSpace (w1 +:+ s +:+ w2) = w1 +:+ s +:+ w2.
Proof.
  intros Hw1 Hn1 Hs Hw2 Hn2. unfold TrimSpace.
  rewrite <- (runes_text (w1 +:+ s +:+ w2)) at 2. f_equal.
  rewrite (decode_app w1), (decode_app s) by (done || by apply graphic_printable).
  rewrite drop_space_word by (by apply runes_words).
  rewrite !reverse_app, <- app_assoc, drop_space_word by (by apply runes_words).
  by rewrite !reverse_app, !reverse_involutive, <- app_assoc.
Qed.

(** The decimal text of an [int] has at most twenty characters. *)
Lemma pretty_go_length n x s :
  Z.of_N x < 10 ^ Z.of_nat n → slen (pretty_N_go x s) ≤ slen s + Z.of_nat n.
Proof.
  revert x s. induction n as [|n IH]; intros x s Hx.
  { assert (x = 0)%N as -> by (simpl in Hx; lia). change (pretty_N_go 0 s) with s. lia. }
  destruct (decide (x = 0)%N) as [->|Hne]; [change (pretty_N_go 0 s) with s; lia|].
  rewrite pretty_N_go_step by lia. etrans; [apply IH|].
  - rewrite N2Z.inj_div. apply Z.div_lt_upper_bound; [done|].
    rewrite <- Z.pow_succ_r by lia. by rewrite <- Nat2Z.inj_succ.
  - unfold slen. cbn [String.length]. lia.
Qed.

Lemma fmt_d_slen z : is_i64 z → slen (fmt_d z) ≤ 20.
Proof.
  unfold is_i64. intros Hz. destruct z as [|p|p]; [done|..].
  - change (fmt_d (Zpos p)) with (pretty_N_go (Npos p) "").
    etrans; [apply (pretty_go_length 19); simpl; lia|done].
  - change (fmt_d (Zneg p)) with (String "-" (pretty_N_go (Npos p) "")).
    assert (∀ a t, slen (String a t) = 1 + slen t) as -> by (intros; unfold slen; cbn [String.length]; lia).
    pose proof (pretty_go_length 19 (Npos p) ""). unfold slen at 2 in H. simpl in H. lia.
Qed.

(** *** What is left of the input *)
Lemma Scan_suffix sc stdin o sc' stdin' :
  Scan sc stdin = (o, sc', stdin') → stdin' `suffix_of` stdin.
Proof.
  unfold Scan. case_if; [by intros [= _ _ ->]|]. generalize (sc_buf sc). clear.
  induction stdin as [|chunk stdin IH]; intros buf; cbn [scanLoop];
    (destruct (cut_line buf) as [[line rest]|]; [case_if; by intros [= _ _ <-]|]);
    (case_if; [by intros [= _ _ <-]|]).
  - by intros [= _ _ <-].
  - intros Hs. etrans; [by eapply IH|]. by apply suffix_cons_r.
Qed.

(** A scan that fails stops the scanner. *)
Lemma Scan_le sc stdin o sc' stdin' :
  Scan sc stdin = (o, sc', stdin') → slen (unread sc' stdin') ≤ slen (unread sc stdin).
Proof.
  intros Hs. destruct o as [line|]; [apply Scan_shorter in Hs; lia|].
  assert (unread sc' stdin' = ""%string) as ->; [|apply slen_nonneg]. revert Hs. unfold Scan, unread.
  destruct (sc_stopped sc) eqn:E; [intros [= <- <-]; by rewrite E|]. clear. generalize (sc_buf sc).
  induction stdin as [|chunk stdin IH]; intros buf; cbn [scanLoop];
    (destruct (cut_line buf) as [[line rest]|]; [case_if; by intros [= <- <-]|]);
    (case_if; [by intros [= <- <-]|]).
  - by intros [= _ <- <-].
  - apply IH.
Qed.

Lemma unread_suffix sc stdin stdin' :
  stdin' `suffix_of` stdin → slen (unread sc stdin') ≤ slen (unread sc stdin).
Proof.
  intros [k ->]. unfold unread. case_if; [done|]. rewrite !slen_app.
  assert (slen (String.concat "" stdin') ≤ slen (String.concat "" (k ++ stdin'))); [|lia].
  induction k as [|s k IH]; [done|]. change ((s :: k) ++ stdin') with (s :: (k ++ stdin')).
  rewrite concat_cons, slen_app.
  pose proof (slen_nonneg s). lia.
Qed.
