(* ===== verification/Reports.v ===== *)
(** * Tables of reports

    The reports of the components ([ReportsCpu], [ReportsMemory],
    [ReportsSync], [ReportsKernel], [ReportsIo]) are a banner, a table and a box
    of explanations.  This file has what they share: tables built row by row,
    and the order in which Go iterates over a map. *)

From Stdlib Require Import Ascii String.
From S2P Require Import Prelude Visualizer Drawing GoText.

Definition quote : string := String (Ascii.ascii_of_nat 34) "".

(** [NewTable], [SetAlignment] and one [AddRow] per row. *)
Definition tableOf (headers align : list string) (rows : list (list string)) : Table :=
  foldl (λ tbl r, AddRow r tbl) (SetAlignment align (NewTable headers)) rows.

(** ** Iteration over maps

    [range] over a map visits every entry once, in an order that the language
    leaves open. *)
Record MapOrder (K A : Type) `{Countable K} := mkOrder {
  visit :> gmap K A → list (K * A);
  visit_perm : ∀ m, visit m ≡ₚ map_to_list m }.
Arguments mkOrder {K A _ _}.
Arguments visit {K A _ _}.
Arguments visit_perm {K A _ _}.

Definition someOrder {K A : Type} `{Countable K} : MapOrder K A :=
  mkOrder (λ m, map_to_list m) (λ m, reflexivity _).

Lemma visit_lookup {K A : Type} `{Countable K} (ord : MapOrder K A) m k x :
  (k, x) ∈ visit ord m ↔ m !! k = Some x.
Proof. rewrite (visit_perm ord). apply elem_of_map_to_list. Qed.

(** ** Tables without loss

    [Render] prints as many cells of a row as there are headers: a table loses
    nothing when each of its rows has as many cells as there are headers, and
    every column has an alignment. *)
Definition rectangular (t : Table) : Prop :=
  length (Align t) = length (Headers t) ∧
  Forall (λ r, length r = length (Headers t)) (Rows t).

Lemma AddRow_all t rows :
  let t' := foldl (λ tbl r, AddRow r tbl) t rows in
  Headers t' = Headers t ∧ Align t' = Align t ∧ Rows t' = Rows t ++ rows.
Proof.
  revert t. induction rows as [|r rows IH]; intros t; cbn [foldl]; [by rewrite app_nil_r|].
  destruct (IH (AddRow r t)) as (? & ? & HR). split; [done|]. split; [done|].
  rewrite HR. cbn. by rewrite <- app_assoc.
Qed.

Lemma tableOf_fields h a rows :
  Headers (tableOf h a rows) = h ∧ Align (tableOf h a rows) = a ∧ Rows (tableOf h a rows) = rows.
Proof. apply (AddRow_all (SetAlignment a (NewTable h)) rows). Qed.

Lemma tableOf_rectangular h a rows :
  length a = length h → Forall (λ r, length r = length h) rows → rectangular (tableOf h a rows).
Proof.
  intros Ha Hr. destruct (tableOf_fields h a rows) as (H1 & H2 & H3).
  unfold rectangular. by rewrite H1, H2, H3.
Qed.

(** The lines of a rectangular table have the same width and show its cells. *)
Lemma cell_shown t row i c :
  rectangular t → row ∈ Rows t → row !! i = Some c →
  ∃ w, colWidths t !! i = Some w ∧ vis c ≤ w.
Proof.
  intros [_ Hr] Hrow Hc. rewrite Forall_forall in Hr. specialize (Hr row Hrow).
  destruct (lookup_lt_is_Some_2 (colWidths t) i) as [w Hw].
  { rewrite colWidths_length, <- Hr. by eapply lookup_lt_Some. }
  exists w. split; [done|]. by eapply (colWidths_spec t i w).
Qed.
