(* ===== verification/Paging.v ===== *)
(** * Linear and two-level page tables

    Models [src/pkg/memory/paging.go] and [src/pkg/memory/multilevel_pt.go].  A
    pointer to an entry is the index of the entry in its table; [None] results
    are run-time panics. *)

From S2P Require Import Prelude.

Definition ErrPageFault : error :=
  errors_New "page fault: page not present in physical memory".
Definition ErrProtectionFault : error :=
  errors_New "protection fault: write attempt on read-only page".
Definition ErrInvalidPage : error :=
  errors_New "invalid page: virtual page not mapped".

Record PageTableEntry := mkPTE {
  Valid : bool; Present : bool; ReadWrite : bool; UserSupervisor : bool;
  Accessed : bool; Dirty : bool; PFN : Z; SwapOffset : Z }.
#[export] Instance eta_PageTableEntry : Eta PageTableEntry := λ e,
  mkPTE (Valid e) (Present e) (ReadWrite e) (UserSupervisor e) (Accessed e)
    (Dirty e) (PFN e) (SwapOffset e).

Definition zeroPTE : PageTableEntry := mkPTE false false false false false false 0 0.

Record PageTable := mkPageTable {
  PtPID : Z; PageSize : Z; Entries : list PageTableEntry; NumPages : Z }.
#[export] Instance eta_PageTable : Eta PageTable := λ p,
  mkPageTable (PtPID p) (PageSize p) (Entries p) (NumPages p).

(** [make] panics on a negative length. *)
Definition NewPageTable (pid numPages pageSize : Z) : option PageTable :=
  let pageSize := if pageSize =? 0 then 4096 else pageSize in
  if numPages <? 0 then None
  else Some (mkPageTable pid pageSize (replicate (Z.to_nat numPages) zeroPTE) numPages).

Definition mappedPTE (pfn : Z) (writable : bool) : PageTableEntry :=
  zeroPTE <| Valid := true |> <| Present := true |> <| ReadWrite := writable |>
          <| UserSupervisor := true |> <| PFN := pfn |>.

(** The bounds check converts [vpn] to a signed [int], so that a huge [vpn]
    passes it and the index expression panics. *)
Definition MapPage (vpn pfn : Z) (writable : bool) (pt : PageTable) : option PageTable :=
  if i64 vpn <? len (Entries pt) then
    if vpn <? len (Entries pt)
    then Some (pt <| Entries ::= upd_idx (λ _, mappedPTE pfn writable) vpn |>)
    else None
  else Some pt.

(** The hardware tracking bits. *)
Definition touch (isWrite : bool) (e : PageTableEntry) : PageTableEntry :=
  let e := e <| Accessed := true |> in
  if isWrite then e <| Dirty := true |> else e.

Definition Translate (vAddr : Z) (isWrite : bool) (pt : PageTable)
    : option (Z * option Z * option error * PageTable) :=
  if PageSize pt =? 0 then None else
  let vpn := vAddr / PageSize pt in
  let offset := vAddr mod PageSize pt in
  let invalid := Errorf_w ErrInvalidPage
    (": VPN " +:+ fmt_d vpn +:+ " at vAddr 0x" +:+ fmt_X vAddr) in
  if len (Entries pt) <=? i64 vpn then Some (0, None, Some invalid, pt) else
  entry ← idx (Entries pt) vpn;
  if negb (Valid entry) then Some (0, None, Some invalid, pt) else
  if negb (Present entry) then
    Some (0, Some vpn, Some (Errorf_w ErrPageFault
      (": VPN " +:+ fmt_d vpn +:+ " at vAddr 0x" +:+ fmt_X vAddr +:+
       " is swapped to disk (Swap Offset: " +:+ fmt_d (SwapOffset entry) +:+ ")")), pt)
  else if isWrite && negb (ReadWrite entry) then
    Some (0, Some vpn, Some (Errorf_w ErrProtectionFault
      (": Cannot write to read-only page (VPN " +:+ fmt_d vpn +:+ ")")), pt)
  else
    Some (u64 (u64 (PFN entry * PageSize pt) + offset), Some vpn, None,
          pt <| Entries ::= upd_idx (touch isWrite) vpn |>).

(** ** The two-level table *)
Record PageDirectoryEntry := mkPDE {
  PDEValid : bool; PDETable : option PageTable; PDEPFN : Z }.
#[export] Instance eta_PageDirectoryEntry : Eta PageDirectoryEntry := λ e,
  mkPDE (PDEValid e) (PDETable e) (PDEPFN e).

Definition zeroPDE : PageDirectoryEntry := mkPDE false None 0.

Record MultiLevelPageTable := mkMLPT {
  MlPID : Z; MlPageSize : Z; DirectorySize : Z; TableSize : Z;
  Directory : list PageDirectoryEntry; AllocatedPTs : Z }.
#[export] Instance eta_MultiLevelPageTable : Eta MultiLevelPageTable := λ t,
  mkMLPT (MlPID t) (MlPageSize t) (DirectorySize t) (TableSize t) (Directory t)
    (AllocatedPTs t).

Definition NewMultiLevelPageTable (pid : Z) : MultiLevelPageTable := {|
  MlPID := pid; MlPageSize := 4096; DirectorySize := 1024; TableSize := 1024;
  Directory := replicate 1024 zeroPDE; AllocatedPTs := 0 |}.

Definition pdeIdx (vAddr : Z) : Z := Z.land (Z.shiftr vAddr 22) 0x3FF.
Definition pteIdx (vAddr : Z) : Z := Z.land (Z.shiftr vAddr 12) 0x3FF.

(** The second-level table is allocated on demand. *)
Definition ensure_table (i : Z) (t : MultiLevelPageTable) : option MultiLevelPageTable :=
  pde ← idx (Directory t) i;
  if negb (PDEValid pde) then
    table ← NewPageTable (MlPID t) (TableSize t) (MlPageSize t);
    Some (t <| Directory ::= upd_idx (λ _, mkPDE true (Some table) (u64 (i + 100))) i |>
            <| AllocatedPTs ::= Z.succ |>)
  else Some t.

Definition ml_Map (vAddr pfn : Z) (writable : bool) (t : MultiLevelPageTable)
    : option MultiLevelPageTable :=
  let i := pdeIdx vAddr in
  t ← ensure_table i t;
  pde ← idx (Directory t) i;
  table ← PDETable pde;
  table ← MapPage (pteIdx vAddr) pfn writable table;
  Some (t <| Directory ::= upd_idx (λ e, e <| PDETable := Some table |>) i |>).

Definition ml_Translate (vAddr : Z) (isWrite : bool) (t : MultiLevelPageTable)
    : option (Z * option (Z * Z) * option error * MultiLevelPageTable) :=
  let i := pdeIdx vAddr in
  let j := pteIdx vAddr in
  let offset := Z.land vAddr 0xFFF in
  pde ← idx (Directory t) i;
  if negb (PDEValid pde) then
    Some (0, None, Some (Errorf_w ErrInvalidPage
      (": Page Directory Entry " +:+ fmt_d i +:+ " not mapped for vAddr 0x" +:+
       fmt_0X 8 vAddr)), t)
  else
  table ← PDETable pde;
  let invalid := Errorf_w ErrInvalidPage
    (": Page Table Entry " +:+ fmt_d j +:+ " not valid in PDE " +:+ fmt_d i) in
  if len (Entries table) <=? i64 j then Some (0, None, Some invalid, t) else
  entry ← idx (Entries table) j;
  if negb (Valid entry) then Some (0, None, Some invalid, t) else
  if negb (Present entry) then
    Some (0, Some (i, j), Some (Errorf_w ErrPageFault
      (": VPN [PDE:" +:+ fmt_d i +:+ ", PTE:" +:+ fmt_d j +:+ "] swapped to disk")), t)
  else if isWrite && negb (ReadWrite entry) then
    Some (0, Some (i, j), Some (Errorf_w ErrProtectionFault
      (": Read-only page violation at vAddr 0x" +:+ fmt_0X 8 vAddr)), t)
  else
    Some (u64 (u64 (PFN entry * MlPageSize t) + offset), Some (i, j), None,
          t <| Directory ::= upd_idx (λ e, e <| PDETable := Some
                 (table <| Entries ::= upd_idx (touch isWrite) j |>) |>) i |>).

(** ** Linear tables *)

(** A table as the constructors build it: the number of entries is an [int]. *)
Definition wf_pt (pt : PageTable) : Prop :=
  0 < PageSize pt ∧ len (Entries pt) < 2 ^ 63.

Lemma i64_small z : 0 ≤ z < 2 ^ 63 → i64 z = z.
Proof. intros. apply i64_id. unfold is_i64. lia. Qed.

Lemma vpn_range pt vAddr :
  wf_pt pt → is_u64 vAddr → 0 ≤ vAddr / PageSize pt ∧
  (vAddr / PageSize pt < len (Entries pt) → i64 (vAddr / PageSize pt) = vAddr / PageSize pt).
Proof.
  intros [Hp Hl] Hv. unfold is_u64 in Hv.
  assert (0 ≤ vAddr / PageSize pt) by (apply Z.div_pos; lia).
  split; [done|]. intros. apply i64_small. lia.
Qed.

(** Translation in terms of the entry of the page. *)
Definition entry_result (pt : PageTable) (vAddr : Z) (isWrite : bool) (e : PageTableEntry)
    : result Z :=
  if negb (Valid e) then Err ErrInvalidPage
  else if negb (Present e) then Err ErrPageFault
  else if isWrite && negb (ReadWrite e) then Err ErrProtectionFault
  else Ok (u64 (PFN e * PageSize pt + vAddr mod PageSize pt)).

Lemma u64_add_l a b : u64 (u64 a + b) = u64 (a + b).
Proof. unfold u64. by rewrite Zplus_mod_idemp_l. Qed.

Lemma Translate_entry pt vAddr isWrite e :
  wf_pt pt → is_u64 vAddr → idx (Entries pt) (vAddr / PageSize pt) = Some e →
  ∃ pAddr o err, match entry_result pt vAddr isWrite e with
    | Ok p =>
        Translate vAddr isWrite pt = Some (pAddr, o, err,
          pt <| Entries ::= upd_idx (touch isWrite) (vAddr / PageSize pt) |>) ∧
        pAddr = p ∧ o = Some (vAddr / PageSize pt) ∧ err = None
    | Err er =>
        Translate vAddr isWrite pt = Some (pAddr, o, err, pt) ∧
        pAddr = 0 ∧ err_is <$> err = Some (err_is er) ∧
        (o = if Valid e then Some (vAddr / PageSize pt) else None)
    end.
Proof.
  intros Hwf Hv He. pose proof (vpn_range pt vAddr Hwf Hv) as [Hp Hi].
  assert (Hlt : vAddr / PageSize pt < len (Entries pt)) by (apply (idx_lt (Entries pt)); eauto).
  unfold Translate, entry_result. destruct Hwf as [Hps _].
  destruct (Z.eqb_spec (PageSize pt) 0); [lia|].
  rewrite Hi by done.
  destruct (Z.leb_spec (len (Entries pt)) (vAddr / PageSize pt)); [lia|].
  rewrite He. simpl. destruct (Valid e); simpl; [|by eexists _, _, _; split; [done|]].
  destruct (Present e); simpl; [|by eexists _, _, _; split; [done|]].
  destruct (isWrite && negb (ReadWrite e)); [by eexists _, _, _; split; [done|]|].
  rewrite u64_add_l. by eexists _, _, _; split; [done|].
Qed.

Lemma Translate_unmapped pt vAddr isWrite :
  wf_pt pt → 0 ≤ vAddr < 2 ^ 63 → len (Entries pt) ≤ vAddr / PageSize pt →
  ∃ err, Translate vAddr isWrite pt = Some (0, None, Some err, pt) ∧
         err_is err = err_is ErrInvalidPage.
Proof.
  intros [Hps Hl] Hv Hlen. unfold Translate.
  destruct (Z.eqb_spec (PageSize pt) 0); [lia|].
  assert (0 ≤ vAddr / PageSize pt) by (apply Z.div_pos; lia).
  assert (vAddr / PageSize pt ≤ vAddr) by (apply Z.div_le_upper_bound; nia).
  rewrite i64_small by lia.
  destruct (Z.leb_spec (len (Entries pt)) (vAddr / PageSize pt)); [|lia]. eauto.
Qed.

Lemma MapPage_spec vpn pfn writable pt :
  0 ≤ vpn < len (Entries pt) → len (Entries pt) < 2 ^ 63 →
  MapPage vpn pfn writable pt =
    Some (pt <| Entries ::= upd_idx (λ _, mappedPTE pfn writable) vpn |>).
Proof.
  intros Hv Hl. unfold MapPage. rewrite i64_small by lia.
  destruct (Z.ltb_spec vpn (len (Entries pt))); [done|lia].
Qed.

(** Mapping a page and translating an address in it is a round trip: a
    read, and a write if the mapping is writable, gives frame number times page
    size plus offset; a write through a read-only mapping is a protection
    fault; and the entries of all other pages stay as they were. *)
Theorem MapPage_Translate (pt : PageTable) (vAddr pfn : Z) (writable isWrite : bool) :
  wf_pt pt → is_u64 vAddr → vAddr / PageSize pt < len (Entries pt) →
  ∃ pt', MapPage (vAddr / PageSize pt) pfn writable pt = Some pt' ∧
    (∀ vpn, 0 ≤ vpn → vpn ≠ vAddr / PageSize pt →
       idx (Entries pt') vpn = idx (Entries pt) vpn) ∧
    if isWrite && negb writable
    then ∃ o err, Translate vAddr isWrite pt' = Some (0, o, Some err, pt') ∧
                  err_is err = err_is ErrProtectionFault
    else ∃ o pt'', Translate vAddr isWrite pt' =
      Some (u64 (pfn * PageSize pt + vAddr mod PageSize pt), o, None, pt'').
Proof.
  intros Hwf Hv Hlt. pose proof (vpn_range pt vAddr Hwf Hv) as [Hp _].
  rewrite MapPage_spec by (destruct Hwf; lia). eexists. split; [done|].
  split; [intros vpn Hvp Hne; simpl; by rewrite idx_upd_ne|].
  set (pt' := pt <| Entries ::= _ |>).
  assert (Hwf' : wf_pt pt') by (destruct Hwf; split; simpl; [done|by rewrite len_upd_idx]).
  assert (He : idx (Entries pt') (vAddr / PageSize pt') = Some (mappedPTE pfn writable)).
  { simpl. rewrite idx_upd_eq by done. destruct (idx _ _) eqn:E; [done|].
    apply idx_None in E. lia. }
  destruct (Translate_entry pt' vAddr isWrite _ Hwf' Hv He) as (p & o & err & Ht).
  unfold entry_result in Ht. simpl in Ht.
  destruct (isWrite && negb writable).
  - destruct Ht as (-> & -> & Herr & _). destruct err as [err|]; [|done].
    exists o, err. split; [done|]. by injection Herr.
  - destruct Ht as (-> & -> & _ & ->). eauto.
Qed.

(** A successful translation comes from a valid, present entry with the
    permission, which it marks as accessed. *)
Lemma Translate_ok_inv pt vAddr isWrite p o pt' :
  wf_pt pt → 0 ≤ vAddr < 2 ^ 63 → Translate vAddr isWrite pt = Some (p, o, None, pt') →
  ∃ e, idx (Entries pt) (vAddr / PageSize pt) = Some e ∧
    Valid e = true ∧ Present e = true ∧ (isWrite = true → ReadWrite e = true) ∧
    p = u64 (PFN e * PageSize pt + vAddr mod PageSize pt) ∧
    pt' = pt <| Entries ::= upd_idx (touch isWrite) (vAddr / PageSize pt) |>.
Proof.
  intros Hwf Hv Ht. destruct (idx (Entries pt) (vAddr / PageSize pt)) as [e|] eqn:He.
  - assert (Hu : is_u64 vAddr) by (unfold is_u64, u64_mod; lia).
    destruct (Translate_entry pt vAddr isWrite e Hwf Hu He) as (p' & o' & err & Hr).
    unfold entry_result in Hr. exists e. split; [done|].
    destruct (Valid e); simpl in Hr; [|destruct err; naive_solver].
    destruct (Present e); simpl in Hr; [|destruct err; naive_solver].
    destruct isWrite, (ReadWrite e); simpl in Hr; destruct err; naive_solver.
  - apply idx_None in He. pose proof (Z.div_pos vAddr (PageSize pt)). destruct Hwf as [Hp Hl].
    destruct (Translate_unmapped pt vAddr isWrite) as (err & Ht' & _); [done|done|lia|].
    congruence.
Qed.

(** The frames of a table fit into the physical address space and no two
    pages share one. *)
Definition frames_distinct (pt : PageTable) : Prop :=
  (∀ i e, idx (Entries pt) i = Some e → Valid e = true → Present e = true →
     0 ≤ PFN e ∧ (PFN e + 1) * PageSize pt ≤ u64_mod) ∧
  (∀ i j e f, idx (Entries pt) i = Some e → idx (Entries pt) j = Some f →
     Valid e = true → Present e = true → Valid f = true → Present f = true →
     PFN e = PFN f → i = j).

(** No aliasing: in a table whose pages have distinct frames, two
    virtual addresses that translate to the same physical address are equal. *)
Theorem Translate_injective (pt pt1 pt2 : PageTable) (v1 v2 : Z) (w1 w2 : bool)
    (p : Z) (o1 o2 : option Z) :
  wf_pt pt → frames_distinct pt → 0 ≤ v1 < 2 ^ 63 → 0 ≤ v2 < 2 ^ 63 →
  Translate v1 w1 pt = Some (p, o1, None, pt1) →
  Translate v2 w2 pt = Some (p, o2, None, pt2) → v1 = v2.
Proof.
  intros Hwf [Hfit Hinj] Hv1 Hv2 H1 H2.
  destruct (Translate_ok_inv _ _ _ _ _ _ Hwf Hv1 H1) as (e1 & E1 & V1 & P1 & _ & Hp1 & _).
  destruct (Translate_ok_inv _ _ _ _ _ _ Hwf Hv2 H2) as (e2 & E2 & V2 & P2 & _ & Hp2 & _).
  destruct Hwf as [Hps _]. destruct (Hfit _ _ E1 V1 P1), (Hfit _ _ E2 V2 P2).
  pose proof (Z.mod_pos_bound v1 (PageSize pt) Hps).
  pose proof (Z.mod_pos_bound v2 (PageSize pt) Hps).
  rewrite !u64_id in Hp1, Hp2 by (unfold is_u64; nia).
  assert (Hf : PFN e1 = PFN e2) by nia.
  pose proof (Hinj _ _ _ _ E1 E2 V1 P1 V2 P2 Hf) as Hi.
  rewrite (Z.div_mod v1 (PageSize pt)), (Z.div_mod v2 (PageSize pt)) by lia.
  rewrite Hf in Hp1. lia.
Qed.

(** ** The two-level table refines a linear one *)
Definition ml_entry (t : MultiLevelPageTable) (vpn : Z) : option PageTableEntry :=
  pde ← idx (Directory t) (vpn / 1024);
  if PDEValid pde then table ← PDETable pde; idx (Entries table) (vpn mod 1024)
  else Some zeroPTE.

Definition table_ok (pde : PageDirectoryEntry) : Prop :=
  PDEValid pde = true → ∃ table, PDETable pde = Some table ∧ len (Entries table) = 1024.

Record ml_wf (t : MultiLevelPageTable) : Prop := mk_ml_wf {
  mlw_page : MlPageSize t = 4096;
  mlw_table : TableSize t = 1024;
  mlw_dir : len (Directory t) = 1024;
  mlw_tables : ∀ i pde, idx (Directory t) i = Some pde → table_ok pde }.

(** The linear table of a 32-bit address space with the same mapping. *)
Record flat (t : MultiLevelPageTable) (pt : PageTable) : Prop := mk_flat {
  fl_page : PageSize pt = 4096;
  fl_len : len (Entries pt) = 2 ^ 20;
  fl_entries : ∀ vpn, 0 ≤ vpn < 2 ^ 20 → idx (Entries pt) vpn = ml_entry t vpn }.

Lemma land_1024 z : Z.land z 0x3FF = z mod 1024.
Proof. change 0x3FF with (Z.ones 10). by rewrite Z.land_ones. Qed.

Lemma land_4096 z : Z.land z 0xFFF = z mod 4096.
Proof. change 0xFFF with (Z.ones 12). by rewrite Z.land_ones. Qed.

Lemma pdeIdx_div vAddr : 0 ≤ vAddr < 2 ^ 32 → pdeIdx vAddr = vAddr / 4096 / 1024.
Proof.
  intros Hv. unfold pdeIdx. rewrite land_1024, Z.shiftr_div_pow2 by lia.
  rewrite Z.div_div by lia. change (4096 * 1024) with (2 ^ 22).
  apply Z.mod_small. split; [apply Z.div_pos; lia|].
  apply Z.div_lt_upper_bound; lia.
Qed.

Lemma pteIdx_mod vAddr : pteIdx vAddr = (vAddr / 4096) mod 1024.
Proof. unfold pteIdx. by rewrite land_1024, Z.shiftr_div_pow2. Qed.

Lemma vpn32 vAddr : 0 ≤ vAddr < 2 ^ 32 → 0 ≤ vAddr / 4096 < 2 ^ 20.
Proof.
  intros Hv. split; [apply Z.div_pos; lia|]. apply Z.div_lt_upper_bound; lia.
Qed.

(** Replacing the table of a valid directory entry. *)
Lemma ml_entry_update t i table vpn :
  0 ≤ i < len (Directory t) → 0 ≤ vpn →
  (∀ pde, idx (Directory t) i = Some pde → PDEValid pde = true) →
  ml_entry (t <| Directory ::= upd_idx (λ e, e <| PDETable := Some table |>) i |>) vpn =
  if bool_decide (vpn / 1024 = i) then idx (Entries table) (vpn mod 1024)
  else ml_entry t vpn.
Proof.
  intros Hi Hv Hval. unfold ml_entry. simpl. case_bool_decide as E.
  - subst i. rewrite idx_upd_eq by lia.
    destruct (proj2 (idx_lt (Directory t) (vpn / 1024)) Hi) as [pde Hpde].
    rewrite Hpde. simpl. by rewrite (Hval pde Hpde).
  - by rewrite idx_upd_ne by lia.
Qed.

Lemma NewPageTable_ok pid n pageSize :
  0 ≤ n → ∃ pt, NewPageTable pid n pageSize = Some pt ∧ len (Entries pt) = n ∧
    PageSize pt = (if pageSize =? 0 then 4096 else pageSize) ∧
    ∀ j, 0 ≤ j < n → idx (Entries pt) j = Some zeroPTE.
Proof.
  intros Hn. unfold NewPageTable. destruct (Z.ltb_spec n 0); [lia|].
  eexists. split; [done|]. split; [|split; [done|]].
  - unfold len. simpl. rewrite length_replicate. lia.
  - intros j Hj. by apply idx_replicate.
Qed.

Lemma ensure_table_ok t i :
  ml_wf t → 0 ≤ i < 1024 →
  ∃ t1 pde table, ensure_table i t = Some t1 ∧ ml_wf t1 ∧
    (∀ vpn, 0 ≤ vpn → ml_entry t1 vpn = ml_entry t vpn) ∧
    idx (Directory t1) i = Some pde ∧ PDEValid pde = true ∧
    PDETable pde = Some table ∧ len (Entries table) = 1024.
Proof.
  intros [Hps Hts Hd Htab] Hi. unfold ensure_table.
  destruct (proj2 (idx_lt (Directory t) i)) as [pde Hpde]; [lia|]. rewrite Hpde. simpl.
  destruct (PDEValid pde) eqn:Ev; simpl.
  { destruct (Htab i pde Hpde Ev) as (table & Ht & Hlen). by exists t, pde, table. }
  destruct (NewPageTable_ok (MlPID t) (TableSize t) (MlPageSize t)) as
    (fresh & -> & Hfl & _ & Hfresh); [lia|]. rewrite Hts in Hfl, Hfresh.
  eexists _, _, _. split; [done|]. split; [|split; [|split]].
  - split; simpl; [done..|by rewrite len_upd_idx|].
    intros k pde' Hk. destruct (decide (i = k)) as [<-|Hne].
    + rewrite idx_upd_eq, Hpde in Hk by lia. simplify_eq/=. intros _. by eexists.
    + rewrite idx_upd_ne in Hk by lia. by apply (Htab k).
  - intros vpn Hv. unfold ml_entry. simpl. destruct (decide (i = vpn / 1024)) as [->|Hne].
    + rewrite idx_upd_eq, Hpde by lia. simpl. rewrite Ev. simpl.
      apply Hfresh. by apply Z.mod_pos_bound.
    + by rewrite idx_upd_ne by lia.
  - simpl. rewrite idx_upd_eq, Hpde by lia. done.
  - done.
Qed.

Lemma ml_wf_update t i pde table :
  ml_wf t → 0 ≤ i → idx (Directory t) i = Some pde → len (Entries table) = 1024 →
  ml_wf (t <| Directory ::= upd_idx (λ e, e <| PDETable := Some table |>) i |>).
Proof.
  intros [Hps Hts Hd Htab] Hi Hpde Hlen. split; simpl; [done..|by rewrite len_upd_idx|].
  intros k pde' Hk. destruct (decide (i = k)) as [<-|Hne].
  - rewrite idx_upd_eq, Hpde in Hk by lia. simplify_eq/=. intros _. by eexists.
  - rewrite idx_upd_ne in Hk by lia. by apply (Htab k).
Qed.

(** Indices of a page, and of another page. *)
Lemma vpn_indices a b :
  0 ≤ a → 0 ≤ b → a / 1024 = b / 1024 → a mod 1024 = b mod 1024 → a = b.
Proof. intros. rewrite (Z.div_mod a 1024), (Z.div_mod b 1024) by lia. lia. Qed.

(** Updating one entry of a second-level table updates the same entry of the
    linear table. *)
Lemma flat_update t pt vpn pde table f :
  ml_wf t → flat t pt → 0 ≤ vpn < 2 ^ 20 →
  idx (Directory t) (vpn / 1024) = Some pde → PDEValid pde = true →
  PDETable pde = Some table → len (Entries table) = 1024 →
  let table' := table <| Entries ::= upd_idx f (vpn mod 1024) |> in
  let t' := t <| Directory ::=
              upd_idx (λ e, e <| PDETable := Some table' |>) (vpn / 1024) |> in
  ml_wf t' ∧ flat t' (pt <| Entries ::= upd_idx f vpn |>).
Proof.
  intros Hwf [Hp Hl He] Hv Hpde Hval Htab Hlen table' t'.
  assert (Hd : 0 ≤ vpn / 1024 < 1024)
    by (split; [apply Z.div_pos; lia|apply Z.div_lt_upper_bound; lia]).
  pose proof (Z.mod_pos_bound vpn 1024) as Hm.
  split.
  { eapply ml_wf_update; [done|lia|done|]. simpl. by rewrite len_upd_idx. }
  split; simpl; [done|by rewrite len_upd_idx|]. intros w Hw. subst t'.
  rewrite ml_entry_update by (try (destruct Hwf; lia); intros; simplify_eq; done).
  assert (Hold : ml_entry t vpn = idx (Entries table) (vpn mod 1024)).
  { unfold ml_entry. rewrite Hpde. simpl. rewrite Hval. by rewrite Htab. }
  case_bool_decide as E; simpl.
  - destruct (decide (w = vpn)) as [->|Hne].
    + rewrite !idx_upd_eq by lia. by rewrite He, Hold by lia.
    + rewrite !idx_upd_ne; [|lia| |lia|done].
      * rewrite He by lia. unfold ml_entry. rewrite E, Hpde. simpl. rewrite Hval. by rewrite Htab.
      * intros Hmod. apply Hne. apply vpn_indices; lia.
  - rewrite idx_upd_ne by (lia || (intros ->; done)). by apply He.
Qed.

Lemma ml_Map_flat t pt vAddr pfn writable :
  ml_wf t → flat t pt → 0 ≤ vAddr < 2 ^ 32 →
  ∃ t' pt', ml_Map vAddr pfn writable t = Some t' ∧
    MapPage (vAddr / 4096) pfn writable pt = Some pt' ∧ ml_wf t' ∧ flat t' pt'.
Proof.
  intros Hwf Hfl Hv. pose proof (vpn32 vAddr Hv) as Hvpn. set (vpn := vAddr / 4096) in *.
  assert (Hd : 0 ≤ vpn / 1024 < 1024)
    by (split; [apply Z.div_pos; lia|apply Z.div_lt_upper_bound; lia]).
  destruct (ensure_table_ok t (vpn / 1024) Hwf Hd)
    as (t1 & pde & table & Hen & Hwf1 & Hent & Hpde & Hval & Htab & Hlen).
  assert (Hfl1 : flat t1 pt).
  { destruct Hfl. split; [done..|]. intros w Hw. rewrite Hent by lia. by apply fl_entries0. }
  unfold ml_Map. rewrite pdeIdx_div, pteIdx_mod by done. fold vpn.
  rewrite Hen. simpl. rewrite Hpde. simpl. rewrite Htab. simpl.
  pose proof (Z.mod_pos_bound vpn 1024).
  rewrite !MapPage_spec by (destruct Hfl; lia). simpl.
  eexists _, _. split; [done|]. split; [done|]. by apply (flat_update t1 pt vpn pde table).
Qed.

Lemma ml_Translate_flat t pt vAddr isWrite :
  ml_wf t → flat t pt → 0 ≤ vAddr < 2 ^ 32 →
  ∃ p o1 o2 e1 e2 t' pt',
    ml_Translate vAddr isWrite t = Some (p, o1, e1, t') ∧
    Translate vAddr isWrite pt = Some (p, o2, e2, pt') ∧
    err_is <$> e1 = err_is <$> e2 ∧ o2 = (λ '(i, j), i * 1024 + j) <$> o1 ∧
    ml_wf t' ∧ flat t' pt'.
Proof.
  intros Hwf Hfl Hv. pose proof (vpn32 vAddr Hv) as Hvpn.
  assert (Hd : 0 ≤ vAddr / 4096 / 1024 < 1024)
    by (split; [apply Z.div_pos; lia|apply Z.div_lt_upper_bound; lia]).
  destruct (proj2 (idx_lt (Directory t) (vAddr / 4096 / 1024))) as [pde Hpde];
    [destruct Hwf; lia|].
  assert (Hpt : wf_pt pt) by (destruct Hfl; split; lia).
  assert (Hu : is_u64 vAddr) by (unfold is_u64, u64_mod; lia).
  assert (He : idx (Entries pt) (vAddr / PageSize pt) = ml_entry t (vAddr / 4096))
    by (destruct Hfl as [-> _ He]; by apply He).
  unfold ml_Translate. rewrite pdeIdx_div, pteIdx_mod, land_4096, Hpde by done. simpl.
  unfold ml_entry in He. rewrite Hpde in He. simpl in He.
  pose proof (Translate_entry pt vAddr isWrite) as Htr. unfold entry_result in Htr.
  rewrite (fl_page _ _ Hfl) in *.
  destruct (PDEValid pde) eqn:Ev; simpl.
  2: { destruct (Htr _ Hpt Hu He) as (p & o & err & -> & -> & Herr & ->).
       do 7 eexists. split; [done|]. split; [done|]. by rewrite Herr. }
  destruct (mlw_tables _ Hwf _ _ Hpde Ev) as (table & Htab & Hlen).
  rewrite Htab in *. simpl in *. pose proof (Z.mod_pos_bound (vAddr / 4096) 1024) as Hm.
  rewrite i64_small by lia.
  destruct (Z.leb_spec (len (Entries table)) ((vAddr / 4096) mod 1024)); [lia|].
  destruct (proj2 (idx_lt (Entries table) ((vAddr / 4096) mod 1024))) as [e Hj]; [lia|].
  rewrite Hj in *. simpl. destruct (Htr _ Hpt Hu He) as (p & o & err & Hr). clear Htr.
  assert (Hix : vAddr / 4096 / 1024 * 1024 + (vAddr / 4096) mod 1024 = vAddr / 4096)
    by (rewrite (Z.div_mod (vAddr / 4096) 1024) at 3; lia).
  destruct (Valid e); simpl in *;
    [|destruct Hr as (-> & -> & Herr & ->); do 7 eexists; split; [done|]; by rewrite Herr].
  destruct (Present e); simpl in *;
    [|destruct Hr as (-> & -> & Herr & ->); do 7 eexists; split; [done|]; rewrite Herr; by rewrite <- Hix at 1].
  destruct (isWrite && negb (ReadWrite e)).
  - destruct Hr as (-> & -> & Herr & ->); do 7 eexists; split; [done|]; rewrite Herr.
    by rewrite <- Hix at 1.
  - destruct Hr as (-> & -> & -> & ->). rewrite u64_add_l.
    replace (PFN e * MlPageSize t) with (PFN e * 4096) by (by rewrite (mlw_page _ Hwf)).
    do 7 eexists. split; [done|]. split; [done|]. split; [done|]. simpl. rewrite Hix.
    split; [done|]. by apply (flat_update t pt (vAddr / 4096) pde table (touch isWrite)).
Qed.

(** C6. The two-level table is equivalent to a linear table of [2^20] entries
    for every 32-bit address: mapping keeps the two tables in step, and
    translating gives the same physical address, the same kind of error and the
    same page table entry, and keeps them in step. *)
Theorem two_level_refines_linear (t : MultiLevelPageTable) (pt : PageTable)
    (vAddr pfn : Z) (writable isWrite : bool) :
  ml_wf t → flat t pt → 0 ≤ vAddr < 2 ^ 32 →
  (∃ t' pt', ml_Map vAddr pfn writable t = Some t' ∧
     MapPage (vAddr / 4096) pfn writable pt = Some pt' ∧ ml_wf t' ∧ flat t' pt') ∧
  (∃ p o1 o2 e1 e2 t' pt',
     ml_Translate vAddr isWrite t = Some (p, o1, e1, t') ∧
     Translate vAddr isWrite pt = Some (p, o2, e2, pt') ∧
     err_is <$> e1 = err_is <$> e2 ∧ o2 = (λ '(i, j), i * 1024 + j) <$> o1 ∧
     ml_wf t' ∧ flat t' pt').
Proof.
  intros. split; [by apply ml_Map_flat|by apply ml_Translate_flat].
Qed.

(** ** Examples *)
Lemma new_ml_wf pid : ml_wf (NewMultiLevelPageTable pid).
Proof.
  split; [done..|]. intros i pde Hi%idx_Some Hv. destruct Hi as [_ Hi].
  change (replicate 1024 zeroPDE !! Z.to_nat i = Some pde) in Hi.
  apply lookup_replicate in Hi as [-> _]. done.
Qed.

Lemma new_flat pid :
  ∃ pt, NewPageTable pid (2 ^ 20) 4096 = Some pt ∧ flat (NewMultiLevelPageTable pid) pt.
Proof.
  destruct (NewPageTable_ok pid (2 ^ 20) 4096) as (pt & Hpt & Hl & Hp & He); [lia|].
  exists pt. split; [done|]. split; [done..|]. intros vpn Hv. rewrite He by done.
  unfold ml_entry. simpl (Directory _).
  assert (0 ≤ vpn / 1024 < 1024)
    by (split; [apply Z.div_pos; lia|apply Z.div_lt_upper_bound; lia]).
  change 1024%nat with (Z.to_nat 1024). by rewrite (idx_replicate zeroPDE 1024).
Qed.

Definition small_pt : PageTable :=
  mkPageTable 1 4096 [mappedPTE 5 true; mappedPTE 7 false; zeroPTE; zeroPTE] 4.

Lemma small_pt_wf : wf_pt small_pt.
Proof. by split. Qed.

Lemma small_pt_frames : frames_distinct small_pt.
Proof.
  assert (Hc : ∀ i e, idx (Entries small_pt) i = Some e → Valid e = true →
            i = 0 ∧ e = mappedPTE 5 true ∨ i = 1 ∧ e = mappedPTE 7 false).
  { intros i e [Hi He]%idx_Some. simpl in He. destruct (Z.to_nat i) as [|[|[|[|]]]] eqn:E;
      simpl in He; simplify_eq; intros Hv; try done; [left|right]; split; (done || lia). }
  split.
  - intros i e He Hv _. by destruct (Hc i e He Hv) as [[_ ->]|[_ ->]].
  - intros i j e f He Hf Hve _ Hvf _.
    destruct (Hc i e He Hve) as [[-> ->]|[-> ->]], (Hc j f Hf Hvf) as [[-> ->]|[-> ->]]; done.
Qed.

Lemma MapPage_Translate_witness :
  ∃ pt', MapPage (8195 / PageSize small_pt) 9 true small_pt = Some pt' ∧
    (∀ vpn, 0 ≤ vpn → vpn ≠ 8195 / PageSize small_pt →
       idx (Entries pt') vpn = idx (Entries small_pt) vpn) ∧
    ∃ o pt'', Translate 8195 true pt' =
      Some (u64 (9 * PageSize small_pt + 8195 mod PageSize small_pt), o, None, pt'').
Proof.
  apply (MapPage_Translate small_pt 8195 9 true true small_pt_wf); by vm_compute.
Defined.

Lemma Translate_injective_witness : 4100 = 4100.
Proof.
  refine (Translate_injective small_pt _ _ 4100 4100 false false (7 * 4096 + 4) _ _
            small_pt_wf small_pt_frames _ _ eq_refl eq_refl); by vm_compute.
Defined.

Lemma two_level_refines_linear_witness :
  ∃ pt, flat (NewMultiLevelPageTable 1) pt ∧
  (∃ t' pt', ml_Map 0x00403004 12 true (NewMultiLevelPageTable 1) = Some t' ∧
     MapPage (0x00403004 / 4096) 12 true pt = Some pt' ∧ ml_wf t' ∧ flat t' pt').
Proof.
  destruct (new_flat 1) as (pt & _ & Hfl). exists pt. split; [exact Hfl|].
  apply (two_level_refines_linear (NewMultiLevelPageTable 1) pt 0x00403004 12 true false);
    [apply new_ml_wf|exact Hfl|by vm_compute].
Defined.
