(* ===== verification/Tlb.v ===== *)
(** * The translation lookaside buffer

    Models [src/pkg/memory/tlb.go].  Every operation holds the mutex of the
    buffer for its whole body, so operations are atomic steps. *)

From S2P Require Import Prelude.

Record TLBEntry := mkTLBEntry {
  te_VPN : Z; te_PFN : Z; te_ASID : Z; te_Valid : bool; te_ReadWrite : bool;
  te_LastAccess : Z }.
#[export] Instance eta_TLBEntry : Eta TLBEntry := λ e,
  mkTLBEntry (te_VPN e) (te_PFN e) (te_ASID e) (te_Valid e) (te_ReadWrite e)
    (te_LastAccess e).

Definition zeroTLBEntry : TLBEntry := mkTLBEntry 0 0 0 false false 0.

Record TLB := mkTLB {
  Capacity : Z; TlbEntries : list TLBEntry; Hits : Z; Misses : Z; AccessTick : Z }.
#[export] Instance eta_TLB : Eta TLB := λ t,
  mkTLB (Capacity t) (TlbEntries t) (Hits t) (Misses t) (AccessTick t).

Definition NewTLB (capacity : Z) : TLB :=
  let capacity := if capacity <=? 0 then 16 else capacity in
  mkTLB capacity (replicate (Z.to_nat capacity) zeroTLBEntry) 0 0 0.

Definition hits (pid vpn : Z) (e : TLBEntry) : bool :=
  te_Valid e && (te_ASID e =? pid) && (te_VPN e =? vpn).

Definition Lookup (pid vpn : Z) (t : TLB) : Z * bool * TLB :=
  let t := t <| AccessTick ::= Z.succ |> in
  match list_find (λ e, hits pid vpn e = true) (TlbEntries t) with
  | Some (i, e) =>
      (te_PFN e, true,
       t <| TlbEntries ::= alter (λ e, e <| te_LastAccess := AccessTick t |>) i |>
         <| Hits ::= Z.succ |>)
  | None => (0, false, t <| Misses ::= Z.succ |>)
  end.

(** The loop of [Insert]: an empty slot, the existing entry, or the slot of the
    least recently used entry. *)
Inductive slot := EmptySlot (i : nat) | ExistingSlot (i : nat) | LruSlot (i : nat).

Fixpoint findSlot (pid vpn : Z) (es : list TLBEntry) (i lruIdx : nat) (oldestAccess : Z)
    : slot :=
  match es with
  | [] => LruSlot lruIdx
  | e :: es =>
      if negb (te_Valid e) then EmptySlot i
      else if hits pid vpn e then ExistingSlot i
      else if te_LastAccess e <? oldestAccess
      then findSlot pid vpn es (S i) i (te_LastAccess e)
      else findSlot pid vpn es (S i) lruIdx oldestAccess
  end.

Definition Insert (pid vpn pfn : Z) (writable : bool) (t : TLB) : TLB :=
  let t := t <| AccessTick ::= Z.succ |> in
  let entry := mkTLBEntry vpn pfn pid true writable (AccessTick t) in
  match findSlot pid vpn (TlbEntries t) 0 0 (AccessTick t + 1) with
  | EmptySlot i | LruSlot i => t <| TlbEntries ::= <[i := entry]> |>
  | ExistingSlot i =>
      t <| TlbEntries ::= alter (λ e, e <| te_PFN := pfn |> <| te_ReadWrite := writable |>
                                        <| te_LastAccess := AccessTick t |>) i |>
  end.

Definition Flush (t : TLB) : TLB :=
  t <| TlbEntries ::= map (λ e, e <| te_Valid := false |>) |>.

(** ** Invariant *)
Record tlb_wf (t : TLB) : Prop := mk_tlb_wf {
  tw_capacity : 0 < Capacity t ∧ len (TlbEntries t) = Capacity t;
  (** The valid entries form a prefix: [Insert] stops at the first free slot. *)
  tw_prefix : ∀ i j e f, (i < j)%nat → TlbEntries t !! i = Some e →
    TlbEntries t !! j = Some f → te_Valid f = true → te_Valid e = true;
  tw_unique : ∀ i j e f, TlbEntries t !! i = Some e → TlbEntries t !! j = Some f →
    te_Valid e = true → te_Valid f = true →
    te_ASID e = te_ASID f → te_VPN e = te_VPN f → i = j;
  tw_time : ∀ e, e ∈ TlbEntries t → te_LastAccess e ≤ AccessTick t }.

(** The mapping the buffer represents. *)
Definition cached (t : TLB) (pid vpn : Z) : option Z :=
  te_PFN ∘ snd <$> list_find (λ e, hits pid vpn e = true) (TlbEntries t).

Lemma hits_spec pid vpn e :
  hits pid vpn e = true ↔ te_Valid e = true ∧ te_ASID e = pid ∧ te_VPN e = vpn.
Proof. unfold hits. rewrite !andb_true_iff, !Z.eqb_eq. tauto. Qed.

Lemma cached_Some t pid vpn pfn :
  tlb_wf t → cached t pid vpn = Some pfn ↔
  ∃ i e, TlbEntries t !! i = Some e ∧ hits pid vpn e = true ∧ te_PFN e = pfn.
Proof.
  intros Hwf. unfold cached. split.
  - intros ([i e] & Hf & ->)%fmap_Some. apply list_find_Some in Hf as (Hi & Hh & _).
    by exists i, e.
  - intros (i & e & Hi & Hh & <-).
    destruct (list_find _ (TlbEntries t)) as [[j f]|] eqn:Hf; simpl.
    + apply list_find_Some in Hf as (Hj & Hf & _).
      apply hits_spec in Hh as (? & ? & ?), Hf as (? & ? & ?).
      assert (j = i) as -> by (eapply (tw_unique _ Hwf); eauto; congruence). by simplify_eq.
    + apply list_find_None in Hf. by apply (Forall_lookup_1 _ _ _ _ Hf) in Hi.
Qed.

Lemma cached_None t pid vpn :
  cached t pid vpn = None ↔ ∀ e, e ∈ TlbEntries t → hits pid vpn e = false.
Proof.
  unfold cached. rewrite fmap_None, list_find_None, Forall_forall.
  by setoid_rewrite not_true_iff_false.
Qed.

(** Updating the payload of entries keeps the invariant. *)
Lemma tlb_wf_ext t es tick :
  tlb_wf t → AccessTick t ≤ tick → length es = length (TlbEntries t) →
  (∀ i e', es !! i = Some e' → ∃ e, TlbEntries t !! i = Some e ∧
     te_Valid e' = te_Valid e ∧ te_ASID e' = te_ASID e ∧ te_VPN e' = te_VPN e ∧
     te_LastAccess e' ≤ tick) →
  ∀ h m, tlb_wf (mkTLB (Capacity t) es h m tick).
Proof.
  intros [] Ht Hlen He h m. split; simpl.
  - unfold len in *. lia.
  - intros i j e' f' Hij Hi Hj Hv.
    destruct (He i e' Hi) as (e & Hi0 & -> & _), (He j f' Hj) as (f & Hj0 & Hvf & _).
    by apply (tw_prefix0 i j e f); [done..|congruence].
  - intros i j e' f' Hi Hj Hve Hvf Ha Hn.
    destruct (He i e' Hi) as (e & ? & ? & ? & ? & _), (He j f' Hj) as (f & ? & ? & ? & ? & _).
    apply (tw_unique0 i j e f); congruence.
  - intros e' [i Hi]%list_elem_of_lookup. by destruct (He i e' Hi) as (e & _ & _ & _ & _ & ?).
Qed.

(** ** The operations preserve the invariant *)
Lemma findSlot_spec pid vpn pre es lru oldest :
  Forall (λ e, te_Valid e = true ∧ hits pid vpn e = false) pre →
  (pre = [] → ∀ e, e ∈ es → te_LastAccess e < oldest) →
  (pre ≠ [] → ∃ e, pre !! lru = Some e ∧ te_LastAccess e = oldest ∧
     ∀ f, f ∈ pre → oldest ≤ te_LastAccess f) →
  pre ++ es ≠ [] →
  match findSlot pid vpn es (length pre) lru oldest with
  | EmptySlot i => ∃ e, (pre ++ es) !! i = Some e ∧ te_Valid e = false ∧
      ∀ j f, (j < i)%nat → (pre ++ es) !! j = Some f → te_Valid f = true ∧ hits pid vpn f = false
  | ExistingSlot i => ∃ e, (pre ++ es) !! i = Some e ∧ hits pid vpn e = true
  | LruSlot i => Forall (λ e, te_Valid e = true ∧ hits pid vpn e = false) (pre ++ es) ∧
      ∃ e, (pre ++ es) !! i = Some e ∧ ∀ f, f ∈ pre ++ es → te_LastAccess e ≤ te_LastAccess f
  end.
Proof.
  revert pre lru oldest. induction es as [|e es IH]; intros pre lru oldest Hpre Hnil Hlru Hne.
  { simpl. rewrite app_nil_r in *. split; [done|].
    destruct (Hlru Hne) as (e & He & <- & Hmin). eauto. }
  assert (Hmid : (pre ++ e :: es) !! length pre = Some e) by by apply list_lookup_middle.
  simpl. destruct (te_Valid e) eqn:Ev; simpl.
  2: { exists e. split; [done|]. split; [done|]. intros j f Hj Hf.
       rewrite lookup_app_l in Hf by done. by apply (Forall_lookup_1 _ _ _ _ Hpre Hf). }
  destruct (hits pid vpn e) eqn:Eh; [by exists e|].
  replace (S (length pre)) with (length (pre ++ [e])) by (rewrite length_app; simpl; lia).
  replace (pre ++ e :: es) with ((pre ++ [e]) ++ es) in * by (by rewrite <- app_assoc).
  assert (Hpre' : Forall (λ e, te_Valid e = true ∧ hits pid vpn e = false) (pre ++ [e]))
    by (apply Forall_app; split; [done|by constructor]).
  assert (Hin : ∀ f, f ∈ pre ++ [e] ↔ f ∈ pre ∨ f = e).
  { intros f. by rewrite elem_of_app, list_elem_of_singleton. }
  destruct (Z.ltb_spec (te_LastAccess e) oldest).
  - apply IH; [done|by intros [_ ?]%app_eq_nil| |done]. intros _. exists e.
    split; [by apply list_lookup_middle|]. split; [done|]. intros f [Hf| ->]%Hin; [|lia].
    assert (Hp : pre ≠ []) by (intros ->; by apply elem_of_nil in Hf).
    destruct (Hlru Hp) as (_ & _ & _ & Hmin). specialize (Hmin f Hf). lia.
  - apply IH; [done|by intros [_ ?]%app_eq_nil| |done]. intros _.
    assert (Hp : pre ≠ []).
    { intros ->. pose proof (Hnil eq_refl e ltac:(by left)). lia. }
    destruct (Hlru Hp) as (g & Hg & <- & Hmin). exists g.
    split; [by apply lookup_app_l_Some|]. split; [done|].
    intros f [Hf| ->]%Hin; [by apply Hmin|done].
Qed.

Lemma Insert_slot pid vpn t :
  tlb_wf t →
  match findSlot pid vpn (TlbEntries t) 0 0 (Z.succ (AccessTick t) + 1) with
  | EmptySlot i => ∃ e, TlbEntries t !! i = Some e ∧ te_Valid e = false ∧
      ∀ j f, (j < i)%nat → TlbEntries t !! j = Some f → te_Valid f = true ∧ hits pid vpn f = false
  | ExistingSlot i => ∃ e, TlbEntries t !! i = Some e ∧ hits pid vpn e = true
  | LruSlot i => Forall (λ e, te_Valid e = true ∧ hits pid vpn e = false) (TlbEntries t) ∧
      ∃ e, TlbEntries t !! i = Some e ∧
           ∀ f, f ∈ TlbEntries t → te_LastAccess e ≤ te_LastAccess f
  end.
Proof.
  intros Hwf. apply (findSlot_spec pid vpn [] (TlbEntries t)); [done| |done|].
  - intros _ e He. pose proof (tw_time _ Hwf e He). lia.
  - destruct (tw_capacity _ Hwf) as [? Hlen]. unfold len in Hlen.
    destruct (TlbEntries t); [simpl in *; lia|done].
Qed.

Lemma Lookup_wf pid vpn t : tlb_wf t → tlb_wf (Lookup pid vpn t).2.
Proof.
  intros Hwf. unfold Lookup. simpl.
  destruct (list_find _ _) as [[i e]|] eqn:E; simpl.
  - apply tlb_wf_ext; [done|lia|apply length_alter|]. intros j f Hj.
    rewrite list_lookup_alter in Hj. case_decide as Hd.
    + subst j. destruct (TlbEntries t !! i) as [g|]; simplify_eq/=.
      exists g. repeat split; lia.
    + exists f. split; [done|]. repeat split.
      pose proof (tw_time _ Hwf f (list_elem_of_lookup_2 _ _ _ Hj)). lia.
  - apply tlb_wf_ext; [done|lia|done|]. intros j f Hj. exists f. split; [done|].
    repeat split. pose proof (tw_time _ Hwf f (list_elem_of_lookup_2 _ _ _ Hj)). lia.
Qed.

(** Writing a fresh entry for a key no other entry has. *)
Lemma tlb_wf_write t i pid vpn pfn w :
  tlb_wf t → (i < length (TlbEntries t))%nat →
  (∀ j f, (j < i)%nat → TlbEntries t !! j = Some f → te_Valid f = true) →
  (∀ j f, j ≠ i → TlbEntries t !! j = Some f → hits pid vpn f = false) →
  tlb_wf (t <| AccessTick ::= Z.succ |>
            <| TlbEntries ::= <[i := mkTLBEntry vpn pfn pid true w (Z.succ (AccessTick t))]> |>).
Proof.
  intros [] Hi Hbefore Hkey.
  assert (Hne : ∀ j f, j ≠ i → TlbEntries t !! j = Some f → te_Valid f = true →
                       ¬ (te_ASID f = pid ∧ te_VPN f = vpn)).
  { intros j f Hj Hf Hv [Ha Hn]. specialize (Hkey j f Hj Hf).
    assert (hits pid vpn f = true) by by apply hits_spec. congruence. }
  split; simpl.
  - unfold len in *. rewrite length_insert. done.
  - intros a b e f Hab Ha Hb Hv. apply list_lookup_insert_Some in Ha as [(<- & <- & _)|[Ha1 Ha2]];
      [done|]. apply list_lookup_insert_Some in Hb as [(<- & _ & _)|[Hb1 Hb2]]; [by eauto|].
    by apply (tw_prefix0 a b e f).
  - intros a b e f Ha Hb Hve Hvf Hasid Hvpn.
    apply list_lookup_insert_Some in Ha as [(<- & <- & _)|[Ha1 Ha2]];
      apply list_lookup_insert_Some in Hb as [(<- & <- & _)|[Hb1 Hb2]]; simpl in *.
    + done.
    + by destruct (Hne b f).
    + by destruct (Hne a e).
    + by apply (tw_unique0 a b e f).
  - intros e He. apply list_elem_of_lookup in He as [j Hj].
    apply list_lookup_insert_Some in Hj as [(_ & <- & _)|[_ Hj]]; simpl; [lia|].
    pose proof (tw_time0 e (list_elem_of_lookup_2 _ _ _ Hj)). lia.
Qed.

Lemma Insert_wf pid vpn pfn w t : tlb_wf t → tlb_wf (Insert pid vpn pfn w t).
Proof.
  intros Hwf. pose proof (Insert_slot pid vpn t Hwf) as Hs. unfold Insert. simpl.
  destruct (findSlot _ _ _ _ _ _) as [i|i|i].
  - destruct Hs as (e & Hi & He & Hb). apply (tlb_wf_write t i pid vpn pfn w Hwf).
    + by eapply lookup_lt_Some.
    + intros j f Hj Hf. by apply (Hb j f).
    + intros j f Hne Hf. destruct (decide (j < i)%nat) as [Hj|Hj]; [by apply (Hb j f)|].
      destruct (te_Valid f) eqn:Ev; [|unfold hits; by rewrite Ev].
      assert (te_Valid e = true) by (apply (tw_prefix _ Hwf i j e f); [lia|done..]). congruence.
  - destruct Hs as (e & Hi & He).
    apply (tlb_wf_ext t); [done|lia|apply length_alter|]. intros j f Hj.
    rewrite list_lookup_alter in Hj. case_decide as Hd.
    + subst j. rewrite Hi in Hj. simplify_eq/=. exists e. repeat split; (done || lia).
    + exists f. split; [done|]. repeat split.
      pose proof (tw_time _ Hwf f (list_elem_of_lookup_2 _ _ _ Hj)). lia.
  - destruct Hs as (Hall & e & Hi & _). apply (tlb_wf_write t i pid vpn pfn w Hwf).
    + by eapply lookup_lt_Some.
    + intros j f _ Hf. by apply (Forall_lookup_1 _ _ _ _ Hall Hf).
    + intros j f _ Hf. by apply (Forall_lookup_1 _ _ _ _ Hall Hf).
Qed.

Lemma Flush_wf t : tlb_wf t → tlb_wf (Flush t).
Proof.
  intros []. split; simpl.
  - unfold len in *. by rewrite length_map.
  - intros i j e f _ _ Hj Hv. rewrite list_lookup_fmap in Hj.
    apply fmap_Some in Hj as (g & _ & ->). done.
  - intros i j e f Hi _ Hv. rewrite list_lookup_fmap in Hi.
    apply fmap_Some in Hi as (g & _ & ->). done.
  - intros e (g & -> & Hg)%list_elem_of_fmap. exact (tw_time0 g Hg).
Qed.

(** A slot that is overwritten only matters to the keys it held. *)
Lemma cached_write t i e entry pid' vpn' :
  tlb_wf t → TlbEntries t !! i = Some e →
  tlb_wf (t <| AccessTick ::= Z.succ |> <| TlbEntries ::= <[i := entry]> |>) →
  hits pid' vpn' e = false → hits pid' vpn' entry = false →
  cached (t <| AccessTick ::= Z.succ |> <| TlbEntries ::= <[i := entry]> |>) pid' vpn' =
  cached t pid' vpn'.
Proof.
  intros Hwf Hi Hwf' He Hentry. apply option_eq. intros x.
  rewrite (cached_Some _ _ _ _ Hwf'), (cached_Some _ _ _ _ Hwf). simpl. split.
  - intros (j & f & Hj & Hh & Hx).
    apply list_lookup_insert_Some in Hj as [(_ & <- & _)|[_ Hj]]; [congruence|eauto].
  - intros (j & f & Hj & Hh & Hx). exists j, f. split; [|done].
    rewrite list_lookup_insert_ne; [done|]. intros ->. congruence.
Qed.


Lemma cached_alter t i f tick h m :
  (∀ e, te_PFN (f e) = te_PFN e ∧ ∀ pid vpn, hits pid vpn (f e) = hits pid vpn e) →
  ∀ pid vpn, cached (mkTLB (Capacity t) (alter f i (TlbEntries t)) h m tick) pid vpn =
             cached t pid vpn.
Proof.
  intros Hf pid vpn. unfold cached. simpl. revert i.
  induction (TlbEntries t) as [|e es IH]; intros [|i]; csimpl; try done.
  - destruct (Hf e) as [Hp Hh]. rewrite Hh. case_decide; simpl; [by rewrite Hp|done].
  - case_decide; [done|]. specialize (IH i).
    destruct (list_find _ (alter f i es)) as [[]|], (list_find _ es) as [[]|]; done.
Qed.

Lemma Lookup_cached (t : TLB) (pid vpn : Z) :
  (Lookup pid vpn t).1 =
    match cached t pid vpn with Some pfn => (pfn, true) | None => (0, false) end ∧
  ∀ pid' vpn', cached (Lookup pid vpn t).2 pid' vpn' = cached t pid' vpn'.
Proof.
  unfold Lookup. simpl. unfold cached at 1.
  destruct (list_find _ _) as [[i e]|] eqn:E; simpl; [|done].
  split; [done|]. intros pid' vpn'. by apply cached_alter.
Qed.

(** [Lookup] answers with the mapping the buffer holds and does not
    change it. *)
Theorem TLB_Lookup_spec (t : TLB) (pid vpn : Z) :
  (Lookup pid vpn t).1 =
    match cached t pid vpn with Some pfn => (pfn, true) | None => (0, false) end ∧
  (∀ pid' vpn', cached (Lookup pid vpn t).2 pid' vpn' = cached t pid' vpn') ∧
  Hits (Lookup pid vpn t).2 + Misses (Lookup pid vpn t).2 = Hits t + Misses t + 1.
Proof.
  destruct (Lookup_cached t pid vpn) as [H1 H2]. split; [done|]. split; [done|].
  unfold Lookup. simpl. destruct (list_find _ _) as [[i e]|]; simpl; lia.
Qed.

(** Overwriting the payload of the entry of a key only matters to that key. *)
Lemma cached_payload t t' i e g :
  tlb_wf t → tlb_wf t' → TlbEntries t !! i = Some e →
  TlbEntries t' = alter g i (TlbEntries t) →
  te_Valid e = true → te_Valid (g e) = true →
  te_ASID (g e) = te_ASID e → te_VPN (g e) = te_VPN e →
  ∀ pid vpn, (pid, vpn) ≠ (te_ASID e, te_VPN e) → cached t' pid vpn = cached t pid vpn.
Proof.
  intros Hwf Hwf' Hi Ht' Hv Hgv Ha Hn pid vpn Hne. apply option_eq. intros x.
  rewrite (cached_Some _ _ _ _ Hwf'), (cached_Some _ _ _ _ Hwf), Ht'.
  split; intros (j & f & Hj & Hh & Hx); destruct (decide (i = j)) as [<-|Hij].
  - rewrite list_lookup_alter_eq, Hi in Hj. simplify_eq/=.
    apply hits_spec in Hh as (_ & <- & <-). by rewrite Ha, Hn in Hne.
  - rewrite list_lookup_alter_ne in Hj by done. eauto.
  - rewrite Hi in Hj. simplify_eq/=. by apply hits_spec in Hh as (_ & <- & <-).
  - exists j, f. by rewrite list_lookup_alter_ne.
Qed.

Lemma cached_evicted t i e entry pid' vpn' :
  tlb_wf t → TlbEntries t !! i = Some e → hits pid' vpn' e = true →
  tlb_wf (t <| AccessTick ::= Z.succ |> <| TlbEntries ::= <[i := entry]> |>) →
  hits pid' vpn' entry = false →
  cached (t <| AccessTick ::= Z.succ |> <| TlbEntries ::= <[i := entry]> |>) pid' vpn' = None.
Proof.
  intros Hwf Hi (He1 & He2 & He3)%hits_spec Hwf' Hentry. apply cached_None. simpl.
  intros f [j Hj]%list_elem_of_lookup. apply not_true_iff_false. intros Hh.
  apply list_lookup_insert_Some in Hj as [(_ & <- & _)|[Hne Hj]]; [congruence|].
  apply hits_spec in Hh as (? & ? & ?). apply Hne.
  apply (tw_unique _ Hwf i j e f); congruence.
Qed.

Lemma Insert_cached (t : TLB) (pid vpn pfn : Z) (w : bool) :
  tlb_wf t →
  let t' := Insert pid vpn pfn w t in
  cached t' pid vpn = Some pfn ∧
  ∀ pid' vpn', (pid', vpn') ≠ (pid, vpn) →
    cached t' pid' vpn' = cached t pid' vpn' ∨
    cached t pid vpn = None ∧ cached t' pid' vpn' = None ∧
    Forall (λ e, te_Valid e = true) (TlbEntries t) ∧
    ∃ e, e ∈ TlbEntries t ∧ hits pid' vpn' e = true ∧
      ∀ f, f ∈ TlbEntries t → te_LastAccess e ≤ te_LastAccess f.
Proof.
  intros Hwf. pose proof (Insert_wf pid vpn pfn w t Hwf) as Hwf'.
  pose proof (Insert_slot pid vpn t Hwf) as Hs. unfold Insert in *. simpl in *.
  set (entry := mkTLBEntry vpn pfn pid true w (Z.succ (AccessTick t))) in *.
  assert (Hentry : hits pid vpn entry = true) by by apply hits_spec.
  assert (Hother : ∀ pid' vpn', (pid', vpn') ≠ (pid, vpn) → hits pid' vpn' entry = false).
  { intros pid' vpn' Hne. apply not_true_iff_false. intros (_ & <- & <-)%hits_spec. done. }
  destruct (findSlot _ _ _ _ _ _) as [i|i|i].
  - destruct Hs as (e & Hi & He & _). split.
    + apply (cached_Some _ _ _ _ Hwf'). exists i, entry. simpl.
      by rewrite list_lookup_insert_eq by by eapply lookup_lt_Some.
    + intros pid' vpn' Hne. left. apply (cached_write t i e); auto. unfold hits. by rewrite He.
  - destruct Hs as (e & Hi & (Hv & <- & <-)%hits_spec). split.
    + apply (cached_Some _ _ _ _ Hwf'). eexists i, _. simpl.
      rewrite list_lookup_alter_eq, Hi. simpl. split; [done|]. split; [by apply hits_spec|done].
    + intros pid' vpn' Hne. left. by eapply (cached_payload t _ i e).
  - destruct Hs as (Hall & e & Hi & Hmin). split.
    + apply (cached_Some _ _ _ _ Hwf'). exists i, entry. simpl.
      by rewrite list_lookup_insert_eq by by eapply lookup_lt_Some.
    + intros pid' vpn' Hne. destruct (hits pid' vpn' e) eqn:Eh; [right|left; by apply (cached_write t i e); auto].
      split; [|split; [by apply (cached_evicted t i e); auto|split]].
      * apply cached_None. rewrite Forall_forall in Hall. intros f Hf. by apply Hall.
      * eapply Forall_impl; [done|]. by intros ? [].
      * exists e. by split; [eapply list_elem_of_lookup_2|].
Qed.

(** [Insert] makes the translation available, and forgets another one
    only if all slots are in use and none is for this page; what is forgotten
    is then an entry that was least recently used. *)
Theorem TLB_Insert_spec (t : TLB) (pid vpn pfn : Z) (w : bool) :
  tlb_wf t →
  let t' := Insert pid vpn pfn w t in
  cached t' pid vpn = Some pfn ∧
  ∀ pid' vpn', (pid', vpn') ≠ (pid, vpn) →
    cached t' pid' vpn' = cached t pid' vpn' ∨
    cached t pid vpn = None ∧ cached t' pid' vpn' = None ∧
    Forall (λ e, te_Valid e = true) (TlbEntries t) ∧
    ∃ e, e ∈ TlbEntries t ∧ hits pid' vpn' e = true ∧
      ∀ f, f ∈ TlbEntries t → te_LastAccess e ≤ te_LastAccess f.
Proof. apply Insert_cached. Qed.

(** ** Examples *)
Lemma new_tlb_wf capacity : tlb_wf (NewTLB capacity).
Proof.
  assert (Hc : 0 < (if capacity <=? 0 then 16 else capacity))
    by (destruct (Z.leb_spec capacity 0); lia).
  unfold NewTLB. set (c := if capacity <=? 0 then _ else _) in *. split; simpl.
  - unfold len. rewrite length_replicate. lia.
  - intros i j e f _ _ [-> _]%lookup_replicate. done.
  - intros i j e f [-> _]%lookup_replicate. done.
  - intros e [-> _]%elem_of_replicate. done.
Qed.

Definition full_tlb : TLB := Insert 1 11 21 true (Insert 1 10 20 true (NewTLB 2)).

Lemma full_tlb_wf : tlb_wf full_tlb.
Proof. do 2 apply Insert_wf. apply new_tlb_wf. Qed.


Lemma TLB_Insert_spec_witness :
  let t' := Insert 1 12 22 true full_tlb in
  cached t' 1 12 = Some 22 ∧
  ∀ pid' vpn', (pid', vpn') ≠ (1, 12) →
    cached t' pid' vpn' = cached full_tlb pid' vpn' ∨
    cached full_tlb 1 12 = None ∧ cached t' pid' vpn' = None ∧
    Forall (λ e, te_Valid e = true) (TlbEntries full_tlb) ∧
    ∃ e, e ∈ TlbEntries full_tlb ∧ hits pid' vpn' e = true ∧
      ∀ f, f ∈ TlbEntries full_tlb → te_LastAccess e ≤ te_LastAccess f.
Proof. exact (TLB_Insert_spec full_tlb 1 12 22 true full_tlb_wf). Defined.
