(* ===== verification/PageReplacement.v ===== *)
(** * Physical frames and page replacement

    Models [src/pkg/memory/page_replacement.go].  [None] is a run-time panic;
    the loop of the Clock policy has fuel, and [clock_total] shows that the fuel
    it is given is enough. *)

From S2P Require Import Prelude Paging Tlb.

(** [ReplacementPolicy] is a string type; a value that is none of the constants
    selects no case of the switch. *)
Inductive ReplacementPolicy :=
  | PolicyFIFO | PolicyLRU | PolicyClock | PolicyOther (name : string).

Definition policy_string (p : ReplacementPolicy) : string :=
  match p with
  | PolicyFIFO => "FIFO" | PolicyLRU => "LRU" | PolicyClock => "CLOCK"
  | PolicyOther s => s
  end.

Record FrameInfo := mkFrame {
  fi_PFN : Z; fi_PID : Z; fi_VPN : Z; IsOccupied : bool; LoadedTick : Z;
  LastUsedTick : Z; UseBit : bool; IsDirty : bool }.
#[export] Instance eta_FrameInfo : Eta FrameInfo := λ f,
  mkFrame (fi_PFN f) (fi_PID f) (fi_VPN f) (IsOccupied f) (LoadedTick f)
    (LastUsedTick f) (UseBit f) (IsDirty f).

Definition emptyFrame (i : Z) : FrameInfo := mkFrame i 0 0 false 0 0 false false.

Record MemoryManager := mkMM {
  NumFrames : Z; Frames : list FrameInfo; ClockHand : Z; CurrentTick : Z;
  Policy : ReplacementPolicy; PageFaults : Z; PageEvictions : Z;
  SwapWrites : Z; SwapReads : Z; mmTLB : TLB; History : list string }.
#[export] Instance eta_MemoryManager : Eta MemoryManager := λ m,
  mkMM (NumFrames m) (Frames m) (ClockHand m) (CurrentTick m) (Policy m)
    (PageFaults m) (PageEvictions m) (SwapWrites m) (SwapReads m) (mmTLB m) (History m).

Definition NewMemoryManager (numFrames : Z) (policy : ReplacementPolicy) (tlbCapacity : Z)
    : MemoryManager :=
  let numFrames := if numFrames <=? 0 then 4 else numFrames in
  {| NumFrames := numFrames; Frames := emptyFrame <$> seqZ 0 numFrames;
     ClockHand := 0; CurrentTick := 0; Policy := policy; PageFaults := 0;
     PageEvictions := 0; SwapWrites := 0; SwapReads := 0; mmTLB := NewTLB tlbCapacity;
     History := [] |}.

(** ** Choosing a victim *)

(** The loops of FIFO and LRU: the index of the first frame with the least
    [key]; [i] is the index of the head of [fs]. *)
Fixpoint oldestFrame (key : FrameInfo → Z) (fs : list FrameInfo) (i victimIdx oldest : Z) : Z :=
  match fs with
  | [] => victimIdx
  | f :: fs =>
      if key f <? oldest then oldestFrame key fs (i + 1) i (key f)
      else oldestFrame key fs (i + 1) victimIdx oldest
  end.

Definition oldestVictim (key : FrameInfo → Z) (fs : list FrameInfo) : option Z :=
  match fs with [] => None | f :: fs => Some (oldestFrame key fs 1 0 (key f)) end.

(** The Clock loop: the victim, the frames with the use bits it cleared, and
    the new hand. *)
Fixpoint clockLoop (fuel : nat) (n : Z) (fs : list FrameInfo) (hand : Z)
    : option (Z * list FrameInfo * Z) :=
  match fuel with
  | O => None
  | S fuel =>
      f ← idx fs hand;
      if negb (UseBit f) then Some (hand, fs, (hand + 1) mod n)
      else clockLoop fuel n (upd_idx (λ f, f <| UseBit := false |>) hand fs) ((hand + 1) mod n)
  end.

Definition chooseVictim (mm : MemoryManager) : option (Z * MemoryManager) :=
  match Policy mm with
  | PolicyFIFO => v ← oldestVictim LoadedTick (Frames mm); Some (v, mm)
  | PolicyLRU => v ← oldestVictim LastUsedTick (Frames mm); Some (v, mm)
  | PolicyClock =>
      '(v, fs, hand) ← clockLoop (S (length (Frames mm))) (NumFrames mm) (Frames mm) (ClockHand mm);
      Some (v, mm <| Frames := fs |> <| ClockHand := hand |>)
  | PolicyOther _ => Some (0, mm)
  end.

Definition loadedFrame (i pid vpn tick : Z) : FrameInfo :=
  mkFrame i pid vpn true tick tick true false.

Definition allocateFrame (pid vpn : Z) (mm : MemoryManager)
    : option (Z * Z * bool * MemoryManager) :=
  match list_find (λ f, IsOccupied f = false) (Frames mm) with
  | Some (i, _) =>
      let i := Z.of_nat i in
      Some (i, 0, false,
        mm <| Frames ::= upd_idx (λ _, loadedFrame i pid vpn (CurrentTick mm)) i |>)
  | None =>
      let mm := mm <| PageEvictions ::= Z.succ |> in
      '(v, mm) ← chooseVictim mm;
      victim ← idx (Frames mm) v;
      let mm := if IsDirty victim then mm <| SwapWrites ::= Z.succ |> else mm in
      Some (v, fi_VPN victim, true,
        mm <| Frames ::= upd_idx (λ _, loadedFrame v pid vpn (CurrentTick mm)) v |>)
  end.

(** ** Memory accesses *)
Definition useFrame (tick : Z) (isWrite : bool) (f : FrameInfo) : FrameInfo :=
  let f := f <| LastUsedTick := tick |> <| UseBit := true |> in
  if isWrite then f <| IsDirty := true |> else f.

(** [pageFault] is the body of [if !pte.Present]. *)
Definition pageFault (vpn : Z) (pt : PageTable) (mm : MemoryManager)
    : option (PageTable * MemoryManager) :=
  let mm := mm <| PageFaults ::= Z.succ |> <| SwapReads ::= Z.succ |> in
  '(pfn, evictedVPN, wasEvicted, mm) ← allocateFrame (PtPID pt) vpn mm;
  let event := "[Tick " +:+ fmt_d (CurrentTick mm) +:+ "] PAGE FAULT: VPN " +:+ fmt_d vpn +:+
    " loaded into PFN " +:+ fmt_d pfn in
  let event := if wasEvicted : bool
    then event +:+ " (Evicted VPN " +:+ fmt_d evictedVPN +:+ " via " +:+
         policy_string (Policy mm) +:+ ")"
    else event in
  Some (pt <| Entries ::= upd_idx (λ e, e <| Present := true |> <| PFN := pfn |>
                                          <| Accessed := true |>) vpn |>,
        mm <| History ::= λ h, h ++ [event] |>).

Definition AccessMemory (pt : PageTable) (vAddr : Z) (isWrite : bool) (mm : MemoryManager)
    : option (Z * option error * PageTable * MemoryManager) :=
  let mm := mm <| CurrentTick ::= Z.succ |> in
  if PageSize pt =? 0 then None else
  let vpn := vAddr / PageSize pt in
  let offset := vAddr mod PageSize pt in
  let '(pfn, hit, tlb) := Lookup (PtPID pt) vpn (mmTLB mm) in
  let mm := mm <| mmTLB := tlb |> in
  if hit : bool then
    _ ← idx (Frames mm) pfn;
    Some (u64 (u64 (pfn * PageSize pt) + offset), None, pt,
          mm <| Frames ::= upd_idx (useFrame (CurrentTick mm) isWrite) pfn |>)
  else
  let invalid := Errorf_w ErrInvalidPage (": VPN " +:+ fmt_d vpn +:+ " not mapped") in
  if len (Entries pt) <=? i64 vpn then Some (0, Some invalid, pt, mm) else
  pte ← idx (Entries pt) vpn;
  if negb (Valid pte) then Some (0, Some invalid, pt, mm) else
  '(pt, mm) ← (if negb (Present pte) then pageFault vpn pt mm else Some (pt, mm));
  pte ← idx (Entries pt) vpn;
  let mm := mm <| mmTLB ::= Insert (PtPID pt) vpn (PFN pte) (ReadWrite pte) |> in
  _ ← idx (Frames mm) (PFN pte);
  let mm := mm <| Frames ::= upd_idx (useFrame (CurrentTick mm) isWrite) (PFN pte) |> in
  let pt := if isWrite then pt <| Entries ::= upd_idx (λ e, e <| Dirty := true |>) vpn |>
            else pt in
  Some (u64 (u64 (PFN pte * PageSize pt) + offset), None, pt, mm).

(** ** Victims *)
Lemma oldestFrame_spec key pre fs v oldest :
  (∃ f, idx pre v = Some f ∧ key f = oldest) → (∀ g, g ∈ pre → oldest ≤ key g) →
  ∃ f, idx (pre ++ fs) (oldestFrame key fs (len pre) v oldest) = Some f ∧
       ∀ g, g ∈ pre ++ fs → key f ≤ key g.
Proof.
  revert pre v oldest. induction fs as [|x fs IH]; intros pre v oldest (f & Hf & <-) Hmin; simpl.
  { rewrite app_nil_r. eauto. }
  replace (pre ++ x :: fs) with ((pre ++ [x]) ++ fs) by (by rewrite <- app_assoc).
  replace (len pre + 1) with (len (pre ++ [x])) by (unfold len; rewrite length_app; simpl; lia).
  destruct (Z.ltb_spec (key x) (key f)); apply IH.
  - exists x. split; [|done]. apply idx_Some. split; [unfold len; lia|].
    unfold len. rewrite Nat2Z.id. by apply list_lookup_middle.
  - intros g [Hg|Hg%list_elem_of_singleton]%elem_of_app; [specialize (Hmin g Hg); lia|by subst].
  - exists f. split; [|done]. apply idx_Some in Hf as [? Hf]. apply idx_Some. split; [done|].
    by apply lookup_app_l_Some.
  - intros g [Hg|Hg%list_elem_of_singleton]%elem_of_app; [by apply Hmin|subst; lia].
Qed.

Lemma oldestVictim_spec key fs :
  fs ≠ [] → ∃ v f, oldestVictim key fs = Some v ∧ idx fs v = Some f ∧
                   ∀ g, g ∈ fs → key f ≤ key g.
Proof.
  intros Hne. destruct fs as [|x fs]; [done|]. simpl.
  destruct (oldestFrame_spec key [x] fs 0 (key x)) as (f & Hf & Hmin); [by exists x| |].
  - intros g Hg%list_elem_of_singleton. by subst.
  - by eexists _, f.
Qed.

Lemma mod_add_wrap h j n :
  0 ≤ h < n → 0 ≤ j ≤ n → (h + j) mod n = if h + j <? n then h + j else h + j - n.
Proof.
  intros Hh Hj. destruct (Z.ltb_spec (h + j) n); [apply Z.mod_small; lia|].
  symmetry. apply (Z.mod_unique_pos _ _ 1); lia.
Qed.

Lemma mod_sub_wrap i h n :
  0 ≤ i < n → 0 ≤ h < n → (i - h) mod n = if h <=? i then i - h else i - h + n.
Proof.
  intros Hi Hh. destruct (Z.leb_spec h i); [by apply Z.mod_small; lia|].
  symmetry. apply (Z.mod_unique_pos _ _ (-1)); lia.
Qed.

(** The frames with the use bits of the [j] frames from the hand on cleared. *)
Definition swept (n hand j : Z) (fs fs' : list FrameInfo) : Prop :=
  ∀ i, idx fs' i = (λ f, if (i - hand) mod n <? j then f <| UseBit := false |> else f)
                   <$> idx fs i.

Lemma swept_step n hand j fs fs' f :
  len fs = n → 0 ≤ hand < n → 0 ≤ j < n → swept n hand j fs fs' →
  idx fs ((hand + j) mod n) = Some f →
  swept n hand (j + 1) fs (upd_idx (λ f, f <| UseBit := false |>) ((hand + j) mod n) fs').
Proof.
  intros Hn Hh Hj Hs Hf i. rewrite mod_add_wrap in * by lia.
  destruct (idx fs i) as [g|] eqn:Hg; simpl.
  - assert (0 ≤ i < n) by (rewrite <- Hn; apply (idx_lt fs); eauto).
    assert (Hb : 0 ≤ (if hand + j <? n then hand + j else hand + j - n))
      by (destruct (Z.ltb_spec (hand + j) n); lia).
    destruct (decide (i = if hand + j <? n then hand + j else hand + j - n)) as [->|Hne].
    + rewrite idx_upd_eq by done. rewrite Hs, Hg. simpl. f_equal.
      destruct (Z.ltb_spec (hand + j) n); rewrite mod_sub_wrap by lia;
        match goal with |- context [hand <=? ?x] => destruct (Z.leb_spec hand x) end;
        repeat match goal with |- context [?x <? ?y] => destruct (Z.ltb_spec x y) end;
        try lia; done.
    + rewrite idx_upd_ne by done. rewrite Hs, Hg. simpl. f_equal. rewrite mod_sub_wrap by lia.
      destruct (Z.ltb_spec (hand + j) n), (Z.leb_spec hand i);
        repeat match goal with |- context [?x <? ?y] => destruct (Z.ltb_spec x y) end;
        try lia; done.
  - apply idx_None. rewrite len_upd_idx. specialize (Hs i). rewrite Hg in Hs. simpl in Hs.
    by apply idx_None in Hs.
Qed.

Lemma clock_from fuel n fs fs' hand j :
  len fs = n → 0 ≤ hand < n → 0 ≤ j ≤ n → Z.of_nat fuel + j = n + 1 → swept n hand j fs fs' →
  (∀ i f, 0 ≤ i < j → idx fs ((hand + i) mod n) = Some f → UseBit f = true) →
  ∃ k fs'', j ≤ k ≤ n ∧
    clockLoop fuel n fs' ((hand + j) mod n) = Some ((hand + k) mod n, fs'', (hand + k + 1) mod n) ∧
    swept n hand k fs fs'' ∧
    (∀ i f, 0 ≤ i < k → idx fs ((hand + i) mod n) = Some f → UseBit f = true) ∧
    (k < n → ∃ f, idx fs ((hand + k) mod n) = Some f ∧ UseBit f = false).
Proof.
  revert fs' j. induction fuel as [|fuel IH]; intros fs' j Hn Hh Hj Hfuel Hs Hset; [lia|].
  pose proof (Z.mod_pos_bound (hand + j) n) as Hb.
  destruct (proj2 (idx_lt fs ((hand + j) mod n))) as [f Hf]; [lia|].
  assert (Hcl : (((hand + j) mod n - hand) mod n <? j) = bool_decide (j = n)).
  { rewrite mod_add_wrap by lia. destruct (Z.ltb_spec (hand + j) n); rewrite mod_sub_wrap by lia;
      match goal with |- context [hand <=? ?x] => destruct (Z.leb_spec hand x) end;
      case_bool_decide; match goal with |- context [?x <? ?y] => destruct (Z.ltb_spec x y) end;
      (done || lia). }
  simpl. rewrite (Hs ((hand + j) mod n)), Hf. simpl. rewrite Hcl, Zplus_mod_idemp_l.
  case_bool_decide as E; simpl.
  - exists j, fs'. split; [lia|]. split; [done|]. split; [done|]. split; [done|lia].
  - destruct (UseBit f) eqn:Eu; simpl.
    + replace (hand + j + 1) with (hand + (j + 1)) by lia.
      destruct (IH (upd_idx (λ f, f <| UseBit := false |>) ((hand + j) mod n) fs') (j + 1))
        as (k & fs'' & Hk & Hc & Hrest); [done|done|lia|lia|by eapply swept_step; eauto; lia| |].
      * intros i g Hi Hg. destruct (decide (i = j)) as [->|]; [by simplify_eq|].
        apply (Hset i g); [lia|done].
      * exists k, fs''. split; [lia|]. done.
    + exists j, fs'. split; [lia|]. split; [done|]. split; [done|]. split; [done|].
      intros _. eauto.
Qed.

(** The Clock loop ends within one revolution and one step: it passes over [k]
    frames whose use bit is set, clears these bits, and stops at a frame whose
    bit is not set, or at the starting point after a full revolution. *)
Lemma clock_total n fs hand :
  len fs = n → 0 ≤ hand < n →
  ∃ k fs', 0 ≤ k ≤ n ∧
    clockLoop (S (length fs)) n fs hand = Some ((hand + k) mod n, fs', (hand + k + 1) mod n) ∧
    swept n hand k fs fs' ∧
    (∀ i f, 0 ≤ i < k → idx fs ((hand + i) mod n) = Some f → UseBit f = true) ∧
    (k < n → ∃ f, idx fs ((hand + k) mod n) = Some f ∧ UseBit f = false).
Proof.
  intros Hn Hh. destruct (clock_from (S (length fs)) n fs fs hand 0) as (k & fs' & H).
  - done.
  - done.
  - lia.
  - unfold len in Hn. lia.
  - intros i. destruct (idx fs i) as [f|] eqn:Hf; simpl; [|done].
    pose proof (Z.mod_pos_bound (i - hand) n).
    destruct (Z.ltb_spec ((i - hand) mod n) 0); [lia|done].
  - lia.
  - rewrite Z.add_0_r, (Z.mod_small hand n) in H by lia. eauto.
Qed.

(** ** Frame allocation *)
Record frames_wf (mm : MemoryManager) : Prop := mk_frames_wf {
  fw_num : 0 < NumFrames mm;
  fw_len : len (Frames mm) = NumFrames mm;
  fw_hand : 0 ≤ ClockHand mm < NumFrames mm;
  fw_pfn : ∀ i f, idx (Frames mm) i = Some f → fi_PFN f = i }.

(** What each policy promises of the victim. *)
Definition victim_ok (mm : MemoryManager) (v : Z) : Prop :=
  ∃ f, idx (Frames mm) v = Some f ∧
  match Policy mm with
  | PolicyFIFO => ∀ g, g ∈ Frames mm → LoadedTick f ≤ LoadedTick g
  | PolicyLRU => ∀ g, g ∈ Frames mm → LastUsedTick f ≤ LastUsedTick g
  | PolicyClock => ∃ k, 0 ≤ k ≤ NumFrames mm ∧ v = (ClockHand mm + k) mod NumFrames mm ∧
      (∀ i g, 0 ≤ i < k → idx (Frames mm) ((ClockHand mm + i) mod NumFrames mm) = Some g →
         UseBit g = true) ∧
      (k < NumFrames mm → UseBit f = false)
  | PolicyOther _ => v = 0
  end.

(** Frames that agree up to the use bit. *)
Definition same_but_use (f g : FrameInfo) : Prop :=
  f <| UseBit := false |> = g <| UseBit := false |>.

Lemma chooseVictim_spec mm :
  frames_wf mm →
  ∃ v fs hand, chooseVictim mm = Some (v, mm <| Frames := fs |> <| ClockHand := hand |>) ∧
    victim_ok mm v ∧ len fs = len (Frames mm) ∧ 0 ≤ hand < NumFrames mm ∧
    (∀ i, option_Forall2 same_but_use (idx fs i) (idx (Frames mm) i)).
Proof.
  intros [Hnum Hlen Hhand _].
  assert (Hne : Frames mm ≠ []) by (intros E; unfold len in Hlen; rewrite E in Hlen; simpl in *; lia).
  assert (Hrefl : ∀ i, option_Forall2 same_but_use (idx (Frames mm) i) (idx (Frames mm) i))
    by (intros i; destruct (idx _ i); by constructor).
  unfold chooseVictim, victim_ok. destruct (Policy mm).
  - destruct (oldestVictim_spec LoadedTick (Frames mm) Hne) as (v & f & -> & Hf & Hmin). simpl.
    exists v, (Frames mm), (ClockHand mm). split; [by destruct mm|eauto 10].
  - destruct (oldestVictim_spec LastUsedTick (Frames mm) Hne) as (v & f & -> & Hf & Hmin). simpl.
    exists v, (Frames mm), (ClockHand mm). split; [by destruct mm|eauto 10].
  - destruct (clock_total _ _ _ Hlen Hhand) as (k & fs & Hk & -> & Hs & Hset & Hfree). simpl.
    exists ((ClockHand mm + k) mod NumFrames mm), fs, ((ClockHand mm + k + 1) mod NumFrames mm).
    pose proof (Z.mod_pos_bound (ClockHand mm + k) (NumFrames mm) Hnum) as Hb.
    destruct (proj2 (idx_lt (Frames mm) ((ClockHand mm + k) mod NumFrames mm))) as [f Hf]; [lia|].
    split; [done|]. split; [|split; [|split; [by apply Z.mod_pos_bound|]]].
    + exists f. split; [done|]. exists k. split; [done|]. split; [done|]. split; [done|].
      intros Hlt. destruct (Hfree Hlt) as (g & Hg & ?). by simplify_eq.
    + apply Z.le_antisymm; apply Z.le_ngt; intros Hlt.
      * pose proof (Hs (len (Frames mm))) as E. rewrite (proj2 (idx_None (Frames mm) _)) in E by lia.
        simpl in E. apply idx_None in E. unfold len in *. lia.
      * pose proof (Hs (len fs)) as E. rewrite (proj2 (idx_None fs _)) in E by lia.
        symmetry in E. apply fmap_None, idx_None in E. unfold len in *. lia.
    + intros i. rewrite Hs. destruct (idx (Frames mm) i); constructor. by case_if.
  - destruct (proj2 (idx_lt (Frames mm) 0)) as [f Hf]; [lia|].
    exists 0, (Frames mm), (ClockHand mm). split; [by destruct mm|eauto 10].
Qed.

Lemma frames_wf_load mm i pid vpn tick :
  frames_wf mm → 0 ≤ i →
  frames_wf (mm <| Frames ::= upd_idx (λ _, loadedFrame i pid vpn tick) i |>).
Proof.
  intros [] Hi. split; simpl; [done|by rewrite len_upd_idx|done|].
  intros j f Hj. destruct (decide (i = j)) as [<-|].
  - rewrite idx_upd_eq in Hj by done. destruct (idx (Frames mm) i); by simplify_eq/=.
  - rewrite idx_upd_ne in Hj by done. by apply fw_pfn0.
Qed.

Lemma same_but_use_fields f g :
  same_but_use f g → fi_PFN f = fi_PFN g ∧ fi_VPN f = fi_VPN g ∧
    IsOccupied f = IsOccupied g ∧ IsDirty f = IsDirty g.
Proof. intros E. by injection E. Qed.

(** The state after the choice of a victim. *)
Lemma frames_wf_swept mm fs hand n :
  frames_wf mm → len fs = len (Frames mm) → 0 ≤ hand < NumFrames mm →
  (∀ i, option_Forall2 same_but_use (idx fs i) (idx (Frames mm) i)) →
  frames_wf (mm <| PageEvictions := n |> <| Frames := fs |> <| ClockHand := hand |>).
Proof.
  intros [] Hl Hh Hf. split; simpl; [done|congruence|done|]. intros i f Hi.
  specialize (Hf i). rewrite Hi in Hf. apply option_Forall2_l in Hf as (g & Hg & Hs).
  destruct (same_but_use_fields _ _ Hs) as [-> _]. by apply fw_pfn0.
Qed.

Definition allocated (mm mm' : MemoryManager) (pid vpn pfn evictedVPN : Z) (wasEvicted : bool)
    : Prop :=
  frames_wf mm' ∧
  idx (Frames mm') pfn = Some (loadedFrame pfn pid vpn (CurrentTick mm)) ∧
  (∀ i, i ≠ pfn → option_Forall2 same_but_use (idx (Frames mm') i) (idx (Frames mm) i)) ∧
  if wasEvicted then
    (∀ f, f ∈ Frames mm → IsOccupied f = true) ∧ victim_ok mm pfn ∧
    fi_VPN <$> idx (Frames mm) pfn = Some evictedVPN
  else ∃ f, idx (Frames mm) pfn = Some f ∧ IsOccupied f = false.

Lemma allocateFrame_ok mm pid vpn :
  frames_wf mm →
  ∃ pfn evictedVPN wasEvicted mm',
    allocateFrame pid vpn mm = Some (pfn, evictedVPN, wasEvicted, mm') ∧
    allocated mm mm' pid vpn pfn evictedVPN wasEvicted.
Proof.
  intros Hwf. unfold allocateFrame.
  destruct (list_find _ (Frames mm)) as [[i f]|] eqn:E.
  - apply list_find_Some in E as (Hi & Hf & _). rewrite <- idx_nat in Hi.
    do 4 eexists. split; [done|]. split; [apply frames_wf_load; [done|lia]|]. simpl.
    rewrite idx_upd_eq, Hi by lia. split; [done|]. split; [|by exists f].
    intros j Hj. rewrite idx_upd_ne by lia. destruct (idx _ j); by constructor.
  - apply list_find_None in E. rewrite Forall_forall in E.
    assert (Hwf1 : frames_wf (mm <| PageEvictions ::= Z.succ |>)) by by destruct Hwf.
    destruct (chooseVictim_spec _ Hwf1) as (v & fs & hand & -> & Hok & Hlen & Hh & Hfs). simpl.
    pose proof Hok as (g & Hg & _). simpl in Hg.
    pose proof (Hfs v) as Hv. simpl in Hv. rewrite Hg in Hv.
    apply option_Forall2_r in Hv as (f & Hf & Hs). rewrite Hf. simpl.
    destruct (same_but_use_fields _ _ Hs) as (_ & Hvpn & _ & _).
    assert (Hv0 : 0 ≤ v) by by apply idx_Some in Hg as [? _].
    do 4 eexists. split; [done|].
    set (mm1 := mm <| PageEvictions ::= Z.succ |> <| Frames := fs |> <| ClockHand := hand |>).
    assert (Hwf2 : frames_wf mm1) by by apply frames_wf_swept.
    split; [|split; [|split; [|split; [|split]]]].
    + assert (Hwf3 : frames_wf (mm1 <| SwapWrites ::= Z.succ |>)) by by destruct Hwf2.
      destruct (IsDirty f).
      * exact (frames_wf_load _ v pid vpn (CurrentTick mm) Hwf3 Hv0).
      * exact (frames_wf_load _ v pid vpn (CurrentTick mm) Hwf2 Hv0).
    + destruct (IsDirty f); simpl; rewrite idx_upd_eq by done; by rewrite Hf.
    + intros i Hi. destruct (IsDirty f); simpl; rewrite idx_upd_ne by done; apply Hfs.
    + intros h Hh'. apply E in Hh'. by destruct (IsOccupied h).
    + done.
    + by rewrite Hg, Hvpn.
Qed.

(** A frame for a faulting page is always found, for every policy: the
    loops end, the frame then holds the new page, all other frames keep their
    contents (Clock may clear their use bits), and a page is evicted only when
    no frame is free.  The evicted page is the one loaded first under FIFO, the
    one used least recently under LRU, and under Clock the first one, from the
    hand on, whose use bit is not set (or the one at the hand if all are). *)
Theorem allocateFrame_spec (mm : MemoryManager) (pid vpn : Z) :
  frames_wf mm →
  ∃ pfn evictedVPN wasEvicted mm',
    allocateFrame pid vpn mm = Some (pfn, evictedVPN, wasEvicted, mm') ∧
    allocated mm mm' pid vpn pfn evictedVPN wasEvicted.
Proof. apply allocateFrame_ok. Qed.

(** ** Memory accesses *)

(** The number of occupied frames. *)
Definition occupied (fs : list FrameInfo) : Z := sumZ (λ f, if IsOccupied f then 1 else 0) fs.

Lemma occupied_same fs fs' :
  (∀ i, option_Forall2 same_but_use (idx fs i) (idx fs' i)) → occupied fs = occupied fs'.
Proof.
  intros Hs. assert (HF : Forall2 same_but_use fs fs').
  { apply Forall2_lookup. intros i. specialize (Hs (Z.of_nat i)). by rewrite !idx_nat in Hs. }
  unfold occupied, sumZ. induction HF as [|f g fs fs' Hfg _ IH]; [done|]. simpl.
  rewrite IH.
  - by destruct (same_but_use_fields _ _ Hfg) as (_ & _ & -> & _).
  - intros i. specialize (Hs (i + 1)). unfold idx in *.
    destruct (Z.leb_spec 0 i); [|constructor].
    destruct (Z.leb_spec 0 (i + 1)); [|lia].
    by replace (Z.to_nat (i + 1)) with (S (Z.to_nat i)) in Hs by lia.
Qed.

Lemma allocateFrame_counters mm pid vpn pfn ev was mm' :
  frames_wf mm → allocateFrame pid vpn mm = Some (pfn, ev, was, mm') →
  PageFaults mm' = PageFaults mm ∧ SwapReads mm' = SwapReads mm ∧ mmTLB mm' = mmTLB mm ∧
  NumFrames mm' = NumFrames mm ∧
  occupied (Frames mm') + PageEvictions mm' = occupied (Frames mm) + PageEvictions mm + 1 ∧
  SwapWrites mm ≤ SwapWrites mm' ∧
  SwapWrites mm' - SwapWrites mm ≤ PageEvictions mm' - PageEvictions mm.
Proof.
  intros Hwf. unfold allocateFrame. destruct (list_find _ (Frames mm)) as [[i f]|] eqn:E.
  - intros [= <- <- <- <-]. apply list_find_Some in E as (Hi & Hf & _).
    rewrite <- idx_nat in Hi. simpl. unfold occupied.
    rewrite (sumZ_upd_idx _ _ _ _ _ Hi), Hf. simpl. split_and!; done || lia.
  - apply list_find_None in E. rewrite Forall_forall in E.
    assert (Hwf1 : frames_wf (mm <| PageEvictions ::= Z.succ |>)) by by destruct Hwf.
    destruct (chooseVictim_spec _ Hwf1) as (v & fs & hand & -> & _ & _ & _ & Hfs). simpl in *.
    pose proof (occupied_same _ _ Hfs) as Hocc.
    destruct (idx fs v) as [f|] eqn:Hf; simpl; [|done]. intros [= <- <- <- <-].
    assert (Hof : IsOccupied f = true).
    { pose proof (Hfs v) as Hv. rewrite Hf in Hv. apply option_Forall2_l in Hv as (g & Hg & Hs).
      destruct (same_but_use_fields _ _ Hs) as (_ & _ & -> & _).
      apply idx_Some in Hg as [_ Hg]. apply list_elem_of_lookup_2, E in Hg.
      by destruct (IsOccupied g). }
    destruct (IsDirty f); simpl; unfold occupied in *;
      rewrite (sumZ_upd_idx _ _ _ _ _ Hf), Hof; simpl; split_and!; done || lia.
Qed.

Record mm_inv (mm : MemoryManager) : Prop := mk_mm_inv {
  mi_frames : frames_wf mm;
  mi_tlb : tlb_wf (mmTLB mm);
  mi_cached : ∀ pid vpn pfn, cached (mmTLB mm) pid vpn = Some pfn → 0 ≤ pfn < NumFrames mm;
  mi_reads : PageFaults mm = SwapReads mm;
  mi_faults : PageFaults mm = occupied (Frames mm) + PageEvictions mm;
  mi_writes : 0 ≤ SwapWrites mm ≤ PageEvictions mm }.

(** The frames a table refers to exist. *)
Definition pt_ok (mm : MemoryManager) (pt : PageTable) : Prop :=
  ∀ vpn e, idx (Entries pt) vpn = Some e → Valid e = true → Present e = true →
    0 ≤ PFN e < NumFrames mm.

Lemma use_frame_inv mm pfn tick isWrite :
  mm_inv mm → 0 ≤ pfn < NumFrames mm →
  mm_inv (mm <| Frames ::= upd_idx (useFrame tick isWrite) pfn |>).
Proof.
  intros [[] ? ? ? Hfaults ?] Hp.
  destruct (proj2 (idx_lt (Frames mm) pfn)) as [g Hg]; [lia|].
  split; simpl; try done.
  - split; simpl; [done|by rewrite len_upd_idx|done|]. intros i f Hi.
    destruct (decide (pfn = i)) as [<-|].
    + rewrite idx_upd_eq, Hg in Hi by lia. simplify_eq/=.
      unfold useFrame. case_if; simpl; by apply fw_pfn0.
    + rewrite idx_upd_ne in Hi by lia. by apply fw_pfn0.
  - rewrite Hfaults. f_equal. unfold occupied.
    rewrite (sumZ_upd_idx _ _ _ _ _ Hg). destruct isWrite; simpl; lia.
Qed.

Lemma pageFault_ok mm vpn pt e :
  mm_inv mm → pt_ok mm pt → 0 ≤ vpn → idx (Entries pt) vpn = Some e →
  ∃ pt' mm' pfn, pageFault vpn pt mm = Some (pt', mm') ∧ mm_inv mm' ∧ pt_ok mm' pt' ∧
    NumFrames mm' = NumFrames mm ∧ 0 ≤ pfn < NumFrames mm ∧
    PtPID pt' = PtPID pt ∧ PageSize pt' = PageSize pt ∧
    idx (Entries pt') vpn = Some (e <| Present := true |> <| PFN := pfn |> <| Accessed := true |>).
Proof.
  intros Hmm Hpt Hv He. unfold pageFault.
  set (mm1 := mm <| PageFaults ::= Z.succ |> <| SwapReads ::= Z.succ |>).
  assert (Hwf1 : frames_wf mm1) by by destruct Hmm as [[]].
  destruct (allocateFrame_ok mm1 (PtPID pt) vpn Hwf1) as (pfn & ev & was & mm2 & Ha & Hal).
  destruct (allocateFrame_counters _ _ _ _ _ _ _ Hwf1 Ha)
    as (Hpf & Hsr & Htlb & Hnum & Hocc & Hsw1 & Hsw2).
  rewrite Ha. simpl. destruct Hal as (Hwf2 & Hfr & _). simpl in *.
  assert (Hpfn : 0 ≤ pfn < NumFrames mm).
  { rewrite <- Hnum, <- (fw_len _ Hwf2). apply (idx_lt (Frames mm2)). eauto. }
  do 3 eexists. split; [done|]. split; [|split; [|split; [done|split; [done|]]]].
  - destruct Hmm. split; simpl; [by destruct Hwf2|congruence|rewrite Htlb, Hnum; done|lia..].
  - intros w f Hf Hval Hpres. simpl in *. rewrite Hnum.
    destruct (decide (vpn = w)) as [<-|].
    + rewrite idx_upd_eq, He in Hf by done. by simplify_eq/=.
    + rewrite idx_upd_ne in Hf by done. by apply (Hpt w).
  - simpl. rewrite idx_upd_eq, He by done. done.
Qed.

Lemma tlb_insert_inv mm pid vpn pfn w :
  mm_inv mm → 0 ≤ pfn < NumFrames mm → mm_inv (mm <| mmTLB ::= Insert pid vpn pfn w |>).
Proof.
  intros [] Hp. split; simpl; try done; [by destruct mi_frames0|by apply Insert_wf|].
  intros pid' vpn' p Hc.
  destruct (decide ((pid', vpn') = (pid, vpn))) as [E|Hne].
  - simplify_eq. rewrite (proj1 (Insert_cached _ pid vpn pfn w mi_tlb0)) in Hc. by simplify_eq.
  - destruct (proj2 (Insert_cached _ pid vpn pfn w mi_tlb0) pid' vpn' Hne) as [Ec|(_ & Ec & _)];
      rewrite Ec in Hc; [by eapply mi_cached0|done].
Qed.

(** What an access that does not panic returns. *)
Definition access_result (pt : PageTable) (vAddr p : Z) (err : option error)
    (mm' : MemoryManager) : Prop :=
  match err with
  | None => ∃ pfn, 0 ≤ pfn < NumFrames mm' ∧
      cached (mmTLB mm') (PtPID pt) (vAddr / PageSize pt) = Some pfn ∧
      p = u64 (pfn * PageSize pt + vAddr mod PageSize pt)
  | Some e => err_is e = err_is ErrInvalidPage ∧ p = 0 ∧
      (idx (Entries pt) (vAddr / PageSize pt) = None ∨
       ∃ pte, idx (Entries pt) (vAddr / PageSize pt) = Some pte ∧ Valid pte = false)
  end.

(** The part of an access after the page is known to be present. *)
Lemma access_present mm pt vpn pte isWrite :
  mm_inv mm → pt_ok mm pt → 0 ≤ vpn → idx (Entries pt) vpn = Some pte →
  0 ≤ PFN pte < NumFrames mm →
  let mm1 := mm <| mmTLB ::= Insert (PtPID pt) vpn (PFN pte) (ReadWrite pte) |> in
  let mm2 := mm1 <| Frames ::= upd_idx (useFrame (CurrentTick mm1) isWrite) (PFN pte) |> in
  let pt' := if isWrite then pt <| Entries ::= upd_idx (λ e, e <| Dirty := true |>) vpn |>
             else pt in
  is_Some (idx (Frames mm1) (PFN pte)) ∧ mm_inv mm2 ∧ pt_ok mm2 pt' ∧
  cached (mmTLB mm2) (PtPID pt) vpn = Some (PFN pte).
Proof.
  intros Hmm Hpt Hv He Hp mm1 mm2 pt'.
  pose proof (tlb_insert_inv mm (PtPID pt) vpn (PFN pte) (ReadWrite pte) Hmm Hp) as Hmm1.
  split.
  { apply idx_lt. change (len (Frames mm1)) with (len (Frames mm)).
    by rewrite (fw_len _ (mi_frames _ Hmm)). }
  split; [by apply use_frame_inv|]. split.
  - intros w f Hf Hval Hpres. change (NumFrames mm2) with (NumFrames mm).
    subst pt'. destruct isWrite; [|by apply (Hpt w)]. simpl in Hf.
    destruct (decide (vpn = w)) as [<-|].
    + rewrite idx_upd_eq, He in Hf by done. by simplify_eq/=.
    + rewrite idx_upd_ne in Hf by done. by apply (Hpt w).
  - apply (Insert_cached (mmTLB mm)). apply Hmm.
Qed.

Lemma access_invalid pt vAddr m :
  let vpn := vAddr / PageSize pt in
  idx (Entries pt) vpn = None ∨ (∃ pte, idx (Entries pt) vpn = Some pte ∧ Valid pte = false) →
  access_result pt vAddr 0 (Some (Errorf_w ErrInvalidPage (": VPN " +:+ fmt_d vpn +:+ " not mapped"))) m.
Proof. intros vpn Hv. by split_and!. Qed.

Lemma AccessMemory_ok mm pt vAddr isWrite :
  mm_inv mm → wf_pt pt → pt_ok mm pt → 0 ≤ vAddr < 2 ^ 63 →
  ∃ p err pt' mm', AccessMemory pt vAddr isWrite mm = Some (p, err, pt', mm') ∧
    mm_inv mm' ∧ pt_ok mm' pt' ∧ access_result pt vAddr p err mm'.
Proof.
  intros Hmm Hwf Hpt Hv. unfold AccessMemory. pose proof Hwf as [Hps Hlen].
  destruct (Z.eqb_spec (PageSize pt) 0); [lia|]. set (vpn := vAddr / PageSize pt).
  assert (Hvpn : 0 ≤ vpn < 2 ^ 63).
  { split; [apply Z.div_pos; lia|]. apply Z.div_lt_upper_bound; [lia|nia]. }
  pose proof (Lookup_cached (mmTLB mm) (PtPID pt) vpn) as (Hres & Hca).
  pose proof (Lookup_wf (PtPID pt) vpn (mmTLB mm) (mi_tlb _ Hmm)) as Htlb.
  simpl. destruct (Lookup _ _ _) as [[pfn hit] tlb]. simpl in *.
  set (mm1 := mm <| CurrentTick ::= Z.succ |> <| mmTLB := tlb |>).
  assert (Hmm1 : mm_inv mm1).
  { destruct Hmm as [[] ? Hc ? ? ?]. split; simpl; try done. intros pid' vpn' q.
    rewrite Hca. apply Hc. }
  destruct (cached (mmTLB mm) (PtPID pt) vpn) as [q|] eqn:Ec; simplify_eq/=.
  - pose proof (mi_cached _ Hmm _ _ _ Ec) as Hq.
    destruct (proj2 (idx_lt (Frames mm) q)) as [f Hf].
    { rewrite (fw_len _ (mi_frames _ Hmm)). done. }
    rewrite Hf. simpl. do 4 eexists. split; [done|].
    split; [by apply (use_frame_inv mm1 q)|]. split; [done|].
    exists q. split; [done|]. split; [simpl; by rewrite Hca|by rewrite u64_add_l].
  - rewrite i64_small by done.
    destruct (Z.leb_spec (len (Entries pt)) vpn).
    { do 4 eexists. split; [done|]. split; [done|]. split; [done|].
      apply access_invalid. left. apply idx_None. fold vpn. lia. }
    destruct (idx (Entries pt) vpn) as [pte|] eqn:He; [|apply idx_None in He; lia]. simpl.
    destruct (Valid pte) eqn:Ev; simpl.
    2: { do 4 eexists. split; [done|]. split; [done|]. split; [done|].
         apply access_invalid. right. eauto. }
    destruct (Present pte) eqn:Ep; simpl.
    + rewrite He. simpl. pose proof (Hpt vpn pte He Ev Ep) as Hp.
      destruct (access_present mm1 pt vpn pte isWrite Hmm1 Hpt (proj1 Hvpn) He Hp)
        as ([f Hf] & Hmm2 & Hpt2 & Hc2).
      simpl in Hf. rewrite Hf. simpl. do 4 eexists. split; [done|].
      split; [done|]. split; [done|]. exists (PFN pte). split; [done|].
      split; [done|]. rewrite u64_add_l. by destruct isWrite.
    + match goal with |- context [pageFault vpn pt ?m] => change m with mm1 end.
      destruct (pageFault_ok mm1 vpn pt pte Hmm1 Hpt (proj1 Hvpn) He)
        as (pt2 & mm2 & pfn & -> & Hmm2 & Hpt2 & Hnum & Hp & Hpid & Hsize & He2). simpl.
      rewrite He2. simpl.
      destruct (access_present mm2 pt2 vpn _ isWrite Hmm2 Hpt2 (proj1 Hvpn) He2)
        as ([f Hf] & Hmm3 & Hpt3 & Hc3); [simpl in *; congruence|].
      simpl in Hf. rewrite Hf. simpl. do 4 eexists. split; [done|].
      split; [done|]. split; [done|]. exists pfn. simpl in *. split; [congruence|].
      rewrite <- Hpid. split; [done|]. rewrite u64_add_l. destruct isWrite; simpl; by rewrite Hsize.
Qed.


(** ** Examples *)
Lemma idx_frames n i : 0 ≤ i < n → idx (emptyFrame <$> seqZ 0 n) i = Some (emptyFrame i).
Proof.
  intros Hi. apply idx_Some. split; [lia|]. rewrite list_lookup_fmap, lookup_seqZ_lt by lia.
  simpl. do 2 f_equal. lia.
Qed.

Lemma new_mm_inv n policy c : mm_inv (NewMemoryManager n policy c).
Proof.
  unfold NewMemoryManager. set (k := if n <=? 0 then 4 else n).
  assert (Hk : 0 < k) by (subst k; destruct (Z.leb_spec n 0); lia).
  assert (Hlen : len (emptyFrame <$> seqZ 0 k) = k).
  { unfold len. rewrite length_fmap, length_seqZ. lia. }
  split; simpl.
  - split; simpl; [done..|lia|]. intros i f Hf.
    assert (0 ≤ i < k) by (rewrite <- Hlen; apply (idx_lt (emptyFrame <$> seqZ 0 k)); eauto).
    rewrite idx_frames in Hf by done. by simplify_eq.
  - apply new_tlb_wf.
  - intros pid vpn pfn Hc. apply cached_Some in Hc as (i & e & Hi & Hh & _); [|apply new_tlb_wf].
    simpl in Hi. apply lookup_replicate in Hi as [-> _]. done.
  - done.
  - rewrite Z.add_0_r. unfold occupied. symmetry.
    assert (∀ l : list Z, sumZ (λ f, if IsOccupied f then 1 else 0) (emptyFrame <$> l) = 0)
      as ->; [|done]. induction l as [|z l IH]; [done|].
    rewrite fmap_cons. unfold sumZ in *. cbn [foldr]. by rewrite IH.
  - done.
Qed.

(** Three pages, none of them in memory. *)
Definition swapped_pt : PageTable :=
  mkPageTable 1 4096 (replicate 3 (zeroPTE <| Valid := true |> <| ReadWrite := true |>)) 3.

Lemma swapped_pt_ok mm : wf_pt swapped_pt ∧ pt_ok mm swapped_pt.
Proof.
  split; [done|]. intros vpn e [_ He]%idx_Some _ Hp. simpl in He.
  destruct (Z.to_nat vpn) as [|[|[|]]]; simpl in He; by simplify_eq.
Qed.

Lemma allocateFrame_spec_witness :
  ∃ pfn evictedVPN wasEvicted mm',
    allocateFrame 1 7 (NewMemoryManager 2 PolicyClock 4) =
      Some (pfn, evictedVPN, wasEvicted, mm') ∧
    allocated (NewMemoryManager 2 PolicyClock 4) mm' 1 7 pfn evictedVPN wasEvicted.
Proof.
  apply (allocateFrame_spec (NewMemoryManager 2 PolicyClock 4) 1 7). apply new_mm_inv.
Defined.


(** A run of accesses. *)
Fixpoint accesses (pt : PageTable) (vs : list (Z * bool)) (mm : MemoryManager)
    : option (list (Z * option error) * PageTable * MemoryManager) :=
  match vs with
  | [] => Some ([], pt, mm)
  | (v, w) :: vs =>
      '(p, err, pt, mm) ← AccessMemory pt v w mm;
      '(rs, pt, mm) ← accesses pt vs mm;
      Some ((p, err) :: rs, pt, mm)
  end.

(** An eviction does not invalidate the victim's page table entry and
    translation: with one frame, after page 0 and page 1 have been loaded into
    it in turn, an access to page 0 does not fault and gives the same physical
    address as page 1, under every policy. *)
Theorem eviction_leaves_stale_translation :
  Forall (λ policy, ∃ pt mm,
    accesses swapped_pt [(0, true); (4096, true); (0, false)] (NewMemoryManager 1 policy 4) =
      Some ([(0, None); (0, None); (0, None)], pt, mm) ∧
    PageFaults mm = 2 ∧ PageEvictions mm = 1 ∧
    fi_VPN <$> Frames mm = [1])
  [PolicyFIFO; PolicyLRU; PolicyClock].
Proof.
  repeat constructor; do 2 eexists; (split; [vm_compute; reflexivity|]); by vm_compute.
Qed.
