(* ===== verification/FreeList.v ===== *)
(** * The free-list heap allocator

    Models [FreeListAllocator] of [src/pkg/memory/allocator.go] on two levels.
    [Malloc] and [Free] work on the doubly linked list of block headers as the
    source does, with the headers in a store indexed by pointers; [lMalloc] and
    [lFree] work on the sequence of blocks.  The first part of the file proves
    that the pointer program implements the list program, the second part the
    properties of the allocator on the list program. *)

From S2P Require Import Prelude.

Definition ErrOutOfMemory : error :=
  errors_New "out of memory: insufficient contiguous memory".
Definition ErrInvalidFree : error :=
  errors_New "invalid free: address was not allocated".

Abbreviation bloc := nat (only parsing).

Record BlockHeader := mkBlock {
  Addr : Z; Size : Z; IsAllocated : bool; Next : option bloc; Prev : option bloc }.
#[export] Instance eta_BlockHeader : Eta BlockHeader := λ b,
  mkBlock (Addr b) (Size b) (IsAllocated b) (Next b) (Prev b).

Abbreviation store := (gmap nat BlockHeader) (only parsing).

(** The allocator, with the store its pointers refer to. *)
Record FreeListAllocator := mkFLA {
  HeapStart : Z; TotalSize : Z; Head : option bloc; AllocatedBytes : Z;
  AllocationsCount : Z; blocks : store }.
#[export] Instance eta_FreeListAllocator : Eta FreeListAllocator := λ a,
  mkFLA (HeapStart a) (TotalSize a) (Head a) (AllocatedBytes a) (AllocationsCount a)
    (blocks a).

Definition NewFreeListAllocator (startAddr totalSize : Z) : FreeListAllocator :=
  mkFLA startAddr totalSize (Some 0%nat) 0 0
    {[ 0%nat := mkBlock startAddr totalSize false None None ]}.

(** ** Malloc *)
Definition fits (size : Z) (b : BlockHeader) : bool :=
  negb (IsAllocated b) && (size <=? Size b).

(** The two search loops.  The outer option is for a dangling pointer or an
    exhausted fuel; the inner one is the variable [chosen]. *)
Fixpoint firstFitLoop (fuel : nat) (st : store) (size : Z) (curr : option bloc)
    : option (option bloc) :=
  match curr with
  | None => Some None
  | Some c =>
      match fuel with
      | O => None
      | S fuel =>
          b ← st !! c;
          if fits size b then Some (Some c) else firstFitLoop fuel st size (Next b)
      end
  end.

Fixpoint bestFitLoop (fuel : nat) (st : store) (size : Z) (curr chosen : option bloc)
    : option (option bloc) :=
  match curr with
  | None => Some chosen
  | Some c =>
      match fuel with
      | O => None
      | S fuel =>
          b ← st !! c;
          better ← match chosen with
                   | None => Some true
                   | Some k => bk ← st !! k; Some (Size b <? Size bk)
                   end;
          bestFitLoop fuel st size (Next b)
            (if fits size b && better then Some c else chosen)
      end
  end.

Definition search (size : Z) (bestFit : bool) (a : FreeListAllocator) : option (option bloc) :=
  let fuel := base.size (blocks a) in
  if bestFit then bestFitLoop fuel (blocks a) size (Head a) None
  else firstFitLoop fuel (blocks a) size (Head a).

(** Writing a field of the block behind a pointer that may be nil. *)
Definition setPrev (o p : option bloc) (st : store) : store :=
  match o with Some l => alter (λ b, b <| Prev := p |>) l st | None => st end.

Definition split (c : bloc) (b : BlockHeader) (size : Z) (st : store) : store :=
  let r := fresh (dom st) in
  let remaining := mkBlock (u64 (Addr b + size)) (u64 (Size b - size)) false (Next b) (Some c) in
  let st := <[r := remaining]> st in
  let st := setPrev (Next b) (Some r) st in
  alter (λ b, b <| Next := Some r |> <| Size := size |>) c st.

Definition Malloc (size : Z) (bestFit : bool) (a : FreeListAllocator)
    : option (Z * option error * FreeListAllocator) :=
  if size =? 0 then Some (0, None, a) else
  chosen ← search size bestFit a;
  match chosen with
  | None =>
      Some (0, Some (Errorf_w ErrOutOfMemory (": cannot allocate " +:+ fmt_d size +:+
              " bytes (external fragmentation or heap exhaustion)")), a)
  | Some c =>
      b ← blocks a !! c;
      let st := if u64 (size + 16) <? Size b then split c b size (blocks a) else blocks a in
      let st := alter (λ b, b <| IsAllocated := true |>) c st in
      b ← st !! c;
      Some (Addr b, None,
            a <| blocks := st |> <| AllocatedBytes ::= λ n, u64 (n + Size b) |>
              <| AllocationsCount ::= Z.succ |>)
  end.

(** ** Free *)
Fixpoint findAddr (fuel : nat) (st : store) (addr : Z) (curr : option bloc)
    : option (option bloc) :=
  match curr with
  | None => Some None
  | Some c =>
      match fuel with
      | O => None
      | S fuel =>
          b ← st !! c;
          if Addr b =? addr then Some (Some c) else findAddr fuel st addr (Next b)
      end
  end.

(** Merging [curr] with the following block, and with the preceding one, if
    these are free. *)
Definition coalesceNext (c : bloc) (st : store) : option store :=
  b ← st !! c;
  match Next b with
  | None => Some st
  | Some n =>
      bn ← st !! n;
      if IsAllocated bn then Some st else
      let st := alter (λ b, b <| Size := u64 (Size b + Size bn) |> <| Next := Next bn |>) c st in
      Some (setPrev (Next bn) (Some c) st)
  end.

Definition coalescePrev (c : bloc) (st : store) : option store :=
  b ← st !! c;
  match Prev b with
  | None => Some st
  | Some p =>
      bp ← st !! p;
      if IsAllocated bp then Some st else
      let st := alter (λ bp, bp <| Size := u64 (Size bp + Size b) |> <| Next := Next b |>) p st in
      Some (setPrev (Next b) (Some p) st)
  end.

Definition Free (addr : Z) (a : FreeListAllocator) : option (option error * FreeListAllocator) :=
  found ← findAddr (base.size (blocks a)) (blocks a) addr (Head a);
  match found with
  | None => Some (Some (Errorf_w ErrInvalidFree (": pointer 0x" +:+ fmt_X addr +:+ " not found")), a)
  | Some c =>
      b ← blocks a !! c;
      if negb (IsAllocated b) then
        Some (Some (Errorf_w ErrInvalidFree (": double free at 0x" +:+ fmt_X addr)), a)
      else
      let st := alter (λ b, b <| IsAllocated := false |>) c (blocks a) in
      st ← coalesceNext c st;
      st ← coalescePrev c st;
      Some (None, a <| blocks := st |> <| AllocatedBytes ::= λ n, u64 (n - Size b) |>)
  end.

(** ** The list program *)
Record blk := mkBlk { bAddr : Z; bSize : Z; bAlloc : bool }.

Definition lfits (size : Z) (k : blk) : bool := negb (bAlloc k) && (size <=? bSize k).

Definition lFirst (size : Z) (bs : list blk) : option nat :=
  fst <$> list_find (λ k, lfits size k = true) bs.

(** The index and size of the best block so far. *)
Fixpoint lBestLoop (size : Z) (bs : list blk) (i : nat) (chosen : option (nat * Z))
    : option nat :=
  match bs with
  | [] => fst <$> chosen
  | k :: bs =>
      let better := match chosen with None => true | Some (_, z) => bSize k <? z end in
      lBestLoop size bs (S i) (if lfits size k && better then Some (i, bSize k) else chosen)
  end.

Definition lChoose (size : Z) (bestFit : bool) (bs : list blk) : option nat :=
  if bestFit then lBestLoop size bs 0 None else lFirst size bs.

Definition lAlloc (size : Z) (k : blk) : list blk :=
  if u64 (size + 16) <? bSize k
  then [mkBlk (bAddr k) size true; mkBlk (u64 (bAddr k + size)) (u64 (bSize k - size)) false]
  else [mkBlk (bAddr k) (bSize k) true].

(** The address and size of the block handed out, and the new blocks. *)
Definition lGrant (size : Z) (k : blk) : Z :=
  if u64 (size + 16) <? bSize k then size else bSize k.

Definition lMalloc (size : Z) (bestFit : bool) (bs : list blk) : option (Z * Z * list blk) :=
  i ← lChoose size bestFit bs;
  k ← bs !! i;
  Some (bAddr k, lGrant size k, take i bs ++ lAlloc size k ++ drop (S i) bs).

(** Merging a block that has just been freed with its neighbours. *)
Definition lMergeNext (k : blk) (after : list blk) : blk * list blk :=
  match after with
  | n :: rest => if bAlloc n then (k, after)
                 else (mkBlk (bAddr k) (u64 (bSize k + bSize n)) (bAlloc k), rest)
  | [] => (k, after)
  end.

Definition lMergePrev (before : list blk) (k : blk) (after : list blk) : list blk :=
  match last before with
  | Some p => if bAlloc p then before ++ k :: after
              else removelast before ++
                   mkBlk (bAddr p) (u64 (bSize p + bSize k)) (bAlloc p) :: after
  | None => before ++ k :: after
  end.

Definition lFreeAt (i : nat) (k : blk) (bs : list blk) : list blk :=
  let '(k', after) := lMergeNext (mkBlk (bAddr k) (bSize k) false) (drop (S i) bs) in
  lMergePrev (take i bs) k' after.

Inductive free_result := FreeNotFound | FreeDouble | FreeDone (size : Z) (bs : list blk).

Definition lFree (addr : Z) (bs : list blk) : free_result :=
  match list_find (λ k, bAddr k = addr) bs with
  | None => FreeNotFound
  | Some (i, k) => if bAlloc k then FreeDone (bSize k) (lFreeAt i k bs) else FreeDouble
  end.

(** The allocator over a sequence of blocks. *)
Record Heap := mkHeap {
  hStart : Z; hTotal : Z; hBytes : Z; hCount : Z; hBlocks : list blk }.
#[export] Instance eta_Heap : Eta Heap := λ h,
  mkHeap (hStart h) (hTotal h) (hBytes h) (hCount h) (hBlocks h).

Definition hNew (start total : Z) : Heap := mkHeap start total 0 0 [mkBlk start total false].

Definition errNoFit (size : Z) : error :=
  Errorf_w ErrOutOfMemory (": cannot allocate " +:+ fmt_d size +:+
    " bytes (external fragmentation or heap exhaustion)").
Definition errNotFound (addr : Z) : error :=
  Errorf_w ErrInvalidFree (": pointer 0x" +:+ fmt_X addr +:+ " not found").
Definition errDouble (addr : Z) : error :=
  Errorf_w ErrInvalidFree (": double free at 0x" +:+ fmt_X addr).

Definition hMalloc (size : Z) (bestFit : bool) (h : Heap) : Z * option error * Heap :=
  if size =? 0 then (0, None, h) else
  match lMalloc size bestFit (hBlocks h) with
  | None => (0, Some (errNoFit size), h)
  | Some (addr, granted, bs) =>
      (addr, None, h <| hBlocks := bs |> <| hBytes ::= λ n, u64 (n + granted) |>
                     <| hCount ::= Z.succ |>)
  end.

Definition hFree (addr : Z) (h : Heap) : option error * Heap :=
  match lFree addr (hBlocks h) with
  | FreeNotFound => (Some (errNotFound addr), h)
  | FreeDouble => (Some (errDouble addr), h)
  | FreeDone size bs => (None, h <| hBlocks := bs |> <| hBytes ::= λ n, u64 (n - size) |>)
  end.

(** ** Doubly linked lists *)
Definition first (ls : list bloc) (q : option bloc) : option bloc :=
  match ls with [] => q | l :: _ => Some l end.

Definition lastof (p : option bloc) (ls : list bloc) : option bloc :=
  match last ls with Some l => Some l | None => p end.

Definition header (k : blk) (n p : option bloc) : BlockHeader :=
  mkBlock (bAddr k) (bSize k) (bAlloc k) n p.

(** [seg st p ls bs q]: the pointers [ls] form a list segment with contents
    [bs], preceded by [p] and followed by [q]. *)
Fixpoint seg (st : store) (p : option bloc) (ls : list bloc) (bs : list blk)
    (q : option bloc) : Prop :=
  match ls, bs with
  | [], [] => True
  | l :: ls, k :: bs => st !! l = Some (header k (first ls q) p) ∧ seg st (Some l) ls bs q
  | _, _ => False
  end.

Lemma seg_length st p ls bs q : seg st p ls bs q → length ls = length bs.
Proof.
  revert p bs. induction ls as [|l ls IH]; intros p [|k bs]; simpl; try done.
  intros [_ Hs]. f_equal. by eapply IH.
Qed.

Lemma lastof_cons p l ls : lastof p (l :: ls) = lastof (Some l) ls.
Proof.
  unfold lastof. destruct ls as [|x ls]; [done|].
  rewrite last_cons. by destruct (last (x :: ls)) eqn:E; [|apply last_None in E].
Qed.

Lemma seg_app st p l1 l2 b1 b2 q :
  length l1 = length b1 →
  seg st p (l1 ++ l2) (b1 ++ b2) q ↔
  seg st p l1 b1 (first l2 q) ∧ seg st (lastof p l1) l2 b2 q.
Proof.
  revert p b1. induction l1 as [|l l1 IH]; intros p [|k b1] Hlen; simpl in *; try done.
  - unfold lastof. simpl. tauto.
  - rewrite IH by lia. rewrite lastof_cons.
    assert (first (l1 ++ l2) q = first l1 (first l2 q)) as -> by by destruct l1. tauto.
Qed.

(** A segment only depends on the blocks it consists of. *)
Lemma seg_ext st st' p ls bs q :
  (∀ l, l ∈ ls → st' !! l = st !! l) → seg st p ls bs q → seg st' p ls bs q.
Proof.
  revert p bs. induction ls as [|l ls IH]; intros p [|k bs] He; simpl; try done.
  intros [Hl Hs]. split; [by rewrite He by left|]. apply IH; [|done]. intros. apply He. by right.
Qed.

Lemma setPrev_ne o p st l : o ≠ Some l → setPrev o p st !! l = st !! l.
Proof. destruct o as [k|]; simpl; [|done]. intros. by rewrite lookup_alter_ne by congruence. Qed.

(** Redirecting the back pointer of the first block of a segment. *)
Lemma seg_setPrev st p p' ls bs :
  NoDup ls → seg st p ls bs None → seg (setPrev (first ls None) p' st) p' ls bs None.
Proof.
  intros Hnd. destruct ls as [|l ls], bs as [|k bs]; simpl; try done.
  intros [Hl Hs]. apply NoDup_cons in Hnd as [Hnl _]. split.
  - by rewrite lookup_alter_eq, Hl.
  - eapply seg_ext; [|done]. intros x Hx. rewrite lookup_alter_ne; [done|].
    intros ->. done.
Qed.

(** ** The pointer program implements the list program *)
Record repr (a : FreeListAllocator) (ls : list bloc) (bs : list blk) : Prop := mk_repr {
  rp_head : Head a = first ls None;
  rp_nodup : NoDup ls;
  rp_seg : seg (blocks a) None ls bs None }.

Record refines (a : FreeListAllocator) (h : Heap) : Prop := mk_refines {
  rf_start : HeapStart a = hStart h;
  rf_total : TotalSize a = hTotal h;
  rf_bytes : AllocatedBytes a = hBytes h;
  rf_count : AllocationsCount a = hCount h;
  rf_repr : ∃ ls, repr a ls (hBlocks h) }.

Lemma seg_dom st p ls bs q l : seg st p ls bs q → l ∈ ls → l ∈ dom st.
Proof.
  revert p bs. induction ls as [|x ls IH]; intros p [|k bs]; simpl; try done.
  { by intros _ ?%elem_of_nil. }
  intros [Hx Hs] [->|Hl]%elem_of_cons; [by apply elem_of_dom; eauto|by eapply IH].
Qed.

Lemma repr_fuel a ls bs : repr a ls bs → (length ls ≤ base.size (blocks a))%nat.
Proof.
  intros [_ Hnd Hs]. rewrite <- (size_dom (blocks a)), <- (size_list_to_set (C := gset nat)) by done.
  apply subseteq_size. intros l Hl%elem_of_list_to_set. by eapply seg_dom.
Qed.

Lemma fits_header size k n p : fits size (header k n p) = lfits size k.
Proof. done. Qed.

Lemma firstFit_refines st size fuel p ls bs :
  seg st p ls bs None → (length ls ≤ fuel)%nat →
  firstFitLoop fuel st size (first ls None) = Some (lFirst size bs ≫= λ i, ls !! i).
Proof.
  revert p ls bs. induction fuel as [|fuel IH]; intros p [|l ls] [|k bs] Hs Hf;
    simpl in *; try done; try lia.
  destruct Hs as [Hl Hs]. rewrite Hl. simpl. rewrite fits_header. unfold lFirst. simpl.
  case_decide as E; [by rewrite E|]. apply not_true_iff_false in E. rewrite E.
  rewrite (IH _ _ _ Hs) by lia. unfold lFirst.
  by destruct (list_find _ bs) as [[]|].
Qed.

Lemma bestFit_refines st size fuel pre p ls bs ch chosen :
  seg st p ls bs None → (length ls ≤ fuel)%nat →
  match chosen with
  | None => ch = None
  | Some (j, z) => ∃ l b, ch = Some l ∧ (pre ++ ls) !! j = Some l ∧ st !! l = Some b ∧ Size b = z
  end →
  bestFitLoop fuel st size (first ls None) ch =
    Some (lBestLoop size bs (length pre) chosen ≫= λ i, (pre ++ ls) !! i).
Proof.
  revert pre p ls bs ch chosen.
  induction fuel as [|fuel IH]; intros pre p [|l ls] [|k bs] ch chosen Hs Hf Hch;
    simpl in *; try done; try lia.
  1,2: destruct chosen as [[j z]|]; simpl; [|by subst];
    destruct Hch as (l & b & -> & Hj & _); by rewrite Hj.
  destruct Hs as [Hl Hs]. rewrite Hl. simpl. rewrite fits_header.
  replace (S (length pre)) with (length (pre ++ [l])) by (rewrite length_app; simpl; lia).
  replace (pre ++ l :: ls) with ((pre ++ [l]) ++ ls) in * by (by rewrite <- app_assoc).
  assert (Hbetter : match ch with
                    | None => Some true
                    | Some c => bk ← st !! c; Some (bSize k <? Size bk)
                    end = Some match chosen with None => true | Some (_, z) => bSize k <? z end).
  { destruct chosen as [[j z]|]; [|by subst].
    destruct Hch as (c & b & -> & _ & Hb & <-). by rewrite Hb. }
  rewrite Hbetter. simpl. apply (IH _ _ _ _ _ _ Hs); [lia|].
  destruct (lfits size k && _); [|done]. exists l, (header k (first ls None) p).
  split; [done|]. split; [|done]. rewrite <- app_assoc. by apply list_lookup_middle.
Qed.

Lemma search_refines a ls bs size bestFit :
  repr a ls bs → search size bestFit a = Some (lChoose size bestFit bs ≫= λ i, ls !! i).
Proof.
  intros Hr. pose proof (repr_fuel _ _ _ Hr) as Hf. destruct Hr as [Hh _ Hs].
  unfold search, lChoose. rewrite Hh. destruct bestFit.
  - by apply (bestFit_refines _ _ _ [] None ls bs None None).
  - by eapply firstFit_refines.
Qed.

(** [chosen] is the smallest block of [bs] that fits, if there is one. *)
Definition best_of (size : Z) (bs : list blk) (chosen : option (nat * Z)) : Prop :=
  match chosen with
  | None => ∀ k, k ∈ bs → lfits size k = false
  | Some (j, z) => (∃ k, bs !! j = Some k ∧ lfits size k = true ∧ bSize k = z) ∧
                   ∀ k, k ∈ bs → lfits size k = true → z ≤ bSize k
  end.

Lemma best_of_snoc size bs chosen x :
  best_of size bs chosen →
  best_of size (bs ++ [x])
    (if lfits size x && match chosen with None => true | Some (_, z) => bSize x <? z end
     then Some (length bs, bSize x) else chosen).
Proof.
  intros Hb. destruct (lfits size x) eqn:E; simpl.
  - destruct chosen as [[j z]|]; simpl in *.
    + destruct Hb as [(k & Hj & Hk & Hz) Hmin]. destruct (Z.ltb_spec (bSize x) z); split.
      * exists x. split; [by apply list_lookup_middle|done].
      * intros y [Hy| ->%list_elem_of_singleton]%elem_of_app ?; [|lia]. transitivity z; [lia|auto].
      * exists k. split; [|done]. rewrite lookup_app_l; [done|by eapply lookup_lt_Some].
      * intros y [Hy| ->%list_elem_of_singleton]%elem_of_app ?; [auto|lia].
    + split.
      * exists x. split; [by apply list_lookup_middle|done].
      * intros y [Hy| ->%list_elem_of_singleton]%elem_of_app ?; [|lia].
        rewrite Hb in *; done.
  - destruct chosen as [[j z]|]; simpl in *.
    + destruct Hb as [(k & Hj & Hk & Hz) Hmin]. split.
      * exists k. split; [|done]. rewrite lookup_app_l; [done|by eapply lookup_lt_Some].
      * intros y [Hy| ->%list_elem_of_singleton]%elem_of_app ?; [auto|congruence].
    + intros y [Hy| ->%list_elem_of_singleton]%elem_of_app; auto.
Qed.

Lemma lBestLoop_spec size pre bs chosen :
  best_of size pre chosen →
  ∃ c, lBestLoop size bs (length pre) chosen = fst <$> c ∧ best_of size (pre ++ bs) c.
Proof.
  revert pre chosen. induction bs as [|x bs IH]; intros pre chosen Hch; simpl.
  { exists chosen. by rewrite app_nil_r. }
  replace (S (length pre)) with (length (pre ++ [x])) by (rewrite length_app; simpl; lia).
  replace (pre ++ x :: bs) with ((pre ++ [x]) ++ bs) by (by rewrite <- app_assoc).
  apply IH. by apply best_of_snoc.
Qed.

(** The block a search chooses. *)
Definition policy_ok (size : Z) (bestFit : bool) (bs : list blk) (i : nat) (k : blk) : Prop :=
  if bestFit then ∀ k', k' ∈ bs → lfits size k' = true → bSize k ≤ bSize k'
  else ∀ k', k' ∈ take i bs → lfits size k' = false.

Lemma lChoose_spec size bestFit bs :
  match lChoose size bestFit bs with
  | None => ∀ k, k ∈ bs → lfits size k = false
  | Some i => ∃ k, bs !! i = Some k ∧ lfits size k = true ∧ policy_ok size bestFit bs i k
  end.
Proof.
  unfold lChoose, policy_ok. destruct bestFit.
  - destruct (lBestLoop_spec size [] bs None) as (c & Hc & Hb); [by intros ? ?%elem_of_nil|].
    simpl in Hc, Hb. rewrite Hc. destruct c as [[j z]|]; simpl in *; [|done].
    destruct Hb as [(k & ? & ? & <-) ?]. eauto.
  - unfold lFirst. destruct (list_find _ bs) as [[j k]|] eqn:E; simpl.
    + apply list_find_Some in E as (? & ? & Hb). exists k. split_and!; [done..|].
      intros k' (n & Hn & Hlt)%elem_of_take. apply not_true_iff_false. by eapply Hb.
    + apply list_find_None in E. rewrite Forall_forall in E. intros k Hk.
      apply not_true_iff_false. by apply E.
Qed.

Lemma lChoose_fits size bestFit bs i :
  lChoose size bestFit bs = Some i → ∃ k, bs !! i = Some k ∧ lfits size k = true.
Proof.
  intros Hi. pose proof (lChoose_spec size bestFit bs) as H. rewrite Hi in H.
  destruct H as (k & ? & ? & _). eauto.
Qed.

Lemma seg_mid st p l1 c l2 b1 k b2 :
  length l1 = length b1 →
  seg st p (l1 ++ c :: l2) (b1 ++ k :: b2) None ↔
  seg st p l1 b1 (Some c) ∧ st !! c = Some (header k (first l2 None) (lastof p l1)) ∧
  seg st (Some c) l2 b2 None.
Proof. intros Hl. rewrite seg_app by done. done. Qed.

(** A block of the list, with the pointers and the blocks around it. *)
Lemma seg_lookup st p ls bs i k :
  seg st p ls bs None → bs !! i = Some k →
  ∃ c, ls !! i = Some c ∧ ls = take i ls ++ c :: drop (S i) ls ∧
    bs = take i bs ++ k :: drop (S i) bs ∧ length (take i ls) = length (take i bs) ∧
    st !! c = Some (header k (first (drop (S i) ls) None) (lastof p (take i ls))).
Proof.
  intros Hs Hk. pose proof (seg_length _ _ _ _ _ Hs) as Hl.
  destruct (lookup_lt_is_Some_2 ls i) as [c Hc].
  { rewrite Hl. by eapply lookup_lt_Some. }
  assert (Hl' : length (take i ls) = length (take i bs)) by (rewrite !length_take; lia).
  pose proof (take_drop_middle _ _ _ Hc) as Ec. pose proof (take_drop_middle _ _ _ Hk) as Ek.
  exists c. split_and!; [done..|]. rewrite <- Ec, <- Ek in Hs.
  by apply seg_mid in Hs as (_ & ? & _).
Qed.

Lemma NoDup_mid (l1 : list bloc) c l2 :
  NoDup (l1 ++ c :: l2) ↔ NoDup (l1 ++ l2) ∧ (c ∉ l1) ∧ (c ∉ l2).
Proof.
  rewrite <- Permutation_middle, NoDup_cons, not_elem_of_app. tauto.
Qed.

(** Changing the contents of one block. *)
Lemma seg_alter st p l1 c l2 b1 k k' b2 f :
  NoDup (l1 ++ c :: l2) → length l1 = length b1 →
  (∀ n q, f (header k n q) = header k' n q) →
  seg st p (l1 ++ c :: l2) (b1 ++ k :: b2) None →
  seg (alter f c st) p (l1 ++ c :: l2) (b1 ++ k' :: b2) None.
Proof.
  intros (_ & H1 & H2)%NoDup_mid Hl Hf (Hs1 & Hc & Hs2)%seg_mid; [|done].
  apply seg_mid; [done|]. split_and!.
  - eapply seg_ext; [|done]. intros x Hx. rewrite lookup_alter_ne; [done|]. by intros ->.
  - by rewrite lookup_alter_eq, Hc, <- Hf.
  - eapply seg_ext; [|done]. intros x Hx. rewrite lookup_alter_ne; [done|]. by intros ->.
Qed.

Lemma lastof_snoc p l1 c : lastof p (l1 ++ [c]) = Some c.
Proof. unfold lastof. by rewrite last_snoc. Qed.

(** Splitting a block inserts the remaining block after it. *)
Lemma seg_split st l1 c l2 b1 k b2 size :
  NoDup (l1 ++ c :: l2) → length l1 = length b1 →
  seg st None (l1 ++ c :: l2) (b1 ++ k :: b2) None →
  ∃ r, NoDup (l1 ++ c :: r :: l2) ∧
    seg (split c (header k (first l2 None) (lastof None l1)) size st) None
      (l1 ++ c :: r :: l2)
      (b1 ++ mkBlk (bAddr k) size (bAlloc k) ::
             mkBlk (u64 (bAddr k + size)) (u64 (bSize k - size)) false :: b2) None.
Proof.
  intros Hnd Hl Hs. pose proof Hnd as (Hnd' & H1 & H2)%NoDup_mid.
  set (r := fresh (dom st)). assert (Hr : r ∉ l1 ++ c :: l2).
  { intros Hr. eapply seg_dom in Hr; [|done]. by apply is_fresh in Hr. }
  apply not_elem_of_app in Hr as [Hr1 [Hrc Hr2]%not_elem_of_cons].
  apply seg_mid in Hs as (Hs1 & Hc & Hs2); [|done].
  assert (Hfn : ∀ x, x ∉ l2 → first l2 None ≠ Some x).
  { intros x Hx. destruct l2; simpl; [done|]. intros [= ->]. by apply Hx; left. }
  exists r. split.
  { replace (l1 ++ c :: r :: l2) with ((l1 ++ [c]) ++ r :: l2) by (by rewrite <- app_assoc).
    rewrite NoDup_mid, <- app_assoc. split; [done|]. split; [|done].
    rewrite not_elem_of_app, list_elem_of_singleton. done. }
  unfold split, header at 1 2 3 4. cbn [Addr Size Next]. fold r. apply seg_mid; [done|]. split_and!.
  - eapply seg_ext; [|done]. intros x Hx.
    assert (x ≠ c ∧ x ≠ r) as [? ?] by (split; by intros ->).
    rewrite lookup_alter_ne by done. rewrite setPrev_ne.
    + by rewrite lookup_insert_ne by done.
    + apply Hfn. intros Hx2. rewrite NoDup_app in Hnd. destruct Hnd as (_ & Hd & _).
      eapply (Hd x Hx). by right.
  - rewrite lookup_alter_eq, setPrev_ne by auto. by rewrite lookup_insert_ne, Hc by done.
  - simpl. split.
    + rewrite lookup_alter_ne, setPrev_ne by auto. by rewrite lookup_insert_eq.
    + apply (seg_ext (setPrev (first l2 None) (Some r) (<[r:=mkBlock (u64 (bAddr k + size))
        (u64 (bSize k - size)) false (first l2 None) (Some c)]> st))).
      { intros x Hx. rewrite lookup_alter_ne; [done|]. by intros ->. }
      apply seg_setPrev with (Some c).
      { apply NoDup_app in Hnd as (_ & _ & Hnd). by apply NoDup_cons in Hnd as [_ ?]. }
      eapply seg_ext; [|done]. intros x Hx. rewrite lookup_insert_ne; [done|]. by intros <-.
Qed.

(** What one call does to the blocks when it has chosen the block [c]. *)
Lemma alloc_refines st l1 c l2 b1 k b2 size :
  NoDup (l1 ++ c :: l2) → length l1 = length b1 →
  seg st None (l1 ++ c :: l2) (b1 ++ k :: b2) None →
  let b := header k (first l2 None) (lastof None l1) in
  let st' := alter (λ b, b <| IsAllocated := true |>) c
               (if u64 (size + 16) <? Size b then split c b size st else st) in
  ∃ l2', NoDup (l1 ++ c :: l2') ∧ first (l1 ++ c :: l2') None = first (l1 ++ c :: l2) None ∧
    seg st' None (l1 ++ c :: l2') (b1 ++ lAlloc size k ++ b2) None ∧
    ∃ b', st' !! c = Some b' ∧ Addr b' = bAddr k ∧ Size b' = lGrant size k.
Proof.
  intros Hnd Hl Hs b st'.
  assert (∃ l2' k' b2', NoDup (l1 ++ c :: l2') ∧
    lAlloc size k ++ b2 = k' :: b2' ∧ bAddr k' = bAddr k ∧ bSize k' = lGrant size k ∧
    seg st' None (l1 ++ c :: l2') (b1 ++ k' :: b2') None)
    as (l2' & k' & b2' & Hnd' & -> & Ha & Hg & Hs').
  { subst st' b. unfold lAlloc, lGrant. cbn [Size header].
    destruct (_ <? _).
    - destruct (seg_split _ _ _ _ _ _ _ size Hnd Hl Hs) as (r & Hnd' & Hs').
      exists (r :: l2). do 2 eexists. split; [done|]. split; [reflexivity|].
      do 2 (split; [done|]). by eapply seg_alter; [..|exact Hs'].
    - exists l2. do 2 eexists. split; [done|]. split; [reflexivity|].
      do 2 (split; [done|]). by eapply seg_alter; [..|exact Hs]. }
  exists l2'. split_and!; [done|by destruct l1|done|].
  apply seg_mid in Hs' as (_ & -> & _); [|done]. eexists. split; [done|]. done.
Qed.

Lemma Malloc_refines a h size bestFit :
  refines a h →
  ∃ a', Malloc size bestFit a =
          Some (fst (hMalloc size bestFit h), a') ∧ refines a' (snd (hMalloc size bestFit h)).
Proof.
  intros Href. pose proof Href as [Hst Htot Hby Hcnt [ls Hr]]. unfold Malloc, hMalloc.
  destruct (size =? 0); [by exists a|].
  rewrite (search_refines _ _ _ _ _ Hr). cbn [mbind option_bind]. unfold lMalloc.
  destruct (lChoose _ _ _) as [i|] eqn:Hi; cbn [mbind option_bind]; [|by exists a].
  destruct (lChoose_fits _ _ _ _ Hi) as (k & Hk & _). rewrite Hk. cbn [mbind option_bind].
  destruct Hr as [Hh Hnd Hs].
  destruct (seg_lookup _ _ _ _ _ _ Hs Hk) as (c & Hc & El & Eb & Hlen & Hst'). rewrite Hc.
  cbn [mbind option_bind]. rewrite Hst'. cbn [mbind option_bind].
  rewrite El in Hnd. rewrite El, Eb in Hs.
  destruct (alloc_refines _ _ _ _ _ _ _ size Hnd Hlen Hs)
    as (l2' & Hnd' & Hf & Hs' & b' & Hb' & Ha & Hg).
  rewrite Hb'. cbn [mbind option_bind]. rewrite Ha, Hg. eexists. split; [reflexivity|].
  split; simpl; [done|done|by rewrite Hby|by rewrite Hcnt|].
  eexists. split; simpl; [|exact Hnd'|exact Hs']. by rewrite Hf, <- El.
Qed.

Lemma findAddr_refines st addr fuel p ls bs :
  seg st p ls bs None → (length ls ≤ fuel)%nat →
  findAddr fuel st addr (first ls None) =
    Some ((fst <$> list_find (λ k, bAddr k = addr) bs) ≫= λ i, ls !! i).
Proof.
  revert p ls bs. induction fuel as [|fuel IH]; intros p [|l ls] [|k bs] Hs Hf;
    simpl in *; try done; try lia.
  destruct Hs as [Hl Hs]. rewrite Hl. simpl.
  case_decide as E; [by rewrite (proj2 (Z.eqb_eq _ _) E)|].
  rewrite (proj2 (Z.eqb_neq _ _) E), (IH _ _ _ Hs) by lia.
  by destruct (list_find _ bs) as [[]|].
Qed.

(** Unlinking the block [y] and giving its bytes to the block [x] before it. *)
Lemma seg_unlink st l1 x y l2 b1 kx ky kx' b2 f :
  NoDup (l1 ++ x :: y :: l2) → length l1 = length b1 →
  (∀ n q, f (header kx n q) = header kx' (first l2 None) q) →
  seg st None (l1 ++ x :: y :: l2) (b1 ++ kx :: ky :: b2) None →
  seg (setPrev (first l2 None) (Some x) (alter f x st)) None (l1 ++ x :: l2) (b1 ++ kx' :: b2) None.
Proof.
  intros Hnd Hl Hf (Hs1 & Hx & [Hy Hs2])%seg_mid; [|done].
  pose proof Hnd as (_ & Hx1 & [Hxy Hx2]%not_elem_of_cons)%NoDup_mid.
  apply NoDup_app in Hnd as (_ & Hd & [_ [_ Hnd2]%NoDup_cons]%NoDup_cons).
  assert (Hfn : ∀ z, z ∉ l2 → first l2 None ≠ Some z).
  { intros z Hz. destruct l2; simpl; [done|]. intros [= ->]. by apply Hz; left. }
  apply seg_mid; [done|]. split_and!.
  - eapply seg_ext; [|done]. intros z Hz.
    rewrite setPrev_ne; [by rewrite lookup_alter_ne by (by intros ->)|].
    apply Hfn. intros Hz2. eapply (Hd z Hz). by right; right.
  - rewrite setPrev_ne by auto. by rewrite lookup_alter_eq, Hx, <- (Hf (first (y :: l2) None)).
  - apply seg_setPrev with (Some y); [done|]. eapply seg_ext; [|done]. intros z Hz.
    rewrite lookup_alter_ne; [done|]. by intros ->.
Qed.

Lemma NoDup_unlink (l1 : list bloc) x y l2 : NoDup (l1 ++ x :: y :: l2) → NoDup (l1 ++ x :: l2).
Proof.
  replace (l1 ++ x :: y :: l2) with ((l1 ++ [x]) ++ y :: l2) by (by rewrite <- app_assoc).
  rewrite (NoDup_mid (l1 ++ [x])), <- app_assoc. by intros [? _].
Qed.

Lemma coalesceNext_refines st l1 c l2 b1 k b2 :
  NoDup (l1 ++ c :: l2) → length l1 = length b1 →
  seg st None (l1 ++ c :: l2) (b1 ++ k :: b2) None →
  ∃ st' l2', coalesceNext c st = Some st' ∧ NoDup (l1 ++ c :: l2') ∧
    seg st' None (l1 ++ c :: l2') (b1 ++ fst (lMergeNext k b2) :: snd (lMergeNext k b2)) None.
Proof.
  intros Hnd Hl Hs. pose proof Hs as (_ & Hc & Hs2)%seg_mid; [|done].
  unfold coalesceNext. rewrite Hc. cbn [mbind option_bind Next header].
  destruct l2 as [|n l2], b2 as [|kn b2]; try done; [by exists st, []|].
  destruct Hs2 as [Hn Hs2]. cbn [first]. rewrite Hn. cbn [mbind option_bind IsAllocated header].
  unfold lMergeNext. destruct (bAlloc kn); cbn [fst snd]; [by exists st, (n :: l2)|].
  do 2 eexists. split; [reflexivity|]. split; [by eapply NoDup_unlink|].
  by eapply seg_unlink; [done|done| |exact Hs].
Qed.

Lemma coalescePrev_refines st l1 c l2 b1 k b2 :
  NoDup (l1 ++ c :: l2) → length l1 = length b1 →
  seg st None (l1 ++ c :: l2) (b1 ++ k :: b2) None →
  ∃ st' ls', coalescePrev c st = Some st' ∧ NoDup ls' ∧
    first ls' None = first (l1 ++ c :: l2) None ∧ seg st' None ls' (lMergePrev b1 k b2) None.
Proof.
  intros Hnd Hl Hs. pose proof Hs as (Hs1 & Hc & _)%seg_mid; [|done].
  unfold coalescePrev, lMergePrev. rewrite Hc. cbn [mbind option_bind Prev header].
  destruct l1 as [|p l1 _] using rev_ind.
  { destruct b1; [|done]. by exists st, (c :: l2). }
  destruct b1 as [|kp b1 _] using rev_ind; [rewrite length_app in Hl; simpl in Hl; lia|].
  rewrite !length_app in Hl. simpl in Hl. rewrite lastof_snoc, last_snoc, removelast_last.
  pose proof Hs1 as (_ & Hp & _)%seg_app; [|lia]. rewrite Hp.
  cbn [mbind option_bind IsAllocated header].
  destruct (bAlloc kp) eqn:Ekp; [by exists st, ((l1 ++ [p]) ++ c :: l2)|].
  rewrite <- !app_assoc in *. cbn [app] in *.
  do 2 eexists. split; [reflexivity|]. split; [by eapply NoDup_unlink|].
  split; [by destruct l1|]. eapply seg_unlink; [done|lia| |exact Hs].
  intros n q. unfold header. simpl. by rewrite Ekp.
Qed.

Lemma Free_refines a h addr :
  refines a h →
  ∃ a', Free addr a = Some (fst (hFree addr h), a') ∧ refines a' (snd (hFree addr h)).
Proof.
  intros Href. pose proof Href as [Hst Htot Hby Hcnt [ls Hr]]. unfold Free, hFree, lFree.
  pose proof (repr_fuel _ _ _ Hr) as Hf. destruct Hr as [Hh Hnd Hs].
  rewrite Hh, (findAddr_refines _ _ _ _ _ _ Hs Hf). cbn [mbind option_bind].
  destruct (list_find _ _) as [[i k]|] eqn:Hi; cbn [fmap option_fmap option_map fst mbind option_bind];
    [|by exists a].
  apply list_find_Some in Hi as (Hk & _ & _).
  destruct (seg_lookup _ _ _ _ _ _ Hs Hk) as (c & Hc & El & Eb & Hlen & Hst'). rewrite Hc.
  cbn [mbind option_bind]. rewrite Hst'. cbn [mbind option_bind IsAllocated header].
  destruct (bAlloc k) eqn:Ek; cbn [negb]; [|by exists a].
  pose proof Hnd as Hnd0. rewrite El in Hnd0. rewrite El, Eb in Hs.
  assert (Hs1 := seg_alter _ _ _ _ _ _ _ (mkBlk (bAddr k) (bSize k) false) _
    (λ b, b <| IsAllocated := false |>) Hnd0 Hlen (λ n q, eq_refl) Hs).
  destruct (coalesceNext_refines _ _ _ _ _ _ _ Hnd0 Hlen Hs1) as (st2 & l2 & E2 & Hnd2 & Hs2).
  destruct (coalescePrev_refines _ _ _ _ _ _ _ Hnd2 Hlen Hs2)
    as (st3 & ls3 & E3 & Hnd3 & Hf3 & Hs3).
  rewrite E2. cbn [mbind option_bind]. rewrite E3. cbn [mbind option_bind].
  eexists. split; [reflexivity|]. unfold lFreeAt. rewrite (surjective_pairing (lMergeNext _ _)).
  split; simpl; [done|done|by rewrite Hby|done|].
  exists ls3. split; [|done|exact Hs3]. simpl. rewrite Hf3, Hh, El at 1. by destruct (take i ls).
Qed.

(** ** The invariant of the heap *)

#[local] Arguments sumZ : simpl never.

(** The blocks tile the range from [s] to [e]. *)
Fixpoint tiled (s : Z) (bs : list blk) (e : Z) : Prop :=
  match bs with
  | [] => s = e
  | k :: bs => bAddr k = s ∧ 0 < bSize k ∧ tiled (s + bSize k) bs e
  end.

(** No two neighbouring blocks are free; [f] says that the block before the
    first one is. *)
Fixpoint coalesced (f : bool) (bs : list blk) : Prop :=
  match bs with
  | [] => True
  | k :: bs => f && negb (bAlloc k) = false ∧ coalesced (negb (bAlloc k)) bs
  end.

Definition usedBytes (k : blk) : Z := if bAlloc k then bSize k else 0.

Record heap_wf (h : Heap) : Prop := mk_heap_wf {
  wf_start : 0 ≤ hStart h;
  wf_total : 0 < hTotal h ≤ u64_mod - 17;
  wf_end : hStart h + hTotal h ≤ u64_mod;
  wf_tiled : tiled (hStart h) (hBlocks h) (hStart h + hTotal h);
  wf_coalesced : coalesced false (hBlocks h);
  wf_bytes : hBytes h = sumZ usedBytes (hBlocks h) }.

Lemma tiled_app s b1 b2 e : tiled s (b1 ++ b2) e ↔ ∃ m, tiled s b1 m ∧ tiled m b2 e.
Proof.
  revert s. induction b1 as [|k b1 IH]; intros s; simpl.
  - split; [eauto|]. by intros (? & <- & ?).
  - rewrite IH. naive_solver.
Qed.

Lemma tiled_le s bs e : tiled s bs e → s ≤ e.
Proof. revert s. induction bs as [|k bs IH]; intros s; simpl; [lia|]. intros (_ & ? & ?%IH). lia. Qed.

Lemma tiled_elem s bs e k :
  tiled s bs e → k ∈ bs → 0 < bSize k ∧ s ≤ bAddr k ∧ bAddr k + bSize k ≤ e.
Proof.
  revert s. induction bs as [|x bs IH]; intros s; simpl; [by intros _ ?%elem_of_nil|].
  intros (Hx & Hp & Ht) [->|Hk]%elem_of_cons.
  - apply tiled_le in Ht. lia.
  - specialize (IH _ Ht Hk). lia.
Qed.

Lemma tiled_used s bs e : tiled s bs e → 0 ≤ sumZ usedBytes bs ≤ e - s.
Proof.
  revert s. induction bs as [|x bs IH]; intros s; [unfold sumZ; simpl; lia|]. rewrite sumZ_cons.
  intros (_ & Hp & Ht%IH). unfold usedBytes at 1 3. destruct (bAlloc x); lia.
Qed.

Definition lastfree (f : bool) (bs : list blk) : bool :=
  match last bs with Some k => negb (bAlloc k) | None => f end.

Lemma coalesced_app f b1 b2 :
  coalesced f (b1 ++ b2) ↔ coalesced f b1 ∧ coalesced (lastfree f b1) b2.
Proof.
  revert f. induction b1 as [|k b1 IH]; intros f; simpl; [unfold lastfree; simpl; tauto|].
  rewrite IH. assert (lastfree (negb (bAlloc k)) b1 = lastfree f (k :: b1)) as ->; [|tauto].
  unfold lastfree. rewrite last_cons. by destruct (last b1).
Qed.

Lemma coalesced_false f bs : coalesced f bs → coalesced false bs.
Proof. destruct bs; simpl; tauto. Qed.

(** A block of a well-formed heap and the blocks around it. *)
Lemma heap_wf_split h b1 k b2 :
  heap_wf h → hBlocks h = b1 ++ k :: b2 →
  tiled (hStart h) b1 (bAddr k) ∧ tiled (bAddr k + bSize k) b2 (hStart h + hTotal h) ∧
  0 < bSize k ∧ hStart h ≤ bAddr k ∧ bAddr k + bSize k ≤ hStart h + hTotal h ∧
  coalesced false b1 ∧ lastfree false b1 && negb (bAlloc k) = false ∧
  coalesced (negb (bAlloc k)) b2.
Proof.
  intros [_ _ _ Ht Hc _] E. rewrite E in Ht, Hc.
  apply tiled_app in Ht as (m & Ht1 & <- & Hp & Ht2). apply coalesced_app in Hc as [Hc1 [Hc2 Hc3]].
  pose proof (tiled_le _ _ _ Ht1). pose proof (tiled_le _ _ _ Ht2). done.
Qed.

(** The piece handed out starts at the chosen block, exceeds the request by at
    most 16 bytes, and is followed by what is left of that block. *)
Lemma lAlloc_spec size k :
  0 < size ≤ bSize k → bSize k ≤ u64_mod - 17 → 0 ≤ bAddr k → bAddr k + bSize k ≤ u64_mod →
  size ≤ lGrant size k ≤ size + 16 ∧ lGrant size k ≤ bSize k ∧
  lAlloc size k = mkBlk (bAddr k) (lGrant size k) true ::
    (if lGrant size k =? bSize k then []
     else [mkBlk (bAddr k + lGrant size k) (bSize k - lGrant size k) false]).
Proof.
  intros Hs Hk Ha He. unfold lAlloc, lGrant. rewrite (u64_id (size + 16)) by (unfold is_u64; lia).
  destruct (Z.ltb_spec (size + 16) (bSize k)) as [Hlt|Hge].
  - rewrite (proj2 (Z.eqb_neq _ _)) by lia.
    rewrite !u64_id by (unfold is_u64; lia). split_and!; [lia..|done].
  - rewrite Z.eqb_refl. split_and!; [lia..|done].
Qed.

Lemma lAlloc_used size k : sumZ usedBytes (lAlloc size k) = lGrant size k.
Proof. unfold lAlloc, lGrant. destruct (_ <? _); unfold sumZ, usedBytes; simpl; lia. Qed.

Lemma lAlloc_wf h b1 k b2 size :
  heap_wf h → hBlocks h = b1 ++ k :: b2 → lfits size k = true → 0 < size →
  heap_wf (h <| hBlocks := b1 ++ lAlloc size k ++ b2 |>
             <| hBytes ::= λ n, u64 (n + lGrant size k) |> <| hCount ::= Z.succ |>).
Proof.
  intros Hwf E [Hfree Hfit]%andb_true_iff Hs. apply negb_true_iff in Hfree. apply Z.leb_le in Hfit.
  destruct (heap_wf_split _ _ _ _ Hwf E) as (Ht1 & Ht2 & Hp & Hlo & Hhi & Hc1 & Hc2 & Hc3).
  destruct Hwf as [H0 Htot Hend Ht _ Hb].
  destruct (lAlloc_spec size k) as (Hg & Hgk & Hal); [lia..|].
  rewrite Hfree in *. rewrite andb_true_r in Hc2. split; simpl; [done..| | |].
  - rewrite Hal. apply tiled_app. exists (bAddr k). split; [done|]. simpl. split; [done|]. split; [lia|].
    destruct (Z.eqb_spec (lGrant size k) (bSize k)) as [->|]; simpl; [done|].
    split_and!; [done|lia|].
    by replace (bAddr k + lGrant size k + (bSize k - lGrant size k)) with (bAddr k + bSize k) by lia.
  - rewrite Hal. apply coalesced_app. split; [done|]. rewrite Hc2. simpl. split; [done|].
    destruct (_ =? _); simpl; [by eapply coalesced_false|done].
  - rewrite Hb, E, !sumZ_app, lAlloc_used, sumZ_cons.
    assert (usedBytes k = 0) as -> by (unfold usedBytes; by rewrite Hfree).
    pose proof (tiled_used _ _ _ Ht1). pose proof (tiled_used _ _ _ Ht2).
    rewrite u64_id by (unfold is_u64; lia). lia.
Qed.

Lemma lMergeNext_ok k b2 s e :
  bAlloc k = false → tiled s (k :: b2) e → coalesced false b2 → e - s < u64_mod →
  let '(k', after) := lMergeNext k b2 in
  bAlloc k' = false ∧ bAddr k' = bAddr k ∧ tiled s (k' :: after) e ∧ coalesced true after ∧
  sumZ usedBytes after = sumZ usedBytes b2.
Proof.
  intros Hk Ht Hc He. destruct b2 as [|n b2]; [done|]. simpl.
  destruct (bAlloc n) eqn:En; simpl in *; rewrite En in *; [done|].
  destruct Ht as (Ha & Hp & Hn & Hpn & Ht). destruct Hc as [_ Hc].
  pose proof (tiled_le _ _ _ Ht). rewrite u64_id by (unfold is_u64; lia).
  split_and!; [done|done|done|lia|by rewrite Z.add_assoc|done|].
  rewrite sumZ_cons. unfold usedBytes at 2. by rewrite En.
Qed.

Lemma lMergePrev_ok b1 k after s e :
  bAlloc k = false → tiled s b1 (bAddr k) → tiled (bAddr k) (k :: after) e →
  coalesced false b1 → coalesced true after → e - s < u64_mod →
  tiled s (lMergePrev b1 k after) e ∧ coalesced false (lMergePrev b1 k after) ∧
  sumZ usedBytes (lMergePrev b1 k after) = sumZ usedBytes b1 + sumZ usedBytes after.
Proof.
  intros Hk Ht1 Ht2 Hc1 Hc2 He.
  assert (Huk : usedBytes k = 0) by (unfold usedBytes; by rewrite Hk).
  unfold lMergePrev. destruct b1 as [|p b1 _] using rev_ind; simpl.
  { simpl in *. rewrite Hk, sumZ_cons, Huk. subst s. by destruct Ht2 as (_ & ? & ?). }
  rewrite last_snoc, removelast_last. destruct (bAlloc p) eqn:Ep.
  - split_and!.
    + apply tiled_app. eauto.
    + apply coalesced_app. split; [done|]. unfold lastfree. rewrite last_snoc, Ep. simpl.
      by rewrite Hk.
    + rewrite sumZ_app, sumZ_cons, Huk. lia.
  - apply tiled_app in Ht1 as (m & Ht1 & <- & Hpp & Em). destruct Ht2 as (_ & Hkp & Ht2).
    simpl in Em. apply coalesced_app in Hc1 as [Hc1 [Hcp _]]. rewrite Ep in Hcp.
    pose proof (tiled_le _ _ _ Ht1). pose proof (tiled_le _ _ _ Ht2).
    rewrite u64_id by (unfold is_u64; lia). split_and!.
    + apply tiled_app. exists (bAddr p). simpl. split_and!; [done|done|lia|].
      by rewrite Z.add_assoc, Em.
    + apply coalesced_app. by split.
    + rewrite !sumZ_app, !sumZ_cons. assert (usedBytes p = 0) as ->
        by (unfold usedBytes; by rewrite Ep).
      change (usedBytes (mkBlk _ _ false)) with 0. change (sumZ usedBytes []) with 0. lia.
Qed.

Lemma lFreeAt_wf h i k :
  heap_wf h → hBlocks h !! i = Some k → bAlloc k = true →
  heap_wf (h <| hBlocks := lFreeAt i k (hBlocks h) |> <| hBytes ::= λ n, u64 (n - bSize k) |>).
Proof.
  intros Hwf Hi Hk. pose proof (eq_sym (take_drop_middle _ _ _ Hi)) as E.
  destruct (heap_wf_split _ _ _ _ Hwf E) as (Ht1 & Ht2 & Hp & Hlo & Hhi & Hc1 & Hc2 & Hc3).
  destruct Hwf as [H0 Htot Hend Ht _ Hb]. rewrite Hk in Hc3. unfold lFreeAt.
  pose proof (lMergeNext_ok (mkBlk (bAddr k) (bSize k) false) (drop (S i) (hBlocks h)) (bAddr k)
    (hStart h + hTotal h)) as Hn.
  destruct (lMergeNext _ _) as [k' after]. destruct Hn as (Hk' & Ha' & Ht' & Hc' & Hu'); [done..|lia|].
  simpl in Ha'. rewrite <- Ha' in *.
  destruct (lMergePrev_ok (take i (hBlocks h)) k' after (hStart h) (hStart h + hTotal h))
    as (Hr1 & Hr2 & Hr3); [done..|lia|].
  split; simpl; [done..|]. rewrite Hr3, Hu', Hb, E at 1. rewrite sumZ_app, sumZ_cons.
  assert (usedBytes k = bSize k) as -> by (unfold usedBytes; by rewrite Hk).
  pose proof (tiled_used _ _ _ Ht1). pose proof (tiled_used _ _ _ Ht2).
  rewrite u64_id by (unfold is_u64; lia). lia.
Qed.

Lemma hMalloc_wf size bestFit h :
  heap_wf h → 0 ≤ size → heap_wf (snd (hMalloc size bestFit h)).
Proof.
  intros Hwf Hs. unfold hMalloc. destruct (Z.eqb_spec size 0); [done|]. unfold lMalloc.
  destruct (lChoose _ _ _) as [i|] eqn:Hi; simpl; [|done].
  destruct (lChoose_fits _ _ _ _ Hi) as (k & Hk & Hf). rewrite Hk. simpl.
  apply lAlloc_wf; [done| |done|lia]. by rewrite take_drop_middle.
Qed.

Lemma hFree_wf addr h : heap_wf h → heap_wf (snd (hFree addr h)).
Proof.
  intros Hwf. unfold hFree, lFree. destruct (list_find _ _) as [[i k]|] eqn:Hi; [|done].
  apply list_find_Some in Hi as (Hk & _). destruct (bAlloc k) eqn:Ek; [|done].
  by apply lFreeAt_wf.
Qed.

Lemma find_tiled s b1 x b2 addr :
  tiled s b1 addr → bAddr x = addr →
  list_find (λ k, bAddr k = addr) (b1 ++ x :: b2) = Some (length b1, x).
Proof.
  intros Ht Hx. apply list_find_Some. split; [by apply list_lookup_middle|]. split; [done|].
  intros j y Hj Hlt Hy. rewrite lookup_app_l in Hj by done.
  destruct (tiled_elem _ _ _ y Ht) as (? & _ & ?); [by eapply list_elem_of_lookup_2|lia].
Qed.

(** Merging puts back what [lAlloc] has split. *)
Lemma lMergeNext_lAlloc size k b2 :
  0 < size ≤ bSize k → bSize k ≤ u64_mod - 17 → 0 ≤ bAddr k → bAddr k + bSize k ≤ u64_mod →
  bAlloc k = false → coalesced true b2 →
  ∃ rest, lAlloc size k ++ b2 = mkBlk (bAddr k) (lGrant size k) true :: rest ∧
    lMergeNext (mkBlk (bAddr k) (lGrant size k) false) rest = (k, b2).
Proof.
  intros Hs Hk Ha He Hf Hc. destruct (lAlloc_spec size k Hs Hk Ha He) as (Hg & Hgk & ->).
  assert (Ek : mkBlk (bAddr k) (bSize k) false = k) by (destruct k; simpl in *; by subst).
  eexists. split; [reflexivity|]. destruct (Z.eqb_spec (lGrant size k) (bSize k)) as [->|Hne]; simpl.
  - rewrite Ek. destruct b2 as [|n b2]; [done|]. destruct Hc as [Hn _]. simpl in *.
    apply negb_false_iff in Hn. by rewrite Hn.
  - rewrite u64_id by (unfold is_u64; lia).
    replace (lGrant size k + (bSize k - lGrant size k)) with (bSize k) by lia. by rewrite Ek.
Qed.

Lemma lFree_lAlloc h b1 k b2 size :
  heap_wf h → hBlocks h = b1 ++ k :: b2 → lfits size k = true → 0 < size →
  lFree (bAddr k) (b1 ++ lAlloc size k ++ b2) = FreeDone (lGrant size k) (b1 ++ k :: b2).
Proof.
  intros Hwf E [Hfree Hfit]%andb_true_iff Hs. apply negb_true_iff in Hfree. apply Z.leb_le in Hfit.
  destruct (heap_wf_split _ _ _ _ Hwf E) as (Ht1 & Ht2 & Hp & Hlo & Hhi & Hc1 & Hc2 & Hc3).
  destruct Hwf as [H0 Htot Hend _ _ _]. rewrite Hfree in *. rewrite andb_true_r in Hc2.
  destruct (lMergeNext_lAlloc size k b2) as (rest & -> & Hm); [lia..|done|done|].
  unfold lFree. rewrite (find_tiled _ _ _ _ _ Ht1) by done. simpl. unfold lFreeAt. simpl.
  rewrite take_app_length, (drop_app_ge _ _ (S (length b1))) by lia.
  replace (S (length b1) - length b1)%nat with 1%nat by lia. simpl. rewrite drop_0, Hm.
  unfold lMergePrev, lastfree in *. destruct (last b1) as [p|]; [|done].
  apply negb_false_iff in Hc2. by rewrite Hc2.
Qed.

(** ** Sequences of calls *)
Inductive heap_op := OpMalloc (size : Z) (bestFit : bool) | OpFree (addr : Z).

Definition op_ok (o : heap_op) : Prop :=
  match o with OpMalloc size _ => is_u64 size | OpFree addr => is_u64 addr end.

Definition call (o : heap_op) (a : FreeListAllocator) : option (Z * option error * FreeListAllocator) :=
  match o with
  | OpMalloc size bestFit => Malloc size bestFit a
  | OpFree addr => '(e, a) ← Free addr a; Some (0, e, a)
  end.

Definition hcall (o : heap_op) (h : Heap) : Z * option error * Heap :=
  match o with
  | OpMalloc size bestFit => hMalloc size bestFit h
  | OpFree addr => let '(e, h) := hFree addr h in (0, e, h)
  end.

(** The results of the calls and the final state. *)
Fixpoint calls (os : list heap_op) (a : FreeListAllocator)
    : option (list (Z * option error) * FreeListAllocator) :=
  match os with
  | [] => Some ([], a)
  | o :: os =>
      '(r, a) ← call o a;
      '(rs, a) ← calls os a;
      Some (r :: rs, a)
  end.

Fixpoint hcalls (os : list heap_op) (h : Heap) : list (Z * option error) * Heap :=
  match os with
  | [] => ([], h)
  | o :: os =>
      let '(r, h) := hcall o h in
      let '(rs, h) := hcalls os h in
      (r :: rs, h)
  end.

Lemma call_refines o a h :
  refines a h → ∃ a', call o a = Some (fst (hcall o h), a') ∧ refines a' (snd (hcall o h)).
Proof.
  intros Hr. destruct o as [size bestFit|addr]; simpl.
  - by apply Malloc_refines.
  - destruct (Free_refines a h addr Hr) as (a' & -> & Hr'). exists a'.
    by destruct (hFree addr h).
Qed.

Lemma calls_refines os a h :
  refines a h → ∃ a', calls os a = Some (fst (hcalls os h), a') ∧ refines a' (snd (hcalls os h)).
Proof.
  revert a h. induction os as [|o os IH]; intros a h Hr; simpl; [eauto|].
  destruct (call_refines o a h Hr) as (a1 & -> & Hr1). destruct (hcall o h) as [r h1].
  destruct (IH a1 h1 Hr1) as (a2 & E & Hr2). simpl. rewrite E. exists a2.
  by destruct (hcalls os h1).
Qed.

Lemma New_refines start total : refines (NewFreeListAllocator start total) (hNew start total).
Proof.
  split; [done..|]. exists [0%nat]. split; [done| |].
  - apply NoDup_singleton.
  - simpl. by rewrite lookup_singleton_eq.
Qed.

Lemma hcall_wf o h : heap_wf h → op_ok o → heap_wf (snd (hcall o h)).
Proof.
  intros Hwf Ho. destruct o as [size bestFit|addr]; simpl in *.
  - apply hMalloc_wf; [done|]. by destruct Ho.
  - pose proof (hFree_wf addr h Hwf). by destruct (hFree addr h).
Qed.

Lemma hcalls_wf os h : heap_wf h → Forall op_ok os → heap_wf (snd (hcalls os h)).
Proof.
  intros Hwf Hos. revert h Hwf. induction Hos as [|o os Ho Hos IH]; intros h Hwf; simpl; [done|].
  pose proof (hcall_wf o h Hwf Ho) as H1. destruct (hcall o h) as [r h1].
  specialize (IH h1 H1). by destruct (hcalls os h1).
Qed.

Lemma hcall_range o h :
  hStart (snd (hcall o h)) = hStart h ∧ hTotal (snd (hcall o h)) = hTotal h.
Proof.
  destruct o as [size bf|addr]; simpl; unfold hMalloc, hFree.
  - destruct (size =? 0); [done|]. by destruct (lMalloc _ _ _) as [[[]]|].
  - by destruct (lFree _ _).
Qed.

Lemma hcalls_range os h :
  hStart (snd (hcalls os h)) = hStart h ∧ hTotal (snd (hcalls os h)) = hTotal h.
Proof.
  revert h. induction os as [|o os IH]; intros h; simpl; [done|].
  destruct (hcall_range o h) as [<- <-]. destruct (hcall o h) as [r h1]. specialize (IH h1).
  by destruct (hcalls os h1).
Qed.

Lemma hNew_wf start total :
  0 ≤ start → 0 < total ≤ u64_mod - 17 → start + total ≤ u64_mod → heap_wf (hNew start total).
Proof. intros. split; simpl; try done; lia. Qed.

(** ** The properties of the allocator *)

(** C4. The allocator on linked block headers implements the allocator on a
    sequence of blocks: for every sequence of Malloc and Free calls on a new
    allocator, no call dereferences a nil or dangling pointer, every search
    loop ends, each call returns the address and the error that the sequence
    program returns, and afterwards the headers form a doubly linked list
    (both directions consistent, no cycle) of exactly the blocks of the
    sequence program, with the same counters. *)
Theorem FreeList_refines_sequence start total os :
  ∃ a, calls os (NewFreeListAllocator start total) =
         Some (fst (hcalls os (hNew start total)), a) ∧
       refines a (snd (hcalls os (hNew start total))).
Proof. apply calls_refines, New_refines. Qed.

(** C5. The heap invariant: after any sequence of Malloc and Free calls with
    arbitrary arguments, the blocks tile the heap from HeapStart to
    HeapStart + TotalSize without gap or overlap, all of positive size, no two
    neighbouring blocks are both free (freeing coalesces completely), and
    AllocatedBytes is the total size of the allocated blocks. *)
Theorem FreeList_heap_invariant start total os
    (Hstart : 0 ≤ start) (Htotal : 0 < total ≤ u64_mod - 17) (Hend : start + total ≤ u64_mod)
    (Hos : Forall op_ok os) :
  ∃ rs a h, calls os (NewFreeListAllocator start total) = Some (rs, a) ∧ refines a h ∧
    heap_wf h ∧ hStart h = start ∧ hTotal h = total.
Proof.
  destruct (calls_refines os _ _ (New_refines start total)) as (a & E & Hr).
  do 3 eexists. split; [exact E|]. split; [exact Hr|]. split.
  - apply hcalls_wf; [by apply hNew_wf|done].
  - apply (hcalls_range os (hNew start total)).
Qed.

Lemma FreeList_heap_invariant_witness :
  ∃ rs a h, calls [OpMalloc 512 false; OpMalloc 1024 false; OpFree 65536; OpMalloc 100 true;
                   OpFree 1]
              (NewFreeListAllocator 65536 4096) = Some (rs, a) ∧ refines a h ∧
    heap_wf h ∧ hStart h = 65536 ∧ hTotal h = 4096.
Proof.
  apply (FreeList_heap_invariant 65536 4096); [lia|unfold u64_mod; lia|unfold u64_mod; lia|].
  repeat constructor; simpl; unfold u64_mod; lia.
Defined.

(** Malloc on a well-formed heap.  It fails, with out-of-memory and
    without changing anything, exactly when every free block is smaller than
    the request.  Otherwise it returns the start of a range inside the heap
    that holds the request with at most 16 bytes of slack and overlaps no
    block that was allocated before; all these blocks stay allocated.  With
    best fit the block used is a smallest one that fits, with first fit the
    lowest one. *)
Theorem Malloc_spec a h size bestFit
    (Href : refines a h) (Hwf : heap_wf h) (Hsize : 0 < size) :
  ∃ r e a' h', Malloc size bestFit a = Some (r, e, a') ∧ refines a' h' ∧ heap_wf h' ∧
  match e with
  | Some err => err = errNoFit size ∧ h' = h ∧
      ∀ k, k ∈ hBlocks h → bAlloc k = false → bSize k < size
  | None => ∃ i k g,
      hBlocks h !! i = Some k ∧ bAlloc k = false ∧ size ≤ bSize k ∧ r = bAddr k ∧
      size ≤ g ≤ size + 16 ∧ hStart h ≤ r ∧ r + g ≤ hStart h + hTotal h ∧
      mkBlk r g true ∈ hBlocks h' ∧
      (∀ k', k' ∈ hBlocks h → bAlloc k' = true →
         k' ∈ hBlocks h' ∧ (bAddr k' + bSize k' ≤ r ∨ r + g ≤ bAddr k')) ∧
      policy_ok size bestFit (hBlocks h) i k
  end.
Proof.
  destruct (Malloc_refines a h size bestFit Href) as (a' & E & Hr').
  pose proof (hMalloc_wf size bestFit h Hwf ltac:(lia)) as Hwf'.
  destruct (hMalloc size bestFit h) as [[r e] h'] eqn:Eh. simpl in *.
  exists r, e, a', h'. do 3 (split; [done|]).
  unfold hMalloc in Eh. rewrite (proj2 (Z.eqb_neq _ _)) in Eh by lia.
  pose proof (lChoose_spec size bestFit (hBlocks h)) as Hch. unfold lMalloc in Eh.
  destruct (lChoose size bestFit (hBlocks h)) as [i|]; simpl in Eh.
  - destruct Hch as (k & Hk & Hf & Hpol). rewrite Hk in Eh. simpl in Eh. simplify_eq.
    apply andb_true_iff in Hf as [Hfree%negb_true_iff Hfit%Z.leb_le].
    pose proof (eq_sym (take_drop_middle _ _ _ Hk)) as Eb.
    destruct (heap_wf_split _ _ _ _ Hwf Eb) as (Ht1 & Ht2 & Hp & Hlo & Hhi & _).
    destruct Hwf as [H0 Htot Hend _ _ _].
    destruct (lAlloc_spec size k) as (Hg & Hgk & Hal); [lia..|].
    exists i, k, (lGrant size k). split_and!; try done; try lia.
    + simpl. rewrite Hal. set_solver.
    + intros k' Hk' Ha'. simpl. rewrite Eb in Hk'.
      apply elem_of_app in Hk' as [Hk'|[->|Hk']%elem_of_cons]; [|congruence|].
      * split; [set_solver|]. destruct (tiled_elem _ _ _ _ Ht1 Hk'). lia.
      * split; [set_solver|]. destruct (tiled_elem _ _ _ _ Ht2 Hk'). lia.
  - simplify_eq. split_and!; [done..|]. intros k Hk Hf. specialize (Hch k Hk).
    unfold lfits in Hch. rewrite Hf in Hch. simpl in Hch. apply Z.leb_gt in Hch. lia.
Qed.

Lemma Malloc_spec_witness :
  ∃ r e a' h', Malloc 512 true (NewFreeListAllocator 65536 4096) = Some (r, e, a') ∧
    refines a' h' ∧ heap_wf h'.
Proof.
  destruct (Malloc_spec (NewFreeListAllocator 65536 4096) (hNew 65536 4096) 512 true)
    as (r & e & a' & h' & ? & ? & ? & _).
  - apply New_refines.
  - apply hNew_wf; unfold u64_mod; lia.
  - lia.
  - eauto 10.
Defined.

(** C31. Freeing what was just allocated restores the heap: Free of the address
    a successful Malloc returned succeeds, and leaves exactly the blocks and
    the allocated bytes that were there before the Malloc. *)
Theorem Malloc_Free_roundtrip a h size bestFit r a1
    (Href : refines a h) (Hwf : heap_wf h) (Hsize : 0 < size)
    (Hmalloc : Malloc size bestFit a = Some (r, None, a1)) :
  ∃ a2 h2, Free r a1 = Some (None, a2) ∧ refines a2 h2 ∧
    hBlocks h2 = hBlocks h ∧ hBytes h2 = hBytes h.
Proof.
  destruct (Malloc_refines a h size bestFit Href) as (a' & E & Hr'). rewrite Hmalloc in E.
  pose proof (hMalloc_wf size bestFit h Hwf ltac:(lia)) as Hwf'.
  destruct (hMalloc size bestFit h) as [[r' e'] h'] eqn:Eh. simpl in E, Hr', Hwf'. simplify_eq E.
  intros <- <- <-. destruct (Free_refines a1 h' r Hr') as (a2 & Ef & Hr2).
  pose proof (hFree_wf r h' Hwf') as Hwf2.
  unfold hMalloc in Eh. rewrite (proj2 (Z.eqb_neq _ _)) in Eh by lia. unfold lMalloc in Eh.
  destruct (lChoose size bestFit (hBlocks h)) as [i|] eqn:Hi; simpl in Eh; [|done].
  destruct (lChoose_fits _ _ _ _ Hi) as (k & Hk & Hf). rewrite Hk in Eh. simpl in Eh.
  simplify_eq. pose proof (eq_sym (take_drop_middle _ _ _ Hk)) as Eb.
  unfold hFree in Ef, Hr2, Hwf2. simpl in Ef, Hr2, Hwf2.
  rewrite (lFree_lAlloc _ _ _ _ _ Hwf Eb Hf ltac:(lia)) in Ef, Hr2, Hwf2.
  do 2 eexists. split; [exact Ef|]. split; [exact Hr2|]. simpl. rewrite <- Eb. split; [done|].
  destruct Hwf2 as [_ _ _ _ _ Hb2]. simpl in Hb2. rewrite Hb2, <- Eb. by destruct Hwf.
Qed.

Lemma Malloc_Free_roundtrip_witness :
  ∃ a2 h2, ('(_, a1) ← Malloc 512 false (NewFreeListAllocator 65536 4096); Free 65536 a1)
             = Some (None, a2) ∧
    refines a2 h2 ∧ hBlocks h2 = [mkBlk 65536 4096 false].
Proof.
  destruct (Malloc_Free_roundtrip (NewFreeListAllocator 65536 4096) (hNew 65536 4096) 512 false
    65536 (default (NewFreeListAllocator 0 0)
             (snd <$> Malloc 512 false (NewFreeListAllocator 65536 4096))))
    as (a2 & h2 & Hf & ? & ? & _).
  - apply New_refines.
  - apply hNew_wf; unfold u64_mod; lia.
  - lia.
  - vm_compute. reflexivity.
  - exists a2, h2. split; [|done]. rewrite <- Hf. vm_compute. reflexivity.
Defined.
