(* ===== verification/Buddy.v ===== *)
(** * The buddy allocator

    Models [BuddyNode] and [BuddyAllocator] of [src/pkg/memory/allocator.go].
    The nodes form a tree without sharing, so a node is an inductive value and
    a pointer to a node inside the tree is the path to it. *)

From S2P Require Import Prelude FreeList.

Inductive BuddyNode :=
  | Nil
  | Node (Addr Order : Z) (IsAllocated : bool) (Left Right : BuddyNode).

Definition is_nil (n : BuddyNode) : bool := match n with Nil => true | _ => false end.

Record BuddyAllocator := mkBuddy {
  BaseAddr : Z; MinOrder : Z; MaxOrder : Z; Root : BuddyNode }.
#[export] Instance eta_BuddyAllocator : Eta BuddyAllocator := λ b,
  mkBuddy (BaseAddr b) (MinOrder b) (MaxOrder b) (Root b).

Definition NewBuddyAllocator (baseAddr minOrder maxOrder : Z) : BuddyAllocator :=
  mkBuddy baseAddr minOrder maxOrder (Node baseAddr maxOrder false Nil Nil).

(** [1 << n] on a uint64; shifting by a negative count panics. *)
Definition shl1 (n : Z) : option Z := if n <? 0 then None else Some (u64 (2 ^ n)).

(** A path from a node: [false] goes to [Left]. *)
Abbreviation path := (list bool) (only parsing).

(** The node found, as a path, and the tree with the splits made on the way.
    The outer option is for a nil dereference and exhausted fuel. *)
Fixpoint findAndSplit (fuel : nat) (node : BuddyNode) (targetOrder : Z)
    : option (option path * BuddyNode) :=
  match fuel with
  | O => None
  | S fuel =>
      match node with
      | Nil => None
      | Node a o al l r =>
          if al then Some (None, node) else
          if is_nil l && is_nil r then
            if o =? targetOrder then Some (Some [], node) else
            if targetOrder <? o then
              let childOrder := o - 1 in
              childSize ← shl1 childOrder;
              let l := Node a childOrder false Nil Nil in
              let r := Node (u64 (a + childSize)) childOrder false Nil Nil in
              '(res, l) ← findAndSplit fuel l targetOrder;
              Some (option_map (cons false) res, Node a o al l r)
            else Some (None, node)
          else
            '(res, l) ← findAndSplit fuel l targetOrder;
            match res with
            | Some p => Some (Some (false :: p), Node a o al l r)
            | None =>
                '(res, r) ← findAndSplit fuel r targetOrder;
                Some (option_map (cons true) res, Node a o al l r)
            end
      end
  end.

(** [node.IsAllocated = true] and the address, for the node at a path. *)
Fixpoint allocateAt (p : path) (node : BuddyNode) : option (Z * BuddyNode) :=
  match p, node with
  | _, Nil => None
  | [], Node a o _ l r => Some (a, Node a o true l r)
  | false :: p, Node a o al l r => '(x, l) ← allocateAt p l; Some (x, Node a o al l r)
  | true :: p, Node a o al l r => '(x, r) ← allocateAt p r; Some (x, Node a o al l r)
  end.

(** The loop that rounds a size up to an order.  It does not end for sizes
    above 2^63, for which the fuel of 64 steps runs out as well. *)
Fixpoint orderLoop (fuel : nat) (targetOrder size : Z) : option Z :=
  s ← shl1 targetOrder;
  if s <? size then
    match fuel with O => None | S fuel => orderLoop fuel (targetOrder + 1) size end
  else Some targetOrder.

Definition Allocate (size : Z) (ba : BuddyAllocator)
    : option (Z * option error * BuddyAllocator) :=
  targetOrder ← orderLoop 64 (MinOrder ba) size;
  if MaxOrder ba <? targetOrder then
    Some (0, Some (Errorf_w ErrOutOfMemory (": requested size " +:+ fmt_d size +:+
            " exceeds max buddy capacity " +:+ fmt_d (i64 (2 ^ MaxOrder ba)))), ba)
  else
  '(found, root) ← findAndSplit (S (Z.to_nat (MaxOrder ba - MinOrder ba))) (Root ba) targetOrder;
  let ba := ba <| Root := root |> in
  match found with
  | None =>
      Some (0, Some (Errorf_w ErrOutOfMemory (": no buddy block available for order " +:+
              fmt_d targetOrder +:+ " (" +:+ fmt_d (i64 (2 ^ targetOrder)) +:+ " bytes)")), ba)
  | Some p =>
      '(addr, root) ← allocateAt p (Root ba);
      Some (addr, None, ba <| Root := root |>)
  end.

(** ** Well-formed trees *)

(** A tree over the block of order [order] at [addr]: the children of a node
    are its two halves, an allocated node has none. *)
Fixpoint tree_ok (minOrder addr order : Z) (n : BuddyNode) : Prop :=
  match n with
  | Nil => False
  | Node a o al l r =>
      a = addr ∧ o = order ∧ minOrder ≤ order ∧
      ((l = Nil ∧ r = Nil) ∨
       (al = false ∧ tree_ok minOrder addr (order - 1) l ∧
        tree_ok minOrder (addr + 2 ^ (order - 1)) (order - 1) r))
  end.

(** The leaves, with address, order and status, from low to high addresses. *)
Fixpoint leaves (n : BuddyNode) : list (Z * Z * bool) :=
  match n with
  | Nil => []
  | Node a o al l r => if is_nil l && is_nil r then [(a, o, al)] else leaves l ++ leaves r
  end.

Definition allocated (n : BuddyNode) : list (Z * Z) :=
  fst <$> filter (λ x, snd x = true) (leaves n).

Record buddy_wf (ba : BuddyAllocator) : Prop := mk_buddy_wf {
  bw_orders : 0 ≤ MinOrder ba ≤ MaxOrder ba;
  bw_max : MaxOrder ba ≤ 63;
  bw_base : 0 ≤ BaseAddr ba;
  bw_end : BaseAddr ba + 2 ^ MaxOrder ba ≤ u64_mod;
  bw_tree : tree_ok (MinOrder ba) (BaseAddr ba) (MaxOrder ba) (Root ba) }.

(** ** Leaves of a well-formed tree *)

Lemma shl1_ok n : 0 ≤ n ≤ 63 → shl1 n = Some (2 ^ n).
Proof.
  intros Hn. unfold shl1. destruct (Z.ltb_spec n 0); [lia|]. f_equal. apply u64_id.
  unfold is_u64, u64_mod. pose proof (Z.pow_lt_mono_r 2 n 64). lia.
Qed.

Lemma pow2_half o : 1 ≤ o → 2 ^ o = 2 ^ (o - 1) + 2 ^ (o - 1).
Proof. intros. replace (2 ^ o) with (2 ^ (1 + (o - 1))) by (f_equal; lia). rewrite Z.pow_add_r by lia. lia. Qed.

Lemma tree_ok_order m a o n : tree_ok m a o n → m ≤ o.
Proof. destruct n; simpl; [done|]. by intros (_ & _ & ? & _). Qed.

(** Every leaf lies in the block of the tree, at a multiple of its size. *)
Lemma tree_ok_leaf m a o n x y b :
  0 ≤ m → tree_ok m a o n → (x, y, b) ∈ leaves n →
  m ≤ y ≤ o ∧ a ≤ x ∧ x + 2 ^ y ≤ a + 2 ^ o ∧ (2 ^ y | x - a).
Proof.
  intros Hm. revert a o. induction n as [|a' o' al l IHl r IHr]; intros a o; [done|].
  intros (-> & -> & Ho & [[-> ->]|(-> & Hl & Hr)]) Hin.
  { simpl in Hin. apply list_elem_of_singleton in Hin as [= -> -> ->].
    rewrite Z.sub_diag. split_and!; [lia..|]. apply Z.divide_0_r. }
  assert (is_nil l && is_nil r = false) as E by (destruct l; [done|by destruct r]).
  simpl in Hin. rewrite E in Hin. pose proof (tree_ok_order _ _ _ _ Hl).
  rewrite (pow2_half o) by lia. pose proof (Z.pow_pos_nonneg 2 (o - 1)).
  apply elem_of_app in Hin as [Hin|Hin].
  - destruct (IHl _ _ Hl Hin) as (? & ? & ? & ?). split_and!; [lia..|done].
  - destruct (IHr _ _ Hr Hin) as (? & ? & ? & Hd). split_and!; [lia..|].
    replace (x - a) with ((x - (a + 2 ^ (o - 1))) + 2 ^ (o - 1)) by lia.
    apply Z.divide_add_r; [done|]. exists (2 ^ (o - 1 - y)).
    rewrite <- Z.pow_add_r by lia. f_equal. lia.
Qed.

Definition disjoint_blocks (x y : Z * Z) : Prop :=
  x.1 + 2 ^ x.2 ≤ y.1 ∨ y.1 + 2 ^ y.2 ≤ x.1.

(** The leaves are pairwise disjoint. *)
Lemma tree_ok_disjoint m a o n :
  0 ≤ m → tree_ok m a o n → ForallOrdPairs disjoint_blocks (fst <$> leaves n).
Proof.
  intros Hm. revert a o. induction n as [|a' o' al l IHl r IHr]; intros a o; [done|].
  intros (-> & -> & Ho & [[-> ->]|(-> & Hl & Hr)]); [simpl; repeat constructor|].
  assert (is_nil l && is_nil r = false) as E by (destruct l; [done|by destruct r]).
  simpl. rewrite E, fmap_app. specialize (IHl _ _ Hl). specialize (IHr _ _ Hr).
  assert (Hb : ∀ x y, x ∈ fst <$> leaves l → y ∈ fst <$> leaves r → disjoint_blocks x y).
  { intros x y ([[x1 x2] bx] & -> & Hx)%list_elem_of_fmap ([[y1 y2] by'] & -> & Hy)%list_elem_of_fmap.
    destruct (tree_ok_leaf _ _ _ _ _ _ _ Hm Hl Hx) as (_ & _ & ? & _).
    destruct (tree_ok_leaf _ _ _ _ _ _ _ Hm Hr Hy) as (_ & ? & _ & _). left. simpl. lia. }
  clear E. induction IHl as [|x xs Hx Hxs IH]; simpl; [done|]. constructor.
  - rewrite Forall_app. split; [done|]. rewrite Forall_forall. intros y Hy. apply Hb; [by left|done].
  - apply IH. intros ???. apply Hb. by right.
Qed.

(** ** The search *)

(** What the search promises for a target order: the marked tree is well
    formed again and has one more allocated leaf, or nothing changes because
    no free leaf is large enough. *)
Definition find_ok (m a o t : Z) (n : BuddyNode) (res : option (option path * BuddyNode)) : Prop :=
  match res with
  | None => False
  | Some (None, n') => n' = n ∧ ∀ x y, (x, y, false) ∈ leaves n → y < t
  | Some (Some p, n') => ∃ x n'', allocateAt p n' = Some (x, n'') ∧ tree_ok m a o n'' ∧
      allocated n'' ≡ₚ (x, t) :: allocated n ∧ ∃ x' y, (x', y, false) ∈ leaves n ∧ t ≤ y
  end.

Lemma not_nil m a o n : tree_ok m a o n → is_nil n = false.
Proof. by destruct n. Qed.

Lemma allocated_node a o al l r :
  is_nil l && is_nil r = false → allocated (Node a o al l r) = allocated l ++ allocated r.
Proof. intros E. unfold allocated. simpl. rewrite E. by rewrite filter_app, fmap_app. Qed.

#[local] Arguments allocated : simpl never.

Lemma leaf_ok m a o : m ≤ o → tree_ok m a o (Node a o false Nil Nil).
Proof. intros ?. simpl. split_and!; [done..|]. by left. Qed.

(** Searching the lower half of a leaf that has just been split. *)
Lemma find_split_ok m a o t res :
  m ≤ t < o → find_ok m a (o - 1) t (Node a (o - 1) false Nil Nil) res →
  find_ok m a o t (Node a o false Nil Nil)
    ('(res, l) ← res;
     Some (option_map (cons false) res,
           Node a o false l (Node (a + 2 ^ (o - 1)) (o - 1) false Nil Nil))).
Proof.
  intros Ht Hres. destruct res as [[[p|] n']|]; simpl in *; [| |done].
  - destruct Hres as (x & n'' & Hal & Hok & Hper & _). rewrite Hal. simpl.
    do 2 eexists. split; [reflexivity|]. split; [|split].
    + simpl. split_and!; [done|done|lia|]. right. split; [done|]. split; [done|].
      split_and!; [done|done|lia|]. by left.
    + rewrite allocated_node by (by rewrite (not_nil _ _ _ _ Hok)). by rewrite Hper.
    + exists a, o. split; [by left|lia].
  - destruct Hres as [_ Hno]. specialize (Hno a (o - 1) ltac:(by left)). lia.
Qed.

(** Searching a split node: the left child first. *)
Lemma find_node_ok m a o t l r resl resr :
  m ≤ o → tree_ok m a (o - 1) l → tree_ok m (a + 2 ^ (o - 1)) (o - 1) r →
  find_ok m a (o - 1) t l resl → find_ok m (a + 2 ^ (o - 1)) (o - 1) t r resr →
  find_ok m a o t (Node a o false l r)
    ('(res, l) ← resl;
     match res with
     | Some p => Some (Some (false :: p), Node a o false l r)
     | None => '(res, r) ← resr; Some (option_map (cons true) res, Node a o false l r)
     end).
Proof.
  intros Hmo Hl Hr Hresl Hresr.
  assert (El : ∀ l, tree_ok m a (o - 1) l → is_nil l && is_nil r = false)
    by (intros ? H; by rewrite (not_nil _ _ _ _ H)).
  destruct resl as [[[p|] l']|]; simpl in Hresl; [| |done].
  - destruct Hresl as (x & l'' & Hal & Hok & Hper & x' & y & Hin & Hy).
    cbn. rewrite Hal. cbn. do 2 eexists. split; [reflexivity|]. split; [simpl; auto 10|].
    rewrite !allocated_node by auto. split; [by rewrite Hper|].
    exists x', y. rewrite (El _ Hl). split; [|done]. apply elem_of_app. by left.
  - destruct Hresl as [-> Hno]. destruct resr as [[[p|] r']|]; simpl in Hresr; [| |done].
    + destruct Hresr as (x & r'' & Hal & Hok & Hper & x' & y & Hin & Hy).
      cbn. rewrite Hal. cbn. do 2 eexists. split; [reflexivity|]. split; [simpl; auto 10|].
      rewrite !allocated_node by (by rewrite (not_nil _ _ _ _ Hl)).
      split; [rewrite Hper; by rewrite Permutation_middle|].
      exists x', y. rewrite (El _ Hl). split; [|done]. apply elem_of_app. by right.
    + destruct Hresr as [-> Hno']. cbn. split; [done|]. intros x y.
      rewrite (El _ Hl), elem_of_app. intros [?|?]; eauto.
Qed.

Lemma findAndSplit_ok fuel m a o t n :
  0 ≤ m ≤ t → o ≤ 63 → 0 ≤ a → a + 2 ^ o ≤ u64_mod → tree_ok m a o n →
  (Z.to_nat (o - m) < fuel)%nat → find_ok m a o t n (findAndSplit fuel n t).
Proof.
  intros Ht. revert a o n.
  induction fuel as [|fuel IH]; intros a o n Ho Ha He Hn Hf; [lia|].
  destruct n as [|a' o' al l r]; [done|]. pose proof (tree_ok_order _ _ _ _ Hn) as Hmo.
  destruct Hn as (-> & -> & _ & Hlr). cbn [findAndSplit]. destruct al.
  { destruct Hlr as [[-> ->]|[? _]]; [|done]. simpl. split; [done|].
    intros x y [= ]%list_elem_of_singleton. }
  destruct Hlr as [[-> ->]|(_ & Hl & Hr)]; cbn [is_nil andb].
  - destruct (Z.eqb_spec o t) as [->|Hne].
    { exists a, (Node a t true Nil Nil). simpl. split_and!; [done..|by left|done|].
      exists a, t. split; [by left|done]. }
    destruct (Z.ltb_spec t o) as [Hlt|Hge].
    + rewrite shl1_ok by lia. pose proof (pow2_half o ltac:(lia)) as Hp.
      pose proof (Z.pow_pos_nonneg 2 (o - 1)). cbn [mbind option_bind].
      rewrite u64_id by (unfold is_u64; lia).
      apply find_split_ok; [lia|]. apply IH; [lia..|apply leaf_ok; lia|lia].
    + simpl. split; [done|]. intros x y [= -> ->]%list_elem_of_singleton. lia.
  - rewrite (not_nil _ _ _ _ Hl). cbn [andb]. pose proof (tree_ok_order _ _ _ _ Hl) as Hol.
    pose proof (pow2_half o ltac:(lia)) as Hp. pose proof (Z.pow_pos_nonneg 2 (o - 1)).
    apply find_node_ok; [done..| |]; apply IH; try done; try lia.
Qed.

(** ** Rounding up to an order *)
Lemma orderLoop_ok fuel t size :
  0 ≤ t → 64 - t ≤ Z.of_nat fuel → size ≤ 2 ^ 63 → t ≤ 63 →
  ∃ t', orderLoop fuel t size = Some t' ∧ t ≤ t' ≤ 63 ∧ size ≤ 2 ^ t' ∧
        ∀ u, t ≤ u < t' → 2 ^ u < size.
Proof.
  revert t. induction fuel as [|fuel IH]; intros t H0 Hf Hs Ht; [lia|]. simpl.
  rewrite shl1_ok by lia. simpl. destruct (Z.ltb_spec (2 ^ t) size) as [Hlt|Hge].
  - assert (t ≠ 63) by (intros ->; lia).
    destruct (IH (t + 1)) as (t' & -> & ? & ? & Hu); [lia..|]. exists t'.
    split_and!; [done|lia..|]. intros u ?. destruct (decide (u = t)) as [->|]; [done|].
    apply Hu. lia.
  - exists t. split_and!; [done|lia..|]. intros u ?. lia.
Qed.

Lemma allocated_leaf n x y : (x, y) ∈ allocated n → (x, y, true) ∈ leaves n.
Proof.
  unfold allocated. intros ([[x' y'] b] & [= -> ->] & [Hb Hin]%list_elem_of_filter)%list_elem_of_fmap.
  simpl in Hb. by subst.
Qed.

Lemma allocated_disjoint m a o n :
  0 ≤ m → tree_ok m a o n → ForallOrdPairs disjoint_blocks (allocated n).
Proof.
  intros Hm Hn. pose proof (tree_ok_disjoint _ _ _ _ Hm Hn) as Hd. unfold allocated.
  induction (leaves n) as [|[x b] ls IH]; [constructor|]. simpl in Hd.
  inversion Hd as [|? ? Hx Hd']; subst. specialize (IH Hd'). rewrite filter_cons.
  case_decide; [|done]. simpl. constructor; [|done]. rewrite Forall_forall in *.
  intros y (z & -> & [_ Hz]%list_elem_of_filter)%list_elem_of_fmap. apply Hx.
  apply list_elem_of_fmap. eauto.
Qed.

(** C32. Buddy allocation.  A request of up to 2^63 bytes is rounded up to the
    least order t, at least MinOrder, whose block holds it.  Allocation
    succeeds exactly when a free block of order t or more exists: it then
    returns a block of order t inside the managed range, at a multiple of its
    size, and the allocated blocks afterwards are the earlier ones and this
    one, pairwise disjoint.  Otherwise it reports out-of-memory and changes
    nothing.  The tree stays well formed (children are the halves of their
    parent, allocated nodes are leaves). *)
Theorem Buddy_Allocate_spec ba size (Hwf : buddy_wf ba) (Hsize : 0 ≤ size ≤ 2 ^ 63) :
  ∃ t r e ba', Allocate size ba = Some (r, e, ba') ∧ buddy_wf ba' ∧
    MinOrder ba ≤ t ∧ size ≤ 2 ^ t ∧ (∀ u, MinOrder ba ≤ u < t → 2 ^ u < size) ∧
    match e with
    | None =>
        allocated (Root ba') ≡ₚ (r, t) :: allocated (Root ba) ∧
        ForallOrdPairs disjoint_blocks (allocated (Root ba')) ∧
        BaseAddr ba ≤ r ∧ r + 2 ^ t ≤ BaseAddr ba + 2 ^ MaxOrder ba ∧ (2 ^ t | r - BaseAddr ba) ∧
        ∃ x y, (x, y, false) ∈ leaves (Root ba) ∧ t ≤ y
    | Some err =>
        ba' = ba ∧ err_is err = err_is ErrOutOfMemory ∧
        ∀ x y, (x, y, false) ∈ leaves (Root ba) → y < t
    end.
Proof.
  destruct Hwf as [Hmin Hmax Hbase Hend Htree]. unfold Allocate.
  destruct (orderLoop_ok 64 (MinOrder ba) size) as (t & -> & Ht & Hst & Hleast); [lia..|].
  cbn [mbind option_bind]. destruct (Z.ltb_spec (MaxOrder ba) t) as [Hbig|Hfits].
  { exists t. do 3 eexists. split; [reflexivity|]. split_and!; [by constructor|lia|done|done|done|done|].
    intros x y Hin. destruct (tree_ok_leaf _ _ _ _ _ _ _ (proj1 Hmin) Htree Hin). lia. }
  pose proof (findAndSplit_ok (S (Z.to_nat (MaxOrder ba - MinOrder ba))) (MinOrder ba)
    (BaseAddr ba) (MaxOrder ba) t (Root ba) ltac:(lia) Hmax Hbase Hend Htree ltac:(lia)) as Hf.
  destruct (findAndSplit _ _ _) as [[[p|] n']|]; cbn [find_ok mbind option_bind] in *; [| |done].
  - destruct Hf as (x & n'' & Hal & Hok & Hper & Hlf). simpl. rewrite Hal. simpl.
    exists t. do 3 eexists. split; [reflexivity|]. simpl.
    assert (Hin : (x, t, true) ∈ leaves n'') by (apply allocated_leaf; rewrite Hper; by left).
    destruct (tree_ok_leaf _ _ _ _ _ _ _ (proj1 Hmin) Hok Hin) as (_ & ? & ? & ?).
    split_and!; try done; try lia. exact (allocated_disjoint _ _ _ _ (proj1 Hmin) Hok).
  - destruct Hf as [-> Hno]. exists t. do 3 eexists. split; [reflexivity|].
    split_and!; try done; try lia. by destruct ba.
Qed.

Lemma Buddy_Allocate_spec_witness :
  ∃ t r e ba', Allocate 100 (NewBuddyAllocator 65536 4 10) = Some (r, e, ba') ∧ buddy_wf ba' ∧
    4 ≤ t ∧ 100 ≤ 2 ^ t.
Proof.
  destruct (Buddy_Allocate_spec (NewBuddyAllocator 65536 4 10) 100)
    as (t & r & e & ba' & ? & ? & ? & ? & _).
  - split; simpl; unfold u64_mod; try lia. auto 10 with lia.
  - lia.
  - eauto 10.
Defined.
