(* ===== verification/AddressSpace.v ===== *)
(** * Address spaces and call stacks

    Models [src/pkg/memory/address_space.go] (layout, base-and-bounds
    translation, [Sbrk]) and the call stack of [src/pkg/memory/stack_heap.go]. *)

From S2P Require Import Prelude.

Definition ErrSegmentationFault : error :=
  errors_New "segmentation fault: virtual address out of bounds or invalid protection".
Definition ErrStackOverflow : error :=
  errors_New "stack overflow: stack collided with heap or guard page".

Definition SegmentCode : string := "CODE".
Definition SegmentData : string := "DATA".
Definition SegmentHeap : string := "HEAP".
Definition SegmentStack : string := "STACK".

Record SegmentDescriptor := mkSeg {
  SegType : string; Base : Z; Limit : Z; GrowsDown : bool;
  Readable : bool; Writable : bool; Executable : bool }.
#[export] Instance eta_SegmentDescriptor : Eta SegmentDescriptor := λ s,
  mkSeg (SegType s) (Base s) (Limit s) (GrowsDown s) (Readable s) (Writable s) (Executable s).

Record AddressSpace := mkAS {
  AsPID : Z; TotalSize : Z; PhysicalBase : Z;
  CodeStart : Z; CodeEnd : Z; DataStart : Z; DataEnd : Z;
  HeapStart : Z; HeapBreak : Z; StackTop : Z; StackPtr : Z; GuardPage : Z;
  Segments : gmap string SegmentDescriptor }.
#[export] Instance eta_AddressSpace : Eta AddressSpace := λ a,
  mkAS (AsPID a) (TotalSize a) (PhysicalBase a) (CodeStart a) (CodeEnd a) (DataStart a)
    (DataEnd a) (HeapStart a) (HeapBreak a) (StackTop a) (StackPtr a) (GuardPage a) (Segments a).

Definition NewAddressSpace (pid totalSize physicalBase : Z) : AddressSpace :=
  let totalSize := if totalSize =? 0 then 64 * 1024 else totalSize in
  let codeSize := 8 * 1024 in
  let dataSize := 4 * 1024 in
  let heapInit := 12 * 1024 in
  let stackInit := u64 (totalSize - 1) in
  mkAS pid totalSize physicalBase 0 codeSize codeSize (codeSize + dataSize)
    heapInit heapInit stackInit stackInit (32 * 1024)
    (<[SegmentCode := mkSeg SegmentCode (u64 (physicalBase + 0)) codeSize false true false true]>
    (<[SegmentData := mkSeg SegmentData (u64 (physicalBase + codeSize)) dataSize false true true false]>
    (<[SegmentHeap := mkSeg SegmentHeap (u64 (physicalBase + heapInit)) 0 false true true false]>
    (<[SegmentStack := mkSeg SegmentStack (u64 (physicalBase + totalSize)) 0 true true true false]>
     ∅)))).

Definition TranslateBaseAndBounds (vAddr : Z) (as_ : AddressSpace) : result Z :=
  if TotalSize as_ <=? vAddr then
    Err (Errorf_w ErrSegmentationFault (": virtual address 0x" +:+ fmt_X vAddr +:+
           " exceeds address space size 0x" +:+ fmt_X (TotalSize as_)))
  else Ok (u64 (PhysicalBase as_ + vAddr)).

(** The outer option is the nil dereference of a missing heap segment. *)
Definition Sbrk (increment : Z) (as_ : AddressSpace) : option (result Z * AddressSpace) :=
  let oldBreak := HeapBreak as_ in
  let newBreak := u64 (i64 (i64 oldBreak + increment)) in
  if newBreak <? HeapStart as_ then
    Some (Err (Errorf ("invalid sbrk: cannot contract heap below heap start (0x" +:+
                 fmt_X (HeapStart as_) +:+ ")")), as_)
  else if StackPtr as_ <=? newBreak then
    Some (Err (Errorf_w ErrStackOverflow (": heap (0x" +:+ fmt_X newBreak +:+
                 ") collided with stack pointer (0x" +:+ fmt_X (StackPtr as_) +:+ ")")), as_)
  else
    heap ← Segments as_ !! SegmentHeap;
    Some (Ok oldBreak,
      as_ <| HeapBreak := newBreak |>
          <| Segments ::= <[SegmentHeap := heap <| Limit := u64 (newBreak - HeapStart as_) |>]> |>).

(** ** The break of the heap *)

(** The heap lies between its start and the stack pointer, and the heap
    segment covers it. *)
Record as_wf (a : AddressSpace) : Prop := mk_as_wf {
  aw_start : 0 ≤ HeapStart a;
  aw_break : HeapStart a ≤ HeapBreak a;
  aw_stack : HeapBreak a < StackPtr a;
  aw_small : StackPtr a < 2 ^ 63;
  aw_limit : ∃ s, Segments a !! SegmentHeap = Some s ∧ Limit s = HeapBreak a - HeapStart a }.

Lemma u64_i64 z : u64 (i64 z) = u64 z.
Proof.
  unfold i64. pose proof (u64_range z) as Hr.
  destruct (Z.ltb_spec (u64 z) (2 ^ 63)); [by apply u64_id|].
  unfold u64, u64_mod in *. rewrite <- (Z.mod_add _ 1) by lia.
  rewrite Z.mul_1_l, Z.sub_add. by apply Z.mod_mod.
Qed.

Lemma newBreak_eq a inc :
  as_wf a → is_i64 inc → u64 (i64 (i64 (HeapBreak a) + inc)) = u64 (HeapBreak a + inc).
Proof.
  intros [] Hi. rewrite u64_i64, i64_id; [done|]. unfold is_i64. lia.
Qed.

(** [u64] of a sum that may be negative. *)
Lemma u64_signed z :
  - 2 ^ 63 ≤ z < u64_mod → u64 z = if z <? 0 then z + u64_mod else z.
Proof.
  intros Hz. unfold u64, u64_mod in *. destruct (Z.ltb_spec z 0).
  - symmetry. apply (Z.mod_unique_pos _ _ (-1)); lia.
  - apply Z.mod_small. lia.
Qed.

Definition moveBreak (b : Z) (s : SegmentDescriptor) (a : AddressSpace) : AddressSpace :=
  a <| HeapBreak := b |>
    <| Segments ::= <[SegmentHeap := s <| Limit := b - HeapStart a |>]> |>.

Lemma Sbrk_ok a inc s :
  as_wf a → is_i64 inc → Segments a !! SegmentHeap = Some s →
  HeapStart a ≤ HeapBreak a + inc < StackPtr a →
  Sbrk inc a = Some (Ok (HeapBreak a), moveBreak (HeapBreak a + inc) s a).
Proof.
  intros Hwf Hi Hs Hr. unfold Sbrk. rewrite newBreak_eq by done. destruct Hwf as [? ? ? ? _].
  rewrite (u64_id (HeapBreak a + inc)) by (unfold is_u64, u64_mod; lia).
  destruct (Z.ltb_spec (HeapBreak a + inc) (HeapStart a)); [lia|].
  destruct (Z.leb_spec (StackPtr a) (HeapBreak a + inc)); [lia|].
  rewrite Hs. cbn [mbind option_bind].
  by rewrite u64_id by (unfold is_u64, u64_mod; lia).
Qed.

Lemma Sbrk_err a inc :
  as_wf a → is_i64 inc → ¬ (HeapStart a ≤ HeapBreak a + inc < StackPtr a) →
  ∃ e, Sbrk inc a = Some (Err e, a).
Proof.
  intros Hwf Hi Hr. unfold Sbrk. rewrite newBreak_eq by done. destruct Hwf as [? ? ? ? _].
  unfold is_i64 in Hi. rewrite u64_signed by (unfold u64_mod; lia). unfold u64_mod.
  destruct (Z.ltb_spec (HeapBreak a + inc) 0);
    repeat (case_match; [by eexists|]); go_bool; exfalso; lia.
Qed.

Lemma moveBreak_wf a b s :
  as_wf a → HeapStart a ≤ b < StackPtr a → as_wf (moveBreak b s a).
Proof.
  intros [] Hb. split; simpl; try lia. eexists. by rewrite lookup_insert_eq.
Qed.

(** Moving the break back. *)
Lemma moveBreak_back a b s :
  Segments a !! SegmentHeap = Some s → Limit s = HeapBreak a - HeapStart a →
  moveBreak (HeapBreak a) (s <| Limit := b - HeapStart a |>) (moveBreak b s a) = a.
Proof.
  intros Hs Hl. destruct a as [? ? ? ? ? ? ? hs hb ? ? ? segs]. unfold moveBreak. simpl in *. f_equal.
  rewrite insert_insert_eq. apply insert_id. rewrite Hs. f_equal.
  destruct s. simpl in *. by subst.
Qed.

(** Sbrk moves the break exactly when the new break stays between the
    start of the heap and the stack pointer: it then returns the old break,
    and only the break and the limit of the heap segment change, by the
    increment.  Otherwise it returns an error and changes nothing.  The
    layout invariant is preserved, and undoing a successful Sbrk by the
    opposite increment restores the address space. *)
Theorem Sbrk_spec a inc (Hwf : as_wf a) (Hinc : - 2 ^ 63 < inc < 2 ^ 63) :
  ∃ r a', Sbrk inc a = Some (r, a') ∧ as_wf a' ∧
    (is_ok r = true ↔ HeapStart a ≤ HeapBreak a + inc < StackPtr a) ∧
    match r with
    | Err _ => a' = a
    | Ok old => old = HeapBreak a ∧ HeapBreak a' = HeapBreak a + inc ∧
        (∃ s, Segments a' !! SegmentHeap = Some s ∧
              Limit s = HeapBreak a + inc - HeapStart a) ∧
        Sbrk (- inc) a' = Some (Ok (HeapBreak a'), a)
    end.
Proof.
  pose proof Hwf as [_ _ _ _ (s & Hs & Hl)].
  destruct (decide (HeapStart a ≤ HeapBreak a + inc < StackPtr a)) as [Hr|Hr].
  - rewrite (Sbrk_ok a inc s) by (unfold is_i64; auto with lia). do 2 eexists.
    pose proof (moveBreak_wf a _ s Hwf Hr) as Hwf'. do 3 (split; [done|]).
    do 2 (split; [done|]). split.
    + eexists. simpl. by rewrite lookup_insert_eq.
    + erewrite Sbrk_ok; [|done|unfold is_i64; lia|simpl; apply lookup_insert_eq|].
      * do 2 f_equal. simpl. replace (HeapBreak a + inc + - inc) with (HeapBreak a) by lia.
        by apply moveBreak_back.
      * destruct Hwf. simpl. lia.
  - destruct (Sbrk_err a inc) as [e ->]; [done|unfold is_i64; lia|done|].
    do 2 eexists. do 3 (split; [done|]). done.
Qed.

Lemma Sbrk_spec_witness :
  ∃ r a', Sbrk 4096 (NewAddressSpace 101 65536 2097152) = Some (r, a') ∧ as_wf a'.
Proof.
  destruct (Sbrk_spec (NewAddressSpace 101 65536 2097152) 4096) as (r & a' & ? & ? & _).
  - split; simpl; try lia; try (vm_compute; congruence). eexists. split; reflexivity.
  - lia.
  - eauto.
Defined.


(** ** The call stack *)
Module CallStacks.
Section CallStack.
(** The type of the map of local variables, which the stack only carries. *)
Context {Locals : Type}.

Record StackFrame := mkFrame {
  FunctionName : string; ReturnAddress : Z; FramePointer : Z; StackPointer : Z;
  LocalVariables : Locals; FrameSizeBytes : Z }.

Record CallStack := mkCS {
  BaseAddress : Z; CurrentSP : Z; CurrentBP : Z; Frames : list StackFrame;
  MaxDepth : Z; TotalSizeBytes : Z }.
#[export] Instance eta_CallStack : Eta CallStack := λ c,
  mkCS (BaseAddress c) (CurrentSP c) (CurrentBP c) (Frames c) (MaxDepth c) (TotalSizeBytes c).

Definition NewCallStack (baseAddr totalSize : Z) : CallStack :=
  mkCS baseAddr baseAddr baseAddr [] 256 totalSize.

Definition PushFrame (funcName : string) (retAddr frameSize : Z) (locals : Locals)
    (cs : CallStack) : result StackFrame * CallStack :=
  if MaxDepth cs <=? len (Frames cs) then
    (Err (Errorf_w ErrStackOverflow (": max stack recursion depth " +:+
            fmt_d (MaxDepth cs) +:+ " reached")), cs)
  else
  let newSP := u64 (CurrentSP cs - frameSize) in
  if (CurrentSP cs <? newSP) || (TotalSizeBytes cs <? u64 (BaseAddress cs - newSP)) then
    (Err (Errorf_w ErrStackOverflow (": stack pointer 0x" +:+ fmt_X newSP +:+
            " exceeded stack boundary")), cs)
  else
  let frame := mkFrame funcName retAddr (CurrentBP cs) newSP locals frameSize in
  (Ok frame, cs <| CurrentBP := CurrentSP cs |> <| CurrentSP := newSP |>
                <| Frames ::= λ fs, fs ++ [frame] |>).

Definition PopFrame (cs : CallStack) : result StackFrame * CallStack :=
  match last (Frames cs) with
  | None => (Err (Errorf "stack underflow: no active frames to pop"), cs)
  | Some popped =>
      (Ok popped,
       cs <| Frames ::= @removelast StackFrame |>
          <| CurrentSP := u64 (CurrentSP cs + FrameSizeBytes popped) |>
          <| CurrentBP := FramePointer popped |>)
  end.

(** The frames occupy the bytes between the stack pointer and the base. *)
Record cs_wf (cs : CallStack) : Prop := mk_cs_wf {
  sw_sp : 0 ≤ CurrentSP cs;
  sw_base : is_u64 (BaseAddress cs);
  sw_used : BaseAddress cs - CurrentSP cs = sumZ FrameSizeBytes (Frames cs);
  sw_sizes : Forall (λ f, is_u64 (FrameSizeBytes f)) (Frames cs);
  sw_total : BaseAddress cs - CurrentSP cs ≤ TotalSizeBytes cs;
  sw_depth : len (Frames cs) ≤ MaxDepth cs }.

Lemma cs_wf_sp cs : cs_wf cs → CurrentSP cs ≤ BaseAddress cs.
Proof.
  intros [_ _ Hu Hs _ _]. rewrite Forall_forall in Hs.
  pose proof (sumZ_nonneg FrameSizeBytes (Frames cs)) as H.
  enough (0 ≤ sumZ FrameSizeBytes (Frames cs)) by lia. apply H.
  intros f Hf. by destruct (Hs f Hf).
Qed.

(** The two checks of [PushFrame] together say that the frame fits. *)
Lemma push_checks cs frameSize :
  cs_wf cs → is_u64 frameSize →
  let newSP := u64 (CurrentSP cs - frameSize) in
  (CurrentSP cs <? newSP) || (TotalSizeBytes cs <? u64 (BaseAddress cs - newSP)) = false ↔
  frameSize ≤ CurrentSP cs ∧ BaseAddress cs - CurrentSP cs + frameSize ≤ TotalSizeBytes cs.
Proof.
  intros Hwf Hs newSP. pose proof (cs_wf_sp cs Hwf) as Hle.
  destruct Hwf as [Hsp Hb _ _ _ _]. unfold is_u64 in *.
  rewrite orb_false_iff, Z.ltb_ge, Z.ltb_ge. subst newSP.
  destruct (Z.le_gt_cases frameSize (CurrentSP cs)) as [Hfit|Hwrap].
  - rewrite (u64_id (CurrentSP cs - frameSize)) by (unfold is_u64; lia).
    rewrite u64_id by (unfold is_u64; lia). lia.
  - assert (u64 (CurrentSP cs - frameSize) = CurrentSP cs - frameSize + u64_mod) as ->.
    { unfold u64, u64_mod in *. symmetry. apply (Z.mod_unique_pos _ _ (-1)); lia. }
    unfold u64_mod in *. lia.
Qed.

Lemma cs_wf_push cs f bp :
  cs_wf cs → is_u64 (FrameSizeBytes f) → FrameSizeBytes f ≤ CurrentSP cs →
  BaseAddress cs - CurrentSP cs + FrameSizeBytes f ≤ TotalSizeBytes cs →
  len (Frames cs) < MaxDepth cs →
  cs_wf (cs <| CurrentBP := bp |> <| CurrentSP := CurrentSP cs - FrameSizeBytes f |>
            <| Frames ::= λ fs, fs ++ [f] |>).
Proof.
  intros [] Hf Hsp Ht Hd. split; simpl; try done; try lia.
  - rewrite sumZ_app. unfold sumZ at 2. simpl. lia.
  - apply Forall_app. by split; [|constructor].
  - unfold len in *. rewrite length_app. simpl. lia.
Qed.

(** A call pushes a frame exactly when the recursion limit is not reached
    and the frame fits in what is left of the stack.  The stack pointer then
    moves down by the frame size, the base pointer becomes the old stack
    pointer, and returning pops the same frame and restores the stack, with
    both pointers, to what it was.  Otherwise the call fails with a stack
    overflow and changes nothing.  The frames always fill the space between
    the stack pointer and the base address. *)
Theorem PushFrame_PopFrame cs funcName retAddr frameSize (locals : Locals)
    (Hwf : cs_wf cs) (Hsize : is_u64 frameSize) :
  let '(r, cs') := PushFrame funcName retAddr frameSize locals cs in
  cs_wf cs' ∧
  (is_ok r = true ↔ len (Frames cs) < MaxDepth cs ∧ frameSize ≤ CurrentSP cs ∧
     BaseAddress cs - CurrentSP cs + frameSize ≤ TotalSizeBytes cs) ∧
  match r with
  | Ok f => CurrentSP cs' = CurrentSP cs - frameSize ∧ CurrentBP cs' = CurrentSP cs ∧
      ReturnAddress f = retAddr ∧ PopFrame cs' = (Ok f, cs)
  | Err e => cs' = cs ∧ err_is e = err_is ErrStackOverflow
  end.
Proof.
  unfold PushFrame. destruct (Z.leb_spec (MaxDepth cs) (len (Frames cs))) as [Hd|Hd].
  { split; [done|]. split; [|done]. simpl. split; [done|]. lia. }
  pose proof (push_checks cs frameSize Hwf Hsize) as Hchk. cbv zeta in Hchk.
  destruct (_ || _) eqn:E.
  { split; [done|]. split; [|done]. simpl. split; [done|]. intros (_ & Hf).
    by apply Hchk in Hf. }
  destruct (proj1 Hchk eq_refl) as [Hf1 Hf2]. pose proof (cs_wf_sp cs Hwf) as Hle.
  pose proof Hwf as [Hsp Hb _ _ _ _]. unfold is_u64 in *.
  rewrite (u64_id (CurrentSP cs - frameSize)) by (unfold is_u64; lia).
  set (f := mkFrame _ _ _ _ _ _). split; [by apply (cs_wf_push cs f)|].
  split; [simpl; split; [lia|done]|]. do 3 (split; [done|]).
  unfold PopFrame. cbn. rewrite last_snoc, removelast_last, Z.sub_add.
  rewrite u64_id by (unfold is_u64; lia). by destruct cs.
Qed.
End CallStack.
Arguments CallStack : clear implicits.
Arguments StackFrame : clear implicits.

Lemma PushFrame_PopFrame_witness :
  let '(r, cs') := PushFrame "main" 4198400 256 tt (NewCallStack 65535 16384) in
  cs_wf cs' ∧ is_ok r = true.
Proof.
  pose proof (PushFrame_PopFrame (NewCallStack 65535 16384) "main" 4198400 256 tt) as H.
  destruct (PushFrame _ _ _ _ _) as [r cs'] eqn:E. destruct H as (Hwf & Hok & _).
  - split; simpl; unfold is_u64, u64_mod; try lia; done.
  - unfold is_u64, u64_mod. lia.
  - split; [done|]. apply Hok. unfold len. simpl. lia.
Defined.
End CallStacks.
