(* ===== verification/Banker.v ===== *)
(** * The banker's algorithm

    Models [BankersState] of [src/pkg/concurrency/deadlock_banker.go]: claims,
    the safety check and the granting of requests.  [None] stands for an index
    out of range. *)

From S2P Require Import Prelude Visualizer.

Record BankersState := mkBank {
  NumProcesses : Z; NumResources : Z; ResourceNames : list string;
  Available : list Z; Max : list (list Z); Allocation : list (list Z); Need : list (list Z) }.
#[export] Instance eta_BankersState : Eta BankersState := λ b,
  mkBank (NumProcesses b) (NumResources b) (ResourceNames b) (Available b) (Max b)
    (Allocation b) (Need b).

(** [make([]int, m)] followed by [copy]. *)
Definition copyInto (m : nat) (src : list Z) : list Z :=
  take m src ++ replicate (m - length src) 0.

Definition NewBankersState (procCount : Z) (resNames : list string) (totalResources : list Z)
    : option BankersState :=
  if procCount <? 0 then None else
  let m := length resNames in
  let zero := replicate (Z.to_nat procCount) (replicate m 0) in
  Some (mkBank procCount (len resNames) resNames (copyInto m totalResources) zero zero zero).

(** [for j := 0; j < n; j++ { body }] *)
Fixpoint forj {S : Type} (n : nat) (j : Z) (body : Z → S → option S) (s : S) : option S :=
  match n with
  | O => Some s
  | Datatypes.S n => s ← body j s; forj n (j + 1) body s
  end.

Definition idx2 (M : list (list Z)) (i j : Z) : option Z := row ← idx M i; idx row j.
Definition upd2 (f : Z → Z) (i j : Z) (M : list (list Z)) : list (list Z) :=
  upd_idx (upd_idx f j) i M.

Definition claimStep (procIdx : Z) (maxClaim currentAlloc : list Z) (j : Z) (b : BankersState)
    : option BankersState :=
  m ← idx maxClaim j; _ ← idx2 (Max b) procIdx j;
  c ← idx currentAlloc j; _ ← idx2 (Allocation b) procIdx j; _ ← idx2 (Need b) procIdx j;
  _ ← idx (Available b) j;
  Some (b <| Max ::= upd2 (λ _, m) procIdx j |>
          <| Allocation ::= upd2 (λ _, c) procIdx j |>
          <| Need ::= upd2 (λ _, m - c) procIdx j |>
          <| Available ::= upd_idx (λ x, x - c) j |>).

Definition SetProcessClaim (procIdx : Z) (maxClaim currentAlloc : list Z) (b : BankersState)
    : option BankersState :=
  forj (Z.to_nat (NumResources b)) 0 (claimStep procIdx maxClaim currentAlloc) b.

(** ** The safety check *)

(** The loops that compare two vectors and stop at the first excess. *)
Fixpoint leqLoop (n : nat) (j : Z) (xs ys : Z → option Z) : option bool :=
  match n with
  | O => Some true
  | Datatypes.S n =>
      x ← xs j; y ← ys j;
      if y <? x then Some false else leqLoop n (j + 1) xs ys
  end.

(** The scan for an unfinished process whose need is covered. *)
Fixpoint findExec (n : nat) (i : Z) (b : BankersState) (work : list Z) (finish : list bool)
    : option (option Z) :=
  match n with
  | O => Some None
  | Datatypes.S n =>
      done ← idx finish i;
      if done : bool then findExec n (i + 1) b work finish else
      can ← leqLoop (Z.to_nat (NumResources b)) 0 (idx2 (Need b) i) (idx work);
      if can : bool then Some (Some i) else findExec n (i + 1) b work finish
  end.

Definition releaseStep (b : BankersState) (i j : Z) (work : list Z) : option (list Z) :=
  _ ← idx work j; a ← idx2 (Allocation b) i j;
  Some (upd_idx (λ x, x + a) j work).

(** [%v] of a slice of integers. *)
Definition fmt_v_ints (l : list Z) : string := "[" +:+ String.concat " " (fmt_d <$> l) +:+ "]".

Definition logRisk : string :=
  Red "DEADLOCK RISK: No remaining process can satisfy its resource needs with currently available resources!".
Definition logStep (i : Z) (need work : list Z) : string :=
  "P" +:+ fmt_d i +:+ " can satisfy its Need " +:+ fmt_v_ints need +:+
  " <= Available -> Executes & releases resources. New Available: " +:+ fmt_v_ints work.

(** The outer loop; each round finishes a process, so [NumProcesses] rounds
    are enough. *)
Fixpoint safeLoop (fuel : nat) (b : BankersState) (work : list Z) (finish : list bool)
    (safeSeq : list Z) (logSteps : list string) : option (bool * list Z * string) :=
  if NumProcesses b <=? len safeSeq then
    Some (true, safeSeq, String.concat newline
      (logSteps ++ [Green ("SAFE STATE CONFIRMED: Safe Execution Sequence: P" +:+ fmt_v_ints safeSeq)]))
  else
  match fuel with
  | O => None
  | Datatypes.S fuel =>
      found ← findExec (Z.to_nat (NumProcesses b)) 0 b work finish;
      match found with
      | None => Some (false, [], String.concat newline (logSteps ++ [logRisk]))
      | Some i =>
          work ← forj (Z.to_nat (NumResources b)) 0 (releaseStep b i) work;
          need ← idx (Need b) i;
          safeLoop fuel b work (upd_idx (λ _, true) i finish) (safeSeq ++ [i])
            (logSteps ++ [logStep i need work])
      end
  end.

Definition CheckSafeState (b : BankersState) : option (bool * list Z * string) :=
  let work := copyInto (Z.to_nat (NumResources b)) (Available b) in
  let finish := replicate (Z.to_nat (NumProcesses b)) false in
  safeLoop (Z.to_nat (NumProcesses b)) b work finish []
    ["Initial Available Vector: " +:+ fmt_v_ints work].

(** ** Requests *)
Definition moveStep (minus plus : Z → Z → Z) (procIdx : Z) (request : list Z) (j : Z)
    (b : BankersState) : option BankersState :=
  r ← idx request j; _ ← idx (Available b) j;
  _ ← idx2 (Allocation b) procIdx j; _ ← idx2 (Need b) procIdx j;
  Some (b <| Available ::= upd_idx (λ x, minus x r) j |>
          <| Allocation ::= upd2 (λ x, plus x r) procIdx j |>
          <| Need ::= upd2 (λ x, minus x r) procIdx j |>).

(** Pretending to allocate, and the rollback. *)
Definition pretendStep := moveStep Z.sub Z.add.
Definition rollbackStep := moveStep Z.add Z.sub.

Definition RequestResources (procIdx : Z) (request : list Z) (b : BankersState)
    : option (bool * string * BankersState) :=
  let n := Z.to_nat (NumResources b) in
  inNeed ← leqLoop n 0 (idx request) (idx2 (Need b) procIdx);
  if negb inNeed then
    need ← idx (Need b) procIdx;
    Some (false, "ERROR: Process P" +:+ fmt_d procIdx +:+
      " requested more than its declared maximum claim (Need: " +:+ fmt_v_ints need +:+ ")", b)
  else
  inAvail ← leqLoop n 0 (idx request) (idx (Available b));
  if negb inAvail then
    Some (false, "DENIED: Process P" +:+ fmt_d procIdx +:+
      " must wait. Insufficient resources available (" +:+ fmt_v_ints request +:+
      " requested vs " +:+ fmt_v_ints (Available b) +:+ " available)", b)
  else
  b ← forj n 0 (pretendStep procIdx request) b;
  '(isSafe, seq, log) ← CheckSafeState b;
  if negb isSafe then
    b ← forj n 0 (rollbackStep procIdx request) b;
    Some (false, "REQUEST DENIED: Granting request would put system in an UNSAFE state (Deadlock Hazard)!"
      +:+ newline +:+ log, b)
  else
    Some (true, "REQUEST GRANTED: Safe sequence exists: P" +:+ fmt_v_ints seq +:+ newline +:+ log, b).

(** ** Vectors *)
Definition vadd : list Z → list Z → list Z := zip_with Z.add.
Definition vsub : list Z → list Z → list Z := zip_with Z.sub.
Definition vle : list Z → list Z → Prop := Forall2 Z.le.

Lemma idx_app_len {A} (l1 : list A) x l2 : idx (l1 ++ x :: l2) (len l1) = Some x.
Proof. unfold len. rewrite idx_nat. by apply list_lookup_middle. Qed.

Lemma upd_idx_app_len {A} (f : A → A) l1 x l2 :
  upd_idx f (len l1) (l1 ++ x :: l2) = l1 ++ f x :: l2.
Proof.
  unfold upd_idx, len. rewrite Nat2Z.id. induction l1 as [|y l1 IH]; [done|].
  change (y :: alter f (length l1) (l1 ++ x :: l2) = y :: (l1 ++ f x :: l2)). by rewrite IH.
Qed.

Lemma app_snoc {A} (l1 : list A) x l2 : l1 ++ x :: l2 = (l1 ++ [x]) ++ l2.
Proof. by rewrite <- app_assoc. Qed.

(** The comparison loop. *)
Lemma leqLoop_app f g j x1 x2 y1 y2 :
  (∀ j, 0 ≤ j < len (x1 ++ x2) → f j = idx (x1 ++ x2) j) →
  (∀ j, 0 ≤ j < len (y1 ++ y2) → g j = idx (y1 ++ y2) j) →
  len x1 = j → len y1 = j → length x2 = length y2 →
  ∃ c, leqLoop (length x2) j f g = Some c ∧ (c = true ↔ vle x2 y2).
Proof.
  revert j x1 y1 y2. induction x2 as [|x x2 IH]; intros j x1 y1 [|y y2] Hf Hg H1 H2 Hl; try done.
  { simpl. exists true. split; [done|]. split; [constructor|done]. }
  simpl. rewrite Hf, <- H1, idx_app_len, H1 by (unfold len in *; rewrite length_app; simpl; lia).
  rewrite Hg, <- H2, idx_app_len, H2 by (unfold len in *; rewrite length_app; simpl; lia). simpl.
  destruct (Z.ltb_spec y x) as [Hlt|Hge].
  - exists false. split; [done|]. split; [done|]. inversion 1. lia.
  - rewrite app_snoc in Hf, Hg.
    destruct (IH (j + 1) (x1 ++ [x]) (y1 ++ [y]) y2 Hf Hg) as (c & -> & Hc).
    + rewrite len_snoc. lia.
    + rewrite len_snoc. lia.
    + by injection Hl.
    + exists c. split; [done|]. rewrite Hc. split; [by constructor|]. by inversion 1.
Qed.

Lemma leqLoop_spec f g xs ys n :
  (∀ j, 0 ≤ j < len xs → f j = idx xs j) → (∀ j, 0 ≤ j < len ys → g j = idx ys j) →
  len xs = n → len ys = n →
  ∃ c, leqLoop (Z.to_nat n) 0 f g = Some c ∧ (c = true ↔ vle xs ys).
Proof.
  intros Hf Hg Hx Hy. replace (Z.to_nat n) with (length xs) by (unfold len in *; lia).
  apply (leqLoop_app f g 0 [] xs [] ys); [done..|]. unfold len in *. lia.
Qed.

(** ** Shapes *)
Record shape (b : BankersState) : Prop := mk_shape {
  sh_procs : 0 ≤ NumProcesses b;
  sh_avail : len (Available b) = NumResources b;
  sh_alloc : len (Allocation b) = NumProcesses b;
  sh_need : len (Need b) = NumProcesses b;
  sh_alloc_rows : Forall (λ r, len r = NumResources b) (Allocation b);
  sh_need_rows : Forall (λ r, len r = NumResources b) (Need b) }.

Definition row (M : list (list Z)) (i : Z) : list Z := default [] (idx M i).

Lemma row_idx M i n : len M = n → 0 ≤ i < n → idx M i = Some (row M i).
Proof.
  intros Hn Hi. unfold row. destruct (idx M i) eqn:E; [done|]. apply idx_None in E. lia.
Qed.

Lemma row_len M i n m :
  len M = n → Forall (λ r, len r = m) M → 0 ≤ i < n → len (row M i) = m.
Proof.
  intros Hn Hm Hi. pose proof (row_idx M i n Hn Hi) as E.
  apply idx_Some in E as [_ E]. by apply (Forall_lookup_1 _ _ _ _ Hm E).
Qed.

Lemma idx2_row M i j n : len M = n → 0 ≤ i < n → idx2 M i j = idx (row M i) j.
Proof. intros Hn Hi. unfold idx2. by rewrite (row_idx M i n) by done. Qed.

Lemma need_le b i work :
  shape b → 0 ≤ i < NumProcesses b → len work = NumResources b →
  ∃ c, leqLoop (Z.to_nat (NumResources b)) 0 (idx2 (Need b) i) (idx work) = Some c ∧
       (c = true ↔ vle (row (Need b) i) work).
Proof.
  intros [] Hi Hw. apply leqLoop_spec; [|done| |done].
  - intros j _. by eapply idx2_row.
  - by eapply row_len.
Qed.

Lemma release_app b i j w1 w2 d1 d2 :
  (∀ k, idx2 (Allocation b) i k = idx (d1 ++ d2) k) → len w1 = j → len d1 = j →
  length w2 = length d2 →
  forj (length w2) j (releaseStep b i) (w1 ++ w2) = Some (w1 ++ vadd w2 d2).
Proof.
  revert j w1 d1 d2. induction w2 as [|w w2 IH]; intros j w1 d1 [|d d2] Hd H1 H2 Hl; try done.
  assert (releaseStep b i j (w1 ++ w :: w2) = Some (w1 ++ (w + d) :: w2)) as Hstep.
  { assert (idx (d1 ++ d :: d2) j = Some d) as Ed by (rewrite <- H2; apply idx_app_len).
    unfold releaseStep. rewrite Hd, Ed. rewrite <- H1, idx_app_len. simpl.
    by rewrite upd_idx_app_len. }
  cbn [forj length]. rewrite Hstep. cbn [mbind option_bind].
  rewrite app_snoc in Hd. rewrite (app_snoc w1), (IH _ _ (d1 ++ [d]) d2).
  - by rewrite <- app_assoc.
  - done.
  - rewrite len_snoc. lia.
  - rewrite len_snoc. lia.
  - by injection Hl.
Qed.

Lemma release_spec b i work :
  shape b → 0 ≤ i < NumProcesses b → len work = NumResources b →
  forj (Z.to_nat (NumResources b)) 0 (releaseStep b i) work =
    Some (vadd work (row (Allocation b) i)).
Proof.
  intros [] Hi Hw. replace (Z.to_nat (NumResources b)) with (length work) by (unfold len in *; lia).
  apply (release_app b i 0 [] work [] (row (Allocation b) i)); [|done..|].
  - intros k. by eapply idx2_row.
  - assert (len (row (Allocation b) i) = NumResources b) by (by eapply row_len).
    unfold len in *. lia.
Qed.

Lemma len_vadd u v : len u = len v → len (vadd u v) = len u.
Proof. unfold len, vadd. rewrite length_zip_with. lia. Qed.

(** ** Safe sequences *)

(** The processes of [seq] can run to completion one after the other, each
    with its whole remaining need, when the resources [work] are free. *)
Fixpoint can_run (b : BankersState) (work : list Z) (seq : list Z) : Prop :=
  match seq with
  | [] => True
  | i :: seq => vle (row (Need b) i) work ∧ can_run b (vadd work (row (Allocation b) i)) seq
  end.

Definition safe_sequence (b : BankersState) (seq : list Z) : Prop :=
  seq ≡ₚ seqZ 0 (NumProcesses b) ∧ can_run b (Available b) seq.

(** A state is safe when some order lets every process finish. *)
Definition safe (b : BankersState) : Prop := ∃ seq, safe_sequence b seq.

(** The resources after the processes of [seq] have finished. *)
Definition released (b : BankersState) (work : list Z) (seq : list Z) : list Z :=
  foldl (λ w i, vadd w (row (Allocation b) i)) work seq.

Lemma can_run_snoc b work seq i :
  can_run b work (seq ++ [i]) ↔ can_run b work seq ∧ vle (row (Need b) i) (released b work seq).
Proof.
  revert work. induction seq as [|k seq IH]; intros work; simpl; [tauto|]. rewrite IH. tauto.
Qed.

(** The scan finds a process that can run, if there is one. *)
Lemma findExec_spec n b work finish i :
  shape b → len finish = NumProcesses b → len work = NumResources b →
  0 ≤ i → i + Z.of_nat n = NumProcesses b →
  ∃ r, findExec n i b work finish = Some r ∧
    match r with
    | Some k => i ≤ k < NumProcesses b ∧ idx finish k = Some false ∧ vle (row (Need b) k) work
    | None => ∀ k, i ≤ k < NumProcesses b → idx finish k = Some false →
                   ¬ vle (row (Need b) k) work
    end.
Proof.
  intros Hs Hf Hw. revert i. induction n as [|n IH]; intros i Hi Hn; simpl.
  { exists None. split; [done|]. intros k Hk. lia. }
  destruct (idx finish i) as [d|] eqn:Ed; [|apply idx_None in Ed; lia]. simpl.
  destruct (IH (i + 1)) as (r & Er & Hr); [lia..|].
  destruct d.
  - exists r. split; [done|]. destruct r as [k|].
    + destruct Hr as (? & ? & ?). split_and!; [lia..|done|done].
    + intros k Hk Hfk. apply Hr; [|done]. destruct (decide (k = i)) as [->|]; [congruence|lia].
  - destruct (need_le b i work Hs ltac:(lia) Hw) as (c & -> & Hc). simpl. destruct c.
    + exists (Some i). split; [done|]. split_and!; [lia|lia|done|by apply Hc].
    + exists r. split; [done|]. destruct r as [k|].
      * destruct Hr as (? & ? & ?). split_and!; [lia..|done|done].
      * intros k Hk Hfk. destruct (decide (k = i)) as [->|]; [|apply Hr; [lia|done]].
        intros Hle%Hc. done.
Qed.

#[local] Arguments sumZ : simpl never.

(** The units of resource [j] that process [i] holds. *)
Definition holds (b : BankersState) (j : nat) (i : Z) : Z :=
  default 0 (row (Allocation b) i !! j).

Definition in_range (b : BankersState) (i : Z) : Prop := 0 ≤ i < NumProcesses b.

Lemma row_alloc_lookup b i j :
  shape b → in_range b i → (j < Z.to_nat (NumResources b))%nat →
  row (Allocation b) i !! j = Some (holds b j i).
Proof.
  intros [] Hi Hj. assert (len (row (Allocation b) i) = NumResources b) as Hl by (by eapply row_len).
  destruct (lookup_lt_is_Some_2 (row (Allocation b) i) j) as [x Hx]; [unfold len in *; lia|].
  unfold holds. by rewrite Hx.
Qed.

Lemma released_spec b work seq :
  shape b → len work = NumResources b → Forall (in_range b) seq →
  len (released b work seq) = NumResources b ∧
  ∀ j x, work !! j = Some x → released b work seq !! j = Some (x + sumZ (holds b j) seq).
Proof.
  intros Hs Hw Hseq. revert work Hw. induction Hseq as [|i seq Hi Hseq IH]; intros work Hw; simpl.
  { split; [done|]. intros j x ->. f_equal. unfold sumZ. simpl. lia. }
  assert (len (row (Allocation b) i) = NumResources b) as Hl.
  { destruct Hs. by eapply row_len. }
  destruct (IH (vadd work (row (Allocation b) i))) as [IH1 IH2].
  { rewrite len_vadd; lia. }
  split; [done|]. intros j x Hx. rewrite sumZ_cons.
  rewrite (IH2 j (x + holds b j i)); [f_equal; lia|]. unfold vadd. rewrite lookup_zip_with, Hx. simpl.
  rewrite row_alloc_lookup; [done..|]. apply lookup_lt_Some in Hx. unfold len in *. lia.
Qed.

Definition alloc_nonneg (b : BankersState) : Prop := Forall (Forall (λ x, 0 ≤ x)) (Allocation b).

Lemma holds_nonneg b j i : alloc_nonneg b → 0 ≤ holds b j i.
Proof.
  intros Hn. unfold holds, row. destruct (idx (Allocation b) i) as [r|] eqn:E; [|done]. simpl.
  apply idx_Some in E as [_ E]. pose proof (Forall_lookup_1 _ _ _ _ Hn E) as Hr.
  destruct (r !! j) eqn:E'; [|done]. by apply (Forall_lookup_1 _ _ _ _ Hr E').
Qed.

(** Finishing more processes releases at least as much. *)
Lemma released_mono b work s1 s2 :
  shape b → alloc_nonneg b → len work = NumResources b → Forall (in_range b) s2 → s1 ⊆+ s2 →
  vle (released b work s1) (released b work s2).
Proof.
  intros Hs Hn Hw H2 [s3 Hp]%submseteq_Permutation. rewrite Hp in H2.
  pose proof H2 as [H1 H3]%Forall_app.
  assert (Forall (in_range b) s2) as H2' by (by rewrite Hp).
  destruct (released_spec b work s1 Hs Hw H1) as [L1 R1].
  destruct (released_spec b work s2 Hs Hw H2') as [L2 R2].
  apply Forall2_same_length_lookup_2; [unfold len in *; lia|]. intros j x y Hx Hy.
  destruct (lookup_lt_is_Some_2 work j) as [z Hz].
  { apply lookup_lt_Some in Hx. unfold len in *. lia. }
  rewrite (R1 j z Hz) in Hx. rewrite (R2 j z Hz) in Hy. simplify_eq.
  rewrite (sumZ_perm _ _ _ Hp), sumZ_app.
  pose proof (sumZ_nonneg (holds b j) s3) as Hpos.
  enough (0 ≤ sumZ (holds b j) s3) by lia. apply Hpos. intros. by apply holds_nonneg.
Qed.

(** When every unfinished process needs more than the finished ones released,
    there is no safe sequence. *)
Lemma stuck_unsafe b seq :
  shape b → alloc_nonneg b → Forall (in_range b) seq → len seq < NumProcesses b →
  (∀ k, in_range b k → k ∉ seq → ¬ vle (row (Need b) k) (released b (Available b) seq)) →
  ¬ safe b.
Proof.
  intros Hs Hn Hseq Hlen Hstuck (full & Hp & Hrun).
  destruct (list_find (λ k, k ∉ seq) full) as [[i p]|] eqn:E.
  - apply list_find_Some in E as (Hi & Hpn & Hpre).
    rewrite <- (take_drop_middle _ _ _ Hi), app_snoc in Hrun.
    assert (Hcut : ∀ l1 l2 w, can_run b w (l1 ++ l2) → can_run b w l1).
    { clear. induction l1 as [|x l1 IH]; intros l2 w; simpl; [done|]. intros [??]. eauto. }
    apply Hcut, can_run_snoc in Hrun as [_ Hle].
    assert (in_range b p) as Hrp.
    { apply list_elem_of_lookup_2 in Hi. rewrite Hp in Hi. apply elem_of_seqZ in Hi.
      unfold in_range. lia. }
    apply (Hstuck p Hrp Hpn). unfold vle in *. etrans; [exact Hle|].
    apply released_mono; [done..|by destruct Hs|done|]. apply NoDup_submseteq.
    + apply (sublist_NoDup _ full); [|apply sublist_take]. rewrite Hp. apply NoDup_seqZ.
    + intros x (j & Hj & Hlt)%elem_of_take. destruct (decide (x ∈ seq)); [done|].
      by destruct (Hpre j x Hj Hlt).
  - apply list_find_None in E. rewrite Forall_forall in E.
    assert (full ⊆+ seq) as Hsub%submseteq_length.
    { apply NoDup_submseteq; [rewrite Hp; apply NoDup_seqZ|]. intros x Hx.
      destruct (decide (x ∈ seq)); [done|]. by destruct (E x Hx). }
    rewrite Hp, length_seqZ in Hsub. unfold len in *. destruct Hs. lia.
Qed.

(** What holds at the head of the outer loop. *)
Record loop_inv (b : BankersState) (work : list Z) (finish : list bool) (seq : list Z) : Prop :=
  mk_loop_inv {
    li_work : work = released b (Available b) seq;
    li_run : can_run b (Available b) seq;
    li_nodup : NoDup seq;
    li_range : Forall (in_range b) seq;
    li_len : len finish = NumProcesses b;
    li_finish : ∀ k, in_range b k → idx finish k = Some (bool_decide (k ∈ seq)) }.

Lemma loop_inv_step b work finish seq i :
  loop_inv b work finish seq → in_range b i → idx finish i = Some false →
  vle (row (Need b) i) work →
  loop_inv b (vadd work (row (Allocation b) i)) (upd_idx (λ _, true) i finish) (seq ++ [i]).
Proof.
  intros [Hw Hrun Hnd Hr Hl Hf] Hi Hfi Hle. split.
  - unfold released. rewrite foldl_app. simpl. by rewrite Hw.
  - apply can_run_snoc. by rewrite <- Hw.
  - apply NoDup_app. split; [done|]. split; [|apply NoDup_singleton].
    intros x Hx ->%list_elem_of_singleton. rewrite Hf in Hfi by done.
    injection Hfi as Hfi. by apply bool_decide_eq_false_1 in Hfi.
  - apply Forall_app. by split; [|constructor].
  - by rewrite len_upd_idx.
  - intros k Hk. destruct (decide (k = i)) as [->|Hne].
    + rewrite idx_upd_eq, Hfi by (unfold in_range in Hi; lia). simpl. f_equal. symmetry.
      apply bool_decide_eq_true_2. apply elem_of_app. right. by left.
    + rewrite idx_upd_ne, Hf by (unfold in_range in Hi; done || lia). f_equal.
      apply bool_decide_ext. rewrite elem_of_app, list_elem_of_singleton. naive_solver.
Qed.

(** A run of the loop that finishes every process found a safe sequence. *)
Lemma loop_inv_done b work finish seq :
  shape b → loop_inv b work finish seq → NumProcesses b ≤ len seq → safe_sequence b seq.
Proof.
  intros Hs [_ Hrun Hnd Hr _ _] Hlen. split; [|done].
  assert (seq ⊆+ seqZ 0 (NumProcesses b)) as Hsub.
  { apply NoDup_submseteq; [done|]. intros x Hx. rewrite Forall_forall in Hr.
    specialize (Hr x Hx). apply elem_of_seqZ. unfold in_range in Hr. lia. }
  apply submseteq_length_Permutation; [done|]. rewrite length_seqZ. unfold len in Hlen. lia.
Qed.

Lemma safeLoop_spec fuel b work finish seq log :
  shape b → alloc_nonneg b → loop_inv b work finish seq →
  NumProcesses b - len seq ≤ Z.of_nat fuel →
  ∃ ok s l, safeLoop fuel b work finish seq log = Some (ok, s, l) ∧
    if ok : bool then safe_sequence b s else ¬ safe b.
Proof.
  intros Hs Hn. revert work finish seq log.
  induction fuel as [|fuel IH]; intros work finish seq log Hinv Hf; simpl;
    destruct (Z.leb_spec (NumProcesses b) (len seq)) as [Hdone|Hmore]; [|lia| |];
    [by do 3 eexists; split; [done|]; eapply loop_inv_done..|].
  assert (Hw : len work = NumResources b).
  { destruct Hinv as [-> _ _ Hr _ _]. by apply (released_spec b _ seq Hs (sh_avail b Hs) Hr). }
  destruct (findExec_spec (Z.to_nat (NumProcesses b)) b work finish 0) as (r & -> & Hr);
    [done|by destruct Hinv|done|lia|destruct Hs; lia|]. simpl.
  destruct r as [i|].
  - destruct Hr as (Hi & Hfi & Hle). rewrite release_spec by done. simpl.
    rewrite (row_idx _ i _ (sh_need b Hs) Hi). simpl.
    apply IH; [by apply loop_inv_step|]. rewrite len_snoc. lia.
  - do 3 eexists. split; [done|]. simpl. destruct Hinv as [-> _ _ Hrg _ Hfin].
    apply (stuck_unsafe b seq); [done..|]. intros k Hk Hnot. apply Hr; [done|].
    rewrite Hfin by done. f_equal. by apply bool_decide_eq_false_2.
Qed.

Lemma copyInto_id l : copyInto (length l) l = l.
Proof. unfold copyInto. by rewrite take_ge, Nat.sub_diag, app_nil_r by done. Qed.

Lemma loop_inv_init b :
  shape b → loop_inv b (Available b) (replicate (Z.to_nat (NumProcesses b)) false) [].
Proof.
  intros []. split; [done|done|apply NoDup_nil_2|constructor|unfold len; rewrite length_replicate; lia|].
  intros k Hk. by rewrite idx_replicate.
Qed.

Lemma CheckSafeState_spec b :
  shape b → alloc_nonneg b →
  ∃ ok seq log, CheckSafeState b = Some (ok, seq, log) ∧
    if ok : bool then safe_sequence b seq else ¬ safe b.
Proof.
  intros Hs Hn. unfold CheckSafeState. pose proof (loop_inv_init b Hs) as Hinv.
  replace (Z.to_nat (NumResources b)) with (length (Available b))
    by (destruct Hs; unfold len in *; lia).
  rewrite copyInto_id. apply safeLoop_spec; [done..|]. unfold len. simpl. destruct Hs; lia.
Qed.

(** C8. The safety check decides safety: on every state with vectors and
    matrices of matching sizes and no negative allocation it ends without a
    panic; when it answers safe, the sequence it returns contains every
    process once and each of them can get its remaining need from what is
    available and what the earlier ones released; when it answers unsafe, no
    order of the processes has this property. *)
Theorem CheckSafeState_decides_safety b (Hshape : shape b) (Hnonneg : alloc_nonneg b) :
  ∃ ok seq log, CheckSafeState b = Some (ok, seq, log) ∧
    (ok = true ↔ safe b) ∧ (ok = true → safe_sequence b seq).
Proof.
  destruct (CheckSafeState_spec b Hshape Hnonneg) as (ok & seq & log & E & H).
  exists ok, seq, log. split; [done|]. destruct ok.
  - split; [|done]. split; [|done]. intros _. by exists seq.
  - split; [|done]. split; [done|]. intros Hsafe. by destruct H.
Qed.

(** The state of [runDeadlockLab] in [cmd/os-sim/main.go]. *)
Definition lab_bank : BankersState :=
  default (mkBank 0 0 [] [] [] [] [])
    (b ← NewBankersState 5 ["CPU"; "Disk"; "Memory"]%string [10; 5; 7];
     b ← SetProcessClaim 0 [7; 5; 3] [0; 1; 0] b;
     b ← SetProcessClaim 1 [3; 2; 2] [2; 0; 0] b;
     b ← SetProcessClaim 2 [9; 0; 2] [3; 0; 2] b;
     b ← SetProcessClaim 3 [2; 2; 2] [2; 1; 1] b;
     SetProcessClaim 4 [4; 3; 3] [0; 0; 2] b).

Lemma lab_bank_shape : shape lab_bank ∧ alloc_nonneg lab_bank.
Proof.
  split.
  - split; try (vm_compute; reflexivity); try (vm_compute; congruence);
      vm_compute; repeat constructor.
  - vm_compute. repeat constructor; congruence.
Qed.

Lemma CheckSafeState_decides_safety_witness :
  ∃ ok seq log, CheckSafeState lab_bank = Some (ok, seq, log) ∧
    (ok = true ↔ safe lab_bank) ∧ (ok = true → safe_sequence lab_bank seq).
Proof. apply (CheckSafeState_decides_safety lab_bank); apply lab_bank_shape. Defined.

(** ** Requests *)

(** The state with the vectors of one process replaced. *)
Definition setRows (b : BankersState) (p : Z) (av al nd : list Z) : BankersState :=
  b <| Available := av |> <| Allocation := <[Z.to_nat p := al]> (Allocation b) |>
    <| Need := <[Z.to_nat p := nd]> (Need b) |>.

Lemma upd_idx_insert {A} (f : A → A) p x (M : list A) :
  upd_idx f p (<[Z.to_nat p := x]> M) = <[Z.to_nat p := f x]> M.
Proof.
  unfold upd_idx. generalize (Z.to_nat p). induction M as [|y M IH]; intros [|k]; simpl; try done.
  f_equal. apply IH.
Qed.

Lemma idx2_insert M p x j : 0 ≤ p < len M → idx2 (<[Z.to_nat p := x]> M) p j = idx x j.
Proof.
  intros Hp. unfold idx2. assert (idx (<[Z.to_nat p := x]> M) p = Some x) as ->; [|done].
  apply idx_Some. split; [lia|]. apply list_lookup_insert_eq. unfold len in Hp. lia.
Qed.

Lemma move_app minus plus b p req j a1 a2 l1 l2 n1 n2 r1 r2 :
  0 ≤ p < len (Allocation b) → len (Need b) = len (Allocation b) →
  req = r1 ++ r2 → len a1 = j → len l1 = j → len n1 = j → len r1 = j →
  length a2 = length r2 → length l2 = length r2 → length n2 = length r2 →
  forj (length r2) j (moveStep minus plus p req) (setRows b p (a1 ++ a2) (l1 ++ l2) (n1 ++ n2)) =
    Some (setRows b p (a1 ++ zip_with minus a2 r2) (l1 ++ zip_with plus l2 r2)
            (n1 ++ zip_with minus n2 r2)).
Proof.
  intros Hp HN. revert j a1 a2 l1 l2 n1 n2 r1.
  induction r2 as [|r r2 IH]; intros j a1 [|a a2] l1 [|l l2] n1 [|n n2] r1 Hreq Ha Hl Hn Hr ???; try done.
  assert (moveStep minus plus p req j (setRows b p (a1 ++ a :: a2) (l1 ++ l :: l2) (n1 ++ n :: n2)) =
    Some (setRows b p (a1 ++ minus a r :: a2) (l1 ++ plus l r :: l2) (n1 ++ minus n r :: n2))) as Hstep.
  { unfold moveStep, setRows. simpl. rewrite !idx2_insert by lia.
    rewrite Hreq. rewrite <- Hr at 1. rewrite idx_app_len. simpl.
    rewrite <- Ha at 1. rewrite idx_app_len. simpl.
    rewrite <- Hl at 1. rewrite idx_app_len. simpl.
    rewrite <- Hn at 1. rewrite idx_app_len. simpl. unfold upd2. rewrite !upd_idx_insert.
    rewrite <- Ha at 1. rewrite upd_idx_app_len.
    rewrite <- Hl at 1. rewrite upd_idx_app_len.
    rewrite <- Hn at 1. rewrite upd_idx_app_len. done. }
  cbn [forj length]. rewrite Hstep. cbn [mbind option_bind].
  rewrite (app_snoc a1), (app_snoc l1), (app_snoc n1).
  rewrite (IH _ _ _ _ _ _ _ (r1 ++ [r])); try (rewrite len_snoc; lia); try (simpl in *; lia).
  - by rewrite <- !app_assoc.
  - by rewrite <- app_assoc.
Qed.

Definition grant (p : Z) (req : list Z) (b : BankersState) : BankersState :=
  setRows b p (vsub (Available b) req) (vadd (row (Allocation b) p) req)
    (vsub (row (Need b) p) req).

Lemma setRows_id b p :
  in_range b p → shape b →
  setRows b p (Available b) (row (Allocation b) p) (row (Need b) p) = b.
Proof.
  intros Hp [_ _ Ha Hn _ _]. unfold setRows, in_range in *.
  pose proof (row_idx _ p _ Ha Hp) as [_ Ea]%idx_Some.
  pose proof (row_idx _ p _ Hn Hp) as [_ En]%idx_Some.
  destruct b. simpl in *. by rewrite !list_insert_id.
Qed.

Lemma rows_len b p :
  in_range b p → shape b →
  len (row (Allocation b) p) = NumResources b ∧ len (row (Need b) p) = NumResources b.
Proof. intros Hp []. split; by eapply row_len. Qed.

Lemma pretend_spec b p req :
  in_range b p → shape b → len req = NumResources b →
  forj (Z.to_nat (NumResources b)) 0 (pretendStep p req) b = Some (grant p req b).
Proof.
  intros Hp Hs Hr. destruct (rows_len b p Hp Hs) as [Ha Hn].
  replace (Z.to_nat (NumResources b)) with (length req) by (unfold len in *; lia).
  rewrite <- (setRows_id b p Hp Hs) at 1.
  pose proof Hs as [_ Hav Hal Hnd _ _]. unfold in_range in Hp.
  apply (move_app Z.sub Z.add b p req 0 [] (Available b) [] (row (Allocation b) p) []
    (row (Need b) p) [] req); try done; unfold len in *; lia.
Qed.

Lemma vadd_vsub u v : len u = len v → vadd (vsub u v) v = u.
Proof.
  revert v. induction u as [|x u IH]; intros [|y v] Hl; unfold len in *; simpl in *; try done; try lia.
  f_equal; [lia|]. apply IH. lia.
Qed.

Lemma vsub_vadd u v : len u = len v → vsub (vadd u v) v = u.
Proof.
  revert v. induction u as [|x u IH]; intros [|y v] Hl; unfold len in *; simpl in *; try done; try lia.
  f_equal; [lia|]. apply IH. lia.
Qed.

Lemma len_zip (f : Z → Z → Z) u v : len u = len v → len (zip_with f u v) = len u.
Proof. unfold len. rewrite length_zip_with. lia. Qed.

(** The rollback undoes the pretended allocation. *)
Lemma rollback_spec b p req :
  in_range b p → shape b → len req = NumResources b →
  forj (Z.to_nat (NumResources b)) 0 (rollbackStep p req) (grant p req b) = Some b.
Proof.
  intros Hp Hs Hr. destruct (rows_len b p Hp Hs) as [Ha Hn].
  replace (Z.to_nat (NumResources b)) with (length req) by (unfold len in *; lia).
  pose proof Hs as [_ Hav Hal Hnd _ _]. unfold in_range in Hp.
  assert (len (vsub (Available b) req) = len req) by (unfold vsub; rewrite len_zip; lia).
  assert (len (vadd (row (Allocation b) p) req) = len req) by (unfold vadd; rewrite len_zip; lia).
  assert (len (vsub (row (Need b) p) req) = len req) by (unfold vsub; rewrite len_zip; lia).
  unfold grant, rollbackStep.
  etrans; [apply (move_app Z.add Z.sub b p req 0 [] (vsub (Available b) req) []
    (vadd (row (Allocation b) p) req) [] (vsub (row (Need b) p) req) [] req);
    try done; unfold len in *; lia|].
  simpl. fold vadd vsub. rewrite !vadd_vsub, vsub_vadd by lia. f_equal. by apply setRows_id.
Qed.

Lemma Forall_insert_len (P : list Z → Prop) M k x : Forall P M → P x → Forall P (<[k := x]> M).
Proof. intros HM Hx. by apply Forall_insert. Qed.

Lemma grant_shape b p req :
  in_range b p → shape b → len req = NumResources b → shape (grant p req b).
Proof.
  intros Hp Hs Hr. destruct (rows_len b p Hp Hs) as [Ha Hn]. destruct Hs as [H1 H2 H3 H4 H5 H6].
  unfold grant, setRows, vsub, vadd, len in *. split; simpl; unfold len; try done.
  - rewrite length_zip_with. lia.
  - by rewrite length_insert.
  - by rewrite length_insert.
  - apply Forall_insert_len; [done|]. rewrite length_zip_with. lia.
  - apply Forall_insert_len; [done|]. rewrite length_zip_with. lia.
Qed.

Lemma grant_nonneg b p req :
  alloc_nonneg b → Forall (λ x, 0 ≤ x) req → alloc_nonneg (grant p req b).
Proof.
  intros Hb Hr. unfold alloc_nonneg, grant, setRows. simpl. apply Forall_insert_len; [done|].
  assert (Forall (λ x, 0 ≤ x) (row (Allocation b) p)) as Hp.
  { unfold row. destruct (idx (Allocation b) p) as [r|] eqn:E; [|constructor]. simpl.
    apply idx_Some in E as [_ E]. by apply (Forall_lookup_1 _ _ _ _ Hb E). }
  clear -Hp Hr. revert req Hr. induction Hp as [|x l Hx Hl IH]; intros [|y req] Hr; try constructor.
  - inversion Hr. lia.
  - apply IH. by inversion Hr.
Qed.

(** All units of a resource: the available and the allocated ones. *)
Definition units_of (b : BankersState) (j : nat) : Z :=
  default 0 (Available b !! j) + sumZ (λ r, default 0 (r !! j)) (Allocation b).

Lemma grant_units b p req j :
  in_range b p → shape b → len req = NumResources b → units_of (grant p req b) j = units_of b j.
Proof.
  intros Hp Hs Hr. destruct (rows_len b p Hp Hs) as [Ha _]. destruct Hs as [_ Hav Hal _ _ _].
  pose proof (row_idx _ p _ Hal Hp) as E. unfold units_of, grant, setRows. simpl.
  assert (<[Z.to_nat p:=vadd (row (Allocation b) p) req]> (Allocation b) =
          upd_idx (λ r, vadd r req) p (Allocation b)) as ->.
  { unfold upd_idx. apply idx_Some in E as [_ E]. 
    rewrite list_insert_alter. apply list_alter_ext; [|done].
    intros x Hx. rewrite E in Hx. by injection Hx as <-. }
  rewrite (sumZ_upd_idx _ _ _ _ _ E). unfold vadd, vsub. rewrite !lookup_zip_with.
  destruct (decide (j < Z.to_nat (NumResources b))%nat) as [Hj|Hj].
  - destruct (lookup_lt_is_Some_2 (Available b) j) as [x ->]; [unfold len in *; lia|].
    destruct (lookup_lt_is_Some_2 (row (Allocation b) p) j) as [y ->]; [unfold len in *; lia|].
    destruct (lookup_lt_is_Some_2 req j) as [z ->]; [unfold len in *; lia|]. simpl. lia.
  - rewrite (lookup_ge_None_2 (Available b) j), (lookup_ge_None_2 (row (Allocation b) p) j)
      by (unfold len in *; lia). simpl. lia.
Qed.

(** A request of a process is granted exactly when it stays within the
    process's remaining need and within what is available, and the state with
    the request granted is safe.  A granted request moves the units from the
    available vector to the process, so that the total of every resource is
    unchanged and the new state is safe; a denied request, also one that was
    tried and rolled back, leaves the state exactly as it was. *)
Theorem RequestResources_spec b p req
    (Hshape : shape b) (Hnonneg : alloc_nonneg b) (Hp : in_range b p)
    (Hlen : len req = NumResources b) (Hreq : Forall (λ x, 0 ≤ x) req) :
  ∃ ok msg b', RequestResources p req b = Some (ok, msg, b') ∧
    (ok = true ↔ vle req (row (Need b) p) ∧ vle req (Available b) ∧ safe (grant p req b)) ∧
    b' = (if ok : bool then grant p req b else b) ∧
    shape b' ∧ alloc_nonneg b' ∧ (∀ j, units_of b' j = units_of b j).
Proof.
  assert (Hrow : len (row (Need b) p) = NumResources b) by (by apply rows_len).
  pose proof Hshape as [_ Hav Hal Hnd _ _]. unfold RequestResources.
  destruct (leqLoop_spec (idx req) (idx2 (Need b) p) req (row (Need b) p) (NumResources b))
    as (c1 & -> & H1); [done|intros j _; by eapply idx2_row|done|done|]. cbn [mbind option_bind].
  destruct c1; cbn [negb].
  2:{ rewrite (row_idx _ p _ Hnd Hp). do 3 eexists. split; [reflexivity|].
      split; [|done]. split; [done|]. intros (?%H1 & _). done. }
  destruct (leqLoop_spec (idx req) (idx (Available b)) req (Available b) (NumResources b))
    as (c2 & -> & H2); [done..|]. cbn [mbind option_bind].
  destruct c2; cbn [negb].
  2:{ do 3 eexists. split; [reflexivity|]. split; [|done]. split; [done|].
      intros (_ & ?%H2 & _). done. }
  rewrite pretend_spec by done. cbn [mbind option_bind].
  pose proof (grant_shape b p req Hp Hshape Hlen) as Hshape'.
  pose proof (grant_nonneg b p req Hnonneg Hreq) as Hnonneg'.
  destruct (CheckSafeState_spec _ Hshape' Hnonneg') as (ok & seq & log & -> & Hsafe).
  cbn [mbind option_bind]. destruct ok; cbn [negb].
  - do 3 eexists. split; [reflexivity|]. split.
    { split; [|done]. intros _. split_and!; [by apply H1|by apply H2|by exists seq]. }
    split_and!; [done..|]. intros j. by apply grant_units.
  - rewrite rollback_spec by done. do 3 eexists. split; [reflexivity|].
    split; [|done]. split; [done|]. by intros (_ & _ & ?).
Qed.

Lemma RequestResources_spec_witness :
  ∃ ok msg b', RequestResources 1 [1; 0; 2] lab_bank = Some (ok, msg, b') ∧
    (ok = true ↔ vle [1; 0; 2] (row (Need lab_bank) 1) ∧ vle [1; 0; 2] (Available lab_bank) ∧
                 safe (grant 1 [1; 0; 2] lab_bank)).
Proof.
  destruct (RequestResources_spec lab_bank 1 [1; 0; 2]) as (ok & msg & b' & ? & ? & _).
  - apply lab_bank_shape.
  - apply lab_bank_shape.
  - split; vm_compute; congruence.
  - reflexivity.
  - repeat constructor; lia.
  - by exists ok, msg, b'.
Defined.
