(* ===== verification/CondVars.v ===== *)
(** * Condition variables and the bounded buffer

    Models [CondVar] and [BoundedBuffer] of
    [src/pkg/concurrency/condvar.go], on top of the queueing mutex of
    [Mutexes]: a call of [Lock] or [Unlock] is the sequence of steps it is
    there, and the body of [Put] and [Get] is one step per statement.  The
    waiters of a condition variable are only touched by threads that hold the
    mutex, so that queueing and signalling are single steps. *)

From S2P Require Import Prelude Steps Mutexes.

Inductive bb_call := CPut (item : Z) | CGet.

(** The statement of [Put] or [Get] a thread executes next. *)
Inductive bb_pc :=
  | BIdle
  | BLock (c : bb_call)        (** in [bb.mu.Lock()], or in the one at the end of [Wait] *)
  | BCheck (c : bb_call)       (** the condition of the loop *)
  | BWaitUnlock (c : bb_call)  (** in [cv.mu.Unlock()] of [Wait] *)
  | BPark (c : bb_call)        (** [<-ch] *)
  | BAppend (item : Z)         (** [bb.buffer = append(bb.buffer, item)] *)
  | BFirst                     (** [item := bb.buffer[0]] *)
  | BPop (item : Z)            (** [bb.buffer = bb.buffer[1:]] *)
  | BSignal (c : bb_call)      (** [Signal] of the other condition variable *)
  | BUnlock.                   (** in the deferred [bb.mu.Unlock()] *)

(** [notFull] and [notEmpty] are the queues of the condition variables; the
    channel of a waiting thread is identified with the thread, and [closed] are
    the channels that have been closed.  [puts] and [gets] record the items put
    in and taken out so far. *)
Record BoundedBuffer := mkBB {
  capacity : Z; buffer : list Z; mu_ : Mutex; notFull : list nat; notEmpty : list nat;
  closed : gset nat; bb_pcs : nat → bb_pc; puts : list Z; gets : list Z }.
#[export] Instance eta_BoundedBuffer : Eta BoundedBuffer := λ b,
  mkBB (capacity b) (buffer b) (mu_ b) (notFull b) (notEmpty b) (closed b) (bb_pcs b)
    (puts b) (gets b).

Definition NewBoundedBuffer (capacity : Z) : BoundedBuffer :=
  mkBB capacity [] NewMutex [] [] ∅ (λ _, BIdle) [] [].

Definition bb_goto (t : nat) (p : bb_pc) (b : BoundedBuffer) : BoundedBuffer :=
  b <| bb_pcs ::= <[t := p]> |>.

(** One step of [Lock] or [Unlock] on the mutex of the buffer; the call returns
    when the mutex says so. *)
Definition bb_mutex (t : nat) (returned : mutex_pc → bool) (next : bb_pc) (b : BoundedBuffer)
    : option BoundedBuffer :=
  m ← mutex_step t (mu_ b);
  let b := b <| mu_ := m |> in
  Some (if returned (pcs m t) then bb_goto t next b else b).

Definition locked (p : mutex_pc) : bool := match p with Critical => true | _ => false end.
Definition unlocked (p : mutex_pc) : bool := match p with Outside => true | _ => false end.

(** [Wait] up to the release of the lock: the caller joins the queue. *)
Definition cv_enqueue (t : nat) (c : bb_call) (b : BoundedBuffer) : BoundedBuffer :=
  match c with
  | CPut _ => b <| notFull ::= λ q, q ++ [t] |>
  | CGet => b <| notEmpty ::= λ q, q ++ [t] |>
  end.

(** [Signal]: the first waiter is taken off the queue and its channel closed. *)
Definition cv_Signal (c : bb_call) (b : BoundedBuffer) : BoundedBuffer :=
  match c with
  | CPut _ =>
      match notEmpty b with
      | ch :: rest => b <| notEmpty := rest |> <| closed ::= λ s, {[ch]} ∪ s |>
      | [] => b
      end
  | CGet =>
      match notFull b with
      | ch :: rest => b <| notFull := rest |> <| closed ::= λ s, {[ch]} ∪ s |>
      | [] => b
      end
  end.

(** [Broadcast]: all waiters are taken off the queue and their channels closed. *)
Definition cv_Broadcast (c : bb_call) (b : BoundedBuffer) : BoundedBuffer :=
  match c with
  | CPut _ => b <| closed ::= λ s, list_to_set (notEmpty b) ∪ s |> <| notEmpty := [] |>
  | CGet => b <| closed ::= λ s, list_to_set (notFull b) ∪ s |> <| notFull := [] |>
  end.

(** A thread that is idle calls [Put] or [Get] as the label says. *)
Definition bb_step (a : nat * bb_call) (b : BoundedBuffer) : option BoundedBuffer :=
  let '(t, call) := a in
  match bb_pcs b t with
  | BIdle => Some (bb_goto t (BLock call) b)
  | BLock c => bb_mutex t locked (BCheck c) b
  | BCheck c =>
      Some (match c with
        | CPut item =>
            if len (buffer b) =? capacity b
            then bb_goto t (BWaitUnlock c) (cv_enqueue t c b)
            else bb_goto t (BAppend item) b
        | CGet =>
            if len (buffer b) =? 0
            then bb_goto t (BWaitUnlock c) (cv_enqueue t c b)
            else bb_goto t BFirst b
        end)
  | BWaitUnlock c => bb_mutex t unlocked (BPark c) b
  | BPark c =>
      if bool_decide (t ∈ closed b)
      then Some (bb_goto t (BLock c) (b <| closed ::= λ s, s ∖ {[t]} |>)) else None
  | BAppend item =>
      Some (bb_goto t (BSignal (CPut item))
              (b <| buffer ::= λ l, l ++ [item] |> <| puts ::= λ l, l ++ [item] |>))
  | BFirst => item ← head (buffer b); Some (bb_goto t (BPop item) b)
  | BPop item =>
      Some (bb_goto t (BSignal CGet) (b <| buffer ::= tail |> <| gets ::= λ l, l ++ [item] |>))
  | BSignal c => Some (bb_goto t BUnlock (cv_Signal c b))
  | BUnlock => bb_mutex t unlocked BIdle b
  end.

(** ** Safety *)

(** The statements executed between the return of [Lock] and the call of
    [Unlock], and what is known of the buffer there. *)
Definition in_cs (p : bb_pc) : bool :=
  match p with BCheck _ | BAppend _ | BFirst | BPop _ | BSignal _ => true | _ => false end.

Definition knows (b : BoundedBuffer) (p : bb_pc) : Prop :=
  match p with
  | BAppend _ => len (buffer b) < capacity b
  | BFirst => buffer b ≠ []
  | BPop item => head (buffer b) = Some item
  | _ => True
  end.

Record bb_inv (cap : Z) (b : BoundedBuffer) : Prop := mk_bb_inv {
  bi_mutex : inv (mu_ b);
  bi_cs : ∀ t, in_cs (bb_pcs b t) = true → pcs (mu_ b) t = Critical;
  bi_knows : ∀ t, knows b (bb_pcs b t);
  bi_fifo : puts b = gets b ++ buffer b;
  bi_cap : capacity b = cap;
  bi_room : len (buffer b) ≤ cap }.

Lemma mutex_step_other t m m' u : mutex_step t m = Some m' → u ≠ t → pcs m' u = pcs m u.
Proof.
  intros Hs Hu. unfold mutex_step, goto in Hs.
  destruct (pcs m t); repeat case_match; simplify_eq; simpl; by rewrite ?pc_insert, ?decide_False.
Qed.

Lemma cs_unique b cap t u :
  bb_inv cap b → in_cs (bb_pcs b t) = true → in_cs (bb_pcs b u) = true → t = u.
Proof.
  intros [[H1 _ _ _ _ _ _] Hcs _ _ _ _] Ht%Hcs Hu%Hcs. apply H1; unfold owns; [by rewrite Ht|by rewrite Hu].
Qed.

(** A step that moves thread [t] within or out of its critical section and may
    change the buffer. *)
Lemma bb_inv_goto cap b b' t p :
  bb_inv cap b → mu_ b' = mu_ b → bb_pcs b' = <[t := p]> (bb_pcs b) → capacity b' = capacity b →
  (in_cs p = true → in_cs (bb_pcs b t) = true) →
  (buffer b' = buffer b ∨ in_cs (bb_pcs b t) = true) → knows b' p →
  puts b' = gets b' ++ buffer b' → len (buffer b') ≤ cap → bb_inv cap b'.
Proof.
  intros Hi Em Ep Ec Hcs Hb Hk Hf Hr. pose proof Hi as [I1 I2 I3 I4 I5 I6].
  split; [by rewrite Em| | |done|congruence|done].
  - intros u. rewrite Ep, Em, pc_insert. case_decide as Hu; [subst u|apply I2].
    intros Hp. by apply I2, Hcs.
  - intros u. rewrite Ep, pc_insert. case_decide as Hu; [done|].
    specialize (I3 u). destruct Hb as [Hb|Hb].
    + unfold knows in *. rewrite Ec, Hb. done.
    + destruct (bb_pcs b u) eqn:Eu; try done; exfalso; apply Hu, (cs_unique b cap); try done;
        by rewrite Eu.
Qed.

Lemma bb_inv_mutex cap b b' t returned next :
  bb_inv cap b → bb_mutex t returned next b = Some b' → in_cs (bb_pcs b t) = false →
  (∀ p, returned p = true → in_cs next = true → p = Critical) → knows b next → bb_inv cap b'.
Proof.
  intros [I1 I2 I3 I4 I5 I6] Hs Hcs Hret Hk. unfold bb_mutex in Hs.
  destruct (mutex_step t (mu_ b)) as [m|] eqn:Em; [|done]. simpl in Hs.
  assert (Hinv : inv m) by (by eapply mutex_step_inv).
  assert (Hoth : ∀ u, u ≠ t → pcs m u = pcs (mu_ b) u) by (intros u Hu; by eapply mutex_step_other).
  destruct (returned (pcs m t)) eqn:Er; injection Hs as <-; split; simpl; try done.
  - intros u. rewrite pc_insert. case_decide as Hu; [subst u; by apply Hret|].
    intros Hp%I2. by rewrite Hoth.
  - intros u. rewrite pc_insert. by case_decide; [|apply I3].
  - intros u Hu. rewrite Hoth; [by apply I2|]. intros ->. congruence.
Qed.

Lemma bb_step_inv cap a b b' : bb_inv cap b → bb_step a b = Some b' → bb_inv cap b'.
Proof.
  intros Hi Hs. destruct a as [t call]. pose proof Hi as [_ _ I3 I4 I5 I6]. specialize (I3 t).
  unfold bb_step in Hs. destruct (bb_pcs b t) as [|c|c|c|c|item| |item|c|] eqn:Ep.
  - injection Hs as <-. eapply (bb_inv_goto _ _ _ t); try done; simpl; auto.
  - eapply bb_inv_mutex; [done|exact Hs|by rewrite Ep| |done]. by intros [].
  - apply (inj Some) in Hs as <-. destruct c as [item|]; case_if; go_bool;
      eapply (bb_inv_goto _ _ _ t); try done; simpl; try (by rewrite Ep); try (by left).
    + lia.
    + by destruct (buffer b).
  - eapply bb_inv_mutex; [done|exact Hs|by rewrite Ep|done|done].
  - destruct (bool_decide _); [|done]. injection Hs as <-.
    eapply (bb_inv_goto _ _ _ t); try done; simpl; auto.
  - injection Hs as <-. eapply (bb_inv_goto _ _ _ t); try done; simpl; rewrite ?Ep; auto.
    + by rewrite I4, app_assoc.
    + simpl in I3. rewrite len_snoc. lia.
  - simpl in I3. destruct (buffer b) as [|x l] eqn:Eb; [done|]. simpl in Hs. injection Hs as <-.
    eapply (bb_inv_goto _ _ _ t); try done; simpl; rewrite ?Ep, ?Eb; auto.
  - injection Hs as <-. simpl in I3. destruct (buffer b) as [|x l] eqn:Eb; [done|].
    injection I3 as ->. eapply (bb_inv_goto _ _ _ t); try done; simpl; rewrite ?Ep, ?Eb; auto.
    + by rewrite I4, <- app_assoc.
    + rewrite len_cons in I6. simpl. lia.
  - injection Hs as <-. destruct c as [item|]; simpl; case_match;
      eapply (bb_inv_goto _ _ _ t); try done; simpl; auto.
  - eapply bb_inv_mutex; [done|exact Hs|by rewrite Ep|done|done].
Qed.

(** C13. The bounded buffer over the queueing mutex, for any number of producers
    and consumers and every interleaving of their statements: the items taken
    out so far followed by those in the buffer are exactly the items put in so
    far, in order; the buffer never holds more than its capacity; no consumer
    reads from an empty buffer; and at most one thread is between acquiring and
    releasing the mutex. *)
Theorem BoundedBuffer_fifo cap b (Hcap : 0 ≤ cap)
    (Hreach : reachable bb_step (NewBoundedBuffer cap) b) :
  puts b = gets b ++ buffer b ∧ len (buffer b) ≤ cap ∧
  (∀ t, bb_pcs b t = BFirst → buffer b ≠ []) ∧
  (∀ t u, in_cs (bb_pcs b t) = true → in_cs (bb_pcs b u) = true → t = u).
Proof.
  assert (Hi : bb_inv cap b).
  { eapply reachable_inv; [|apply bb_step_inv|exact Hreach]. split; try done. apply inv_init. }
  split_and!; [apply Hi|apply Hi| |].
  - intros t Ht. pose proof (bi_knows _ _ Hi t) as Hk. by rewrite Ht in Hk.
  - intros t u. by apply (cs_unique b cap).
Qed.

Definition bb_demo : list (nat * bb_call) :=
  replicate 4 (0%nat, CPut 7) ++ replicate 5 (0%nat, CPut 8) ++ replicate 5 (1%nat, CGet).

Lemma BoundedBuffer_fifo_witness :
  ∃ b, run bb_step bb_demo (NewBoundedBuffer 1) = Some b ∧ puts b = [7] ∧
    puts b = gets b ++ buffer b.
Proof.
  destruct (run bb_step bb_demo (NewBoundedBuffer 1)) as [b|] eqn:E; [|vm_compute in E; done].
  exists b. split; [done|]. split.
  - assert (Hp : puts <$> run bb_step bb_demo (NewBoundedBuffer 1) = Some [7]) by (vm_compute; done).
    rewrite E in Hp. by injection Hp.
  - eapply (BoundedBuffer_fifo 1); [lia|]. eapply run_reachable; [constructor|exact E].
Defined.
