(* ===== verification/Race.v ===== *)
(** * Data races and atomic operations

    Models [src/pkg/concurrency/race_demo.go] and
    [src/pkg/concurrency/atomics.go].  The goroutines of the demonstration are a
    transition system: in the unsafe phase the read of the counter and the
    write of the incremented value are two steps, in the safe phase an atomic
    addition is one. *)

From S2P Require Import Prelude Steps.

#[local] Arguments sumZ : simpl never.

(** ** Atomic operations on a 32-bit cell *)
Definition i32 (z : Z) : Z := let m := z mod 2 ^ 32 in if m <? 2 ^ 31 then m else m - 2 ^ 32.

Definition CompareAndSwap (old new addr : Z) : bool * Z :=
  if addr =? old then (true, new) else (false, addr).
Definition TestAndSet (new addr : Z) : Z * Z := (addr, new).
Definition FetchAndAdd (delta addr : Z) : Z * Z :=
  let addr := i32 (addr + delta) in (i32 (addr - delta), addr).
Definition Load (addr : Z) : Z := addr.
Definition Store (val addr : Z) : Z := val.

Lemma i32_id z : - 2 ^ 31 ≤ z < 2 ^ 31 → i32 z = z.
Proof.
  intros Hz. unfold i32. destruct (Z.lt_ge_cases z 0).
  - rewrite <- (Z.mod_unique_pos z (2 ^ 32) (-1) (z + 2 ^ 32)) by lia.
    destruct (Z.ltb_spec (z + 2 ^ 32) (2 ^ 31)); lia.
  - rewrite Z.mod_small by lia. destruct (Z.ltb_spec z (2 ^ 31)); lia.
Qed.

Lemma i32_mod z w : z mod 2 ^ 32 = w mod 2 ^ 32 → i32 z = i32 w.
Proof. unfold i32. by intros ->. Qed.

Lemma i32_congr z : i32 z mod 2 ^ 32 = z mod 2 ^ 32.
Proof.
  unfold i32. case_if.
  - by rewrite Zmod_mod.
  - rewrite <- (Z_mod_plus_full _ 1), Z.mul_1_l, Z.sub_add. by rewrite Zmod_mod.
Qed.

(** [FetchAndAdd] subtracts what it added, with wrap-around both times, and so
    returns the previous value of the cell whatever the increment. *)
Lemma FetchAndAdd_previous delta addr :
  - 2 ^ 31 ≤ addr < 2 ^ 31 → (FetchAndAdd delta addr).1 = addr.
Proof.
  intros Ha. unfold FetchAndAdd. simpl. rewrite <- (i32_id addr) at 2 by done. apply i32_mod.
  rewrite Zminus_mod, i32_congr, <- Zminus_mod. f_equal. lia.
Qed.

(** ** The demonstration *)
Record race := mkRace {
  counter : Z; iter : nat → nat; temp : nat → option Z }.
#[export] Instance eta_race : Eta race := λ r, mkRace (counter r) (iter r) (temp r).

Definition race_start : race := mkRace 0 (λ _, O) (λ _, None).

(** The loop body of an unsafe goroutine: [temp := unsafeCounter], then
    [temp++; unsafeCounter = temp]. *)
Definition unsafe_step (iters : nat) (t : nat) (r : race) : option race :=
  if (iter r t <? iters)%nat then
    match temp r t with
    | None => Some (r <| temp ::= <[t := Some (counter r)]> |>)
    | Some v => Some (r <| counter := i64 (v + 1) |> <| temp ::= <[t := None]> |>
                        <| iter ::= <[t := S (iter r t)]> |>)
    end
  else None.

(** [atomic.AddInt64(&safeCounter, 1)] *)
Definition safe_step (iters : nat) (t : nat) (r : race) : option race :=
  if (iter r t <? iters)%nat then
    Some (r <| counter := i64 (counter r + 1) |> <| iter ::= <[t := S (iter r t)]> |>)
  else None.

(** All goroutines have returned. *)
Definition race_done (n iters : nat) (r : race) : Prop := ∀ t, (t < n)%nat → iter r t = iters.

Record RaceResult := mkRaceResult {
  IterationsPerGoroutine : Z; NumGoroutines : Z; ExpectedValue : Z;
  UnsafeActualValue : Z; SafeActualValue : Z; LostUpdates : Z }.

(** The result of the demonstration, from the final values of the counters. *)
Definition RunDataRaceDemo (numGoroutines iters : nat) (unsafeCounter safeCounter : Z) : RaceResult :=
  let expected := i64 (Z.of_nat numGoroutines * Z.of_nat iters) in
  mkRaceResult (Z.of_nat iters) (Z.of_nat numGoroutines) expected unsafeCounter safeCounter
    (i64 (expected - unsafeCounter)).

(** ** The safe phase *)
Definition total (n : nat) (it : nat → nat) : Z := sumZ (λ t, Z.of_nat (it t)) (seq 0 n).

Lemma total_insert n it t k :
  (t < n)%nat → total n (<[t := k]> it) = total n it + Z.of_nat k - Z.of_nat (it t).
Proof.
  intros Ht. unfold total.
  rewrite (sumZ_update_one (λ u, Z.of_nat (it u)) _ (seq 0 n) t (Z.of_nat k - Z.of_nat (it t))).
  - lia.
  - apply NoDup_ListNoDup, seq_NoDup.
  - apply elem_of_seq. lia.
  - rewrite fn_lookup_insert. lia.
  - intros u _ Hu. by rewrite fn_lookup_insert_ne.
Qed.

Lemma total_const n it k : (∀ t, (t < n)%nat → it t = k) → total n it = Z.of_nat n * Z.of_nat k.
Proof.
  induction n as [|n IH]; intros Hall; [done|]. unfold total in *. rewrite seq_S, sumZ_app, IH by auto.
  rewrite sumZ_cons, Hall by lia. change (sumZ _ []) with 0. lia.
Qed.

Lemma total_nonneg n it : 0 ≤ total n it.
Proof. apply sumZ_nonneg. intros. lia. Qed.

Lemma total_pos n it t : (t < n)%nat → Z.of_nat (it t) ≤ total n it.
Proof.
  intros Ht. pose proof (total_nonneg n (<[t := O]> it)) as Hn. rewrite total_insert in Hn by done. lia.
Qed.

Lemma i64_succ z : i64 (i64 z + 1) = i64 (z + 1).
Proof.
  unfold i64 at 1 3. replace (u64 (i64 z + 1)) with (u64 (z + 1)); [done|].
  unfold i64, u64, u64_mod. case_if.
  - by rewrite Zplus_mod_idemp_l.
  - rewrite <- (Zplus_mod_idemp_l (_ - _)), <- (Z_mod_plus_full (_ - _) 1), Z.mul_1_l, Z.sub_add.
    by rewrite Zmod_mod, Zplus_mod_idemp_l.
Qed.

Lemma safe_inv n iters r :
  reachable (among n (safe_step iters)) race_start r → counter r = i64 (total n (iter r)).
Proof.
  apply (reachable_inv _ (λ r, counter r = i64 (total n (iter r)))).
  - simpl. rewrite (total_const n _ 0) by done. by rewrite Z.mul_0_r.
  - intros t s s' Hs [Ht Hst]%among_Some. unfold safe_step in Hst.
    destruct (iter s t <? iters)%nat; [|done]. injection Hst as <-. simpl.
    rewrite total_insert, Hs, i64_succ by done. f_equal. lia.
Qed.

(** ** The unsafe phase *)

(** Every value around is at most the number of writes so far; once a goroutine
    has written, what it reads is at least 1; and the value left by a write that
    is not its goroutine's first is at least 2. *)
Record unsafe_inv (n iters : nat) (r : race) : Prop := mk_unsafe_inv {
  ui_iter : ∀ t, (iter r t ≤ iters)%nat;
  ui_counter : 0 ≤ counter r ≤ total n (iter r);
  ui_temp : ∀ t v, temp r t = Some v → 0 ≤ v ≤ total n (iter r) ∧ (iter r t < iters)%nat ∧
                     (iter r t ≠ O → 1 ≤ v);
  ui_last : (∀ t, iter r t = O) ∨
            ∃ t, (t < n)%nat ∧ 1 ≤ counter r ∧ ((2 ≤ iter r t)%nat → 2 ≤ counter r) }.

Lemma total_bound n iters it :
  (∀ t, (it t ≤ iters)%nat) → total n it ≤ Z.of_nat n * Z.of_nat iters.
Proof.
  intros Hb. rewrite <- (total_const n (λ _, iters) iters) by done.
  apply sumZ_le. intros t _. specialize (Hb t). lia.
Qed.

Lemma unsafe_step_inv n iters t r r' :
  Z.of_nat n * Z.of_nat iters < 2 ^ 63 →
  unsafe_inv n iters r → among n (unsafe_step iters) t r = Some r' → unsafe_inv n iters r'.
Proof.
  intros Hmax [I1 I2 I3 I4] [Ht Hst]%among_Some. unfold unsafe_step in Hst.
  destruct (Nat.ltb_spec (iter r t) iters) as [Hlt|]; [|done].
  destruct (temp r t) as [v|] eqn:Ev; injection Hst as <-.
  - destruct (I3 t v Ev) as (Hv & _ & Hv1).
    pose proof (total_insert n (iter r) t (S (iter r t)) Ht) as Htot.
    assert (Hle : ∀ u, (<[t := S (iter r t)]> (iter r) u ≤ iters)%nat).
    { intros u. rewrite pc_insert. case_decide; [lia|apply I1]. }
    pose proof (total_bound n iters _ Hle) as Hb.
    assert (Hc : i64 (v + 1) = v + 1) by (apply i64_id; unfold is_i64; lia).
    split; simpl; [done|rewrite Hc; lia| |].
    + intros u w. rewrite !pc_insert. case_decide; [done|]. intros Hw.
      destruct (I3 u w Hw) as (? & ? & ?). split_and!; [lia|lia|done|done].
    + right. exists t. rewrite pc_insert, decide_True, Hc by done. split_and!; [done|lia|].
      intros H2. assert (1 ≤ v) by (apply Hv1; lia). lia.
  - split; simpl; [done|done| |done].
    intros u w. rewrite pc_insert. case_decide as Hu; [|by apply I3]. intros [= <-]. subst u.
    split_and!; [lia|lia|done|]. intros Hne. destruct I4 as [H0|(u & _ & ? & _)]; [by rewrite H0 in Hne|done].
Qed.

(** ** Losing almost everything *)

(** The two steps of an iteration. *)
Lemma run_read n iters t r l :
  (t < n)%nat → (iter r t < iters)%nat → temp r t = None →
  run (among n (unsafe_step iters)) (t :: l) r =
    run (among n (unsafe_step iters)) l (r <| temp ::= <[t := Some (counter r)]> |>).
Proof.
  intros Ht%Nat.ltb_lt Hi%Nat.ltb_lt Htmp. cbn [run].
  assert (E : among n (unsafe_step iters) t r = Some (r <| temp ::= <[t := Some (counter r)]> |>))
    by (unfold among, unsafe_step; by rewrite Ht, Hi, Htmp).
  by rewrite E.
Qed.

Lemma run_write n iters t r l v :
  (t < n)%nat → (iter r t < iters)%nat → temp r t = Some v →
  run (among n (unsafe_step iters)) (t :: l) r =
    run (among n (unsafe_step iters)) l
      (r <| counter := i64 (v + 1) |> <| temp ::= <[t := None]> |>
         <| iter ::= <[t := S (iter r t)]> |>).
Proof.
  intros Ht%Nat.ltb_lt Hi%Nat.ltb_lt Htmp. cbn [run].
  assert (E : among n (unsafe_step iters) t r = Some (r <| counter := i64 (v + 1) |>
    <| temp ::= <[t := None]> |> <| iter ::= <[t := S (iter r t)]> |>))
    by (unfold among, unsafe_step; by rewrite Ht, Hi, Htmp).
  by rewrite E.
Qed.

(** [k] complete iterations of goroutine [t]. *)
Fixpoint rounds (t k : nat) : list nat :=
  match k with O => [] | S k => t :: t :: rounds t k end.

Lemma run_rounds n iters t k r :
  (t < n)%nat → (iter r t + k ≤ iters)%nat → temp r t = None → 0 ≤ counter r →
  counter r + Z.of_nat k < 2 ^ 63 →
  ∃ r', (∀ l, run (among n (unsafe_step iters)) (rounds t k ++ l) r =
              run (among n (unsafe_step iters)) l r') ∧
    counter r' = counter r + Z.of_nat k ∧ temp r' t = None ∧ iter r' t = (iter r t + k)%nat ∧
    ∀ u, u ≠ t → temp r' u = temp r u ∧ iter r' u = iter r u.
Proof.
  intros Ht. revert r. induction k as [|k IH]; intros r Hk Htmp Hc Hmax.
  { exists r. split_and!; [done|lia|done|lia|done]. }
  set (r1 := r <| temp ::= <[t := Some (counter r)]> |>).
  set (r2 := r1 <| counter := i64 (counter r + 1) |> <| temp ::= <[t := None]> |>
                <| iter ::= <[t := S (iter r1 t)]> |>).
  assert (Hc2 : counter r2 = counter r + 1) by (simpl; apply i64_id; unfold is_i64; lia).
  assert (Hi2 : iter r2 t = S (iter r t)) by (simpl; by rewrite pc_insert, decide_True).
  destruct (IH r2) as (r' & Er & Hcr & Htr & Hir & Hoth);
    [lia|simpl; by rewrite pc_insert, decide_True|lia|lia|].
  exists r'. split_and!; [|lia|done|lia|].
  - intros l. cbn [rounds app]. rewrite run_read by (done || lia). fold r1.
    rewrite (run_write _ _ _ r1 _ (counter r)); [apply Er|done|simpl; lia|].
    simpl. by rewrite pc_insert, decide_True.
  - intros u Hu. destruct (Hoth u Hu) as [-> ->]. simpl. by rewrite !pc_insert, !decide_False.
Qed.

(** Goroutine 0 reads the initial value and sleeps; goroutine 1 does all but one
    of its iterations; goroutine 0 writes 1; goroutine 1 reads it and sleeps;
    goroutine 0 finishes; goroutine 1 writes 2. *)
Definition worst_schedule (iters : nat) : list nat :=
  0%nat :: rounds 1 (iters - 1) ++ 0%nat :: 1%nat :: rounds 0 (iters - 1) ++ [1%nat].

Lemma worst_case iters :
  (1 ≤ iters)%nat → Z.of_nat iters < 2 ^ 62 →
  ∃ r, run (among 2 (unsafe_step iters)) (worst_schedule iters) race_start = Some r ∧
    race_done 2 iters r ∧ counter r = 2.
Proof.
  intros H1 Hmax. unfold worst_schedule. rewrite run_read by (done || simpl; lia).
  set (r1 := race_start <| temp ::= <[0%nat := Some (counter race_start)]> |>).
  destruct (run_rounds 2 iters 1 (iters - 1) r1) as (r2 & -> & Hc2 & Ht2 & Hi2 & Ho2);
    [lia|simpl; lia|simpl; by rewrite pc_insert, decide_False|done|simpl; lia|].
  destruct (Ho2 0%nat) as [Ht20 Hi20]; [done|]. simpl in Ht20, Hi20, Hi2.
  rewrite pc_insert, decide_True in Ht20 by done.
  rewrite (run_write _ _ _ r2 _ 0); [|lia|lia|done].
  set (r3 := r2 <| counter := _ |> <| temp ::= _ |> <| iter ::= _ |>).
  assert (Hr3 : counter r3 = 1 ∧ iter r3 0%nat = 1%nat ∧ temp r3 0%nat = None ∧
    iter r3 1%nat = (iters - 1)%nat ∧ temp r3 1%nat = None).
  { unfold r3. simpl. rewrite !pc_insert. simpl. rewrite Hi20, Hi2. split_and!; try done; try lia. }
  destruct Hr3 as (Hc3 & Hi30 & Ht30 & Hi31 & Ht31).
  rewrite run_read by (done || lia). set (r4 := r3 <| temp ::= _ |>).
  assert (Hc4 : counter r4 = 1) by exact Hc3. assert (Hi40 : iter r4 0%nat = 1%nat) by exact Hi30.
  destruct (run_rounds 2 iters 0 (iters - 1) r4) as (r5 & -> & Hc5 & Ht5 & Hi5 & Ho5);
    [lia|lia|unfold r4; simpl; by rewrite pc_insert, decide_False|lia|lia|].
  destruct (Ho5 1%nat) as [Ht51 Hi51]; [done|].
  assert (Ht41 : temp r4 1%nat = Some (counter r3)) by (unfold r4; simpl; by rewrite pc_insert).
  assert (Hi41 : iter r4 1%nat = (iters - 1)%nat) by exact Hi31.
  rewrite (run_write _ _ _ r5 _ 1); [|lia|lia|by rewrite Ht51, Ht41, Hc3].
  eexists. split; [reflexivity|]. split; [|done].
  intros [|[|t]] Ht; simpl; rewrite pc_insert; simpl; try lia.
Qed.


