(* ===== verification/CpuMode.v ===== *)
(** * Processor modes and traps

    Models [src/pkg/kernel/cpu_mode.go] and [src/pkg/kernel/trap_table.go]: the
    processor with its privilege level, the execution of instructions, and the
    dispatch of traps through the interrupt descriptor table. *)

From S2P Require Import Prelude Visualizer.

(** ** The processor *)
Definition ErrPrivilegeViolation : error :=
  errors_New "privilege violation: user mode cannot execute privileged CPU instructions".

Inductive CPUMode := ModeKernel | ModeUser.

#[export] Instance CPUMode_eq_dec : EqDecision CPUMode.
Proof. solve_decision. Defined.

Definition CPUMode_String (m : CPUMode) : string :=
  match m with
  | ModeKernel => "KERNEL_MODE (Ring 0)"
  | ModeUser => "USER_MODE (Ring 3)"
  end.

Inductive InstructionType :=
  | InstUserArithmetic | InstUserBranch | InstSyscall | InstPrivilegedHalt
  | InstPrivilegedCLI | InstPrivilegedSTI | InstPrivilegedSetCR3 | InstPrivilegedPortIO.

Definition InstructionType_string (i : InstructionType) : string :=
  match i with
  | InstUserArithmetic => "USER_ARITHMETIC"
  | InstUserBranch => "USER_BRANCH"
  | InstSyscall => "SYSCALL_TRAP"
  | InstPrivilegedHalt => "PRIV_HLT"
  | InstPrivilegedCLI => "PRIV_CLI"
  | InstPrivilegedSTI => "PRIV_STI"
  | InstPrivilegedSetCR3 => "PRIV_MOV_CR3"
  | InstPrivilegedPortIO => "PRIV_PORT_IO"
  end.

Record CPUInstruction := mkInst {
  Opcode : InstructionType; InstDescription : string; IsPrivileged : bool }.

Record HardwareCPU := mkCPU {
  CurrentMode : CPUMode; UserRSP : Z; KernelRSP : Z; ProgramCounter : Z; CR3 : Z;
  InterruptsOn : bool; ExecutionLog : list string }.
#[export] Instance eta_HardwareCPU : Eta HardwareCPU := λ c,
  mkCPU (CurrentMode c) (UserRSP c) (KernelRSP c) (ProgramCounter c) (CR3 c)
    (InterruptsOn c) (ExecutionLog c).

Definition NewHardwareCPU : HardwareCPU :=
  mkCPU ModeUser 0x7FFFFFFF 0xFFFFFFFF 0x00400000 0x00100000 true [].

Definition SwitchToKernelMode (vector : Z) (cpu : HardwareCPU) : HardwareCPU :=
  match CurrentMode cpu with
  | ModeKernel => cpu
  | ModeUser =>
      let cpu := cpu <| CurrentMode := ModeKernel |> in
      cpu <| ExecutionLog ::= λ l, l ++
        ["[HARDWARE TRAP 0x" +:+ fmt_X vector +:+
         "] Privilege Switch: Ring 3 ──► Ring 0 | Swapped RSP: User(0x" +:+
         fmt_X (UserRSP cpu) +:+ ") ──► Kernel(0x" +:+ fmt_X (KernelRSP cpu) +:+ ")"] |>
  end.

Definition ReturnToUserMode (cpu : HardwareCPU) : HardwareCPU :=
  match CurrentMode cpu with
  | ModeUser => cpu
  | ModeKernel =>
      let cpu := cpu <| CurrentMode := ModeUser |> in
      cpu <| ExecutionLog ::= λ l, l ++
        ["[SYSRET/IRET] Privilege Switch: Ring 0 ──► Ring 3 | Restored RSP: 0x" +:+
         fmt_X (UserRSP cpu)] |>
  end.

Definition instLog (inst : CPUInstruction) (cpu : HardwareCPU) : string :=
  "[" +:+ CPUMode_String (CurrentMode cpu) +:+ "] PC:0x" +:+ fmt_0X 8 (ProgramCounter cpu) +:+
  " -> Executing: " +:+ InstructionType_string (Opcode inst) +:+ " (" +:+
  InstDescription inst +:+ ")".

(** The effect of an instruction that is allowed. *)
Definition perform (op : InstructionType) (cpu : HardwareCPU) : HardwareCPU :=
  match op with
  | InstPrivilegedCLI => cpu <| InterruptsOn := false |>
  | InstPrivilegedSTI => cpu <| InterruptsOn := true |>
  | InstPrivilegedSetCR3 => cpu <| CR3 := 0x00200000 |>
  | InstSyscall => SwitchToKernelMode 0x80 cpu
  | _ => cpu
  end.

Definition ExecuteInstruction (inst : CPUInstruction) (cpu : HardwareCPU)
    : option error * HardwareCPU :=
  let logMsg := instLog inst cpu in
  if IsPrivileged inst && bool_decide (CurrentMode cpu = ModeUser) then
    (Some (Errorf_w ErrPrivilegeViolation
             (": attempt to execute '" +:+ InstructionType_string (Opcode inst) +:+
              "' in User Mode (Ring 3)")),
     cpu <| ExecutionLog ::= λ l, l ++
       [logMsg +:+ " ──► " +:+ Red "HARDWARE TRAP: PRIVILEGE VIOLATION (#GP)!"] |>)
  else
    let cpu := perform (Opcode inst) cpu in
    (None,
     cpu <| ProgramCounter ::= λ pc, u64 (pc + 4) |>
         <| ExecutionLog ::= λ l, l ++ [logMsg +:+ " ──► " +:+ Green "SUCCESS"] |>).

(** ** Traps *)
Inductive TrapType := TrapSyscall | TrapException | TrapInterrupt.

Record TrapContext := mkTrapContext {
  Vector : Z; CtxType : TrapType; CtxName : string; SavedPC : Z; SavedRSP : Z;
  SavedFlags : Z; ErrorCode : Z; SyscallNum : Z; Args : list Z; ReturnValue : Z }.
#[export] Instance eta_TrapContext : Eta TrapContext := λ c,
  mkTrapContext (Vector c) (CtxType c) (CtxName c) (SavedPC c) (SavedRSP c) (SavedFlags c)
    (ErrorCode c) (SyscallNum c) (Args c) (ReturnValue c).

(** A handler receives pointers to the processor and to the context: it
    returns both as it leaves them, with its status and error. *)
Definition TrapHandlerFunc : Type :=
  HardwareCPU → TrapContext → (Z * option error) * HardwareCPU * TrapContext.

(** [None] is a nil handler. *)
Record TrapDescriptor := mkDescriptor {
  DescVector : Z; DescName : string; DescType : TrapType; Description : string;
  Handler : option TrapHandlerFunc; Count : Z }.
#[export] Instance eta_TrapDescriptor : Eta TrapDescriptor := λ d,
  mkDescriptor (DescVector d) (DescName d) (DescType d) (Description d) (Handler d) (Count d).

Record TrapTable := mkTrapTable {
  Descriptors : gmap Z TrapDescriptor; TrapHistory : list TrapContext }.
#[export] Instance eta_TrapTable : Eta TrapTable := λ t,
  mkTrapTable (Descriptors t) (TrapHistory t).

Definition defaultExceptionHandler : TrapHandlerFunc := λ cpu ctx,
  ((-1, Some (Errorf ("CPU Exception " +:+ CtxName ctx +:+ " triggered at PC:0x" +:+
                      fmt_X (SavedPC ctx)))), cpu, ctx).
Definition defaultInterruptHandler : TrapHandlerFunc := λ cpu ctx, ((0, None), cpu, ctx).
Definition defaultSyscallGateHandler : TrapHandlerFunc := λ cpu ctx,
  ((0, None), cpu, ctx <| ReturnValue := 0 |>).

Definition RegisterHandler (vector : Z) (name : string) (tType : TrapType) (desc : string)
    (handler : option TrapHandlerFunc) (tt : TrapTable) : TrapTable :=
  tt <| Descriptors ::= <[vector := mkDescriptor vector name tType desc handler 0]> |>.

Definition NewTrapTable : TrapTable :=
  let tt := mkTrapTable ∅ [] in
  let tt := RegisterHandler 0 "Divide-by-Zero (#DE)" TrapException
    "Triggered by integer division by zero" (Some defaultExceptionHandler) tt in
  let tt := RegisterHandler 6 "Invalid Opcode (#UD)" TrapException
    "CPU encountered unmapped instruction opcode" (Some defaultExceptionHandler) tt in
  let tt := RegisterHandler 13 "General Protection Fault (#GP)" TrapException
    "Privilege violation or memory segment fault" (Some defaultExceptionHandler) tt in
  let tt := RegisterHandler 14 "Page Fault (#PF)" TrapException
    "Page not present in RAM or protection violation (CR2 holds faulting address)"
    (Some defaultExceptionHandler) tt in
  let tt := RegisterHandler 32 "PIT Timer Interrupt (IRQ 0)" TrapInterrupt
    "Periodic hardware timer for preemptive CPU scheduling" (Some defaultInterruptHandler) tt in
  let tt := RegisterHandler 33 "Keyboard Controller (IRQ 1)" TrapInterrupt
    "Key press / release event" (Some defaultInterruptHandler) tt in
  let tt := RegisterHandler 46 "Disk Controller (IRQ 14)" TrapInterrupt
    "Disk read/write DMA transfer completed" (Some defaultInterruptHandler) tt in
  RegisterHandler 0x80 "System Call Gate (INT 0x80)" TrapSyscall
    "User space requesting kernel service" (Some defaultSyscallGateHandler) tt.

Definition DispatchTrap (cpu : HardwareCPU) (vector syscallNum : Z) (args : list Z)
    (tt : TrapTable) : result TrapContext * HardwareCPU * TrapTable :=
  match Descriptors tt !! vector with
  | None =>
      (Err (Errorf ("unhandled trap vector 0x" +:+ fmt_0X 2 vector +:+
                    ": no ISR registered in IDT")), cpu, tt)
  | Some desc =>
      let desc := desc <| Count ::= Z.succ |> in
      let tt := tt <| Descriptors ::= <[vector := desc]> |> in
      let ctx := mkTrapContext vector (DescType desc) (DescName desc) (ProgramCounter cpu)
                   (UserRSP cpu) 0 0 syscallNum args 0 in
      let cpu := SwitchToKernelMode vector cpu in
      let '(cpu, ctx) :=
        match Handler desc with
        | Some h => let '(_, cpu, ctx) := h cpu ctx in (cpu, ctx)
        | None => (cpu, ctx)
        end in
      let cpu := ReturnToUserMode cpu in
      (Ok ctx, cpu, tt <| TrapHistory ::= λ h, h ++ [ctx] |>)
  end.

(** ** Confinement of user mode *)

(** The instructions of a program in order, with the error of each. *)
Fixpoint ExecuteAll (insts : list CPUInstruction) (cpu : HardwareCPU)
    : list (option error) * HardwareCPU :=
  match insts with
  | [] => ([], cpu)
  | inst :: insts =>
      let '(e, cpu) := ExecuteInstruction inst cpu in
      let '(es, cpu) := ExecuteAll insts cpu in (e :: es, cpu)
  end.

Definition privileged_op (op : InstructionType) : bool :=
  match op with InstUserArithmetic | InstUserBranch | InstSyscall => false | _ => true end.

(** An instruction whose flag says what its opcode is, other than a system
    call: what user code can contain without asking the kernel. *)
Definition user_code (inst : CPUInstruction) : Prop :=
  IsPrivileged inst = privileged_op (Opcode inst) ∧ Opcode inst ≠ InstSyscall.

(** What user code cannot change. *)
Definition protected (cpu : HardwareCPU) : CPUMode * Z * Z * Z * bool :=
  (CurrentMode cpu, UserRSP cpu, KernelRSP cpu, CR3 cpu, InterruptsOn cpu).

Lemma ExecuteInstruction_user inst cpu :
  CurrentMode cpu = ModeUser → user_code inst →
  let '(e, cpu') := ExecuteInstruction inst cpu in
  protected cpu' = protected cpu ∧
  (if IsPrivileged inst
   then err_is <$> e = Some (err_is ErrPrivilegeViolation) ∧ ProgramCounter cpu' = ProgramCounter cpu
   else e = None ∧ ProgramCounter cpu' = u64 (ProgramCounter cpu + 4)).
Proof.
  intros Hm [Hp Hs]. unfold ExecuteInstruction. rewrite Hm, bool_decide_eq_true_2 by done.
  rewrite andb_true_r. destruct (IsPrivileged inst) eqn:E; [done|].
  by destruct (Opcode inst).
Qed.

(** C35. User mode is confined: a program of instructions whose privilege flag
    agrees with their opcode, run in user mode without a system call, leaves
    the mode, both stack pointers, the page table base and the interrupt flag
    as they are; exactly its privileged instructions are refused, each with a
    privilege violation, and the program counter advances by 4 for each of the
    others. *)
Theorem user_mode_confined insts cpu
    (Hmode : CurrentMode cpu = ModeUser) (Hpc : is_u64 (ProgramCounter cpu))
    (Huser : Forall user_code insts) :
  let '(errs, cpu') := ExecuteAll insts cpu in
  protected cpu' = protected cpu ∧
  Forall2 (λ inst e, err_is <$> e =
     if IsPrivileged inst then Some (err_is ErrPrivilegeViolation) else None) insts errs ∧
  ProgramCounter cpu' =
    u64 (ProgramCounter cpu + 4 * len (filter (λ inst, IsPrivileged inst = false) insts)).
Proof.
  revert cpu Hmode Hpc. induction Huser as [|inst insts Hu _ IH]; intros cpu Hm Hpc; simpl.
  - split_and!; [done|constructor|]. change (len _) with 0. by rewrite Z.add_0_r, u64_id.
  - pose proof (ExecuteInstruction_user inst cpu Hm Hu) as Hone.
    destruct (ExecuteInstruction inst cpu) as [e cpu1]. destruct Hone as [Hpr Hcase].
    assert (Hm1 : CurrentMode cpu1 = ModeUser) by (unfold protected in Hpr; congruence).
    rewrite filter_cons. specialize (IH cpu1 Hm1).
    destruct (IsPrivileged inst) eqn:Ei; destruct Hcase as [He Hpc1]; rewrite Hpc1 in IH.
    + specialize (IH Hpc). destruct (ExecuteAll insts cpu1) as [es cpu2].
      destruct IH as (IH1 & IH2 & IH3). rewrite decide_False by done.
      split_and!; [congruence|constructor; [by rewrite Ei|done]|done].
    + specialize (IH (u64_range _)). destruct (ExecuteAll insts cpu1) as [es cpu2].
      destruct IH as (IH1 & IH2 & IH3). rewrite decide_True by done.
      split_and!; [congruence|constructor; [by rewrite Ei, He|done]|].
      rewrite IH3, len_cons. unfold u64. rewrite Zplus_mod_idemp_l. f_equal. lia.
Qed.

Definition rogue_program : list CPUInstruction :=
  [mkInst InstUserArithmetic "ADD" false; mkInst InstPrivilegedCLI "CLI" true;
   mkInst InstPrivilegedSetCR3 "MOV CR3" true; mkInst InstUserBranch "JMP" false].

Lemma user_mode_confined_witness :
  Forall user_code rogue_program ∧
  ProgramCounter (ExecuteAll rogue_program NewHardwareCPU).2 = 0x00400008.
Proof.
  assert (H : Forall user_code rogue_program) by (repeat constructor; done).
  split; [done|].
  pose proof (user_mode_confined rogue_program NewHardwareCPU eq_refl
    ltac:(unfold is_u64, u64_mod; simpl; lia) H) as Hc.
  destruct (ExecuteAll rogue_program NewHardwareCPU) as [errs cpu'].
  destruct Hc as (_ & _ & E). simpl. rewrite E. reflexivity.
Defined.

(** ** Dispatch *)

Lemma SwitchToKernelMode_mode v cpu : CurrentMode (SwitchToKernelMode v cpu) = ModeKernel.
Proof. unfold SwitchToKernelMode. by destruct (CurrentMode cpu) eqn:E. Qed.

Lemma ReturnToUserMode_mode cpu : CurrentMode (ReturnToUserMode cpu) = ModeUser.
Proof. unfold ReturnToUserMode. by destruct (CurrentMode cpu) eqn:E. Qed.

(** What mode switches leave alone: everything but the mode and the log. *)
Definition unmoded (cpu : HardwareCPU) : HardwareCPU :=
  cpu <| CurrentMode := ModeUser |> <| ExecutionLog := [] |>.

Lemma SwitchToKernelMode_unmoded v cpu : unmoded (SwitchToKernelMode v cpu) = unmoded cpu.
Proof. unfold SwitchToKernelMode. by destruct (CurrentMode cpu). Qed.

Lemma ReturnToUserMode_unmoded cpu : unmoded (ReturnToUserMode cpu) = unmoded cpu.
Proof. unfold ReturnToUserMode. by destruct (CurrentMode cpu). Qed.

(** A trap is served in kernel mode and left in user mode.  For a registered
    vector, whatever the handler does, it runs in kernel mode on the state saved
    from the interrupted code (program counter, stack pointer, arguments), the
    processor is in user mode afterwards with all else as the handler left it,
    the context the handler leaves is returned and logged, and the counter of
    that vector alone goes up by one.  An unregistered vector is an error that
    changes nothing. *)
Theorem DispatchTrap_spec cpu vector num args tt :
  match DispatchTrap cpu vector num args tt with
  | (Err _, cpu', tt') =>
      Descriptors tt !! vector = None ∧ cpu' = cpu ∧ tt' = tt
  | (Ok ctx, cpu', tt') =>
      ∃ desc entry cpu1, Descriptors tt !! vector = Some desc ∧
        entry = mkTrapContext vector (DescType desc) (DescName desc) (ProgramCounter cpu)
                  (UserRSP cpu) 0 0 num args 0 ∧
        CurrentMode (SwitchToKernelMode vector cpu) = ModeKernel ∧
        unmoded (SwitchToKernelMode vector cpu) = unmoded cpu ∧
        match Handler desc with
        | Some h => (h (SwitchToKernelMode vector cpu) entry).1.2 = cpu1 ∧
                    (h (SwitchToKernelMode vector cpu) entry).2 = ctx
        | None => cpu1 = SwitchToKernelMode vector cpu ∧ ctx = entry
        end ∧
        CurrentMode cpu' = ModeUser ∧ unmoded cpu' = unmoded cpu1 ∧
        TrapHistory tt' = TrapHistory tt ++ [ctx] ∧
        Descriptors tt' = <[vector := desc <| Count := Count desc + 1 |>]> (Descriptors tt)
  end.
Proof.
  unfold DispatchTrap. destruct (Descriptors tt !! vector) as [desc|] eqn:Ed; [|done].
  simpl. destruct (Handler desc) as [h|] eqn:Hh.
  - destruct (h _ _) as [[st cpu1] ctx] eqn:Eh.
    exists desc, (mkTrapContext vector (DescType desc) (DescName desc) (ProgramCounter cpu)
                  (UserRSP cpu) 0 0 num args 0), cpu1.
    rewrite Hh, Eh. split_and!; try done;
      auto using SwitchToKernelMode_mode, SwitchToKernelMode_unmoded, ReturnToUserMode_mode,
        ReturnToUserMode_unmoded.
  - eexists desc, _, _. rewrite Hh. split_and!; try done;
      auto using SwitchToKernelMode_mode, SwitchToKernelMode_unmoded, ReturnToUserMode_mode,
        ReturnToUserMode_unmoded.
Qed.
