(* ===== verification/Syscalls.v ===== *)
(** * System calls

    Models [src/pkg/kernel/syscall.go]: the register convention, the dispatch
    table with its handlers, the validation of user pointers and [Dispatch]. *)

From S2P Require Import Prelude Visualizer.

Definition SysFork : Z := 1.
Definition SysExec : Z := 2.
Definition SysWait : Z := 3.
Definition SysExit : Z := 4.
Definition SysRead : Z := 5.
Definition SysWrite : Z := 6.
Definition SysPipe : Z := 7.
Definition SysShmGet : Z := 8.
Definition SysShmAttach : Z := 9.
Definition SysKill : Z := 10.
Definition SysSbrk : Z := 11.
Definition SysYield : Z := 12.
Definition SysGetPID : Z := 13.

Definition toErrno (err : Z) : Z := u64 (- err).

Definition ErrInvalidSyscall : error := errors_New "invalid syscall: unknown syscall number".
Definition ErrBadUserPointer : error :=
  errors_New "bad address (EFAULT): user pointer points to protected kernel address space".

Record SyscallRegisters := mkRegs {
  RAX : Z; RDI : Z; RSI : Z; RDX : Z; R10 : Z; R8 : Z; R9 : Z }.
#[export] Instance eta_SyscallRegisters : Eta SyscallRegisters := λ r,
  mkRegs (RAX r) (RDI r) (RSI r) (RDX r) (R10 r) (R8 r) (R9 r).

(** A handler receives a pointer to the registers and returns them as it
    leaves them. *)
Definition SyscallHandlerFunc : Type :=
  Z → SyscallRegisters → Z * option error * SyscallRegisters.

Record SyscallEntry := mkEntry {
  Number : Z; SysName : string; Signature : string; SysDescription : string;
  SysHandler : SyscallHandlerFunc; TotalCalls : Z }.
#[export] Instance eta_SyscallEntry : Eta SyscallEntry := λ e,
  mkEntry (Number e) (SysName e) (Signature e) (SysDescription e) (SysHandler e) (TotalCalls e).

Record SyscallDispatcher := mkDispatcher {
  SysTable : gmap Z SyscallEntry; KernelBase : Z; CallHistory : list string }.
#[export] Instance eta_SyscallDispatcher : Eta SyscallDispatcher := λ d,
  mkDispatcher (SysTable d) (KernelBase d) (CallHistory d).

(** ** Handlers *)
Definition defaultGetPID : SyscallHandlerFunc := λ pid regs, (pid, None, regs).
Definition defaultYield : SyscallHandlerFunc := λ _ regs, (0, None, regs).

Definition badBuffer (bufPtr : Z) : error :=
  Errorf_w ErrBadUserPointer (": buffer pointer 0x" +:+ fmt_X bufPtr +:+ " in kernel space").

Definition defaultWrite : SyscallHandlerFunc := λ _ regs,
  let bufPtr := RSI regs in
  let count := RDX regs in
  if 0xC0000000 <=? bufPtr then (-14, Some (badBuffer bufPtr), regs)
  else (i64 count, None, regs).

Definition defaultRead : SyscallHandlerFunc := λ _ regs,
  let bufPtr := RSI regs in
  let count := RDX regs in
  if 0xC0000000 <=? bufPtr then (-14, Some (badBuffer bufPtr), regs)
  else (i64 count, None, regs).

Definition defaultSbrk : SyscallHandlerFunc := λ _ regs, (0x00020000, None, regs).
Definition defaultExit : SyscallHandlerFunc := λ _ regs, (0, None, regs).
Definition defaultFork : SyscallHandlerFunc := λ _ regs, (1001, None, regs).
Definition defaultExec : SyscallHandlerFunc := λ _ regs, (0, None, regs).
Definition defaultWait : SyscallHandlerFunc := λ _ regs, (1001, None, regs).
Definition defaultPipe : SyscallHandlerFunc := λ _ regs, (0, None, regs).
Definition defaultShmGet : SyscallHandlerFunc := λ _ regs, (42, None, regs).
Definition defaultShmAttach : SyscallHandlerFunc := λ _ regs, (0x00300000, None, regs).

(** ** The dispatcher *)
Definition Register_ (num : Z) (name sig desc : string) (handler : SyscallHandlerFunc)
    (sd : SyscallDispatcher) : SyscallDispatcher :=
  sd <| SysTable ::= <[num := mkEntry num name sig desc handler 0]> |>.

Definition NewSyscallDispatcher : SyscallDispatcher :=
  let sd := mkDispatcher ∅ 0xC0000000 [] in
  let sd := Register_ SysGetPID "getpid" "pid_t sys_getpid(void)"
    "Returns the process ID of the calling process" defaultGetPID sd in
  let sd := Register_ SysYield "sched_yield" "int sys_yield(void)"
    "Voluntarily relinquishes the CPU to other ready processes" defaultYield sd in
  let sd := Register_ SysWrite "write" "ssize_t sys_write(int fd, const void *buf, size_t count)"
    "Writes data from user buffer to file/socket/pipe" defaultWrite sd in
  let sd := Register_ SysRead "read" "ssize_t sys_read(int fd, void *buf, size_t count)"
    "Reads data from file/socket/pipe into user buffer" defaultRead sd in
  let sd := Register_ SysSbrk "sbrk" "void *sys_sbrk(intptr_t increment)"
    "Adjusts heap break pointer to grow/shrink dynamic memory" defaultSbrk sd in
  let sd := Register_ SysExit "exit" "void sys_exit(int status)"
    "Terminates the calling process with exit status code" defaultExit sd in
  let sd := Register_ SysFork "fork" "pid_t sys_fork(void)"
    "Duplicates calling process (clones address space & PCB)" defaultFork sd in
  let sd := Register_ SysExec "execve" "int sys_execve(const char *filename, char *const argv[])"
    "Replaces current process image with new program" defaultExec sd in
  let sd := Register_ SysWait "waitpid" "pid_t sys_waitpid(pid_t pid, int *status, int options)"
    "Blocks parent until specified child process exits" defaultWait sd in
  let sd := Register_ SysPipe "pipe" "int sys_pipe(int pipefd[2])"
    "Creates unidirectional IPC pipe data channel" defaultPipe sd in
  let sd := Register_ SysShmGet "shmget" "int sys_shmget(key_t key, size_t size, int shmflg)"
    "Allocates shared memory segment across processes" defaultShmGet sd in
  Register_ SysShmAttach "shmat" "void *sys_shmat(int shmid, const void *shmaddr, int shmflg)"
    "Maps shared physical frame into virtual address space" defaultShmAttach sd.

(** The sum of address and size wraps around. *)
Definition ValidateUserPointer (vAddr size : Z) (sd : SyscallDispatcher) : option error :=
  if (KernelBase sd <? u64 (vAddr + size)) || (KernelBase sd <=? vAddr) then
    Some (Errorf_w ErrBadUserPointer
      (": pointer 0x" +:+ fmt_0X 8 vAddr +:+ " (size " +:+ fmt_d size +:+
       ") touches kernel space (>= 0x" +:+ fmt_0X 8 (KernelBase sd) +:+ ")"))
  else None.

Definition Dispatch (pid : Z) (regs : SyscallRegisters) (sd : SyscallDispatcher)
    : Z * option error * SyscallRegisters * SyscallDispatcher :=
  let syscallNum := i64 (RAX regs) in
  match SysTable sd !! syscallNum with
  | None =>
      (-1, Some (Errorf_w ErrInvalidSyscall (": Syscall #" +:+ fmt_d syscallNum)),
       regs <| RAX := toErrno 1 |>, sd)
  | Some entry =>
      let entry := entry <| TotalCalls ::= Z.succ |> in
      let sd := sd <| SysTable ::= <[syscallNum := entry]> |> in
      let '(retVal, err, regs) := SysHandler entry pid regs in
      match err with
      | Some e =>
          let regs := regs <| RAX := toErrno 22 |> in
          let logEntry := "[PID " +:+ fmt_d pid +:+ "] syscall " +:+ SysName entry +:+ "(" +:+
            fmt_d (RDI regs) +:+ ", 0x" +:+ fmt_X (RSI regs) +:+ ", 0x" +:+ fmt_X (RDX regs) +:+
            ") ──► ERROR: " +:+ err_msg e in
          (retVal, Some e, regs, sd <| CallHistory ::= λ h, h ++ [logEntry] |>)
      | None =>
          let regs := regs <| RAX := u64 retVal |> in
          let logEntry := "[PID " +:+ fmt_d pid +:+ "] syscall " +:+ SysName entry +:+
            "(arg1:0x" +:+ fmt_X (RDI regs) +:+ ", arg2:0x" +:+ fmt_X (RSI regs) +:+
            ", arg3:0x" +:+ fmt_X (RDX regs) +:+ ") ──► return: " +:+ fmt_d retVal +:+ " (" +:+
            Green "OK" +:+ ")" in
          (retVal, None, regs, sd <| CallHistory ::= λ h, h ++ [logEntry] |>)
      end
  end.

(** ** What the table serves *)

(** The kernel as calls reach it: every entry still has the handler it was
    registered with; counters and history vary. *)
Definition std_table (sd : SyscallDispatcher) : Prop :=
  KernelBase sd = 0xC0000000 ∧
  ∀ n, SysHandler <$> SysTable sd !! n = SysHandler <$> SysTable NewSyscallDispatcher !! n.

(** The reference semantics of the call with number [n]: [None] when there is
    no such call. *)
Definition sys_result (n pid : Z) (regs : SyscallRegisters) : option (result Z) :=
  if (n =? SysRead) || (n =? SysWrite)
  then Some (if RSI regs <? 0xC0000000 then Ok (i64 (RDX regs)) else Err (badBuffer (RSI regs)))
  else if n =? SysGetPID then Some (Ok pid)
  else if n =? SysSbrk then Some (Ok 0x00020000)
  else if (n =? SysFork) || (n =? SysWait) then Some (Ok 1001)
  else if n =? SysShmGet then Some (Ok 42)
  else if n =? SysShmAttach then Some (Ok 0x00300000)
  else if (n =? SysYield) || (n =? SysExit) || (n =? SysExec) || (n =? SysPipe) then Some (Ok 0)
  else None.

Lemma std_table_new : std_table NewSyscallDispatcher.
Proof. done. Qed.

(** The numbers of the table, one after the other. *)
Lemma new_table_cases n (P : option SyscallEntry → Prop) :
  (∀ e k, k ∈ [1; 2; 3; 4; 5; 6; 7; 8; 9; 11; 12; 13] → n = k →
     SysTable NewSyscallDispatcher !! k = Some e → P (Some e)) →
  (n ∉ [1; 2; 3; 4; 5; 6; 7; 8; 9; 11; 12; 13] → P None) →
  P (SysTable NewSyscallDispatcher !! n).
Proof.
  intros H1 H2. destruct (SysTable NewSyscallDispatcher !! n) as [e|] eqn:E.
  - apply (H1 e n); [|done|done].
    assert (Hd : n ∈ dom (SysTable NewSyscallDispatcher)) by (apply elem_of_dom; eauto).
    unfold NewSyscallDispatcher, Register_ in Hd. simpl in Hd.
    unfold SysGetPID, SysYield, SysWrite, SysRead, SysSbrk, SysExit, SysFork, SysExec, SysWait,
      SysPipe, SysShmGet, SysShmAttach in Hd.
    rewrite !dom_insert, dom_empty in Hd. clear -Hd. set_solver.
  - apply H2. intros Hn. assert (Hd : n ∉ dom (SysTable NewSyscallDispatcher)) by (by apply not_elem_of_dom).
    apply Hd. unfold NewSyscallDispatcher, Register_. simpl.
    unfold SysGetPID, SysYield, SysWrite, SysRead, SysSbrk, SysExit, SysFork, SysExec, SysWait,
      SysPipe, SysShmGet, SysShmAttach.
    rewrite !dom_insert, dom_empty. clear -Hn. set_solver.
Qed.

Definition std_handler (n : Z) : SyscallHandlerFunc :=
  match n with
  | 1 => defaultFork | 2 => defaultExec | 3 => defaultWait | 4 => defaultExit
  | 5 => defaultRead | 6 => defaultWrite | 7 => defaultPipe | 8 => defaultShmGet
  | 9 => defaultShmAttach | 11 => defaultSbrk | 12 => defaultYield | _ => defaultGetPID
  end.

Lemma new_handlers :
  Forall (λ k, SysHandler <$> SysTable NewSyscallDispatcher !! k = Some (std_handler k))
    [1; 2; 3; 4; 5; 6; 7; 8; 9; 11; 12; 13].
Proof. repeat (constructor; [reflexivity|]). constructor. Qed.

Lemma std_handler_result k pid regs :
  k ∈ [1; 2; 3; 4; 5; 6; 7; 8; 9; 11; 12; 13] →
  ∃ r, sys_result k pid regs = Some r ∧
    std_handler k pid regs = match r with
      | Ok v => (v, None, regs) | Err er => (-14, Some er, regs) end.
Proof.
  assert (Hb : (0xC0000000 <=? RSI regs) = negb (RSI regs <? 0xC0000000))
    by (rewrite Z.leb_antisym; done).
  rewrite !elem_of_cons, elem_of_nil. intros Hk. destruct_or?; subst k;
    unfold sys_result; simpl; try (eexists; split; reflexivity);
    unfold defaultRead, defaultWrite; rewrite Hb; (eexists; split; [reflexivity|]);
    by destruct (RSI regs <? 0xC0000000).
Qed.

Lemma sys_result_none n pid regs :
  n ∉ [1; 2; 3; 4; 5; 6; 7; 8; 9; 11; 12; 13] → sys_result n pid regs = None.
Proof.
  rewrite !not_elem_of_cons. intros. destruct_and!.
  unfold sys_result, SysGetPID, SysYield, SysWrite, SysRead, SysSbrk, SysExit, SysFork,
    SysExec, SysWait, SysPipe, SysShmGet, SysShmAttach.
  repeat match goal with |- context [n =? ?k] =>
    rewrite (proj2 (Z.eqb_neq n k)) by assumption end. done.
Qed.

Lemma std_lookup sd n pid regs :
  std_table sd →
  match SysTable sd !! n with
  | Some e => ∃ r, sys_result n pid regs = Some r ∧
      SysHandler e pid regs = match r with
        | Ok v => (v, None, regs) | Err er => (-14, Some er, regs) end
  | None => sys_result n pid regs = None
  end.
Proof.
  intros [_ Ht]. specialize (Ht n). revert Ht.
  apply (new_table_cases n (λ o, SysHandler <$> SysTable sd !! n = SysHandler <$> o → _)).
  - intros e k Hk -> He Ht. pose proof new_handlers as Hh. rewrite Forall_forall in Hh.
    specialize (Hh k Hk). rewrite He in Hh. simpl in Hh, Ht. injection Hh as Hh.
    destruct (SysTable sd !! k) as [e'|]; simpl in Ht; [|done]. injection Ht as ->. rewrite Hh.
    by apply std_handler_result.
  - intros Hn Ht. destruct (SysTable sd !! n); [done|]. by apply sys_result_none.
Qed.

Lemma sys_result_err n pid regs e :
  sys_result n pid regs = Some (Err e) → err_is e = err_is ErrBadUserPointer.
Proof.
  unfold sys_result. repeat case_if; intros; simplify_eq; done.
Qed.

(** Handlers and kernel base stay as they are when calls are dispatched. *)
Lemma Dispatch_std pid regs sd : std_table sd → std_table (Dispatch pid regs sd).2.
Proof.
  intros [Hb Ht]. unfold Dispatch. destruct (SysTable sd !! i64 (RAX regs)) as [e|] eqn:E; [|done].
  assert (std_table (sd <| SysTable ::= <[i64 (RAX regs) := e <| TotalCalls ::= Z.succ |>]> |>)) as Hs.
  { split; [done|]. intros n. simpl. destruct (decide (n = i64 (RAX regs))) as [->|].
    - rewrite lookup_insert_eq. rewrite <- Ht, E. done.
    - by rewrite lookup_insert_ne. }
  simpl. destruct (SysHandler e pid regs) as [[v [er|]] regs']; exact Hs.
Qed.

(** C36. The system call interface, for the standard table in any state: a number
    without an entry (10, [SysKill], among them) returns -1 with the error for
    unknown calls and -1 in RAX and changes nothing in the kernel; [read] and
    [write] with a buffer in kernel space return -14, the bad-address error and
    -22 in RAX; every other call returns its result in RAX.  All other
    registers are preserved, and a call that exists counts once in its own
    entry and adds one line to the history. *)
Theorem Dispatch_spec pid regs sd (Hstd : std_table sd) :
  let n := i64 (RAX regs) in
  let '(ret, err, regs', sd') := Dispatch pid regs sd in
  std_table sd' ∧
  regs' <| RAX := RAX regs |> = regs ∧
  match sys_result n pid regs with
  | None => ret = -1 ∧ err_is <$> err = Some (err_is ErrInvalidSyscall) ∧
            RAX regs' = 2 ^ 64 - 1 ∧ sd' = sd
  | Some r =>
      match r with
      | Ok v => ret = v ∧ err = None ∧ RAX regs' = u64 v
      | Err e => ret = -14 ∧ err = Some e ∧ err_is e = err_is ErrBadUserPointer ∧
                 RAX regs' = 2 ^ 64 - 22
      end ∧
      (∃ e, SysTable sd !! n = Some e ∧
         SysTable sd' = <[n := e <| TotalCalls := TotalCalls e + 1 |>]> (SysTable sd)) ∧
      ∃ line, CallHistory sd' = CallHistory sd ++ [line]
  end.
Proof.
  intros n. pose proof (Dispatch_std pid regs sd Hstd) as Hstd'.
  pose proof (std_lookup sd n pid regs Hstd) as Hl. unfold Dispatch in *.
  change (i64 (RAX regs)) with n in Hstd' |- *.
  destruct (SysTable sd !! n) as [e|] eqn:En.
  - destruct Hl as (r & Hr & Hh). rewrite Hr. simpl in *. rewrite Hh in *.
    destruct r as [v|er]; simpl in *; (split; [done|]); (split; [by destruct regs|]).
    + split; [done|]. split; [by exists e|eauto].
    + apply sys_result_err in Hr. split; [done|]. split; [by exists e|eauto].
  - rewrite Hl. simpl. split; [done|]. split; [by destruct regs|]. done.
Qed.

Lemma Dispatch_spec_witness :
  let regs := mkRegs SysWrite 1 0xC0000010 64 0 0 0 in
  let '(ret, _, regs', sd') := Dispatch 7 regs NewSyscallDispatcher in
  ret = -14 ∧ RAX regs' = 2 ^ 64 - 22 ∧ ∃ line, CallHistory sd' = [line].
Proof.
  intros regs. pose proof (Dispatch_spec 7 regs NewSyscallDispatcher std_table_new) as H.
  destruct (Dispatch 7 regs NewSyscallDispatcher) as [[[ret err] regs'] sd'].
  destruct H as (_ & _ & H). change (i64 (RAX regs)) with SysWrite in H.
  cbn in H. destruct H as ((-> & _ & _ & ->) & _ & Hh). auto.
Defined.

(** ** User pointers *)

(** The validation of user buffers, for 64-bit addresses and sizes: a buffer
    is accepted exactly when it starts below the kernel and either ends at or
    below its base, or is so long that its end wraps around the address space
    and comes out at or below the base.  Buffers that do not wrap are therefore
    judged correctly, and the wrapped ones, which do cover the kernel, are let
    through. *)
Theorem ValidateUserPointer_spec vAddr size sd
    (Hv : is_u64 vAddr) (Hs : is_u64 size) (Hb : 0 ≤ KernelBase sd) :
  ValidateUserPointer vAddr size sd = None ↔
    vAddr < KernelBase sd ∧
    (vAddr + size ≤ KernelBase sd ∨ 2 ^ 64 ≤ vAddr + size ≤ 2 ^ 64 + KernelBase sd).
Proof.
  unfold ValidateUserPointer, is_u64, u64_mod in *.
  assert (Hw : u64 (vAddr + size) =
    if vAddr + size <? 2 ^ 64 then vAddr + size else vAddr + size - 2 ^ 64).
  { unfold u64, u64_mod. destruct (Z.ltb_spec (vAddr + size) (2 ^ 64)).
    - apply Z.mod_small. lia.
    - symmetry. apply Z.mod_unique_pos with 1; lia. }
  rewrite Hw. destruct (Z.leb_spec (KernelBase sd) vAddr); [rewrite orb_true_r; split; [done|lia]|].
  rewrite orb_false_r. destruct (Z.ltb_spec (vAddr + size) (2 ^ 64)), (Z.ltb_spec (KernelBase sd)
    (vAddr + size)), (Z.ltb_spec (KernelBase sd) (vAddr + size - 2 ^ 64));
    (split; [intros|done || lia]); try done; lia.
Qed.

Lemma ValidateUserPointer_spec_witness :
  ValidateUserPointer 0x1000 (2 ^ 64 - 1) NewSyscallDispatcher = None ∧
  ValidateUserPointer 0xBFFFFFF0 0x10 NewSyscallDispatcher = None.
Proof.
  split; apply ValidateUserPointer_spec; unfold is_u64, u64_mod; simpl; lia.
Defined.
