(* ===== verification/Lifecycle.v ===== *)
(** * Process lifecycle

    Models [src/pkg/kernel/process_lifecycle.go]: fork, exec, exit and wait on
    the table of processes.  The control block of a process is identified by
    its number, which is never used twice; [Reaped] keeps the control blocks
    deleted from the table, which a pointer may still refer to.  Every
    operation holds the lock of the manager from beginning to end.  A [None]
    result is a nil dereference. *)

From S2P Require Import Prelude Visualizer Paging AddressSpace Syscalls Steps.

Definition ErrNoSuchProcess : error := errors_New "no such process (ESRCH)".
Definition ErrNoChild : error := errors_New "no child processes (ECHILD)".

Inductive UnixProcessState :=
  | ProcStateReady | ProcStateRunning | ProcStateBlocked | ProcStateZombie | ProcStateReaped.

#[export] Instance UnixProcessState_eq_dec : EqDecision UnixProcessState.
Proof. solve_decision. Defined.

Record UnixProcess := mkUnixProcess {
  UPID : Z; PPID : Z; UName : string; UState : UnixProcessState; ExitCode : Z;
  UAddressSpace : option AddressSpace; UPageTable : PageTable;
  URegisters : SyscallRegisters; OpenFDs : gmap Z string; Children : list Z }.
#[export] Instance eta_UnixProcess : Eta UnixProcess := λ p,
  mkUnixProcess (UPID p) (PPID p) (UName p) (UState p) (ExitCode p) (UAddressSpace p)
    (UPageTable p) (URegisters p) (OpenFDs p) (Children p).

Record ProcessManager := mkPM {
  Processes : gmap Z UnixProcess; Reaped : gmap Z UnixProcess; NextPID : Z; InitPID : Z;
  LifecycleLog : list string }.
#[export] Instance eta_ProcessManager : Eta ProcessManager := λ pm,
  mkPM (Processes pm) (Reaped pm) (NextPID pm) (InitPID pm) (LifecycleLog pm).

Definition zeroRegs : SyscallRegisters := mkRegs 0 0 0 0 0 0 0.

Definition NewProcessManager : option ProcessManager :=
  pt ← NewPageTable 1 16 4096;
  let initProc := mkUnixProcess 1 0 "init" ProcStateReady 0
    (Some (NewAddressSpace 1 (64 * 1024) 0x00100000)) pt zeroRegs
    (<[0 := "stdin"]> (<[1 := "stdout"]> (<[2 := "stderr"]> ∅))) [] in
  Some (mkPM {[1 := initProc]} ∅ 2 1 []).

Definition log (line : string) (pm : ProcessManager) : ProcessManager :=
  pm <| LifecycleLog ::= λ l, l ++ [line] |>.

(** The loop of [Fork] over the page table of the parent. *)
Fixpoint clonePages (i : Z) (entries : list PageTableEntry) (childPID : Z) (childPT : PageTable)
    : option PageTable :=
  match entries with
  | [] => Some childPT
  | entry :: entries =>
      childPT ← (if Valid entry
                 then MapPage i (u64 (PFN entry + u64 (childPID * 10))) (ReadWrite entry) childPT
                 else Some childPT);
      clonePages (i + 1) entries childPID childPT
  end.

Definition Fork (parentPID : Z) (pm : ProcessManager) : option (result Z * ProcessManager) :=
  match Processes pm !! parentPID with
  | None => Some (Err (Errorf_w ErrNoSuchProcess (": PID " +:+ fmt_d parentPID)), pm)
  | Some parent =>
      let childPID := NextPID pm in
      let pm := pm <| NextPID ::= Z.succ |> in
      as_ ← UAddressSpace parent;
      let childAS := NewAddressSpace childPID (TotalSize as_)
        (u64 (PhysicalBase as_ + u64 (childPID * 0x10000))) in
      childPT ← NewPageTable childPID 16 4096;
      childPT ← clonePages 0 (Entries (UPageTable parent)) childPID childPT;
      let child := mkUnixProcess childPID parentPID (UName parent +:+ "_child") ProcStateReady 0
        (Some childAS) childPT (URegisters parent <| RAX := 0 |>) (OpenFDs parent) [] in
      let parent := parent <| URegisters ::= λ r, r <| RAX := u64 childPID |> |>
                           <| Children ::= λ cs, cs ++ [childPID] |> in
      let pm := pm <| Processes ::= λ ps, <[childPID := child]> (<[parentPID := parent]> ps) |> in
      Some (Ok childPID, log ("[FORK] Parent P" +:+ fmt_d parentPID +:+ " (" +:+ UName parent +:+
        ") cloned child P" +:+ fmt_d childPID +:+ " -> Parent RAX=" +:+ fmt_d childPID +:+
        ", Child RAX=0") pm)
  end.

Definition Exec (pid : Z) (binaryName : string) (args : list string) (pm : ProcessManager)
    : option (option error * ProcessManager) :=
  match Processes pm !! pid with
  | None => Some (Some (Errorf_w ErrNoSuchProcess (": PID " +:+ fmt_d pid)), pm)
  | Some proc =>
      let oldName := UName proc in
      as_ ← UAddressSpace proc;
      pt ← NewPageTable pid 16 4096;
      pt ← MapPage 0 (u64 (pid * 20)) true pt;
      let proc := proc <| UName := binaryName |>
        <| UAddressSpace := Some (NewAddressSpace pid (64 * 1024) (PhysicalBase as_)) |>
        <| UPageTable := pt |>
        <| URegisters ::= λ r, r <| RAX := 0 |> <| RDI := u64 (len args) |> <| RSI := 0x00408000 |> |> in
      let pm := pm <| Processes ::= <[pid := proc]> |> in
      Some (None, log ("[EXEC] P" +:+ fmt_d pid +:+ " replaced program image '" +:+ oldName +:+
        "' ──► '" +:+ binaryName +:+ "' (Preserved PID " +:+ fmt_d pid +:+
        ", Reset Address Space)") pm)
  end.

(** One iteration of the loop that hands the children of [pid] to init. *)
Definition adopt (pid : Z) (pm : ProcessManager) (childPID : Z) : option ProcessManager :=
  match Processes pm !! childPID with
  | None => Some pm
  | Some _ =>
      let pm := pm <| Processes ::= alter (λ c, c <| PPID := InitPID pm |>) childPID |> in
      _ ← Processes pm !! InitPID pm;
      let pm := pm <| Processes ::= alter (λ i, i <| Children ::= λ cs, cs ++ [childPID] |>) (InitPID pm) |> in
      Some (log ("[ORPHAN REPARENTED] Child P" +:+ fmt_d childPID +:+
        " adopted by init (PID 1) after parent P" +:+ fmt_d pid +:+ " exited") pm)
  end.

Fixpoint adoptAll (pid : Z) (children : list Z) (pm : ProcessManager) : option ProcessManager :=
  match children with
  | [] => Some pm
  | c :: children => pm ← adopt pid pm c; adoptAll pid children pm
  end.

Definition Exit (pid exitCode : Z) (pm : ProcessManager)
    : option (option error * ProcessManager) :=
  match Processes pm !! pid with
  | None => Some (Some (Errorf_w ErrNoSuchProcess (": PID " +:+ fmt_d pid)), pm)
  | Some proc =>
      if pid =? InitPID pm then
        Some (Some (Errorf "kernel panic: attempt to terminate init process (PID 1)"), pm)
      else
        let pm := pm <| Processes ::= <[pid := proc <| UState := ProcStateZombie |>
          <| ExitCode := exitCode |> <| UAddressSpace := None |>]> |> in
        pm ← (if 0 <? len (Children proc) then
                pm ← adoptAll pid (Children proc) pm;
                Some (pm <| Processes ::= alter (λ p, p <| Children := [] |>) pid |>)
              else Some pm);
        Some (None, log ("[EXIT] Process P" +:+ fmt_d pid +:+ " (" +:+ UName proc +:+
          ") exited with code " +:+ fmt_d exitCode +:+ " ──► Entered " +:+
          Badge "ZOMBIE" BgYellow FgHiWhite +:+ " state") pm)
  end.

(** The loop of [Wait]: the index and the number of the first child that is a
    zombie, and its control block. *)
Fixpoint findZombie (i : nat) (children : list Z) (pm : ProcessManager)
    : option (nat * Z * UnixProcess) :=
  match children with
  | [] => None
  | childPID :: children =>
      match Processes pm !! childPID with
      | Some child => if decide (UState child = ProcStateZombie) then Some (i, childPID, child)
                      else findZombie (S i) children pm
      | None => findZombie (S i) children pm
      end
  end.

Definition Wait (parentPID : Z) (pm : ProcessManager)
    : (Z * Z * option error) * ProcessManager :=
  match Processes pm !! parentPID with
  | None => ((0, 0, Some (Errorf_w ErrNoSuchProcess (": PID " +:+ fmt_d parentPID))), pm)
  | Some parent =>
      if len (Children parent) =? 0 then
        ((0, 0, Some (Errorf_w ErrNoChild
           (": parent PID " +:+ fmt_d parentPID +:+ " has no child processes"))), pm)
      else
        match findZombie 0 (Children parent) pm with
        | Some (i, childPID, child) =>
            let exitCode := ExitCode child in
            let pm := pm <| Reaped ::= <[childPID := child <| UState := ProcStateReaped |>]> |>
                         <| Processes ::= delete childPID |>
                         <| Processes ::= alter (λ p, p <| Children ::= delete i |>) parentPID |> in
            ((childPID, exitCode, None),
             log ("[WAIT/REAP] Parent P" +:+ fmt_d parentPID +:+ " reaped Zombie child P" +:+
               fmt_d childPID +:+ " (Exit Code: " +:+ fmt_d exitCode +:+ ") ──► PCB destroyed") pm)
        | None =>
            ((0, 0, Some (Errorf
               "EWOULDBLOCK: child processes are still running (parent must block)")), pm)
        end
  end.

(** ** Sequences of calls *)
Inductive pm_op :=
  | OpFork (parentPID : Z)
  | OpExec (pid : Z) (binaryName : string) (args : list string)
  | OpExit (pid exitCode : Z)
  | OpWait (parentPID : Z).

Definition pm_step (o : pm_op) (pm : ProcessManager) : option ProcessManager :=
  match o with
  | OpFork p => snd <$> Fork p pm
  | OpExec p b a => snd <$> Exec p b a pm
  | OpExit p c => snd <$> Exit p c pm
  | OpWait p => Some (Wait p pm).2
  end.

(** ** The process tree *)

Definition zombie (p : UnixProcess) : Prop := UState p = ProcStateZombie.

Record proc_ok (ps : gmap Z UnixProcess) (next k : Z) (p : UnixProcess) : Prop := mk_proc_ok {
  po_pid : UPID p = k ∧ 1 ≤ k < next;
  po_state : UState p = ProcStateReady ∨ zombie p;
  po_memory : UAddressSpace p = None ↔ zombie p;
  po_zombie : zombie p → Children p = [];
  po_init : k = 1 → PPID p = 0 ∧ UState p = ProcStateReady;
  po_parent : k ≠ 1 → PPID p < k ∧ ∃ q, ps !! PPID p = Some q ∧ k ∈ Children q;
  po_children : ∀ c, c ∈ Children p → c < next ∧ ∃ q, ps !! c = Some q ∧ PPID q = k;
  po_nodup : NoDup (Children p);
  po_pages : len (Entries (UPageTable p)) = 16 }.

Record tree (pm : ProcessManager) : Prop := mk_tree {
  tr_initpid : InitPID pm = 1;
  tr_next : 2 ≤ NextPID pm;
  tr_root : is_Some (Processes pm !! 1);
  tr_procs : ∀ k p, Processes pm !! k = Some p → proc_ok (Processes pm) (NextPID pm) k p }.

Lemma tree_log line pm : tree pm → tree (log line pm).
Proof. by intros [H1 H2 H3 H4]; split. Qed.

Lemma tree_new : ∃ pm, NewProcessManager = Some pm ∧ tree pm.
Proof.
  eexists. split; [reflexivity|]. split; simpl; [done|lia|by rewrite lookup_singleton_eq|].
  intros k p [<- <-]%lookup_singleton_Some. split; simpl; try done.
  - by left.
  - intros c Hc. by apply elem_of_nil in Hc.
  - constructor.
Qed.

(** A control block may change as long as its links stay. *)
Definition links (p : UnixProcess) : Z * Z * list Z := (UPID p, PPID p, Children p).

Lemma proc_ok_ext ps ps' next k p :
  (∀ j, links <$> ps' !! j = links <$> ps !! j) → proc_ok ps next k p → proc_ok ps' next k p.
Proof.
  intros Hl [H1 H2 H3 H4 H5 H6 H7 H8 H9]. split; try done.
  - intros Hk. destruct (H6 Hk) as (? & q & Hq & Hc). split; [done|].
    specialize (Hl (PPID p)). rewrite Hq in Hl.
    apply fmap_Some in Hl as (q' & Hq' & El). injection El as _ _ El. exists q'. by rewrite <- El.
  - intros c Hc. destruct (H7 c Hc) as (? & q & Hq & Hp). split; [done|].
    specialize (Hl c). rewrite Hq in Hl.
    apply fmap_Some in Hl as (q' & Hq' & El). injection El as _ El _. exists q'. by rewrite <- El.
Qed.

(** Replacing the control block of [k] by one with the same links. *)
Lemma tree_replace pm k p p' :
  tree pm → Processes pm !! k = Some p → links p' = links p →
  (proc_ok (Processes pm) (NextPID pm) k p → proc_ok (Processes pm) (NextPID pm) k p') →
  tree (pm <| Processes ::= <[k := p']> |>).
Proof.
  intros [H1 H2 H3 H4] Hk Hl Hok.
  assert (Hext : ∀ j, links <$> <[k := p']> (Processes pm) !! j = links <$> Processes pm !! j).
  { intros j. destruct (decide (j = k)) as [->|].
    - by rewrite lookup_insert_eq, Hk; simpl; rewrite Hl.
    - by rewrite lookup_insert_ne. }
  split; simpl; [done|done| |].
  - destruct (decide (k = 1)) as [->|]; [rewrite lookup_insert_eq; eauto|by rewrite lookup_insert_ne].
  - intros j q. destruct (decide (j = k)) as [->|].
    + rewrite lookup_insert_eq. intros [= <-]. eapply proc_ok_ext; [exact Hext|auto].
    + rewrite lookup_insert_ne by done. intros Hq. eapply proc_ok_ext; [exact Hext|auto].
Qed.

(** *** Fork *)
Lemma clonePages_ok i entries c pt :
  0 ≤ i → i + len entries ≤ 16 → len (Entries pt) = 16 →
  ∃ pt', clonePages i entries c pt = Some pt' ∧ len (Entries pt') = 16.
Proof.
  revert i pt. induction entries as [|e entries IH]; intros i pt Hi Hn Hl; simpl; [eauto|].
  rewrite len_cons in Hn. assert (0 ≤ len entries) by (unfold len; lia).
  assert (∃ pt1, (if Valid e then MapPage i (u64 (PFN e + u64 (c * 10))) (ReadWrite e) pt
                  else Some pt) = Some pt1 ∧ len (Entries pt1) = 16) as (pt1 & -> & Hl1).
  { destruct (Valid e); [|eauto]. rewrite MapPage_spec by lia.
    eexists. split; [done|]. simpl. by rewrite len_upd_idx. }
  simpl. apply IH; [lia|lia|done].
Qed.

(** The table after a fork, from the control blocks [parent'] and [child]. *)
Section fork.
Context (pm : ProcessManager) (k : Z) (parent parent' child : UnixProcess).
Hypothesis Ht : tree pm.
Hypothesis Hk : Processes pm !! k = Some parent.
Hypothesis Hparent : UPID parent' = k ∧ PPID parent' = PPID parent ∧ UState parent' = ProcStateReady ∧
  is_Some (UAddressSpace parent') ∧ len (Entries (UPageTable parent')) = 16 ∧
  Children parent' = Children parent ++ [NextPID pm].
Hypothesis Hchild : UPID child = NextPID pm ∧ PPID child = k ∧ UState child = ProcStateReady ∧
  is_Some (UAddressSpace child) ∧ len (Entries (UPageTable child)) = 16 ∧ Children child = [].

Let ps' := <[NextPID pm := child]> (<[k := parent']> (Processes pm)).

(** Old processes keep their parent and lose no child. *)
Lemma fork_old j q :
  Processes pm !! j = Some q → ∃ q', ps' !! j = Some q' ∧ PPID q' = PPID q ∧
    ∀ c, c ∈ Children q → c ∈ Children q'.
Proof using All.
  intros Hq. destruct (tr_procs pm Ht _ _ Hq) as [[_ ?] _ _ _ _ _ _ _ _].
  unfold ps'. rewrite lookup_insert_ne by lia. destruct Hparent as (_ & E2 & _ & _ & _ & E6).
  destruct (decide (j = k)) as [->|Hj].
  - exists parent'. rewrite lookup_insert_eq. rewrite Hk in Hq. injection Hq as <-.
    split_and!; [done..|]. intros c Hc. rewrite E6. set_solver.
  - exists q. by rewrite lookup_insert_ne.
Qed.

(** A link of an old process is a link of the new table. *)
Lemma fork_links j q :
  Processes pm !! j = Some q →
  (j ≠ 1 → PPID q < j ∧ ∃ r, ps' !! PPID q = Some r ∧ j ∈ Children r) ∧
  (∀ c, c ∈ Children q → c < NextPID pm ∧ ∃ r, ps' !! c = Some r ∧ PPID r = j).
Proof using All.
  intros Hq. destruct (tr_procs pm Ht _ _ Hq) as [_ _ _ _ _ Q6 Q7 _ _]. split.
  - intros Hne. destruct (Q6 Hne) as (? & r & Hr & Hc). split; [done|].
    destruct (fork_old _ _ Hr) as (r' & ? & _ & Hch). eauto.
  - intros c Hc. destruct (Q7 c Hc) as (? & r & Hr & Hp). split; [done|].
    destruct (fork_old _ _ Hr) as (r' & ? & ? & _). exists r'. split; congruence.
Qed.

Lemma fork_child_ok : proc_ok ps' (NextPID pm + 1) (NextPID pm) child.
Proof using All.
  destruct Hchild as (C1 & C2 & C3 & C4 & C5 & C6), Hparent as (_ & _ & _ & _ & _ & E6).
  pose proof (tr_next pm Ht). destruct (tr_procs pm Ht _ _ Hk) as [[_ ?] _ _ _ _ _ _ _ _].
  split; [split; [done|lia]|by left| |done|lia| | | |done].
  - unfold zombie. rewrite C3. split; [|done]. intros E. rewrite E in C4. by destruct C4.
  - intros _. rewrite C2. split; [lia|]. exists parent'. unfold ps'.
    rewrite lookup_insert_ne, lookup_insert_eq by lia. split; [done|]. rewrite E6. set_solver.
  - rewrite C6. intros c Hc. by apply elem_of_nil in Hc.
  - rewrite C6. constructor.
Qed.

Lemma fork_parent_ok : proc_ok ps' (NextPID pm + 1) k parent'.
Proof using All.
  destruct Hparent as (E1 & E2 & E3 & E4 & E5 & E6).
  destruct (tr_procs pm Ht _ _ Hk) as [[_ P1] _ _ _ P5 _ P7 P8 _].
  destruct (fork_links _ _ Hk) as [L6 L7].
  split; [split; [done|lia]|by left| |by unfold zombie; rewrite E3| | | | |done].
  - unfold zombie. rewrite E3. split; [|done]. intros E. rewrite E in E4. by destruct E4.
  - intros Hk1. rewrite E2. split; [|done]. by apply P5.
  - rewrite E2. exact L6.
  - rewrite E6. intros c [Hc|Hc]%elem_of_app.
    + destruct (L7 c Hc). split; [lia|done].
    + apply list_elem_of_singleton in Hc as ->. split; [lia|].
      exists child. unfold ps'. rewrite lookup_insert_eq. by split; [|apply Hchild].
  - rewrite E6. apply NoDup_app. split_and!; [done| |apply NoDup_singleton].
    intros c Hc ->%list_elem_of_singleton. destruct (P7 _ Hc) as [? _]. lia.
Qed.

Lemma tree_fork log' : tree (mkPM ps' (Reaped pm) (NextPID pm + 1) (InitPID pm) log').
Proof using All.
  destruct (tr_root pm Ht) as [r Hr]. pose proof (tr_next pm Ht).
  split; simpl; [apply Ht|lia|destruct (fork_old _ _ Hr) as (? & ? & _); eauto|].
  intros j q Hq. unfold ps' in Hq. destruct (decide (j = NextPID pm)) as [->|Hj1].
  { rewrite lookup_insert_eq in Hq. injection Hq as <-. apply fork_child_ok. }
  rewrite lookup_insert_ne in Hq by done. destruct (decide (j = k)) as [->|Hj2].
  { rewrite lookup_insert_eq in Hq. injection Hq as <-. apply fork_parent_ok. }
  rewrite lookup_insert_ne in Hq by done. destruct (fork_links j q Hq) as [L6 L7].
  destruct (tr_procs pm Ht j q Hq) as [[Q0 Q1] Q2 Q3 Q4 Q5 Q6 Q7 Q8 Q9]. split; try done.
  - split; [done|lia].
  - intros c Hc. destruct (L7 c Hc). split; [lia|done].
Qed.
End fork.

(** [Fork] of a process that exists: it panics exactly for a zombie. *)
Lemma Fork_ok k pm p :
  tree pm → Processes pm !! k = Some p →
  (zombie p → Fork k pm = None) ∧
  (UState p = ProcStateReady → ∃ pm' child parent,
     Fork k pm = Some (Ok (NextPID pm), pm') ∧ tree pm' ∧
     Processes pm' = <[NextPID pm := child]> (<[k := parent]> (Processes pm)) ∧
     NextPID pm' = NextPID pm + 1 ∧
     PPID child = k ∧ Children child = [] ∧ OpenFDs child = OpenFDs p ∧
     URegisters child = URegisters p <| RAX := 0 |> ∧
     Children parent = Children p ++ [NextPID pm] ∧
     URegisters parent = URegisters p <| RAX := u64 (NextPID pm) |>).
Proof.
  intros Ht Hk. pose proof (tr_procs pm Ht k p Hk) as [P1 P2 P3 P4 P5 P6 P7 P8 P9].
  unfold Fork. rewrite Hk. split.
  - intros Hz%P3. simpl. by rewrite Hz.
  - intros Hr. destruct (UAddressSpace p) as [as_|] eqn:Ea.
    2: { exfalso. destruct P3 as [P3 _]. specialize (P3 eq_refl). unfold zombie in P3. congruence. }
    simpl. destruct (NewPageTable_ok (NextPID pm) 16 4096) as (pt & Ept & Hl & _); [lia|].
    unfold NewPageTable in Ept. simpl in Ept. injection Ept as <-.
    destruct (clonePages_ok 0 (Entries (UPageTable p)) (NextPID pm) _ ltac:(lia) ltac:(lia) Hl)
      as (pt' & Ec & Hl'). simpl in Ec. rewrite Ec. simpl.
    eexists _, _, _. split; [reflexivity|]. split; [|split_and!; reflexivity].
    apply (tree_fork pm k p); simpl; [done..| |]; destruct P1; split_and!; eauto.
Qed.

(** *** Exec *)
Lemma Exec_ok k b args pm p :
  tree pm → Processes pm !! k = Some p →
  (zombie p → Exec k b args pm = None) ∧
  (UState p = ProcStateReady → ∃ pm', Exec k b args pm = Some (None, pm') ∧ tree pm').
Proof.
  intros Ht Hk. pose proof (tr_procs pm Ht k p Hk) as [P1 P2 P3 P4 P5 P6 P7 P8 P9].
  unfold Exec. rewrite Hk. split.
  - intros Hz%P3. simpl. by rewrite Hz.
  - intros Hr. destruct (UAddressSpace p) as [as_|] eqn:Ea.
    2: { exfalso. destruct P3 as [P3 _]. specialize (P3 eq_refl). unfold zombie in P3. congruence. }
    simpl. eexists. split; [reflexivity|]. apply tree_log.
    apply (tree_replace pm k p); [done|done|done|]. intros _.
    split; simpl; try done. unfold zombie. simpl. rewrite Hr. done.
Qed.

(** *** Exit *)

(** What the control block of [j] becomes when init adopts the children [cs]. *)
Definition adopted (cs : list Z) (j : Z) (p : UnixProcess) : UnixProcess :=
  let p := if decide (j ∈ cs) then p <| PPID := 1 |> else p in
  if decide (j = 1) then p <| Children ::= λ l, l ++ cs |> else p.

Lemma adopted_cons c cs j p :
  c ≠ 1 → adopted cs j (adopted [c] j p) = adopted (c :: cs) j p.
Proof.
  intros Hc. unfold adopted. destruct p.
  destruct (decide (j = 1)) as [->|Hj]; simpl.
  - rewrite (decide_False (P := 1 ∈ [c])) by set_solver.
    destruct (decide (1 ∈ cs)); [rewrite decide_True by set_solver|rewrite decide_False by set_solver];
      simpl; by rewrite <- app_assoc.
  - destruct (decide (j ∈ [c])), (decide (j ∈ cs)).
    + rewrite decide_True by set_solver. done.
    + rewrite decide_True by set_solver. done.
    + rewrite decide_True by set_solver. done.
    + rewrite decide_False by set_solver. done.
Qed.

Lemma adopted_nil j p : adopted [] j p = p.
Proof.
  unfold adopted. rewrite (decide_False (P := j ∈ [])) by apply not_elem_of_nil.
  case_decide; [|done]. destruct p. simpl. by rewrite app_nil_r.
Qed.

Lemma adopt_ok pid c pm :
  InitPID pm = 1 → is_Some (Processes pm !! 1) → c ≠ 1 → is_Some (Processes pm !! c) →
  ∃ pm', adopt pid pm c = Some pm' ∧ InitPID pm' = 1 ∧ NextPID pm' = NextPID pm ∧
    Reaped pm' = Reaped pm ∧ ∀ j, Processes pm' !! j = adopted [c] j <$> Processes pm !! j.
Proof.
  intros Hi [p1 H1] Hc [pc Hpc]. unfold adopt. rewrite Hpc. simpl. rewrite !Hi.
  rewrite lookup_alter_ne, H1 by done. simpl. eexists. split; [reflexivity|].
  split_and!; try done. intros j. simpl. unfold adopted.
  destruct (decide (j = 1)) as [->|Hj].
  - rewrite lookup_alter_eq, lookup_alter_ne, H1 by done. simpl.
    rewrite (decide_False (P := 1 ∈ [c])) by set_solver. done.
  - rewrite lookup_alter_ne by done. destruct (decide (j = c)) as [->|].
    + rewrite lookup_alter_eq, Hpc. simpl. by rewrite (decide_True (P := c ∈ [c])) by set_solver.
    + rewrite lookup_alter_ne by done. destruct (Processes pm !! j); simpl; [|done].
      by rewrite (decide_False (P := j ∈ [c])) by set_solver.
Qed.

Lemma adoptAll_ok pid cs pm :
  InitPID pm = 1 → is_Some (Processes pm !! 1) → 1 ∉ cs →
  (∀ c, c ∈ cs → is_Some (Processes pm !! c)) →
  ∃ pm', adoptAll pid cs pm = Some pm' ∧ InitPID pm' = 1 ∧ NextPID pm' = NextPID pm ∧
    Reaped pm' = Reaped pm ∧ ∀ j, Processes pm' !! j = adopted cs j <$> Processes pm !! j.
Proof.
  revert pm. induction cs as [|c cs IH]; intros pm Hi H1 Hno Hcs; simpl.
  - exists pm. split_and!; try done. intros j. destruct (Processes pm !! j); simpl; [|done].
    by rewrite adopted_nil.
  - apply not_elem_of_cons in Hno as [Hc1 Hno].
    destruct (adopt_ok pid c pm) as (pm1 & E & Hi1 & Hn1 & Hr1 & Hp1);
      [done|done|done|apply Hcs; set_solver|].
    assert (Hsome : ∀ j, is_Some (Processes pm !! j) → is_Some (Processes pm1 !! j)).
    { intros j Hj. rewrite Hp1. by apply fmap_is_Some. }
    destruct (IH pm1) as (pm' & E' & ? & Hn & Hr & Hp); [done|by apply Hsome|done| |].
    { intros d Hd. apply Hsome, Hcs. set_solver. }
    exists pm'. rewrite E. simpl. split_and!; [done|done|congruence|congruence|].
    intros j. rewrite Hp, Hp1. destruct (Processes pm !! j); simpl; [|done].
    by rewrite adopted_cons.
Qed.

(** The table after [pid] has exited, in one description. *)
Definition exited (pid exitCode : Z) (cs : list Z) (j : Z) (p : UnixProcess) : UnixProcess :=
  if decide (j = pid) then
    p <| UState := ProcStateZombie |> <| ExitCode := exitCode |> <| UAddressSpace := None |>
      <| Children := [] |>
  else adopted cs j p.

Lemma Exit_eq pid code pm p :
  tree pm → Processes pm !! pid = Some p → pid ≠ 1 →
  ∃ pm', Exit pid code pm = Some (None, pm') ∧ InitPID pm' = 1 ∧ NextPID pm' = NextPID pm ∧
    Reaped pm' = Reaped pm ∧
    ∀ j, Processes pm' !! j = exited pid code (Children p) j <$> Processes pm !! j.
Proof.
  intros [Hi Hn H1 Hps] Hp Hpid. destruct (Hps _ _ Hp) as [P1 P2 P3 P4 P5 P6 P7 P8 P9].
  unfold Exit. rewrite Hp, Hi. destruct (Z.eqb_spec pid 1); [done|].
  set (z := p <| UState := ProcStateZombie |> <| ExitCode := code |> <| UAddressSpace := None |>).
  set (pm1 := pm <| Processes ::= <[pid := z]> |>).
  assert (Hself : pid ∉ Children p).
  { intros Hin. destruct (P7 _ Hin) as (_ & q & Hq & Hpp). rewrite Hp in Hq. injection Hq as <-.
    destruct (P6 Hpid). lia. }
  assert (Hno1 : 1 ∉ Children p).
  { intros Hin. destruct (P7 _ Hin) as (_ & q & Hq & Hpp).
    destruct (Hps _ _ Hq) as [_ _ _ _ [H0 _] _ _ _ _]; [done|]. lia. }
  assert (Hsome : ∀ j, is_Some (Processes pm !! j) → is_Some (Processes pm1 !! j)).
  { intros j Hj. unfold pm1. simpl. destruct (decide (j = pid)) as [->|].
    - rewrite lookup_insert_eq. eauto.
    - by rewrite lookup_insert_ne. }
  destruct (adoptAll_ok pid (Children p) pm1) as (pm2 & E2 & Hi2 & Hn2 & Hr2 & Hp2);
    [done|by apply Hsome|done|intros c Hc; apply Hsome; destruct (P7 c Hc) as (_ & q & -> & _); eauto|].
  destruct (Z.ltb_spec 0 (len (Children p))) as [Hlen|Hlen].
  - rewrite E2. simpl. eexists. split; [reflexivity|]. split_and!; [done|done|done|].
    intros j. simpl. unfold exited. destruct (decide (j = pid)) as [->|Hj].
    + rewrite lookup_alter_eq, Hp2. unfold pm1. simpl. rewrite lookup_insert_eq, Hp. simpl.
      unfold adopted. rewrite decide_False, decide_False by done. done.
    + rewrite lookup_alter_ne, Hp2 by done. unfold pm1. simpl. by rewrite lookup_insert_ne.
  - simpl. eexists. split; [reflexivity|]. split_and!; [done|done|done|].
    assert (Hnil : Children p = []) by (destruct (Children p); [done|unfold len in Hlen; simpl in Hlen; lia]).
    intros j. simpl. unfold exited. destruct (decide (j = pid)) as [->|Hj].
    + rewrite lookup_insert_eq, Hp. simpl. f_equal. unfold z. destruct p. simpl in *. by subst.
    + rewrite lookup_insert_ne, Hnil by done. destruct (Processes pm !! j); simpl; [|done].
      by rewrite adopted_nil.
Qed.

Lemma exited_fields pid code cs j p :
  let p' := exited pid code cs j p in
  UPID p' = UPID p ∧ UPageTable p' = UPageTable p ∧
  (j ≠ pid → UState p' = UState p ∧ UAddressSpace p' = UAddressSpace p ∧
     ExitCode p' = ExitCode p ∧
     Children p' = (if decide (j = 1) then Children p ++ cs else Children p)) ∧
  (j ∉ cs ∨ j = pid → PPID p' = PPID p) ∧ (j ∈ cs → j ≠ pid → PPID p' = 1).
Proof.
  unfold exited, adopted. destruct p. simpl. repeat case_decide; simpl; naive_solver.
Qed.

Section exit.
Context (pid code : Z) (pm pm' : ProcessManager) (p : UnixProcess).
Hypothesis Ht : tree pm.
Hypothesis Hp : Processes pm !! pid = Some p.
Hypothesis Hpid : pid ≠ 1.
Hypothesis Hps' : ∀ j, Processes pm' !! j = exited pid code (Children p) j <$> Processes pm !! j.

Lemma exit_get k r :
  Processes pm !! k = Some r → Processes pm' !! k = Some (exited pid code (Children p) k r).
Proof using All. intros Hr. by rewrite Hps', Hr. Qed.

(** The orphans are children of nobody else, and neither init nor [pid]. *)
Lemma orphan c :
  c ∈ Children p → c ≠ pid ∧ c ≠ 1 ∧ c < NextPID pm ∧
  ∃ q, Processes pm !! c = Some q ∧ PPID q = pid ∧
    Processes pm' !! c = Some (exited pid code (Children p) c q) ∧
    PPID (exited pid code (Children p) c q) = 1.
Proof using All.
  intros Hc. destruct (po_children _ _ _ _ (tr_procs pm Ht _ _ Hp) c Hc) as (Hlt & q & Hq & Hqp).
  destruct (tr_procs pm Ht _ _ Hq) as [_ _ _ _ Q5 Q6 _ _ _].
  assert (Hne : c ≠ pid) by (intros ->; destruct (Q6 Hpid); lia).
  split_and!; [done| |done|].
  - intros ->. destruct (Q5 eq_refl) as [H0 _].
    destruct (tr_procs pm Ht _ _ Hp) as [[_ ?] _ _ _ _ _ _ _ _]. lia.
  - exists q. split_and!; [done|done|by apply exit_get|].
    destruct (exited_fields pid code (Children p) c q) as (_ & _ & _ & _ & F). by apply F.
Qed.

Lemma exit_parent j q :
  Processes pm !! j = Some q → j ≠ 1 → let q' := exited pid code (Children p) j q in
  PPID q' < j ∧ ∃ r, Processes pm' !! PPID q' = Some r ∧ j ∈ Children r.
Proof using All.
  intros Hq Hj1 q'. destruct (exited_fields pid code (Children p) j q) as (_ & _ & _ & F4 & F5).
  destruct (tr_procs pm Ht _ _ Hq) as [[_ Q1] _ _ _ _ Q6 _ _ _].
  destruct (decide (j ∈ Children p)) as [Hc|Hc].
  - destruct (orphan j Hc) as (Hjp & _ & _ & _). unfold q'. rewrite F5 by done. split; [lia|].
    destruct (tr_root pm Ht) as [r Hr]. eexists. split; [by apply exit_get|].
    destruct (exited_fields pid code (Children p) 1 r) as (_ & _ & F & _).
    destruct F as (_ & _ & _ & ->); [done|]. rewrite decide_True by done. set_solver.
  - unfold q'. rewrite F4 by auto. destruct (Q6 Hj1) as (? & r & Hr & Hjr). split; [done|].
    eexists. split; [by apply exit_get|].
    assert (Hne : PPID q ≠ pid) by (intros E; rewrite E, Hp in Hr; by injection Hr as <-).
    destruct (exited_fields pid code (Children p) (PPID q) r) as (_ & _ & F & _).
    destruct (F Hne) as (_ & _ & _ & ->). case_decide; set_solver.
Qed.

Lemma exit_children j q c :
  Processes pm !! j = Some q → c ∈ Children (exited pid code (Children p) j q) →
  c < NextPID pm ∧ ∃ r, Processes pm' !! c = Some r ∧ PPID r = j.
Proof using All.
  intros Hq Hc. destruct (decide (j = pid)) as [->|E].
  { unfold exited in Hc. rewrite decide_True in Hc by done. by apply elem_of_nil in Hc. }
  destruct (exited_fields pid code (Children p) j q) as (_ & _ & F3 & _).
  destruct (F3 E) as (_ & _ & _ & Ec). rewrite Ec in Hc.
  destruct (decide (c ∈ Children p)) as [Hcc|Hcc].
  - destruct (orphan c Hcc) as (_ & _ & Hlt & r & Hr & Hrp & Hr' & Hrp').
    split; [done|]. eexists. split; [exact Hr'|]. destruct (decide (j = 1)); [congruence|].
    destruct (po_children _ _ _ _ (tr_procs pm Ht _ _ Hq) c Hc) as (_ & r2 & ? & ?). congruence.
  - assert (Hcq : c ∈ Children q) by (destruct (decide (j = 1)); set_solver).
    destruct (po_children _ _ _ _ (tr_procs pm Ht _ _ Hq) c Hcq) as (? & r & Hr & Hrp). split; [done|].
    eexists. split; [by apply exit_get|].
    destruct (exited_fields pid code (Children p) c r) as (_ & _ & _ & G4 & _). rewrite G4; auto.
Qed.

Lemma tree_exit : InitPID pm' = 1 → NextPID pm' = NextPID pm → tree pm'.
Proof using All.
  intros Hi' Hn'. destruct (tr_root pm Ht) as [r0 Hr0].
  split; [done|rewrite Hn'; apply Ht|rewrite (exit_get _ _ Hr0); eauto|].
  intros j q' Hq'. rewrite Hps' in Hq'. apply fmap_Some in Hq' as (q & Hq & ->).
  destruct (tr_procs pm Ht _ _ Hq) as [Q1 Q2 Q3 Q4 Q5 _ Q7 Q8 Q9].
  pose proof (exited_fields pid code (Children p) j q) as (F1 & F2 & F3 & F4 & _). rewrite Hn'.
  split; [by rewrite F1| | | | |by apply exit_parent|by intros c; apply exit_children| |by rewrite F2];
    destruct (decide (j = pid)) as [E|E]; try (destruct (F3 E) as (Es & Ea & _ & Ec)); unfold zombie;
    rewrite ?Es, ?Ea, ?Ec; try done.
  1,2,3,7: unfold exited; rewrite decide_True by done; simpl; first [by auto using NoDup_nil_2|naive_solver].
  - intros Hzq. destruct (decide (j = 1)) as [E1|]; [|by apply Q4].
    destruct (Q5 E1) as [_ Hr]. congruence.
  - congruence.
  - intros E1. rewrite F4; [by apply Q5|]. left. intros Hc. by destruct (orphan j Hc) as (_ & ? & _).
  - case_decide as E1; [|done]. apply NoDup_app.
    split_and!; [done| |apply (tr_procs pm Ht _ _ Hp)]. intros c Hc Hcc.
    destruct (orphan c Hcc) as (_ & _ & _ & r & Hr & Hrp & _), (Q7 c Hc) as (_ & r' & Hr' & Hrp').
    congruence.
Qed.
End exit.

(** *** Wait *)
Definition is_zombie (pm : ProcessManager) (c : Z) : Prop :=
  ∃ q, Processes pm !! c = Some q ∧ zombie q.

#[export] Instance is_zombie_dec pm c : Decision (is_zombie pm c).
Proof.
  destruct (Processes pm !! c) as [q|] eqn:E; [destruct (decide (UState q = ProcStateZombie))|].
  - left. by exists q.
  - right. intros (q' & Hq' & Hz). congruence.
  - right. intros (q' & Hq' & _). congruence.
Defined.

(** The loop finds what [list_find] finds. *)
Lemma findZombie_find n cs pm :
  match list_find (is_zombie pm) cs with
  | Some (i, c) => ∃ q, findZombie n cs pm = Some ((n + i)%nat, c, q) ∧
      Processes pm !! c = Some q ∧ zombie q ∧ cs !! i = Some c
  | None => findZombie n cs pm = None
  end.
Proof.
  revert n. induction cs as [|c cs IH]; intros n; simpl; [done|].
  destruct (decide (is_zombie pm c)) as [(q & Hq & Hz)|Hno].
  - exists q. rewrite Hq, decide_True, Nat.add_0_r by done. done.
  - assert (Hskip : findZombie n (c :: cs) pm = findZombie (S n) cs pm).
    { simpl. destruct (Processes pm !! c) as [q|] eqn:Eq; [|done].
      rewrite decide_False; [done|]. intros Hz. apply Hno. by exists q. }
    simpl in Hskip. rewrite Hskip. specialize (IH (S n)).
    destruct (list_find (is_zombie pm) cs) as [[i d]|]; simpl; [|done].
    destruct IH as (q & -> & Hq & Hz & Hl). exists q. rewrite Nat.add_succ_r. done.
Qed.

(** Deleting a zombie [c], the [i]-th child of [k]. *)
Section reap.
Context (pm : ProcessManager) (k : Z) (p : UnixProcess) (i : nat) (c : Z) (q : UnixProcess).
Hypothesis Ht : tree pm.
Hypothesis Hk : Processes pm !! k = Some p.
Hypothesis Hc : Children p !! i = Some c.
Hypothesis Hq : Processes pm !! c = Some q.
Hypothesis Hz : zombie q.

Let ps' := alter (λ p, p <| Children ::= delete i |>) k (delete c (Processes pm)).
Let upd_ (j : Z) (r : UnixProcess) := if decide (j = k) then r <| Children ::= delete i |> else r.

Lemma reaped_child : c ≠ k ∧ c ≠ 1 ∧ PPID q = k ∧ Children q = [].
Proof using All.
  destruct (tr_procs pm Ht _ _ Hq) as [_ _ _ Q4 Q5 _ _ _ _]. split_and!; [| | |by apply Q4].
  - intros ->. rewrite Hk in Hq. injection Hq as <-. by rewrite Q4 in Hc.
  - intros ->. destruct (Q5 eq_refl). unfold zombie in Hz. congruence.
  - destruct (po_children _ _ _ _ (tr_procs pm Ht _ _ Hk) c) as (_ & q' & Hq' & <-);
      [by eapply list_elem_of_lookup_2|]. congruence.
Qed.

Lemma reap_get j : ps' !! j = if decide (j = c) then None else upd_ j <$> Processes pm !! j.
Proof using All.
  destruct reaped_child as (Hck & _). unfold ps', upd_. destruct (decide (j = k)) as [->|].
  - rewrite lookup_alter_eq, lookup_delete_ne by done. by rewrite decide_False.
  - rewrite lookup_alter_ne by done. destruct (decide (j = c)) as [->|].
    + by rewrite lookup_delete_eq.
    + rewrite lookup_delete_ne by done. by destruct (Processes pm !! j).
Qed.

(** The other children are kept, and only those. *)
Lemma reap_children j r d :
  Processes pm !! j = Some r → (d ∈ Children (upd_ j r) ↔ d ∈ Children r ∧ d ≠ c).
Proof using All.
  intros Hr. pose proof (tr_procs pm Ht _ _ Hr) as Hok. unfold upd_.
  destruct (decide (j = k)) as [->|Hj]; simpl.
  - rewrite Hk in Hr. injection Hr as <-. pose proof (delete_perm _ _ _ Hc) as Hperm.
    pose proof (po_nodup _ _ _ _ Hok) as Hnd. rewrite Hperm in Hnd. apply NoDup_cons in Hnd as [Hnin _].
    assert (Hd : d ∈ Children p ↔ d ∈ c :: delete i (Children p)) by (by rewrite <- Hperm).
    rewrite Hd. set_solver.
  - split; [|by intros [? _]]. intros Hd. split; [done|]. intros ->.
    destruct (po_children _ _ _ _ Hok c Hd) as (_ & q' & Hq' & Hpq), reaped_child as (_ & _ & ? & _).
    congruence.
Qed.

Lemma reap_proc_ok j r :
  Processes pm !! j = Some r → j ≠ c → proc_ok ps' (NextPID pm) j (upd_ j r).
Proof using All.
  intros Hr Hjc. destruct (tr_procs pm Ht _ _ Hr) as [R1 R2 R3 R4 R5 R6 R7 R8 R9].
  assert (UPID (upd_ j r) = UPID r ∧ PPID (upd_ j r) = PPID r ∧ UState (upd_ j r) = UState r ∧
    UAddressSpace (upd_ j r) = UAddressSpace r ∧ UPageTable (upd_ j r) = UPageTable r)
    as (E1 & E2 & E3 & E4 & E5) by (unfold upd_; by case_decide).
  destruct reaped_child as (Hck & _ & _ & Hqc).
  split; unfold zombie; rewrite ?E1, ?E2, ?E3, ?E4, ?E5; try done.
  - intros Hzr. apply elem_of_nil_inv. intros d [Hd _]%(reap_children j r d); [|done].
    rewrite R4 in Hd by done. by apply elem_of_nil in Hd.
  - intros Hj1. destruct (R6 Hj1) as (? & s & Hs & Hjs). split; [done|].
    assert (Hne : PPID r ≠ c).
    { intros E. rewrite E, Hq in Hs. injection Hs as <-. rewrite Hqc in Hjs. by apply elem_of_nil in Hjs. }
    exists (upd_ (PPID r) s). rewrite reap_get, decide_False, Hs by done.
    split; [done|]. by apply reap_children.
  - intros d [Hdr Hdc]%(reap_children j r d); [|done].
    destruct (R7 d Hdr) as (? & s & Hs & Hsp). split; [done|].
    exists (upd_ d s). rewrite reap_get, decide_False, Hs by done. split; [done|].
    unfold upd_. by destruct (decide (d = k)).
  - unfold upd_. destruct (decide (j = k)) as [->|]; [|done]. rewrite Hk in Hr. injection Hr as <-.
    simpl. rewrite (delete_perm _ _ _ Hc) in R8. by apply NoDup_cons in R8 as [_ ?].
Qed.

Lemma tree_reap reaped log' : tree (mkPM ps' reaped (NextPID pm) (InitPID pm) log').
Proof using All.
  destruct reaped_child as (_ & Hc1 & _). split; simpl; [apply Ht|apply Ht| |].
  - rewrite reap_get, decide_False by done. apply fmap_is_Some, Ht.
  - intros j r' Hr'. rewrite reap_get in Hr'. destruct (decide (j = c)) as [|Hjc]; [done|].
    apply fmap_Some in Hr' as (r & Hr & ->). by apply reap_proc_ok.
Qed.
End reap.

(** *** All operations *)
Lemma Wait_tree k pm : tree pm → tree (Wait k pm).2.
Proof.
  intros Ht. unfold Wait. destruct (Processes pm !! k) as [p|] eqn:Hk; [|done].
  destruct (len (Children p) =? 0); [done|].
  pose proof (findZombie_find 0 (Children p) pm) as Hf.
  destruct (list_find (is_zombie pm) (Children p)) as [[i c]|]; [|by rewrite Hf].
  destruct Hf as (q & -> & Hq & Hz & Hc).
  exact (tree_reap pm k p i c q Ht Hk Hc Hq Hz _ _).
Qed.

Lemma pm_step_tree o pm pm' : tree pm → pm_step o pm = Some pm' → tree pm'.
Proof.
  intros Ht Hs. destruct o as [k|k b args|k code|k]; simpl in Hs.
  - destruct (Processes pm !! k) as [p|] eqn:Hk.
    + destruct (Fork_ok k pm p Ht Hk) as [Hz Hr].
      destruct (po_state _ _ _ _ (tr_procs pm Ht k p Hk)) as [E|E]; [|by rewrite Hz in Hs].
      destruct (Hr E) as (pm1 & child & parent & Ef & Ht' & _). rewrite Ef in Hs.
      injection Hs as <-. done.
    + unfold Fork in Hs. rewrite Hk in Hs. by injection Hs as <-.
  - destruct (Processes pm !! k) as [p|] eqn:Hk.
    + destruct (Exec_ok k b args pm p Ht Hk) as [Hz Hr].
      destruct (po_state _ _ _ _ (tr_procs pm Ht k p Hk)) as [E|E]; [|by rewrite Hz in Hs].
      destruct (Hr E) as (pm1 & Ef & Ht'). rewrite Ef in Hs. by injection Hs as <-.
    + unfold Exec in Hs. rewrite Hk in Hs. by injection Hs as <-.
  - destruct (Processes pm !! k) as [p|] eqn:Hk.
    + destruct (decide (k = 1)) as [->|Hk1].
      * unfold Exit in Hs. rewrite Hk, (tr_initpid pm Ht) in Hs. simpl in Hs. by injection Hs as <-.
      * destruct (Exit_eq k code pm p Ht Hk Hk1) as (pm1 & Ee & Hi & Hn & _ & Hps).
        rewrite Ee in Hs. injection Hs as <-. by eapply tree_exit.
    + unfold Exit in Hs. rewrite Hk in Hs. by injection Hs as <-.
  - injection Hs as <-. by apply Wait_tree.
Qed.

(** One step up in the tree. *)
Definition parent_of (pm : ProcessManager) (k k' : Z) : Prop :=
  ∃ p, Processes pm !! k = Some p ∧ PPID p = k'.

Lemma reaches_init pm k :
  tree pm → is_Some (Processes pm !! k) → rtc (parent_of pm) k 1.
Proof.
  intros Ht. assert (Hind : ∀ n k, k < Z.of_nat n → is_Some (Processes pm !! k) →
    rtc (parent_of pm) k 1).
  { clear k. induction n as [|n IH]; intros k Hk [p Hp];
      destruct (tr_procs pm Ht k p Hp) as [[_ ?] _ _ _ _ P6 _ _ _]; [lia|].
    destruct (decide (k = 1)) as [->|Hk1]; [constructor|].
    destruct (P6 Hk1) as (? & q & Hq & _). eapply rtc_l; [by exists p|]. apply IH; [lia|eauto]. }
  intros Hk. apply (Hind (Z.to_nat (Z.max 0 k + 1))); [lia|done].
Qed.

(** C9. The processes always form a tree rooted at init.  After any sequence of
    fork, exec, exit and wait calls, with any arguments: every process other
    than init has a living entry for its parent, which lists it exactly once,
    and following parents leads to init; every listed child exists and has the
    lister as its parent; zombies hold no address space and have no children,
    and init is never one. *)
Theorem process_tree pm0 pm
    (Hnew : NewProcessManager = Some pm0) (Hreach : reachable pm_step pm0 pm) :
  (∀ k p, Processes pm !! k = Some p →
     UPID p = k ∧ rtc (parent_of pm) k 1 ∧ NoDup (Children p) ∧
     (k ≠ 1 → ∃ q, Processes pm !! PPID p = Some q ∧ k ∈ Children q) ∧
     (∀ c, c ∈ Children p ↔ parent_of pm c k) ∧
     (UState p = ProcStateZombie ↔ UAddressSpace p = None) ∧
     (UState p = ProcStateZombie → k ≠ 1 ∧ Children p = [])) ∧
  is_Some (Processes pm !! 1).
Proof.
  assert (Ht : tree pm).
  { destruct tree_new as (pm1 & E & Ht). rewrite Hnew in E. injection E as ->.
    eapply reachable_inv; [exact Ht|intros; by eapply pm_step_tree|exact Hreach]. }
  split; [|apply Ht]. intros k p Hk. pose proof (reaches_init pm k Ht ltac:(eauto)) as Hrtc.
  destruct (tr_procs pm Ht k p Hk) as [P1 P2 P3 P4 P5 P6 P7 P8 P9].
  split_and!; [by destruct P1|done|done|intros Hk1; by destruct (P6 Hk1)| |by rewrite P3|].
  - intros c. split.
    + intros Hc. destruct (P7 c Hc) as (_ & q & Hq & Hp). by exists q.
    + intros (q & Hq & Hp). destruct (tr_procs pm Ht c q Hq) as [_ _ _ _ Q5 Q6 _ _ _].
      destruct (decide (c = 1)) as [->|Hc1]; [destruct (Q5 eq_refl); lia|].
      destruct (Q6 Hc1) as (_ & r & Hr & Hcr). rewrite Hp, Hk in Hr. by injection Hr as <-.
  - intros Hz. split; [|by apply P4]. intros Hk1. destruct (P5 Hk1). congruence.
Qed.

Definition family : list pm_op :=
  [OpFork 1; OpFork 2; OpFork 2; OpExec 3 "sh" []; OpExit 2 7; OpWait 1].

Lemma process_tree_witness :
  ∃ pm0 pm, NewProcessManager = Some pm0 ∧ run pm_step family pm0 = Some pm ∧
    is_Some (Processes pm !! 1) ∧ UState <$> Processes pm !! 2 = None ∧
    Children <$> Processes pm !! 1 = Some [3; 4].
Proof.
  assert (Hrun : (λ pm, (UState <$> Processes pm !! 2, Children <$> Processes pm !! 1)) <$>
    (NewProcessManager ≫= run pm_step family) = Some (None, Some [3; 4]))
    by (vm_compute; reflexivity).
  apply fmap_Some in Hrun as (pm & (pm0 & E0 & E)%bind_Some & Hrun). injection Hrun as H2 H1. exists pm0, pm. split_and!; [done|done| |done|done].
  apply (process_tree pm0 pm E0). eapply run_reachable; [constructor|exact E].
Defined.

(** *** What the operations deliver *)

Lemma pm_step_panics o pm :
  tree pm → pm_step o pm = None ↔
    ∃ j, is_zombie pm j ∧ (o = OpFork j ∨ ∃ b args, o = OpExec j b args).
Proof.
  intros Ht. split.
  - destruct o as [k|k b args|k code|k]; simpl; [| | |done]; intros Hn%fmap_None.
    + destruct (Processes pm !! k) as [p|] eqn:Hk; [|unfold Fork in Hn; by rewrite Hk in Hn].
      destruct (Fork_ok k pm p Ht Hk) as [_ Hr].
      destruct (po_state _ _ _ _ (tr_procs pm Ht k p Hk)) as [E|E]; [|by exists k; split; [exists p|left]].
      destruct (Hr E) as (? & ? & ? & Ef & _). congruence.
    + destruct (Processes pm !! k) as [p|] eqn:Hk; [|unfold Exec in Hn; by rewrite Hk in Hn].
      destruct (Exec_ok k b args pm p Ht Hk) as [_ Hr].
      destruct (po_state _ _ _ _ (tr_procs pm Ht k p Hk)) as [E|E];
        [|by exists k; split; [exists p|right; eauto]].
      destruct (Hr E) as (? & Ef & _). congruence.
    + destruct (Processes pm !! k) as [p|] eqn:Hk; [|unfold Exit in Hn; by rewrite Hk in Hn].
      destruct (decide (k = 1)) as [->|Hk1].
      * unfold Exit in Hn. by rewrite Hk, (tr_initpid pm Ht) in Hn.
      * destruct (Exit_eq k code pm p Ht Hk Hk1) as (? & Ee & _). congruence.
  - intros (j & (p & Hp & Hz) & [->|(b & args & ->)]); simpl.
    + by rewrite (proj1 (Fork_ok j pm p Ht Hp)).
    + by rewrite (proj1 (Exec_ok j b args pm p Ht Hp)).
Qed.

Lemma Wait_find k pm p :
  tree pm → Processes pm !! k = Some p →
  match list_find (is_zombie pm) (Children p) with
  | Some (i, c) => ∃ q pm', Processes pm !! c = Some q ∧
      Wait k pm = ((c, ExitCode q, None), pm') ∧ Processes pm' !! c = None ∧
      (∀ j, j ≠ c → j ≠ k → Processes pm' !! j = Processes pm !! j) ∧
      Processes pm' !! k = Some (p <| Children ::= delete i |>)
  | None => ∃ e, Wait k pm = ((0, 0, Some e), pm) ∧
      (err_is e = err_is ErrNoChild ↔ Children p = [])
  end.
Proof.
  intros Ht Hk. unfold Wait. rewrite Hk.
  pose proof (findZombie_find 0 (Children p) pm) as Hf.
  destruct (Z.eqb_spec (len (Children p)) 0) as [Hl|Hl].
  - assert (Hnil : Children p = []) by (destruct (Children p); [done|unfold len in Hl; simpl in Hl; lia]).
    rewrite Hnil. simpl. eexists. split; [reflexivity|]. done.
  - destruct (list_find (is_zombie pm) (Children p)) as [[i c]|].
    + destruct Hf as (q & -> & Hq & Hz & Hc).
      assert (Hck : c ≠ k).
      { intros ->. rewrite Hk in Hq. injection Hq as <-.
        rewrite (po_zombie _ _ _ _ (tr_procs pm Ht k p Hk) Hz) in Hc. done. }
      eexists q, _. split; [done|]. split; [reflexivity|]. simpl. split_and!.
      * by rewrite lookup_alter_ne, lookup_delete_eq by done.
      * intros j ??. by rewrite lookup_alter_ne, lookup_delete_ne by done.
      * by rewrite lookup_alter_eq, lookup_delete_ne, Hk by done.
    + rewrite Hf. eexists. split; [reflexivity|]. simpl. split; [done|].
      intros E. rewrite E in Hl. done.
Qed.

(** C37. Panics and results.  On a table that the operations have built, fork and
    exec of a zombie dereference a nil address space, and nothing else panics.
    Fork of a live process gives a fresh child that is registered with its
    parent, inherits descriptors and registers, and sees 0 in RAX where the
    parent sees the number of the child.  Wait returns the first zombie in the
    list of children with its exit code and removes just that process; without
    children it fails with ECHILD, without a zombie it reports that it would
    block, and both, like an unknown process, leave the table as it is. *)
Theorem lifecycle_calls k pm (Htree : tree pm) :
  (∀ o, pm_step o pm = None ↔
     ∃ j, is_zombie pm j ∧ (o = OpFork j ∨ ∃ b args, o = OpExec j b args)) ∧
  (∀ p, Processes pm !! k = Some p → ¬ zombie p → ∃ pm' child parent,
     Fork k pm = Some (Ok (NextPID pm), pm') ∧ Processes pm !! NextPID pm = None ∧
     Processes pm' = <[NextPID pm := child]> (<[k := parent]> (Processes pm)) ∧
     PPID child = k ∧ Children parent = Children p ++ [NextPID pm] ∧
     OpenFDs child = OpenFDs p ∧ URegisters child = URegisters p <| RAX := 0 |> ∧
     RAX (URegisters parent) = u64 (NextPID pm)) ∧
  match Processes pm !! k with
  | None => Wait k pm = ((0, 0, Some (Errorf_w ErrNoSuchProcess (": PID " +:+ fmt_d k))), pm)
  | Some p =>
      match list_find (is_zombie pm) (Children p) with
      | Some (i, c) => ∃ q pm', Processes pm !! c = Some q ∧
          Wait k pm = ((c, ExitCode q, None), pm') ∧ Processes pm' !! c = None ∧
          (∀ j, j ≠ c → j ≠ k → Processes pm' !! j = Processes pm !! j) ∧
          Processes pm' !! k = Some (p <| Children ::= delete i |>)
      | None => ∃ e, Wait k pm = ((0, 0, Some e), pm) ∧
          (err_is e = err_is ErrNoChild ↔ Children p = [])
      end
  end.
Proof.
  split; [intros o; by apply pm_step_panics|]. split.
  - intros p Hp Hz. pose proof (tr_procs pm Htree k p Hp) as Hok.
    destruct (po_state _ _ _ _ Hok) as [Hr|]; [|done].
    destruct (proj2 (Fork_ok k pm p Htree Hp) Hr)
      as (pm' & child & parent & Ef & Ht' & Eps & _ & E1 & _ & E2 & E3 & E4 & E5).
    exists pm', child, parent. split_and!; try done; [|by rewrite E5].
    apply eq_None_not_Some. intros [q Hq].
    destruct (po_pid _ _ _ _ (tr_procs pm Htree _ q Hq)). lia.
  - destruct (Processes pm !! k) as [p|] eqn:Hk; [by apply Wait_find|].
    unfold Wait. by rewrite Hk.
Qed.

Lemma lifecycle_calls_witness :
  ∃ pm, NewProcessManager = Some pm ∧ tree pm ∧
    ∃ pm', Fork 1 pm = Some (Ok 2, pm').
Proof.
  destruct tree_new as (pm & E & Ht). exists pm. split; [done|]. split; [done|].
  assert (Hk : ∃ p, Processes pm !! 1 = Some p ∧ ¬ zombie p ∧ NextPID pm = 2).
  { unfold NewProcessManager in E. simpl in E. injection E as <-. by eexists. }
  destruct Hk as (p & Hp & Hz & Hn).
  destruct (lifecycle_calls 1 pm Ht) as (_ & Hf & _).
  destruct (Hf p Hp Hz) as (pm' & _ & _ & Ef & _). rewrite Hn in Ef. eauto.
Defined.

(** ** Isolation *)

(** The address spaces of the processes of a table. *)
Definition physical (pm : ProcessManager) (k vAddr : Z) : option (result Z) :=
  p ← Processes pm !! k; as_ ← UAddressSpace p; Some (TranslateBaseAndBounds vAddr as_).

(** Size and place in physical memory. *)
Definition placed (pm : ProcessManager) (k : Z) : option (Z * Z) :=
  p ← Processes pm !! k; as_ ← UAddressSpace p; Some (TotalSize as_, PhysicalBase as_).

Lemma placed_physical pm k size base vAddr :
  placed pm k = Some (size, base) → vAddr < size →
  physical pm k vAddr = Some (Ok (u64 (base + vAddr))).
Proof.
  unfold placed, physical. destruct (Processes pm !! k) as [p|]; [|done]. simpl.
  destruct (UAddressSpace p) as [a|]; [|done]. simpl. intros [= <- <-] Hv.
  unfold TranslateBaseAndBounds. by destruct (Z.leb_spec (TotalSize a) vAddr); [lia|].
Qed.

(** The memory of forked processes overlaps.  A grandchild and a child of
    init, process 3 forked by process 2 and process 5 forked by init, are
    placed at the same physical base, so that every virtual address of the one
    is translated to the same physical address as in the other. *)
Theorem Fork_memory_overlaps :
  ∃ pm, NewProcessManager ≫= run pm_step [OpFork 1; OpFork 2; OpFork 1; OpFork 1] = Some pm ∧
    ∀ vAddr, 0 ≤ vAddr < 64 * 1024 → ∃ pAddr,
      physical pm 3 vAddr = Some (Ok pAddr) ∧ physical pm 5 vAddr = Some (Ok pAddr).
Proof.
  destruct (NewProcessManager ≫= run pm_step [OpFork 1; OpFork 2; OpFork 1; OpFork 1])
    as [pm|] eqn:E; [|vm_compute in E; done].
  assert (Hc : (λ pm, (placed pm 3, placed pm 5)) <$>
    (NewProcessManager ≫= run pm_step [OpFork 1; OpFork 2; OpFork 1; OpFork 1]) =
    Some (Some (0x10000, 0x150000), Some (0x10000, 0x150000))) by (vm_compute; reflexivity).
  rewrite E in Hc. injection Hc as H3 H5.
  exists pm. split; [done|]. intros vAddr Hv. exists (u64 (0x150000 + vAddr)).
  split; by apply (placed_physical _ _ 0x10000); [|lia].
Qed.
