(* ===== verification/Pipe.v ===== *)
(** * Pipes

    Models [UnixPipe] of [src/pkg/ipc/pipe.go] as a transition system over any
    number of threads.  A call holds the lock of the pipe except while it waits
    on a condition variable, so the part of a call up to its return or to a
    [Wait] is one step.  Bytes are integers. *)

From S2P Require Import Prelude Steps.

(** ** Condition variables of [sync]

    The threads that wait, and the threads that have been woken and have not
    run since. *)
Record Cond := mkCond { parked : gset nat; woken : gset nat }.
#[export] Instance eta_Cond : Eta Cond := λ c, mkCond (parked c) (woken c).

Definition NewCond : Cond := mkCond ∅ ∅.

Definition cond_Wait (t : nat) (c : Cond) : Cond := c <| parked ::= λ q, {[t]} ∪ q |>.

(** [Signal] wakes one waiting thread, any of them: [hint] if it waits. *)
Definition cond_Signal (hint : nat) (c : Cond) : Cond :=
  let go x := mkCond (parked c ∖ {[x]}) ({[x]} ∪ woken c) in
  if decide (hint ∈ parked c) then go hint
  else match elements (parked c) with x :: _ => go x | [] => c end.

Definition cond_Broadcast (c : Cond) : Cond := mkCond ∅ (parked c ∪ woken c).

(** A woken thread runs again. *)
Definition cond_Resume (t : nat) (c : Cond) : option Cond :=
  if decide (t ∈ woken c) then Some (c <| woken ::= λ q, q ∖ {[t]} |>) else None.

(** ** The pipe *)
Definition ErrPipeClosed : error :=
  errors_New "broken pipe (EPIPE): write to pipe with no readers (SIGPIPE)".

Record UnixPipe := mkPipe {
  Capacity : Z; Buffer : list Z; ReadClosed : bool; WriteClosed : bool;
  TotalWritten : Z; TotalRead : Z; notEmpty : Cond; notFull : Cond }.
#[export] Instance eta_UnixPipe : Eta UnixPipe := λ p,
  mkPipe (Capacity p) (Buffer p) (ReadClosed p) (WriteClosed p) (TotalWritten p) (TotalRead p)
    (notEmpty p) (notFull p).

Definition NewUnixPipe (capacity : Z) : UnixPipe :=
  let capacity := if capacity <=? 0 then 4096 else capacity in
  mkPipe capacity [] false false 0 0 NewCond NewCond.

(** What a stretch of [Write] ends with: the results, or a wait in the loop for
    the first of the bytes [rest]. *)
Inductive write_end :=
  | Wrote (written : Z) (err : option error)
  | WriteWait (rest : list Z) (written : Z).

Fixpoint writeLoop (t : nat) (hints : Z → nat) (data : list Z) (written : Z) (p : UnixPipe)
    : write_end * UnixPipe :=
  match data with
  | [] => (Wrote written None, p)
  | b :: rest =>
      if (Capacity p <=? len (Buffer p)) && negb (ReadClosed p)
      then (WriteWait data written, p <| notFull ::= cond_Wait t |>)
      else if ReadClosed p then (Wrote written (Some ErrPipeClosed), p)
      else writeLoop t hints rest (written + 1)
             (p <| Buffer ::= λ l, l ++ [b] |> <| TotalWritten ::= Z.succ |>
                <| notEmpty ::= cond_Signal (hints written) |>)
  end.

Definition Write_ (t : nat) (hints : Z → nat) (data : list Z) (p : UnixPipe)
    : write_end * UnixPipe :=
  if ReadClosed p then (Wrote 0 (Some ErrPipeClosed), p) else writeLoop t hints data 0 p.

(** [Read] into a slice of [n] bytes: the bytes read, or a wait. *)
Definition Read_ (t : nat) (hint : nat) (n : nat) (p : UnixPipe) : option (list Z) * UnixPipe :=
  if (len (Buffer p) =? 0) && negb (WriteClosed p) then (None, p <| notEmpty ::= cond_Wait t |>)
  else if (len (Buffer p) =? 0) && WriteClosed p then (Some [], p)
  else
    let toRead := Nat.min n (length (Buffer p)) in
    (Some (take toRead (Buffer p)),
     p <| Buffer ::= drop toRead |> <| TotalRead ::= Z.add (Z.of_nat toRead) |>
       <| notFull ::= cond_Signal hint |>).

Definition CloseWrite (p : UnixPipe) : UnixPipe :=
  p <| WriteClosed := true |> <| notEmpty ::= cond_Broadcast |>.
Definition CloseRead (p : UnixPipe) : UnixPipe :=
  p <| ReadClosed := true |> <| notFull ::= cond_Broadcast |>.

(** ** Threads *)
Inductive pipe_pc :=
  | PIdle
  | PWriting (rest : list Z) (written : Z)   (** at [notFull.Wait()] *)
  | PReading (n : nat).                      (** at [notEmpty.Wait()] *)

(** The pipe, the threads, and two histories: the bytes that writes have put in
    and the bytes that reads have returned. *)
Record world := mkWorld {
  pipe : UnixPipe; pipe_pcs : nat → pipe_pc; sent : list Z; received : list Z }.
#[export] Instance eta_world : Eta world := λ w,
  mkWorld (pipe w) (pipe_pcs w) (sent w) (received w).

Inductive pipe_act :=
  | AWrite (t : nat) (data : list Z) (hints : Z → nat)
  | ARead (t : nat) (n : nat) (hint : nat)
  | AResume (t : nat) (hints : Z → nat)
  | ACloseWrite
  | ACloseRead.

(** The bytes a write stretch has put in: what it was given without what it
    still holds. *)
Definition accepted (data : list Z) (written : Z) (e : write_end) : list Z :=
  match e with
  | Wrote n _ => take (Z.to_nat (n - written)) data
  | WriteWait _ n => take (Z.to_nat (n - written)) data
  end.

Definition after_write (t : nat) (data : list Z) (written : Z) (r : write_end * UnixPipe)
    (w : world) : world :=
  let '(e, p) := r in
  w <| pipe := p |> <| sent ::= λ s, s ++ accepted data written e |>
    <| pipe_pcs ::= <[t := match e with Wrote _ _ => PIdle | WriteWait rest n => PWriting rest n end]> |>.

Definition after_read (t : nat) (n : nat) (r : option (list Z) * UnixPipe) (w : world) : world :=
  let '(o, p) := r in
  w <| pipe := p |> <| received ::= λ s, s ++ default [] o |>
    <| pipe_pcs ::= <[t := match o with Some _ => PIdle | None => PReading n end]> |>.

Definition pipe_step (a : pipe_act) (w : world) : option world :=
  match a with
  | AWrite t data hints =>
      match pipe_pcs w t with
      | PIdle => Some (after_write t data 0 (Write_ t hints data (pipe w)) w)
      | _ => None
      end
  | ARead t n hint =>
      match pipe_pcs w t with
      | PIdle => Some (after_read t n (Read_ t hint n (pipe w)) w)
      | _ => None
      end
  | AResume t hints =>
      match pipe_pcs w t with
      | PIdle => None
      | PWriting rest written =>
          c ← cond_Resume t (notFull (pipe w));
          Some (after_write t rest written
                  (writeLoop t hints rest written (pipe w <| notFull := c |>)) w)
      | PReading n =>
          c ← cond_Resume t (notEmpty (pipe w));
          Some (after_read t n (Read_ t (hints 0) n (pipe w <| notEmpty := c |>)) w)
      end
  | ACloseWrite => Some (w <| pipe ::= CloseWrite |>)
  | ACloseRead => Some (w <| pipe ::= CloseRead |>)
  end.

Definition pipe_start (capacity : Z) : world :=
  mkWorld (NewUnixPipe capacity) (λ _, PIdle) [] [].

(** ** Waking threads *)

(** [c'] is [c] after [n] signals: as many threads woken, or all of them. *)
Record wakes (n : nat) (c c' : Cond) : Prop := mk_wakes {
  wk_all : parked c' ∪ woken c' = parked c ∪ woken c;
  wk_sub : parked c' ⊆ parked c;
  wk_disj : parked c ## woken c → parked c' ## woken c';
  wk_count : parked c ## woken c → parked c' = ∅ ∨ size (woken c') = (size (woken c) + n)%nat }.

Lemma wakes_refl c : wakes 0 c c.
Proof. split; [done|done|done|]. intros _. right. lia. Qed.

Lemma wakes_trans n m c c' c'' : wakes n c c' → wakes m c' c'' → wakes (n + m) c c''.
Proof.
  intros [A1 A2 A3 A4] [B1 B2 B3 B4]. split; [congruence|set_solver|auto|].
  intros Hd. destruct (B4 (A3 Hd)) as [|E2]; [auto|]. destruct (A4 Hd) as [E1|E1]; [|right; lia].
  left. set_solver.
Qed.

Lemma signal_wakes hint c : wakes 1 c (cond_Signal hint c).
Proof.
  assert (Hgo : ∀ x, x ∈ parked c → wakes 1 c (mkCond (parked c ∖ {[x]}) ({[x]} ∪ woken c))).
  { intros x Hx. split; simpl.
    - apply leibniz_equiv. intros y. destruct (decide (y = x)); set_solver.
    - set_solver.
    - set_solver.
    - intros Hd. right. rewrite size_union by set_solver. rewrite size_singleton. lia. }
  unfold cond_Signal. case_decide as Hh; [by apply Hgo|].
  destruct (elements (parked c)) as [|x l] eqn:E.
  - apply elements_empty_inv in E. split; [done|done|done|]. intros _. left.
    by apply leibniz_equiv.
  - apply Hgo, elem_of_elements. rewrite E. set_solver.
Qed.

(** A signal wakes somebody when somebody waits. *)
Lemma signal_nonempty hint c : parked c ≠ ∅ → woken (cond_Signal hint c) ≠ ∅.
Proof.
  intros Hp. unfold cond_Signal. case_decide; simpl; [set_solver|].
  destruct (elements (parked c)) eqn:E; simpl; [|set_solver].
  apply elements_empty_inv in E. set_solver.
Qed.

(** ** Stretches of calls *)

(** A stretch of [Write] that puts in the bytes [put] and keeps [rest]. *)
Record write_spec (t : nat) (data put rest : list Z) (written : Z) (p : UnixPipe) (e : write_end)
    (p' : UnixPipe) : Prop := mk_write_spec {
  ws_data : data = put ++ rest;
  ws_buffer : Buffer p' = Buffer p ++ put;
  ws_total : TotalWritten p' = TotalWritten p + len put;
  ws_same : (Capacity p', ReadClosed p', WriteClosed p', TotalRead p') =
            (Capacity p, ReadClosed p, WriteClosed p, TotalRead p);
  ws_cap : len (Buffer p) ≤ Capacity p → len (Buffer p') ≤ Capacity p;
  ws_wakes : wakes (length put) (notEmpty p) (notEmpty p');
  ws_end : match e with
    | Wrote n err => n = written + len put ∧ notFull p' = notFull p ∧
        match err with
        | None => rest = []
        | Some e => e = ErrPipeClosed ∧ ReadClosed p = true
        end
    | WriteWait r n => r = rest ∧ n = written + len put ∧ rest ≠ [] ∧ ReadClosed p = false ∧
        Capacity p ≤ len (Buffer p') ∧ notFull p' = cond_Wait t (notFull p)
    end }.

(** A stretch that puts nothing in. *)
Lemma write_stop t data written p e p' :
  p' = p ∨ p' = p <| notFull ::= cond_Wait t |> →
  match e with
  | Wrote n err => n = written ∧ p' = p ∧
      match err with
      | None => data = []
      | Some e => e = ErrPipeClosed ∧ ReadClosed p = true
      end
  | WriteWait r n => r = data ∧ n = written ∧ data ≠ [] ∧ ReadClosed p = false ∧
      Capacity p ≤ len (Buffer p) ∧ p' = p <| notFull ::= cond_Wait t |>
  end → write_spec t data [] data written p e p'.
Proof.
  intros Hp He. assert (E0 : len (@nil Z) = 0) by done.
  split; rewrite ?app_nil_r, ?E0; try (by destruct Hp as [->| ->]).
  - destruct Hp as [->| ->]; simpl; lia.
  - destruct Hp as [->| ->]; apply wakes_refl.
  - destruct e as [n err|r n].
    + destruct He as (-> & -> & ?). split_and!; [lia|done|done].
    + destruct He as (-> & -> & ? & ? & ? & ->). split_and!; try done. lia.
Qed.

Lemma writeLoop_spec t hints data written p :
  let '(e, p') := writeLoop t hints data written p in
  ∃ put rest, write_spec t data put rest written p e p'.
Proof.
  revert written p. induction data as [|b data IH]; intros written p; cbn [writeLoop].
  { eexists [], _. by apply write_stop; [left|]. }
  destruct ((Capacity p <=? len (Buffer p)) && negb (ReadClosed p)) eqn:Efull.
  { go_bool. eexists [], _. by apply write_stop; [right|]. }
  destruct (ReadClosed p) eqn:Er; [by eexists [], _; apply write_stop; [left|]|].
  rewrite andb_true_r in Efull. go_bool.
  set (p1 := p <| Buffer ::= λ l, l ++ [b] |> <| TotalWritten ::= Z.succ |>
               <| notEmpty ::= cond_Signal (hints written) |>).
  specialize (IH (written + 1) p1). destruct (writeLoop t hints data (written + 1) p1) as [e p'].
  destruct IH as (put & rest & [H1 H2 H3 H4 H5 H6 H7]). exists (b :: put), rest.
  assert (Hlen : len (b :: put) = len put + 1) by apply len_cons.
  split; simpl in *.
  - by rewrite H1.
  - rewrite H2. by rewrite <- app_assoc.
  - rewrite H3, Hlen. lia.
  - done.
  - intros _. apply H5. rewrite len_snoc. lia.
  - apply (wakes_trans 1 (length put)) with (c' := notEmpty p1); [apply signal_wakes|done].
  - rewrite Hlen. destruct e as [n err|r n].
    + destruct H7 as (? & ? & ?). split_and!; [lia|done|done].
    + destruct H7 as (? & ? & ? & ? & ? & ?). split_and!; try done; lia.
Qed.

Lemma Write_spec t hints data p :
  let '(e, p') := Write_ t hints data p in ∃ put rest, write_spec t data put rest 0 p e p'.
Proof.
  unfold Write_. destruct (ReadClosed p) eqn:Er; [|apply writeLoop_spec].
  eexists [], _. by apply write_stop; [left|].
Qed.

(** ** What goes in comes out *)
Record data_inv (capacity : Z) (w : world) : Prop := mk_data_inv {
  di_stream : sent w = received w ++ Buffer (pipe w);
  di_cap : Capacity (pipe w) = if capacity <=? 0 then 4096 else capacity;
  di_room : len (Buffer (pipe w)) ≤ Capacity (pipe w);
  di_written : TotalWritten (pipe w) = len (sent w);
  di_read : TotalRead (pipe w) = len (received w) }.

Lemma len_app {A} (l k : list A) : len (l ++ k) = len l + len k.
Proof. unfold len. rewrite length_app. lia. Qed.

Lemma accepted_spec t data put rest written p e p' :
  write_spec t data put rest written p e p' → accepted data written e = put.
Proof.
  intros [H1 _ _ _ _ _ H7]. assert (Hn : ∀ n, n = written + len put → take (Z.to_nat (n - written)) data = put).
  { intros n ->. replace (Z.to_nat (written + len put - written)) with (length put) by (unfold len; lia).
    by rewrite H1, take_app_length. }
  destruct e; simpl; apply Hn; tauto.
Qed.

Lemma data_write capacity w t data put rest written p e p' :
  data_inv capacity w → write_spec t data put rest written p e p' →
  (Capacity p, Buffer p, TotalWritten p, TotalRead p) =
    (Capacity (pipe w), Buffer (pipe w), TotalWritten (pipe w), TotalRead (pipe w)) →
  data_inv capacity (after_write t data written (e, p') w).
Proof.
  intros [D1 D2 D3 D4 D5] Hw [= E1 E2 E3 E4]. pose proof (accepted_spec _ _ _ _ _ _ _ _ Hw) as Ha.
  destruct Hw as [_ W2 W3 [= W4 W5 W6 W7] W8 _ _]. split; simpl; rewrite ?Ha.
  - rewrite W2, E2, D1. by rewrite app_assoc.
  - congruence.
  - rewrite W4. apply W8. by rewrite E1, E2.
  - rewrite W3, E3, D4, len_app. done.
  - congruence.
Qed.

Lemma data_read capacity w t hint n p :
  data_inv capacity w →
  (Capacity p, Buffer p, TotalWritten p, TotalRead p) =
    (Capacity (pipe w), Buffer (pipe w), TotalWritten (pipe w), TotalRead (pipe w)) →
  data_inv capacity (after_read t n (Read_ t hint n p) w).
Proof.
  intros [D1 D2 D3 D4 D5] [= E1 E2 E3 E4].
  assert (Hid : ∀ p', (Capacity p', Buffer p', TotalWritten p', TotalRead p') =
    (Capacity p, Buffer p, TotalWritten p, TotalRead p) →
    ∀ pc, data_inv capacity (w <| pipe := p' |> <| received ::= λ s, s ++ [] |>
                        <| pipe_pcs ::= <[t := pc]> |>)).
  { intros p' [= F1 F2 F3 F4] pc. split; simpl; rewrite ?app_nil_r; congruence. }
  unfold Read_. destruct (WriteClosed p) eqn:Ew; [rewrite andb_false_r, andb_true_r|rewrite andb_true_r].
  - destruct (len (Buffer p) =? 0); [by apply (Hid p)|].
    split; simpl; rewrite ?E1, ?E2; try congruence.
    + rewrite D1, <- app_assoc. by rewrite take_drop.
    + unfold len in *. rewrite length_drop. lia.
    + rewrite E4, D5, len_app. unfold len. rewrite length_take. lia.
  - destruct (Z.eqb_spec (len (Buffer p)) 0) as [E0|E0]; [by apply Hid|].
    split; simpl; rewrite ?E1, ?E2; try congruence.
    + rewrite D1, <- app_assoc. by rewrite take_drop.
    + unfold len in *. rewrite length_drop. lia.
    + rewrite E4, D5, len_app. unfold len. rewrite length_take. lia.
Qed.

Lemma resume_Some t c c' :
  cond_Resume t c = Some c' → t ∈ woken c ∧ c' = c <| woken ::= λ q, q ∖ {[t]} |>.
Proof. unfold cond_Resume. case_decide; naive_solver. Qed.

Lemma data_step capacity a w w' :
  data_inv capacity w → pipe_step a w = Some w' → data_inv capacity w'.
Proof.
  intros Hd Hs. destruct a as [t data hints|t n hint|t hints| |]; cbn [pipe_step] in Hs.
  - destruct (pipe_pcs w t); [|done..]. injection Hs as <-.
    pose proof (Write_spec t hints data (pipe w)) as Hw.
    destruct (Write_ t hints data (pipe w)) as [e p']. destruct Hw as (put & rest & Hw).
    by eapply data_write.
  - destruct (pipe_pcs w t); [|done..]. injection Hs as <-. by apply data_read.
  - destruct (pipe_pcs w t) as [|rest written|n]; [done|..];
      apply bind_Some in Hs as (c & _ & Hs%(inj Some)); subst w'; [|by apply data_read].
    pose proof (writeLoop_spec t hints rest written (pipe w <| notFull := c |>)) as Hw.
    destruct (writeLoop t hints rest written (pipe w <| notFull := c |>)) as [e p'].
    destruct Hw as (put & rest' & Hw). by eapply data_write.
  - injection Hs as <-. by destruct Hd.
  - injection Hs as <-. by destruct Hd.
Qed.

(** C10. A pipe is a bounded byte stream.  For any number of threads that write,
    read and close in any order: the bytes read so far, followed by the bytes in
    the buffer, are exactly the bytes written so far, in order; the buffer never
    exceeds the capacity (4096 when the requested one is not positive), and the
    totals count both streams.  A read into a non-empty slice returns nothing
    only at the end of the stream, when the buffer is empty and the write end is
    closed; a write fails only with EPIPE, when the read end is closed. *)
Theorem Pipe_fifo capacity w (Hreach : reachable pipe_step (pipe_start capacity) w) :
  sent w = received w ++ Buffer (pipe w) ∧
  len (Buffer (pipe w)) ≤ (if capacity <=? 0 then 4096 else capacity) ∧
  TotalWritten (pipe w) = len (sent w) ∧ TotalRead (pipe w) = len (received w) ∧
  (∀ t hint n p', (0 < n)%nat → Read_ t hint n (pipe w) = (Some [], p') →
     Buffer (pipe w) = [] ∧ WriteClosed (pipe w) = true) ∧
  (∀ t hints data n e p', Write_ t hints data (pipe w) = (Wrote n (Some e), p') →
     e = ErrPipeClosed ∧ ReadClosed (pipe w) = true).
Proof.
  assert (data_inv capacity w) as [D1 D2 D3 D4 D5].
  { eapply reachable_inv; [|apply data_step|exact Hreach].
    split; try done. simpl. change (len []) with 0. destruct (Z.leb_spec capacity 0); lia. }
  split_and!; [done|by rewrite <- D2|done|done| |].
  - intros t hint n p' Hn Hr. unfold Read_ in Hr.
    destruct (Buffer (pipe w)) as [|b l]; simpl in Hr.
    + by destruct (WriteClosed (pipe w)).
    + destruct n as [|n]; [lia|]. done.
  - intros t hints data n e p' Hw. pose proof (Write_spec t hints data (pipe w)) as Hs.
    rewrite Hw in Hs. destruct Hs as (put & rest & [_ _ _ _ _ _ H7]). simpl in H7. tauto.
Qed.

Definition pipe_demo : list pipe_act :=
  [ARead 1 4 0; AWrite 0 [104; 105; 33] (λ _, 1%nat); AResume 1 (λ _, 0%nat); AResume 0 (λ _, 1%nat);
   ACloseWrite].

Lemma Pipe_fifo_witness :
  ∃ w, run pipe_step pipe_demo (pipe_start 2) = Some w ∧ sent w = received w ++ Buffer (pipe w) ∧
    received w = [104; 105] ∧ Buffer (pipe w) = [33].
Proof.
  destruct (run pipe_step pipe_demo (pipe_start 2)) as [w|] eqn:E; [|vm_compute in E; done].
  exists w. split; [done|]. split.
  - eapply (Pipe_fifo 2 w). eapply run_reachable; [constructor|exact E].
  - vm_compute in E. injection E as <-. done.
Defined.

(** ** No wake-up is lost *)
Record cond_base (p : UnixPipe) : Prop := mk_cond_base {
  cb_cap : 0 < Capacity p;
  cb_disjE : parked (notEmpty p) ## woken (notEmpty p);
  cb_disjF : parked (notFull p) ## woken (notFull p);
  cb_wclosed : WriteClosed p = true → parked (notEmpty p) = ∅;
  cb_rclosed : ReadClosed p = true → parked (notFull p) = ∅ }.

(** While a reader is parked there are no more bytes than woken readers; while a
    writer is parked there is a byte to read or a woken writer. *)
Definition readers_served (slack : Z) (p : UnixPipe) : Prop :=
  parked (notEmpty p) ≠ ∅ → len (Buffer p) ≤ Z.of_nat (size (woken (notEmpty p))) + slack.
Definition writers_served (p : UnixPipe) : Prop :=
  parked (notFull p) ≠ ∅ → Buffer p ≠ [] ∨ woken (notFull p) ≠ ∅.

Lemma write_served t data put rest written p e p' :
  write_spec t data put rest written p e p' → cond_base p → readers_served 0 p →
  writers_served p ∨ data ≠ [] → t ∉ woken (notFull p) →
  cond_base p' ∧ readers_served 0 p' ∧ writers_served p'.
Proof.
  intros [W1 W2 W3 [= W4 W5 W6 W7] W8 [K1 K2 K3 K4] W9] [B1 B2 B3 B4 B5] HR HW Ht.
  assert (Hput : put ≠ [] → Buffer p' ≠ []) by (rewrite W2; by destruct put, (Buffer p)).
  split_and!.
  - split; [by rewrite W4|auto| | |].
    + destruct e as [n err|r n]; [destruct W9 as (_ & -> & _); done|].
      destruct W9 as (_ & _ & _ & _ & _ & ->). simpl. set_solver.
    + rewrite W6. intros Hc%B4. set_solver.
    + rewrite W5. intros Hc. specialize (B5 Hc). destruct e as [n err|r n].
      * by destruct W9 as (_ & -> & _).
      * destruct W9 as (_ & _ & _ & Hc' & _). congruence.
  - intros Hp. assert (Hp0 : parked (notEmpty p) ≠ ∅) by set_solver.
    destruct (K4 B2) as [|Hc]; [done|]. rewrite Hc, W2, len_app. specialize (HR Hp0).
    unfold len in *. lia.
  - destruct e as [n err|r n].
    + destruct W9 as (_ & EF & Herr). intros Hp. rewrite EF in *. destruct HW as [HW|Hd].
      * destruct (HW Hp) as [Hb|Hb]; [left|by right]. rewrite W2. by destruct (Buffer p).
      * left. destruct err as [er|]; [destruct Herr as [_ Hc%B5]; done|].
        apply Hput. intros ->. rewrite Herr in W1. done.
    + destruct W9 as (_ & _ & _ & _ & Hfull & _). intros _. left. intros E. rewrite E in Hfull.
      change (len []) with 0 in Hfull. lia.
Qed.

Lemma read_served t hint n p :
  cond_base p → readers_served 1 p → writers_served p → t ∉ woken (notEmpty p) → (0 < n)%nat →
  let '(_, p') := Read_ t hint n p in cond_base p' ∧ readers_served 0 p' ∧ writers_served p'.
Proof.
  intros [B1 B2 B3 B4 B5] HR HW Ht Hn. unfold Read_.
  destruct ((len (Buffer p) =? 0) && negb (WriteClosed p)) eqn:E1; go_bool.
  { split_and!; [split; simpl; try done; [set_solver|congruence]| |done].
    intros _. simpl. lia. }
  destruct ((len (Buffer p) =? 0) && WriteClosed p) eqn:E2; go_bool.
  { split_and!; [done| |done]. intros Hp. by destruct Hp, B4. }
  assert (Hb : 0 < len (Buffer p)).
  { destruct (Z.eqb_spec (len (Buffer p)) 0); [|unfold len in *; lia].
    by destruct (WriteClosed p). }
  destruct (signal_wakes hint (notFull p)) as [K1 K2 K3 K4].
  split_and!; [split; simpl; try done; [auto|]| |].
  - intros Hc%B5. set_solver.
  - intros Hp. simpl in *. specialize (HR Hp). unfold len in *. rewrite length_drop. lia.
  - intros Hp. right. simpl in *. apply signal_nonempty. set_solver.
Qed.

Definition is_writing (p : pipe_pc) : bool := match p with PWriting _ _ => true | _ => false end.
Definition is_reading (p : pipe_pc) : bool := match p with PReading _ => true | _ => false end.
(** A waiting call has something to do. *)
Definition has_work (p : pipe_pc) : Prop :=
  match p with PIdle => True | PWriting rest _ => rest ≠ [] | PReading n => (0 < n)%nat end.

Definition members (f : pipe_pc → bool) (c : Cond) (pcs : nat → pipe_pc) : Prop :=
  ∀ u, u ∈ parked c ∪ woken c ↔ f (pcs u) = true.

Lemma members_insert f c c' pcs t pc :
  members f c pcs → (∀ u, u ≠ t → u ∈ parked c' ∪ woken c' ↔ u ∈ parked c ∪ woken c) →
  (t ∈ parked c' ∪ woken c' ↔ f pc = true) → members f c' (<[t := pc]> pcs).
Proof.
  intros Hm Hne Ht u. rewrite pc_insert. case_decide; [by subst|]. rewrite Hne by done. apply Hm.
Qed.

Lemma members_same f c c' pcs t pc :
  members f c pcs → parked c' ∪ woken c' = parked c ∪ woken c → f (pcs t) = f pc →
  members f c' (<[t := pc]> pcs).
Proof.
  intros Hm Hc Hf. apply (members_insert f c); [done|by intros; rewrite Hc|].
  rewrite Hc, <- Hf. apply Hm.
Qed.

Record prog_inv (w : world) : Prop := mk_prog_inv {
  pi_base : cond_base (pipe w);
  pi_read : readers_served 0 (pipe w);
  pi_write : writers_served (pipe w);
  pi_readers : members is_reading (notEmpty (pipe w)) (pipe_pcs w);
  pi_writers : members is_writing (notFull (pipe w)) (pipe_pcs w);
  pi_work : ∀ t, has_work (pipe_pcs w t) }.

Lemma prog_after_write w t data put rest written p e p' :
  prog_inv w → is_reading (pipe_pcs w t) = false →
  write_spec t data put rest written p e p' →
  notEmpty p = notEmpty (pipe w) →
  (∀ u, u ≠ t → u ∈ parked (notFull p) ∪ woken (notFull p) ↔
                u ∈ parked (notFull (pipe w)) ∪ woken (notFull (pipe w))) →
  t ∉ parked (notFull p) ∪ woken (notFull p) →
  cond_base p' ∧ readers_served 0 p' ∧ writers_served p' →
  prog_inv (after_write t data written (e, p') w).
Proof.
  intros [I1 I2 I3 I4 I5 I6] Hr [W1 W2 W3 _ _ W8 W9] HE HF Ht (B1 & B2 & B3).
  split; simpl; try done.
  - apply (members_same _ (notEmpty (pipe w))); [done| |by destruct e; rewrite Hr].
    rewrite <- HE. apply W8.
  - apply (members_insert _ (notFull (pipe w))); [done| |]; destruct e as [n err|r n].
    + destruct W9 as (_ & -> & _). done.
    + destruct W9 as (_ & _ & _ & _ & _ & ->). simpl. intros u Hu. rewrite <- HF by done. set_solver.
    + destruct W9 as (_ & -> & _). simpl. done.
    + destruct W9 as (_ & _ & _ & _ & _ & ->). simpl. set_solver.
  - intros u. rewrite pc_insert. case_decide; [|apply I6].
    destruct e as [n err|r n]; [done|]. by destruct W9 as (-> & _ & ? & _).
Qed.

Lemma prog_after_read w t hint n p :
  prog_inv w → is_writing (pipe_pcs w t) = false → (0 < n)%nat →
  notFull p = notFull (pipe w) →
  (∀ u, u ≠ t → u ∈ parked (notEmpty p) ∪ woken (notEmpty p) ↔
                u ∈ parked (notEmpty (pipe w)) ∪ woken (notEmpty (pipe w))) →
  t ∉ parked (notEmpty p) ∪ woken (notEmpty p) →
  (let '(_, p') := Read_ t hint n p in cond_base p' ∧ readers_served 0 p' ∧ writers_served p') →
  prog_inv (after_read t n (Read_ t hint n p) w).
Proof.
  intros [I1 I2 I3 I4 I5 I6] Hw Hn HF HE Ht. unfold Read_.
  destruct ((len (Buffer p) =? 0) && negb (WriteClosed p)); [|destruct ((len (Buffer p) =? 0) && WriteClosed p)];
    intros (B1 & B2 & B3); split; simpl; try done.
  all: try (intros u; rewrite pc_insert; case_decide; [done|apply I6]).
  all: try (apply (members_same _ (notFull (pipe w))); [done| |by rewrite Hw]; rewrite <- HF; try done;
            apply signal_wakes).
  - apply (members_insert _ (notEmpty (pipe w))); [done| |]; simpl; [|set_solver].
    intros u Hu. rewrite <- HE by done. set_solver.
  - by apply (members_insert _ (notEmpty (pipe w))).
  - by apply (members_insert _ (notEmpty (pipe w))).
Qed.

(** Executions in which no read asks for zero bytes. *)
Definition pipe_step_ne (a : pipe_act) (w : world) : option world :=
  match a with ARead _ O _ => None | _ => pipe_step a w end.

(** The condition variable while a woken thread runs. *)
Lemma resume_facts t c c' :
  cond_Resume t c = Some c' → parked c ## woken c →
  parked c' = parked c ∧ parked c' ## woken c' ∧ (t ∉ parked c' ∪ woken c') ∧
  size (woken c) = S (size (woken c')) ∧
  ∀ u, u ≠ t → u ∈ parked c' ∪ woken c' ↔ u ∈ parked c ∪ woken c.
Proof.
  intros [Ht ->]%resume_Some Hd. simpl. split_and!; [done|set_solver|set_solver| |set_solver].
  assert (E : woken c = {[t]} ∪ woken c ∖ {[t]}) by (apply union_difference_L; set_solver).
  rewrite E at 1. rewrite size_union by set_solver. rewrite size_singleton. lia.
Qed.

Lemma prog_step a w w' : prog_inv w → pipe_step_ne a w = Some w' → prog_inv w'.
Proof.
  intros Hi Hs. pose proof Hi as [[B1 B2 B3 B4 B5] I2 I3 I4 I5 I6].
  destruct a as [t data hints|t n hint|t hints| |]; cbn [pipe_step_ne pipe_step] in Hs.
  - destruct (pipe_pcs w t) eqn:Ep; [|done..]. apply (inj Some) in Hs as <-.
    assert (Ht : t ∉ parked (notFull (pipe w)) ∪ woken (notFull (pipe w))) by (rewrite (I5 t), Ep; done).
    pose proof (Write_spec t hints data (pipe w)) as Hw.
    destruct (Write_ t hints data (pipe w)) as [e p']. destruct Hw as (put & rest & Hw).
    eapply prog_after_write; [done|by rewrite Ep|exact Hw|done|done|done|].
    eapply write_served; [exact Hw|done|done|by left|set_solver].
  - destruct n as [|n]; [done|]. destruct (pipe_pcs w t) eqn:Ep; [|done..].
    apply (inj Some) in Hs as <-.
    assert (Ht : t ∉ parked (notEmpty (pipe w)) ∪ woken (notEmpty (pipe w))) by (rewrite (I4 t), Ep; done).
    apply prog_after_read; [done|by rewrite Ep|lia|done|done|done|].
    apply read_served; [done| |done|set_solver|lia]. intros Hp. specialize (I2 Hp). lia.
  - pose proof (I6 t) as Hwork. destruct (pipe_pcs w t) as [|rest written|n] eqn:Ep; [done|..];
      apply bind_Some in Hs as (c & Hc & Hs%(inj Some)); subst w'.
    + destruct (resume_facts _ _ _ Hc B3) as (F1 & F2 & F3 & F4 & F5).
      pose proof (writeLoop_spec t hints rest written (pipe w <| notFull := c |>)) as Hw.
      destruct (writeLoop t hints rest written (pipe w <| notFull := c |>)) as [e p'].
      destruct Hw as (put & rest' & Hw).
      eapply prog_after_write; [done|by rewrite Ep|exact Hw|done|done|done|].
      eapply write_served; [exact Hw| |done|by right|simpl; set_solver].
      split; simpl; try done. by rewrite F1.
    + destruct (resume_facts _ _ _ Hc B2) as (F1 & F2 & F3 & F4 & F5).
      apply prog_after_read; [done|by rewrite Ep|done|done|done|done|].
      apply read_served; [| |done|simpl; set_solver|done].
      * split; simpl; try done. by rewrite F1.
      * unfold readers_served in *. simpl. rewrite F1. intros Hp. specialize (I2 Hp). lia.
  - apply (inj Some) in Hs as <-. split; [split; simpl; try done; set_solver|by intros []|done| |done|done].
    intros u. simpl. rewrite <- (I4 u). set_solver.
  - apply (inj Some) in Hs as <-. split; [split; simpl; try done; set_solver|done|by intros []|done| |done].
    intros u. simpl. rewrite <- (I5 u). set_solver.
Qed.

(** A thread that the scheduler may run again. *)
Definition can_resume (w : world) (t : nat) : Prop := ∀ hints, is_Some (pipe_step (AResume t hints) w).

(** C11. No wake-up is lost on a pipe, with any number of readers (of at least
    one byte) and writers: a reader stays parked only while the buffer is empty
    and the write end open, unless a woken reader is about to run; a writer
    stays parked only while the read end is open and there are bytes to read,
    unless a woken writer is about to run.  Readers and writers are therefore
    never parked at the same time without a thread that can continue. *)
Theorem Pipe_no_lost_wakeup capacity w t
    (Hreach : reachable pipe_step_ne (pipe_start capacity) w) :
  (t ∈ parked (notEmpty (pipe w)) →
     (Buffer (pipe w) = [] ∧ WriteClosed (pipe w) = false) ∨
     ∃ u, is_reading (pipe_pcs w u) = true ∧ can_resume w u) ∧
  (t ∈ parked (notFull (pipe w)) →
     ReadClosed (pipe w) = false ∧
     (Buffer (pipe w) ≠ [] ∨ ∃ u, is_writing (pipe_pcs w u) = true ∧ can_resume w u)).
Proof.
  assert (prog_inv w) as [[B1 B2 B3 B4 B5] I2 I3 I4 I5 I6].
  { eapply reachable_inv; [|apply prog_step|exact Hreach].
    split; simpl; try done; try (by intros u; simpl; set_solver).
    split; simpl; try done. destruct (Z.leb_spec capacity 0); lia. }
  assert (Hrun : ∀ u, (u ∈ woken (notEmpty (pipe w)) → is_reading (pipe_pcs w u) = true ∧ can_resume w u) ∧
    (u ∈ woken (notFull (pipe w)) → is_writing (pipe_pcs w u) = true ∧ can_resume w u)).
  { intros u. split; intros Hu.
    - assert (Hp : is_reading (pipe_pcs w u) = true) by (apply I4; set_solver). split; [done|].
      intros hints. cbn [pipe_step]. destruct (pipe_pcs w u); [done..|].
      unfold cond_Resume. rewrite decide_True by done. eauto.
    - assert (Hp : is_writing (pipe_pcs w u) = true) by (apply I5; set_solver). split; [done|].
      intros hints. cbn [pipe_step]. destruct (pipe_pcs w u); [done| |done].
      unfold cond_Resume. rewrite decide_True by done. eauto. }
  split.
  - intros Ht. destruct (set_choose_or_empty (woken (notEmpty (pipe w)))) as [[u Hu]|He].
    { right. exists u. by apply (Hrun u). }
    left. apply leibniz_equiv in He. assert (Hne : parked (notEmpty (pipe w)) ≠ ∅) by set_solver.
    specialize (I2 Hne). rewrite He, size_empty in I2. split.
    + destruct (Buffer (pipe w)); [done|]. unfold len in I2. simpl in I2. lia.
    + destruct (WriteClosed (pipe w)); [|done]. by rewrite B4 in Hne.
  - intros Ht. assert (Hne : parked (notFull (pipe w)) ≠ ∅) by set_solver. split.
    + destruct (ReadClosed (pipe w)); [|done]. by rewrite B5 in Hne.
    + destruct (I3 Hne) as [|Hw]; [by left|right]. apply set_choose_L in Hw as [u Hu].
      exists u. by apply (Hrun u).
Qed.

Lemma Pipe_no_lost_wakeup_witness :
  ∃ w, run pipe_step_ne [AWrite 0 [1; 2; 3] (λ _, 0%nat)] (pipe_start 2) = Some w ∧
    ReadClosed (pipe w) = false.
Proof.
  destruct (run pipe_step_ne [AWrite 0 [1; 2; 3] (λ _, 0%nat)] (pipe_start 2)) as [w|] eqn:E;
    [|vm_compute in E; done].
  exists w. split; [done|]. apply (Pipe_no_lost_wakeup 2 w 0).
  - eapply run_reachable; [constructor|exact E].
  - vm_compute in E. injection E as <-. by vm_compute.
Defined.
