(* ===== verification/Ipc.v ===== *)
(** * Message queues and shared memory

    Models [src/pkg/ipc/message_queue.go] and [src/pkg/ipc/shared_memory.go].
    Every operation holds the lock of its object (for the contents of a
    segment, its binary semaphore, see [Semaphores]) from beginning to end, so
    an operation is one function of the state. *)

From S2P Require Import Prelude Paging Semaphores Steps.

(** ** Message queues *)
Definition ErrQueueFull : error := errors_New "message queue full".
Definition ErrQueueEmpty : error := errors_New "no message of requested type".

Record IPCMessage := mkMessage { MsgType : Z; SenderPID : Z; Payload : string }.

Record MessageQueue := mkMQ { QueueID : Z; MqCapacity : Z; Messages : list IPCMessage }.
#[export] Instance eta_MessageQueue : Eta MessageQueue := λ q,
  mkMQ (QueueID q) (MqCapacity q) (Messages q).

Definition NewMessageQueue (qid capacity : Z) : MessageQueue :=
  let capacity := if capacity <=? 0 then 10 else capacity in
  mkMQ qid capacity [].

Definition Send (msg : IPCMessage) (mq : MessageQueue) : option error * MessageQueue :=
  if MqCapacity mq <=? len (Messages mq) then (Some ErrQueueFull, mq)
  else (None, mq <| Messages ::= λ l, l ++ [msg] |>).

(** The loop of [Receive]: index and content of the first match. *)
Fixpoint findMessage (i : nat) (targetType : Z) (msgs : list IPCMessage)
    : option (nat * IPCMessage) :=
  match msgs with
  | [] => None
  | msg :: msgs =>
      if (targetType =? 0) || (MsgType msg =? targetType) then Some (i, msg)
      else findMessage (S i) targetType msgs
  end.

Definition Receive (targetType : Z) (mq : MessageQueue) : result IPCMessage * MessageQueue :=
  match findMessage 0 targetType (Messages mq) with
  | Some (i, msg) => (Ok msg, mq <| Messages ::= delete i |>)
  | None => (Err ErrQueueEmpty, mq)
  end.

(** A queue in use, with the messages accepted and handed out so far. *)
Inductive mq_op := OpSend (msg : IPCMessage) | OpReceive (targetType : Z).

Record mq_world := mkMQW { queue : MessageQueue; accepted_ : list IPCMessage; handed : list IPCMessage }.

Definition mq_step (o : mq_op) (w : mq_world) : option mq_world :=
  match o with
  | OpSend msg =>
      let '(err, q) := Send msg (queue w) in
      Some (mkMQW q (accepted_ w ++ match err with None => [msg] | Some _ => [] end) (handed w))
  | OpReceive t =>
      let '(r, q) := Receive t (queue w) in
      Some (mkMQW q (accepted_ w) (handed w ++ match r with Ok msg => [msg] | Err _ => [] end))
  end.

Definition of_type (t : Z) (l : list IPCMessage) : list IPCMessage := filter (λ m, MsgType m = t) l.

Lemma of_type_app t l k : of_type t (l ++ k) = of_type t l ++ of_type t k.
Proof. apply filter_app. Qed.

Lemma findMessage_spec i t msgs :
  match findMessage i t msgs with
  | Some (j, msg) => ∃ before after, msgs = before ++ msg :: after ∧ j = (i + length before)%nat ∧
      (t = 0 → before = []) ∧ Forall (λ m, MsgType m ≠ t) before ∧ (t = 0 ∨ MsgType msg = t)
  | None => (t = 0 → msgs = []) ∧ Forall (λ m, MsgType m ≠ t) msgs
  end.
Proof.
  revert i. induction msgs as [|m msgs IH]; intros i; simpl; [done|].
  destruct ((t =? 0) || (MsgType m =? t)) eqn:E.
  - exists [], msgs. apply orb_true_iff in E. rewrite !Z.eqb_eq in E.
    split_and!; try done; simpl; lia.
  - go_bool. specialize (IH (S i)). destruct (findMessage (S i) t msgs) as [[j msg]|].
    + destruct IH as (before & after & -> & -> & _ & Hf & Hm). exists (m :: before), after.
      split_and!; [done|simpl; lia|done|by constructor|done].
    + destruct IH as [_ Hf]. split; [done|by constructor].
Qed.

Lemma Receive_spec t mq :
  match Receive t mq with
  | (Ok msg, mq') => ∃ before after, Messages mq = before ++ msg :: after ∧
      Messages mq' = before ++ after ∧ MqCapacity mq' = MqCapacity mq ∧
      (t = 0 → before = []) ∧ Forall (λ m, MsgType m ≠ MsgType msg) before ∧
      (t = 0 ∨ MsgType msg = t)
  | (Err e, mq') => e = ErrQueueEmpty ∧ mq' = mq ∧ Forall (λ m, MsgType m ≠ t) (Messages mq) ∧
      (t = 0 → Messages mq = [])
  end.
Proof.
  unfold Receive. pose proof (findMessage_spec 0 t (Messages mq)) as Hf.
  destruct (findMessage 0 t (Messages mq)) as [[j msg]|]; [|by destruct Hf].
  destruct Hf as (before & after & E & -> & H0 & Hb & Hm). exists before, after. simpl. rewrite E.
  split_and!; [done| |done|done| |done].
  - apply delete_middle.
  - destruct Hm as [->| ->]; [rewrite H0 by done; constructor|done].
Qed.

Record mq_inv (capacity : Z) (w : mq_world) : Prop := mk_mq_inv {
  mi_types : ∀ t, of_type t (accepted_ w) = of_type t (handed w) ++ of_type t (Messages (queue w));
  mi_room : len (Messages (queue w)) ≤ MqCapacity (queue w);
  mi_cap : MqCapacity (queue w) = if capacity <=? 0 then 10 else capacity }.

Lemma mq_step_inv capacity o s s' : mq_inv capacity s → mq_step o s = Some s' → mq_inv capacity s'.
Proof.
  intros [I1 I2 I3] Hs. destruct o as [msg|t]; simpl in Hs.
  - unfold Send in Hs. destruct (Z.leb_spec (MqCapacity (queue s)) (len (Messages (queue s))));
      injection Hs as <-; split; simpl; rewrite ?app_nil_r; try done.
    + intros t. by rewrite !of_type_app, I1, app_assoc.
    + rewrite len_snoc. lia.
  - pose proof (Receive_spec t (queue s)) as Hr.
    destruct (Receive t (queue s)) as [[msg|e] q]; injection Hs as <-.
    + destruct Hr as (before & after & E & E' & Ec & _ & Hb & _). rewrite E in I1, I2.
      split; simpl; rewrite ?Ec, ?E'; [|unfold len in *; rewrite length_app in *; simpl in *; lia|done].
      intros t'. rewrite I1, !of_type_app, <- app_assoc. f_equal.
      unfold of_type. rewrite !filter_cons, filter_nil. case_decide as Et; [|done].
      rewrite (filter_none _ before); [done|]. rewrite Forall_forall in Hb. intros m Hm E0.
      apply (Hb m Hm). congruence.
    + destruct Hr as (_ & -> & _). split; simpl; rewrite ?app_nil_r; done.
Qed.

(** A message queue is a family of FIFO queues, one per message type.  After
    any sequence of sends and receives, for every type the messages of that type
    accepted so far are, in order, those handed out so far followed by those
    still queued, whether they were asked for by type or taken from the front
    with type 0; the capacity is never exceeded; a send fails exactly when the
    queue is full, and a receive exactly when there is nothing to return. *)
Theorem MessageQueue_fifo qid capacity w
    (Hreach : reachable mq_step (mkMQW (NewMessageQueue qid capacity) [] []) w) :
  (∀ t, of_type t (accepted_ w) = of_type t (handed w) ++ of_type t (Messages (queue w))) ∧
  len (Messages (queue w)) ≤ (if capacity <=? 0 then 10 else capacity) ∧
  (∀ msg, is_Some (Send msg (queue w)).1 ↔
     len (Messages (queue w)) = (if capacity <=? 0 then 10 else capacity)) ∧
  (∀ t, is_ok (Receive t (queue w)).1 = false ↔
     if t =? 0 then Messages (queue w) = [] else of_type t (Messages (queue w)) = []).
Proof.
  assert (mq_inv capacity w) as [H1 H2 H3].
  { eapply reachable_inv; [|apply mq_step_inv|exact Hreach]. split; [done| |done].
    simpl. change (len []) with 0. destruct (Z.leb_spec capacity 0); lia. }
  rewrite <- H3. split_and!; [done|done| |].
  - intros msg. unfold Send. destruct (Z.leb_spec (MqCapacity (queue w)) (len (Messages (queue w)))); simpl.
    + split; [lia|eauto].
    + split; [by intros [? [=]]|lia].
  - intros t. pose proof (Receive_spec t (queue w)) as Hr.
    destruct (Receive t (queue w)) as [[msg|e] q]; simpl.
    + split; [done|]. destruct Hr as (before & after & -> & _ & _ & _ & _ & Hm).
      destruct (Z.eqb_spec t 0); [by destruct before|]. destruct Hm as [|<-]; [done|].
      unfold of_type. rewrite filter_app, filter_cons, decide_True by done. by destruct (filter _ before).
    + split; [|done]. intros _. destruct Hr as (_ & _ & Hf & H0). destruct (Z.eqb_spec t 0); [auto|].
      apply filter_none. by rewrite Forall_forall in Hf.
Qed.

Lemma MessageQueue_fifo_witness :
  let ops := [OpSend (mkMessage 1 10 "a"); OpSend (mkMessage 2 10 "b");
              OpSend (mkMessage 1 11 "c"); OpReceive 2; OpReceive 0] in
  ∃ w, run mq_step ops (mkMQW (NewMessageQueue 1 2) [] []) = Some w ∧
    of_type 1 (accepted_ w) = of_type 1 (handed w) ++ of_type 1 (Messages (queue w)).
Proof.
  intros ops. eexists. split; [reflexivity|].
  apply (MessageQueue_fifo 1 2). eapply (run_reachable _ _ ops); [constructor|reflexivity].
Defined.

(** ** Shared memory

    A page table is a location of a heap of page tables, since attaching a
    segment modifies the table of the caller. *)
Record SharedMemorySegment := mkShm {
  ShmID : Z; PhysicalPFN : Z; SizeBytes : Z; PhysicalData : list Z; ShmSemaphore : Semaphore }.
#[export] Instance eta_SharedMemorySegment : Eta SharedMemorySegment := λ s,
  mkShm (ShmID s) (PhysicalPFN s) (SizeBytes s) (PhysicalData s) (ShmSemaphore s).

Record ProcessMapping := mkMapping { MapPID : Z; VirtualAddress : Z; MapPageTable : nat }.

Record SharedMemoryManager := mkSMM {
  ShmSegments : gmap Z SharedMemorySegment; Mappings : gmap Z (list ProcessMapping); NextShmID : Z }.
#[export] Instance eta_SharedMemoryManager : Eta SharedMemoryManager := λ m,
  mkSMM (ShmSegments m) (Mappings m) (NextShmID m).

Definition NewSharedMemoryManager : SharedMemoryManager := mkSMM ∅ ∅ 1.

(** [make] panics on a negative size. *)
Definition CreateSegment (sizeBytes : Z) (smm : SharedMemoryManager)
    : option (Z * SharedMemoryManager) :=
  let shmID := NextShmID smm in
  if sizeBytes <? 0 then None else
  let seg := mkShm shmID (u64 (500 + shmID)) sizeBytes (replicate (Z.to_nat sizeBytes) 0)
               (NewSemaphore 1) in
  Some (shmID, smm <| NextShmID ::= Z.succ |> <| ShmSegments ::= <[shmID := seg]> |>
                   <| Mappings ::= <[shmID := []]> |>).

(** A page size of 0 is a division by zero. *)
Definition Attach (shmID pid vAddr : Z) (pt : nat) (pts : nat → PageTable)
    (smm : SharedMemoryManager) : option (option error * (nat → PageTable) * SharedMemoryManager) :=
  match ShmSegments smm !! shmID with
  | None => Some (Some (Errorf ("shmat: invalid shmid " +:+ fmt_d shmID)), pts, smm)
  | Some seg =>
      if PageSize (pts pt) =? 0 then None else
      let vpn := vAddr / PageSize (pts pt) in
      table ← MapPage vpn (PhysicalPFN seg) true (pts pt);
      let maps := default [] (Mappings smm !! shmID) in
      Some (None, <[pt := table]> pts,
            smm <| Mappings ::= <[shmID := maps ++ [mkMapping pid vAddr pt]]> |>)
  end.

(** [copy(dst, src)] *)
Definition copyBytes (dst src : list Z) : list Z :=
  take (length dst) src ++ drop (length src) dst.

Definition WriteSync (data : list Z) (seg : SharedMemorySegment) : SharedMemorySegment :=
  seg <| PhysicalData ::= λ d, copyBytes d data |>.
Definition ReadSync (seg : SharedMemorySegment) : list Z := PhysicalData seg.

(** What one process writes another reads: the data, as far as the segment
    reaches, followed by what was there before. *)
Lemma ReadSync_WriteSync data seg :
  ReadSync (WriteSync data seg) =
    take (length (PhysicalData seg)) data ++ drop (length data) (PhysicalData seg) ∧
  length (PhysicalData (WriteSync data seg)) = length (PhysicalData seg).
Proof.
  split; [done|]. simpl. unfold copyBytes. rewrite length_app, length_take, length_drop. lia.
Qed.

(** A successful translation through a mapped page. *)
Lemma Translate_mapped pt vAddr isWrite pfn :
  wf_pt pt → is_u64 vAddr → 0 ≤ vAddr / PageSize pt < len (Entries pt) →
  let pt' := pt <| Entries ::= upd_idx (λ _, mappedPTE pfn true) (vAddr / PageSize pt) |> in
  ∃ o pt'', Translate vAddr isWrite pt' =
    Some (u64 (pfn * PageSize pt + vAddr mod PageSize pt), o, None, pt'').
Proof.
  intros Hwf Hv Hr pt'. assert (Hwf' : wf_pt pt').
  { destruct Hwf. split; [done|]. simpl. by rewrite len_upd_idx. }
  assert (He : idx (Entries pt') (vAddr / PageSize pt') = Some (mappedPTE pfn true)).
  { simpl. rewrite idx_upd_eq by lia. destruct (proj2 (idx_lt (Entries pt) (vAddr / PageSize pt)) Hr) as [e ->].
    done. }
  destruct (Translate_entry pt' vAddr isWrite _ Hwf' Hv He) as (pAddr & o & err & H).
  unfold entry_result in H. simpl in H. rewrite andb_false_r in H. simpl in H.
  destruct H as (-> & -> & -> & ->). eauto.
Qed.

Lemma page_offset vAddr off size :
  0 < size → vAddr mod size = 0 → 0 ≤ off < size →
  (vAddr + off) / size = vAddr / size ∧ (vAddr + off) mod size = off.
Proof.
  intros Hs Hm Ho. pose proof (Z.div_mod vAddr size ltac:(lia)) as E.
  set (q := vAddr / size) in *. split; symmetry.
  - apply (Z.div_unique_pos _ _ q off); lia.
  - apply (Z.mod_unique_pos _ _ q off); lia.
Qed.

(** The page table [pt] with the frame of the segment at [vAddr]. *)
Definition attached (pt : PageTable) (vAddr : Z) (seg : SharedMemorySegment) : PageTable :=
  pt <| Entries ::= upd_idx (λ _, mappedPTE (PhysicalPFN seg) true) (vAddr / PageSize pt) |>.

Lemma attached_Translate pt vAddr off isWrite seg :
  wf_pt pt → vAddr mod PageSize pt = 0 → 0 ≤ vAddr → 0 ≤ off < PageSize pt →
  is_u64 (vAddr + off) → vAddr / PageSize pt < len (Entries pt) →
  ∃ o pt', Translate (vAddr + off) isWrite (attached pt vAddr seg) =
    Some (u64 (PhysicalPFN seg * PageSize pt + off), o, None, pt').
Proof.
  intros Hwf Hal Hv Ho Hu Hin. pose proof Hwf as [Hp _].
  destruct (page_offset vAddr off (PageSize pt)) as [D M]; [lia..|].
  destruct (Translate_mapped pt (vAddr + off) isWrite (PhysicalPFN seg)) as (o & pt' & E);
    [done|done|rewrite D; split; [apply Z.div_pos; lia|done]|].
  rewrite D, M in E. eauto.
Qed.

Lemma Attach_ok shmID pid vAddr pt pts smm seg :
  ShmSegments smm !! shmID = Some seg → wf_pt (pts pt) →
  0 ≤ vAddr / PageSize (pts pt) < len (Entries (pts pt)) →
  ∃ smm', Attach shmID pid vAddr pt pts smm = Some (None, <[pt := attached (pts pt) vAddr seg]> pts, smm') ∧
    ShmSegments smm' = ShmSegments smm.
Proof.
  intros Hs [Hp Hl] Hr. unfold Attach. rewrite Hs. destruct (Z.eqb_spec (PageSize (pts pt)) 0); [lia|].
  rewrite MapPage_spec by lia. simpl. eauto.
Qed.

(** C38. Shared memory is shared.  Attaching a segment at page-aligned addresses
    within the tables of two processes succeeds, and from then on the same
    offset into the page denotes the same byte of physical memory in both
    address spaces, for reading and for writing.  An attach beyond the end of
    the page table also reports success, but maps nothing. *)
Theorem Attach_shares_frame smm shmID seg pts pt1 pt2 pid1 pid2 v1 v2
    (Hseg : ShmSegments smm !! shmID = Some seg) (Hne : pt1 ≠ pt2)
    (Hwf1 : wf_pt (pts pt1)) (Hwf2 : wf_pt (pts pt2))
    (Hsize : PageSize (pts pt1) = PageSize (pts pt2))
    (Hal1 : v1 mod PageSize (pts pt1) = 0) (Hal2 : v2 mod PageSize (pts pt2) = 0)
    (Hv1 : 0 ≤ v1) (Hv2 : 0 ≤ v2)
    (Hin1 : v1 / PageSize (pts pt1) < len (Entries (pts pt1)))
    (Hin2 : v2 / PageSize (pts pt2) < len (Entries (pts pt2))) :
  (∃ smm1 smm2 pts1 pts2,
     Attach shmID pid1 v1 pt1 pts smm = Some (None, pts1, smm1) ∧
     Attach shmID pid2 v2 pt2 pts1 smm1 = Some (None, pts2, smm2) ∧
     ∀ off w1 w2, 0 ≤ off < PageSize (pts pt1) → is_u64 (v1 + off) → is_u64 (v2 + off) →
       ∃ pAddr o1 o2 t1 t2,
         Translate (v1 + off) w1 (pts2 pt1) = Some (pAddr, o1, None, t1) ∧
         Translate (v2 + off) w2 (pts2 pt2) = Some (pAddr, o2, None, t2) ∧
         pAddr = u64 (PhysicalPFN seg * PageSize (pts pt1) + off)) ∧
  ∀ v, v < 2 ^ 63 → len (Entries (pts pt1)) ≤ v / PageSize (pts pt1) →
    ∃ smm', Attach shmID pid1 v pt1 pts smm = Some (None, <[pt1 := pts pt1]> pts, smm').
Proof.
  pose proof Hwf1 as [Hp1 Hl1]. pose proof Hwf2 as [Hp2 Hl2]. split.
  - destruct (Attach_ok shmID pid1 v1 pt1 pts smm seg) as (smm1 & E1 & Es1);
      [done|done|split; [apply Z.div_pos; lia|done]|].
    set (pts1 := <[pt1 := attached (pts pt1) v1 seg]> pts) in *.
    assert (E12 : pts1 pt2 = pts pt2) by (unfold pts1; by rewrite fn_lookup_insert_ne).
    destruct (Attach_ok shmID pid2 v2 pt2 pts1 smm1 seg) as (smm2 & E2 & Es2);
      [by rewrite Es1|by rewrite E12|rewrite E12; split; [apply Z.div_pos; lia|done]|].
    eexists smm1, smm2, _, _. split; [exact E1|]. split; [exact E2|]. intros off w1 w2 Ho Hu1 Hu2.
    rewrite fn_lookup_insert, fn_lookup_insert_ne by done. rewrite E12. unfold pts1.
    rewrite fn_lookup_insert.
    destruct (attached_Translate (pts pt1) v1 off w1 seg) as (o1 & t1 & ->); [done..|].
    destruct (attached_Translate (pts pt2) v2 off w2 seg) as (o2 & t2 & ->);
      [done|done|done|by rewrite <- Hsize|done|done|].
    rewrite <- Hsize. eauto 10.
  - intros v Hv Hout. unfold Attach. rewrite Hseg.
    destruct (Z.eqb_spec (PageSize (pts pt1)) 0); [lia|]. unfold MapPage.
    assert (0 ≤ len (Entries (pts pt1))) by (unfold len; lia).
    assert (0 ≤ v).
    { destruct (Z.lt_ge_cases v 0); [|done].
      assert (v / PageSize (pts pt1) < 0) by (apply Z.div_lt_upper_bound; lia). lia. }
    assert (v / PageSize (pts pt1) ≤ v) by (apply Z.div_le_upper_bound; nia).
    rewrite i64_small by lia. destruct (Z.ltb_spec (v / PageSize (pts pt1)) (len (Entries (pts pt1)))); [lia|].
    simpl. eauto.
Qed.

Definition shm_tables : nat → PageTable :=
  λ l, mkPageTable (Z.of_nat l) 4096 (replicate 16 zeroPTE) 16.

Lemma Attach_shares_frame_witness :
  ∃ smm pts1 smm1, CreateSegment 64 NewSharedMemoryManager = Some (1, smm) ∧
    Attach 1 10 0x2000 0 shm_tables smm = Some (None, pts1, smm1).
Proof.
  eexists. assert (Hwf : ∀ l, wf_pt (shm_tables l)) by (intros l; split; simpl; unfold len; simpl; lia).
  destruct (Attach_shares_frame (mkSMM {[1 := mkShm 1 501 64 (replicate 64 0) (NewSemaphore 1)]}
    {[1 := []]} 2) 1 (mkShm 1 501 64 (replicate 64 0) (NewSemaphore 1)) shm_tables 0 1 10 20 0x2000 0x5000)
    as ((smm1 & _ & pts1 & _ & E1 & _) & _); try done; try (by apply Hwf).
  exists pts1, smm1. split; [reflexivity|exact E1].
Defined.
