(* ===== verification/NetIo.v ===== *)
(** * Input and output: polling, epoll and the network poller

    Models [src/pkg/io]: descriptors, the blocking read, [select]/[poll]
    ([SelectPoll]), [Epoll] and [GoNetpoller].  Descriptors are shared by
    pointer, so they live in a heap indexed by locations.  Elapsed times are not
    modelled. *)

From S2P Require Import Prelude Steps.

Record FileDescriptor := mkFD {
  FD : Z; FdName : string; DataBuffer : list Z; IsReady : bool; IsNonBlock : bool }.
#[export] Instance eta_FileDescriptor : Eta FileDescriptor := λ f,
  mkFD (FD f) (FdName f) (DataBuffer f) (IsReady f) (IsNonBlock f).

Abbreviation floc := nat (only parsing).

(** ** Blocking reads *)
Record BlockingIO := mkBIO { BlockedThreads : Z; TotalReads : Z }.
#[export] Instance eta_BlockingIO : Eta BlockingIO := λ b, mkBIO (BlockedThreads b) (TotalReads b).

Definition string_bytes (s : string) : list Z :=
  (λ c, Z.of_nat (Ascii.nat_of_ascii c)) <$> String.list_ascii_of_string s.

Definition bio_Read (fd : FileDescriptor) (bio : BlockingIO) : list Z * BlockingIO :=
  let bio := bio <| TotalReads ::= Z.succ |> <| BlockedThreads ::= Z.succ |> in
  let bio := bio <| BlockedThreads ::= Z.pred |> in
  (if len (DataBuffer fd) =? 0 then string_bytes ("data-from-fd-" +:+ fmt_d (FD fd))
   else DataBuffer fd, bio).

(** ** [select] and [poll] *)
Record SelectPoll := mkSP { TotalChecks : Z }.

Definition Poll (fds : list floc) (h : floc → FileDescriptor) (sp : SelectPoll)
    : list floc * Z * SelectPoll :=
  let scannedCount := len fds in
  let ready := foldl (λ ready fd, if IsReady (h fd) then ready ++ [fd] else ready) [] fds in
  (ready, scannedCount, mkSP (TotalChecks sp + 1)).

(** ** Epoll *)
Definition EPOLLIN : Z := 0x001.
Inductive EpollCtlOp := EPOLL_CTL_ADD | EPOLL_CTL_MOD | EPOLL_CTL_DEL.

Record EpollEvent := mkEvent { Events : Z; EvFD : floc }.

(** The interest list holds pointers to events, which may be nil; [wakeCh] is a
    channel with room for one token. *)
Record Epoll := mkEpoll {
  InterestList : gmap Z (option EpollEvent); ReadyList : list EpollEvent; wakeCh : bool }.
#[export] Instance eta_Epoll : Eta Epoll := λ e,
  mkEpoll (InterestList e) (ReadyList e) (wakeCh e).

Definition NewEpoll : Epoll := mkEpoll ∅ [] false.

Definition EpollCtl (op : EpollCtlOp) (fd : FileDescriptor) (event : option EpollEvent) (ep : Epoll)
    : option error * Epoll :=
  let missing := Errorf ("ENOENT: file descriptor " +:+ fmt_d (FD fd) +:+ " not in epoll interest list") in
  match op, InterestList ep !! FD fd with
  | EPOLL_CTL_ADD, Some _ =>
      (Some (Errorf ("EEXIST: file descriptor " +:+ fmt_d (FD fd) +:+ " already in epoll interest list")), ep)
  | EPOLL_CTL_ADD, None => (None, ep <| InterestList ::= <[FD fd := event]> |>)
  | EPOLL_CTL_MOD, None => (Some missing, ep)
  | EPOLL_CTL_MOD, Some _ => (None, ep <| InterestList ::= <[FD fd := event]> |>)
  | EPOLL_CTL_DEL, None => (Some missing, ep)
  | EPOLL_CTL_DEL, Some _ => (None, ep <| InterestList ::= delete (FD fd) |>)
  end.

Definition NotifyDeviceInterrupt (fd : floc) (events : Z) (h : floc → FileDescriptor) (ep : Epoll)
    : (floc → FileDescriptor) * Epoll :=
  match InterestList ep !! FD (h fd) with
  | Some _ =>
      (<[fd := h fd <| IsReady := true |>]> h,
       ep <| ReadyList ::= λ l, l ++ [mkEvent events fd] |> <| wakeCh := true |>)
  | None => (h, ep)
  end.

(** Up to [maxEvents] events off the ready list; slicing with a negative bound
    panics. *)
Definition takeReady (maxEvents : Z) (ep : Epoll) : option (list EpollEvent * Epoll) :=
  let count := Z.min (len (ReadyList ep)) maxEvents in
  if count <? 0 then None
  else Some (take (Z.to_nat count) (ReadyList ep), ep <| ReadyList ::= drop (Z.to_nat count) |>).

(** [wake] is the case the [select] statement takes when the ready list is
    empty: a token from [wakeCh], or the timeout. *)
Definition EpollWait (maxEvents : Z) (wake : bool) (ep : Epoll) : option (list EpollEvent * Epoll) :=
  if 0 <? len (ReadyList ep) then takeReady maxEvents ep
  else if wake then
    if wakeCh ep then takeReady maxEvents (ep <| wakeCh := false |>) else None
  else Some ([], ep).

(** ** The network poller *)
Record NetpollerGoroutine := mkG { GID : Z; GFD : Z }.

Record GoNetpoller := mkNP {
  EpollInstance : Epoll; ParkedGs : gmap Z NetpollerGoroutine; TotalParked : Z; TotalWoken : Z }.
#[export] Instance eta_GoNetpoller : Eta GoNetpoller := λ n,
  mkNP (EpollInstance n) (ParkedGs n) (TotalParked n) (TotalWoken n).

Definition NewGoNetpoller : GoNetpoller := mkNP NewEpoll ∅ 0 0.

(** The data, or [None] when the goroutine has to park. *)
Definition ReadNonBlocking (gid : Z) (fd : floc) (h : floc → FileDescriptor) (np : GoNetpoller)
    : option (list Z) * (floc → FileDescriptor) * GoNetpoller :=
  let f := h fd in
  if IsReady f && (0 <? len (DataBuffer f)) then
    (Some (DataBuffer f), <[fd := f <| DataBuffer := [] |> <| IsReady := false |>]> h, np)
  else
    let np := np <| TotalParked ::= Z.succ |> <| ParkedGs ::= <[FD f := mkG gid (FD f)]> |> in
    let np := np <| EpollInstance ::= λ ep,
      (EpollCtl EPOLL_CTL_ADD f (Some (mkEvent EPOLLIN fd)) ep).2 |> in
    (None, h, np).

(** The loop of [PollAndWakeup] over the events. *)
Definition wakeOne (h : floc → FileDescriptor) (acc : list NetpollerGoroutine * GoNetpoller)
    (ev : EpollEvent) : list NetpollerGoroutine * GoNetpoller :=
  let '(wokenGs, np) := acc in
  match ParkedGs np !! FD (h (EvFD ev)) with
  | Some parked =>
      let np := np <| TotalWoken ::= Z.succ |> <| ParkedGs ::= delete (FD (h (EvFD ev))) |> in
      let np := np <| EpollInstance ::= λ ep, (EpollCtl EPOLL_CTL_DEL (h (EvFD ev)) None ep).2 |> in
      (wokenGs ++ [parked], np)
  | None => (wokenGs, np)
  end.

Definition PollAndWakeup (wake : bool) (h : floc → FileDescriptor) (np : GoNetpoller)
    : option (list NetpollerGoroutine * GoNetpoller) :=
  '(events, ep) ← EpollWait 64 wake (EpollInstance np);
  Some (foldl (wakeOne h) ([], np <| EpollInstance := ep |>) events).

(** ** Polling and epoll *)

(** [Poll] returns the ready descriptors in order. *)
Lemma Poll_filter fds h sp :
  Poll fds h sp = (filter (λ fd, IsReady (h fd) = true) fds, len fds, mkSP (TotalChecks sp + 1)).
Proof.
  unfold Poll. assert (Hf : ∀ acc, foldl (λ ready fd, if IsReady (h fd) then ready ++ [fd] else ready)
    acc fds = acc ++ filter (λ fd, IsReady (h fd) = true) fds).
  { induction fds as [|fd fds IH]; intros acc; simpl; [by rewrite app_nil_r|].
    rewrite IH, filter_cons. destruct (IsReady (h fd)).
    - rewrite decide_True by done. by rewrite <- app_assoc.
    - by rewrite decide_False. }
  by rewrite Hf.
Qed.

(** ** Goroutines in the poller

    The poller with the descriptors, and histories: the goroutines parked so
    far, those woken, and those whose entry was replaced by another goroutine
    waiting on the same descriptor. *)
Record np_world := mkNPW {
  fds : floc → FileDescriptor; np : GoNetpoller;
  allParked : list NetpollerGoroutine; allWoken : list NetpollerGoroutine;
  replaced : list NetpollerGoroutine }.
#[export] Instance eta_np_world : Eta np_world := λ w,
  mkNPW (fds w) (np w) (allParked w) (allWoken w) (replaced w).

Inductive np_act :=
  | ActRead (gid : Z) (fd : floc)
  | ActData (fd : floc) (data : list Z)    (** a packet is put into the socket buffer *)
  | ActInterrupt (fd : floc) (events : Z)
  | ActPoll (wake : bool).

Definition np_step (a : np_act) (w : np_world) : option np_world :=
  match a with
  | ActRead gid fd =>
      let '(data, h, np') := ReadNonBlocking gid fd (fds w) (np w) in
      Some (match data with
        | Some _ => w <| fds := h |> <| np := np' |>
        | None => w <| fds := h |> <| np := np' |>
                    <| allParked ::= λ l, l ++ [mkG gid (FD (fds w fd))] |>
                    <| replaced ::= λ l, l ++ option_list (ParkedGs (np w) !! FD (fds w fd)) |>
        end)
  | ActData fd data => Some (w <| fds ::= <[fd := fds w fd <| DataBuffer := data |>]> |>)
  | ActInterrupt fd events =>
      let '(h, ep) := NotifyDeviceInterrupt fd events (fds w) (EpollInstance (np w)) in
      Some (w <| fds := h |> <| np ::= λ n, n <| EpollInstance := ep |> |>)
  | ActPoll wake =>
      '(wokenGs, np') ← PollAndWakeup wake (fds w) (np w);
      Some (w <| np := np' |> <| allWoken ::= λ l, l ++ wokenGs |>)
  end.

Record np_inv (num : floc → Z) (w : np_world) : Prop := mk_np_inv {
  ni_num : ∀ fd, FD (fds w fd) = num fd;
  ni_interest : ∀ f, is_Some (InterestList (EpollInstance (np w)) !! f) ↔ is_Some (ParkedGs (np w) !! f);
  ni_key : ∀ f g, ParkedGs (np w) !! f = Some g → GFD g = f;
  ni_parked : TotalParked (np w) = len (allParked w);
  ni_woken : TotalWoken (np w) = len (allWoken w);
  ni_all : allParked w ≡ₚ allWoken w ++ (map_to_list (ParkedGs (np w))).*2 ++ replaced w }.

(** Replacing and removing an entry of the table of parked goroutines. *)
Lemma values_insert (m : gmap Z NetpollerGoroutine) f g :
  (map_to_list (<[f := g]> m)).*2 ++ option_list (m !! f) ≡ₚ g :: (map_to_list m).*2.
Proof.
  destruct (m !! f) as [g'|] eqn:E; simpl.
  - rewrite <- insert_delete_eq, map_to_list_insert by apply lookup_delete_eq.
    rewrite <- (insert_delete_id m f g' E) at 2. rewrite map_to_list_insert by apply lookup_delete_eq.
    simpl. rewrite (Permutation_app_comm _ [g']). done.
  - rewrite app_nil_r, map_to_list_insert by done. done.
Qed.

Lemma values_delete (m : gmap Z NetpollerGoroutine) f g :
  m !! f = Some g → (map_to_list m).*2 ≡ₚ g :: (map_to_list (delete f m)).*2.
Proof.
  intros E. rewrite <- (insert_delete_id m f g E) at 1.
  rewrite map_to_list_insert by apply lookup_delete_eq. done.
Qed.

(** What the loop over [evs] does to the poller. *)
Record woken_by (h : floc → FileDescriptor) (evs : list EpollEvent) (n n' : GoNetpoller)
    (new : list NetpollerGoroutine) : Prop := mk_woken_by {
  wb_interest : (∀ f, is_Some (InterestList (EpollInstance n) !! f) ↔ is_Some (ParkedGs n !! f)) →
    ∀ f, is_Some (InterestList (EpollInstance n') !! f) ↔ is_Some (ParkedGs n' !! f);
  wb_parked : TotalParked n' = TotalParked n;
  wb_woken : TotalWoken n' = TotalWoken n + len new;
  wb_values : (map_to_list (ParkedGs n)).*2 ≡ₚ new ++ (map_to_list (ParkedGs n')).*2;
  wb_sub : ∀ f g, ParkedGs n' !! f = Some g → ParkedGs n !! f = Some g;
  wb_gone : ∀ f g, ParkedGs n !! f = Some g → ParkedGs n' !! f = None → g ∈ new;
  wb_cleared : ∀ ev, ev ∈ evs → ParkedGs n' !! FD (h (EvFD ev)) = None }.

Lemma wakeOne_spec h ws n ev :
  ∃ new n', wakeOne h (ws, n) ev = (ws ++ new, n') ∧ woken_by h [ev] n n' new.
Proof.
  unfold wakeOne. destruct (ParkedGs n !! FD (h (EvFD ev))) as [g|] eqn:E.
  - eexists [g], _. split; [reflexivity|]. split; simpl.
    + intros Hi f. destruct (proj2 (Hi (FD (h (EvFD ev))))) as [o Eo]; [eauto|].
      unfold EpollCtl. rewrite Eo. simpl. destruct (decide (f = FD (h (EvFD ev)))) as [->|].
      * rewrite !lookup_delete_eq. split; by intros [? [=]].
      * rewrite !lookup_delete_ne by done. apply Hi.
    + done.
    + unfold len. simpl. lia.
    + by apply values_delete.
    + intros f g' [_ Hf]%lookup_delete_Some. done.
    + intros f g' Hf Hn. destruct (decide (f = FD (h (EvFD ev)))) as [->|].
      * rewrite E in Hf. injection Hf as ->. set_solver.
      * rewrite lookup_delete_ne in Hn by done. congruence.
    + intros ev' ->%list_elem_of_singleton. apply lookup_delete_eq.
  - exists [], n. rewrite app_nil_r. split; [done|]. split; try done.
    + unfold len. simpl. lia.
    + congruence.
    + by intros ev' ->%list_elem_of_singleton.
Qed.

Lemma wakeAll_spec h evs ws n :
  ∃ new n', foldl (wakeOne h) (ws, n) evs = (ws ++ new, n') ∧ woken_by h evs n n' new.
Proof.
  revert ws n. induction evs as [|ev evs IH]; intros ws n.
  - exists [], n. rewrite app_nil_r. split; [done|]. split; try done.
    + unfold len. simpl. lia.
    + congruence.
    + intros ev Hev. by apply elem_of_nil in Hev.
  - cbn [foldl]. destruct (wakeOne_spec h ws n ev) as (new1 & n1 & -> & [A1 A2 A3 A4 A5 A6 A7]).
    destruct (IH (ws ++ new1) n1) as (new2 & n2 & -> & [B1 B2 B3 B4 B5 B6 B7]).
    exists (new1 ++ new2), n2. split; [by rewrite app_assoc|]. split.
    + auto.
    + congruence.
    + unfold len in *. rewrite length_app. lia.
    + rewrite A4, B4. by rewrite app_assoc.
    + auto.
    + intros f g Hf Hn. apply elem_of_app. destruct (ParkedGs n1 !! f) as [g1|] eqn:E1; [right|left; eauto].
      pose proof (A5 _ _ E1). rewrite Hf in *. simplify_eq. eauto.
    + intros ev' [->|Hev]%elem_of_cons; [|auto].
      destruct (ParkedGs n2 !! FD (h (EvFD ev))) as [g2|] eqn:E2; [|done].
      apply B5 in E2. rewrite A7 in E2; [done|set_solver].
Qed.

Lemma np_read_inv num w w' gid fd :
  np_inv num w → np_step (ActRead gid fd) w = Some w' → np_inv num w'.
Proof.
  intros [I1 I2 I3 I4 I5 I6] Hs. cbn [np_step] in Hs. unfold ReadNonBlocking in Hs.
  destruct (IsReady (fds w fd) && (0 <? len (DataBuffer (fds w fd)))); injection Hs as <-; split; simpl; try done.
  - intros fd'. rewrite pc_insert. case_decide; [subst; apply I1|apply I1].
  - intros f. unfold EpollCtl.
    destruct (decide (f = FD (fds w fd))) as [->|Hne].
    + rewrite lookup_insert_eq. split; [eauto|]. intros _.
      destruct (InterestList (EpollInstance (np w)) !! FD (fds w fd)) eqn:E; simpl;
        [by rewrite E|rewrite lookup_insert_eq; eauto].
    + rewrite lookup_insert_ne by done.
      destruct (InterestList (EpollInstance (np w)) !! FD (fds w fd)); simpl;
        [apply I2|rewrite lookup_insert_ne by done; apply I2].
  - intros f g Hf. apply lookup_insert_Some in Hf as [[<- <-]|[_ Hf]]; [done|by apply I3].
  - rewrite I4, len_snoc. lia.
  - pose proof (values_insert (ParkedGs (np w)) (FD (fds w fd)) (mkG gid (FD (fds w fd)))) as Hv.
    rewrite I6, (Permutation_app_comm (replaced w)), (app_assoc _ (option_list _)), Hv.
    rewrite <- !app_assoc. apply Permutation_app_head. rewrite app_assoc, Permutation_app_comm. done.
Qed.

Lemma np_poll_inv num w w' wake :
  np_inv num w → np_step (ActPoll wake) w = Some w' → np_inv num w'.
Proof.
  intros [I1 I2 I3 I4 I5 I6] Hs. cbn [np_step] in Hs.
  apply bind_Some in Hs as ([ws n'] & Hp & Hs). injection Hs as <-.
  unfold PollAndWakeup in Hp. apply bind_Some in Hp as ([events ep] & Hw & Hp).
  assert (Hep : InterestList ep = InterestList (EpollInstance (np w))).
  { unfold EpollWait, takeReady in Hw. repeat case_match; simplify_eq; done. }
  destruct (wakeAll_spec (fds w) events [] (np w <| EpollInstance := ep |>))
    as (new & n1 & E & [A1 A2 A3 A4 A5 _ _]).
  rewrite E in Hp. injection Hp as <- <-. simpl in *. split; simpl; try done.
  - apply A1. by rewrite Hep.
  - intros f g Hf. eauto.
  - congruence.
  - rewrite A3, I5. unfold len. rewrite length_app. lia.
  - rewrite I6, A4. by rewrite <- !app_assoc.
Qed.

Lemma np_step_inv num a w w' : np_inv num w → np_step a w = Some w' → np_inv num w'.
Proof.
  intros Hi Hs. destruct a as [gid fd|fd data|fd events|wake].
  - by eapply np_read_inv.
  - injection Hs as <-. destruct Hi as [I1 I2 I3 I4 I5 I6]. split; simpl; try done.
    intros fd'. rewrite pc_insert. by case_decide; subst; apply I1.
  - cbn [np_step] in Hs. unfold NotifyDeviceInterrupt in Hs. destruct Hi as [I1 I2 I3 I4 I5 I6].
    destruct (InterestList (EpollInstance (np w)) !! FD (fds w fd)); injection Hs as <-; split; simpl; try done.
    intros fd'. rewrite pc_insert. by case_decide; subst; apply I1.
  - by eapply np_poll_inv.
Qed.

Definition np_start (h : floc → FileDescriptor) : np_world := mkNPW h NewGoNetpoller [] [] [].


Definition demo_fds : floc → FileDescriptor := λ l, mkFD (Z.of_nat l + 3) "sock" [] false true.
Definition np_demo : list np_act :=
  [ActRead 1 0; ActRead 2 1; ActData 0 [42]; ActInterrupt 0 EPOLLIN; ActPoll false; ActRead 1 0].


(** A goroutine whose entry was overwritten is never woken: two goroutines wait
    for the same descriptor, and the interrupt wakes only the second. *)
Lemma netpoller_forgets :
  ∃ w, run np_step [ActRead 1 0; ActRead 2 0; ActInterrupt 0 EPOLLIN; ActPoll false]
         (np_start demo_fds) = Some w ∧
    allWoken w = [mkG 2 3] ∧ replaced w = [mkG 1 3] ∧ ParkedGs (np w) = ∅.
Proof. eexists. split; [vm_compute; reflexivity|]. done. Qed.
