(* ===== verification/OsKernel.v ===== *)
(** * The kernel

    Models [src/pkg/kernel/os_kernel.go], which puts processor, scheduler,
    processes, system calls, traps and memory together, the commands of the
    step debugger of [src/cmd/os-sim/main.go] that drive it, and the isolation
    experiment of [src/pkg/kernel/isolation.go].  The kernel is parametric in
    the scheduler, which it uses through the interface of [SchedCore]. *)

From S2P Require Import Prelude Visualizer Process SchedCore SchedTheory SchedRR.
From S2P Require Import Paging PageReplacement AddressSpace Pipe Ipc.
From S2P Require Import CpuMode Syscalls Lifecycle Steps.

Section kernel.
Context {Sch : Type} `{Scheduler Sch}.

(** [RunningProcess] is a pointer: the number of the process, see [Lifecycle]. *)
Record OSKernel := mkKernel {
  CPU : HardwareCPU; KContextSwitcher : ContextSwitcher; KScheduler : Sch;
  ProcManager : ProcessManager; KSyscalls : SyscallDispatcher; Traps : TrapTable;
  MemManager : MemoryManager; ShmManager : SharedMemoryManager; ActivePipes : gmap Z UnixPipe;
  RunningProcess : option Z; KCurrentTick : Z; EventHistory : list string }.
#[export] Instance eta_OSKernel : Eta OSKernel := λ k,
  mkKernel (CPU k) (KContextSwitcher k) (KScheduler k) (ProcManager k) (KSyscalls k) (Traps k)
    (MemManager k) (ShmManager k) (ActivePipes k) (RunningProcess k) (KCurrentTick k)
    (EventHistory k).

(** [init] is the location of [cpu.NewProcess(1, "init", 0, 100)].  A nil
    scheduler stands for [cpu.NewRRScheduler(2)]. *)
Definition NewOSKernel (sched : Sch) (init : ploc) : option OSKernel :=
  pm ← NewProcessManager;
  let k := mkKernel NewHardwareCPU NewContextSwitcher sched pm NewSyscallDispatcher NewTrapTable
    (NewMemoryManager 8 PolicyClock 8) NewSharedMemoryManager ∅ None 0 [] in
  let k := k <| RunningProcess := (if Processes pm !! 1 is Some _ then Some 1 else None) |> in
  Some (k <| KScheduler ::= s_AddProcess init |>).

(** The name read through a pointer to a control block. *)
Definition nameOf (pid : Z) (pm : ProcessManager) : string :=
  match Processes pm !! pid with
  | Some p => UName p
  | None => if Reaped pm !! pid is Some p then UName p else ""
  end.

Definition Step (k : OSKernel) : string * OSKernel :=
  let k := k <| KCurrentTick ::= Z.succ |> in
  let '(schedProc, _, sch) := s_Tick (KCurrentTick k) (KScheduler k) in
  let k := k <| KScheduler := sch |> in
  let '(logMsg, k) :=
    match schedProc with
    | Some l =>
        let p := heap (s_core sch) l in
        if bool_decide (RunningProcess k = Some (PID p)) then
          ("[Tick " +:+ fmt_d (KCurrentTick k) +:+ "] Executing P" +:+ fmt_d (PID p) +:+ "(" +:+
             Name p +:+ ") in User Mode (PC: 0x" +:+ fmt_0X 8 (ProgramCounter (CPU k)) +:+ ")",
           k <| CPU ::= λ c, c <| ProgramCounter ::= λ pc, u64 (pc + 4) |> |>)
        else
          let oldProcName :=
            match RunningProcess k with
            | Some pid => "P" +:+ fmt_d pid +:+ "(" +:+ nameOf pid (ProcManager k) +:+ ")"
            | None => "IDLE"
            end in
          ("[Tick " +:+ fmt_d (KCurrentTick k) +:+ "] Context Switch: " +:+ oldProcName +:+
             " ──► P" +:+ fmt_d (PID p) +:+ "(" +:+ Name p +:+ ") | Scheduler: " +:+ s_Name sch,
           k <| RunningProcess :=
             (if Processes (ProcManager k) !! PID p is Some _ then Some (PID p) else None) |>)
    | None =>
        ("[Tick " +:+ fmt_d (KCurrentTick k) +:+ "] CPU Idle (No runnable processes)", k)
    end in
  (logMsg, k <| EventHistory ::= λ h, h ++ [logMsg] |>).

Definition TriggerSyscall (pid syscallNum : Z) (args : list Z) (k : OSKernel)
    : option (Z * string * OSKernel) :=
  rdi ← args !! 0%nat; rsi ← args !! 1%nat; rdx ← args !! 2%nat;
  r10 ← args !! 3%nat; r8 ← args !! 4%nat; r9 ← args !! 5%nat;
  let regs := mkRegs (u64 syscallNum) rdi rsi rdx r10 r8 r9 in
  let k := k <| CPU ::= SwitchToKernelMode 0x80 |> in
  let '(ret, err, regs, sd) := Dispatch pid regs (KSyscalls k) in
  let k := k <| KSyscalls := sd |> in
  let k := k <| CPU ::= ReturnToUserMode |> in
  let status := match err with
    | Some e => Red ("ERROR: " +:+ err_msg e)
    | None => Green "SUCCESS"
    end in
  let msg := "[SYSCALL TRAP] PID " +:+ fmt_d pid +:+ " executed Syscall #" +:+ fmt_d syscallNum +:+
    " -> Return: " +:+ fmt_d ret +:+ " (" +:+ status +:+ ")" in
  Some (ret, msg, k <| EventHistory ::= λ h, h ++ [msg] |>).

(** ** The step debugger *)

(** [k.Scheduler.AddProcess(cpu.NewProcess(...))]: [l] is the location of the
    new control block, which therefore holds what [NewProcess] returns and is
    known to nobody else. *)
Definition fresh_at (l : ploc) (p : Process) (k : OSKernel) : Prop :=
  heap (s_core (KScheduler k)) l = p ∧ l ∉ allProcesses (s_core (KScheduler k)).

Definition add_process (l : ploc) (k : OSKernel) : OSKernel :=
  k <| KScheduler ::= s_AddProcess l |>.

(** The commands; a command that fails prints a message and changes nothing. *)
Inductive debug_step (k : OSKernel) : OSKernel → Prop :=
  | dbg_step : debug_step k (Step k).2
  | dbg_fork child pm l :
      Fork (default 1 (RunningProcess k)) (ProcManager k) = Some (Ok child, pm) →
      fresh_at l (NewProcess child (nameOf child pm) (KCurrentTick k) 8) k →
      debug_step k (add_process l (k <| ProcManager := pm |>))
  | dbg_exec pid name err pm :
      RunningProcess k = Some pid →
      Exec pid name [] (ProcManager k) = Some (err, pm) →
      debug_step k (k <| ProcManager := pm |>)
  | dbg_kill pid err pm :
      Exit pid 0 (ProcManager k) = Some (err, pm) →
      debug_step k (k <| ProcManager := pm |>)
  | dbg_wait pid :
      debug_step k (k <| ProcManager ::= λ pm, (Wait pid pm).2 |>).

(** The processes the debugger starts with: two forked children of init, each
    of which runs a program. *)
Inductive debug_spawn (name : string) (burst : Z) (k : OSKernel) : OSKernel → Prop :=
  | dbg_spawn child pm1 pm2 err l :
      Fork 1 (ProcManager k) = Some (Ok child, pm1) →
      Exec child name [] pm1 = Some (err, pm2) →
      fresh_at l (NewProcess child name 0 burst) k →
      debug_spawn name burst k (add_process l (k <| ProcManager := pm2 |>)).

Inductive debug_start (sched : Sch) (init : ploc) : OSKernel → Prop :=
  | dbg_start k0 k1 k2 :
      NewOSKernel sched init = Some k0 →
      debug_spawn "http_server" 15 k0 k1 → debug_spawn "db_worker" 10 k1 k2 →
      debug_start sched init k2.

(** ** The kernel is always idle *)

(** Every process the scheduler knows is new, and its arrival is in the past or
    now; the next tick is already later. *)
Definition missed (k : OSKernel) (l : ploc) : Prop :=
  State (heap (s_core (KScheduler k)) l) = StateNew ∧
  ArrivalTime (heap (s_core (KScheduler k)) l) ≤ KCurrentTick k.

Context `{Hlaws : !SchedulerLaws Sch}.

Record idle_inv (k : OSKernel) : Prop := mk_idle_inv {
  ii_wf : s_wf (KScheduler k);
  ii_missed : ∀ l, l ∈ allProcesses (s_core (KScheduler k)) → missed k l;
  ii_running : RunningProcess k = Some 1 }.

Lemma missed_arrived t p : State p = StateNew → ArrivalTime p < t → arrived_p t p = p.
Proof.
  intros Hs Ha. unfold arrived_p, admit_p, arrives. destruct (Z.eqb_spec (ArrivalTime p) t); [lia|].
  simpl. unfold age_p. by rewrite Hs.
Qed.

(** A tick on such processes does nothing. *)
Lemma idle_tick t s :
  s_wf s → (∀ l, l ∈ allProcesses (s_core s) →
     State (heap (s_core s) l) = StateNew ∧ ArrivalTime (heap (s_core s) l) < t) →
  let '(r, _, s') := s_Tick t s in
  r = None ∧ s_wf s' ∧ allProcesses (s_core s') = allProcesses (s_core s) ∧
  ∀ l, l ∈ allProcesses (s_core s) → heap (s_core s') l ≃ heap (s_core s) l.
Proof.
  intros Hwf Hm. pose proof (s_tick_wf t s Hwf) as Hwf'. pose proof (s_tick_result t s) as Hres.
  destruct (s_tick_spec t s Hwf) as (r & [T1 T2 T3 T4 _ _]).
  destruct (s_Tick t s) as [[r' d] s']. simpl in *. injection Hres as -> _.
  assert (Hr : r = None).
  { destruct r as [l|]; [|done]. specialize (T3 l eq_refl). specialize (T2 l T3).
    rewrite bool_decide_eq_true_2 in T2 by done. destruct T2 as [Hrun _].
    destruct (Hm l T3) as [Hs Ha]. rewrite missed_arrived in Hrun by done.
    unfold runnable in Hrun. rewrite Hs in Hrun. by destruct Hrun. }
  assert (Hheap : ∀ l, l ∈ allProcesses (s_core s) → heap (s_core s') l ≃ heap (s_core s) l).
  { intros l Hl. specialize (T2 l Hl). destruct (Hm l Hl) as [Hs Ha].
    rewrite Hr, bool_decide_eq_false_2 in T2 by done. unfold proc_step in T2.
    rewrite missed_arrived in T2 by done. unfold preempt_p in T2.
    by rewrite bool_decide_eq_false_2 in T2 by (by rewrite Hs). }
  split_and!; [|done|done|done]. destruct (s_wf_core s' Hwf') as [_ _ Win _ Wrun _ _].
  destruct (running (s_core s')) as [l|] eqn:El; [|done]. exfalso.
  assert (Hl : l ∈ allProcesses (s_core s)).
  { rewrite <- T1. apply Win. unfold queued. rewrite El. set_solver. }
  specialize (Wrun l eq_refl). rewrite (se_state _ _ (Hheap l Hl)) in Wrun.
  destruct (Hm l Hl) as [Hs _]. congruence.
Qed.

Lemma idle_Step k :
  idle_inv k →
  (Step k).1 = "[Tick " +:+ fmt_d (KCurrentTick k + 1) +:+ "] CPU Idle (No runnable processes)" ∧
  idle_inv (Step k).2.
Proof.
  intros [I1 I2 I3]. unfold Step. simpl.
  pose proof (idle_tick (Z.succ (KCurrentTick k)) (KScheduler k) I1) as Ht.
  destruct (s_Tick (Z.succ (KCurrentTick k)) (KScheduler k)) as [[r d] s'].
  destruct Ht as (-> & Hwf & Hall & Hheap).
  { intros l Hl. destruct (I2 l Hl). split; [done|lia]. }
  simpl. split; [done|]. split; simpl; [done| |done].
  rewrite Hall. intros l Hl. specialize (Hheap l Hl). destruct (I2 l Hl) as [Hs Ha].
  split; simpl; [by rewrite (se_state _ _ Hheap)|]. rewrite (se_arrival _ _ Hheap). lia.
Qed.

Lemma idle_add k l pid name t burst :
  idle_inv k → fresh_at l (NewProcess pid name t burst) k → t ≤ KCurrentTick k →
  s_ok (NewProcess pid name t burst) → idle_inv (add_process l k).
Proof.
  intros [I1 I2 I3] [Hh Hl] Ht Hok. split; simpl; [|rewrite s_add_core; simpl|done].
  - apply s_add_wf; [done|done|by rewrite Hh|by rewrite Hh].
  - unfold missed. simpl. rewrite s_add_core. simpl.
    intros j [Hj|Hj]%elem_of_app; [by apply I2|].
    apply list_elem_of_singleton in Hj as ->. rewrite Hh. done.
Qed.

Lemma idle_pm k pm : idle_inv k → idle_inv (k <| ProcManager := pm |>).
Proof. by intros []. Qed.

Lemma idle_step k k' :
  (∀ pid name t burst, s_ok (NewProcess pid name t burst)) →
  idle_inv k → debug_step k k' → idle_inv k'.
Proof.
  intros Hok Hi [|child pm l _ Hf|pid name err pm _ _|pid err pm _|pid].
  - by apply idle_Step.
  - eapply idle_add; [by apply idle_pm|exact Hf|done|done].
  - by apply idle_pm.
  - by apply idle_pm.
  - by destruct Hi.
Qed.

Lemma idle_new sched init k :
  (∀ pid name t burst, s_ok (NewProcess pid name t burst)) →
  s_wf sched → allProcesses (s_core sched) = [] →
  heap (s_core sched) init = NewProcess 1 "init" 0 100 →
  NewOSKernel sched init = Some k → idle_inv k.
Proof.
  intros Hok Hwf Hall Hinit E0.
  unfold NewOSKernel, NewProcessManager in E0. simpl in E0. injection E0 as <-.
  eapply (idle_add (mkKernel _ _ _ _ _ _ _ _ _ _ _ _) init 1 "init" 0 100);
    [split; simpl; [done| |done]|split; simpl; [done|by rewrite Hall; apply not_elem_of_nil]|done|done].
  rewrite Hall. by intros l ?%elem_of_nil.
Qed.

Lemma idle_start sched init k :
  (∀ pid name t burst, s_ok (NewProcess pid name t burst)) →
  s_wf sched → allProcesses (s_core sched) = [] →
  heap (s_core sched) init = NewProcess 1 "init" 0 100 →
  debug_start sched init k → idle_inv k ∧ KCurrentTick k = 0.
Proof.
  intros Hok Hwf Hall Hinit [k0 k1 k2 E0 H1 H2].
  assert (Hspawn : ∀ n b k k', idle_inv k → KCurrentTick k = 0 → debug_spawn n b k k' →
    idle_inv k' ∧ KCurrentTick k' = 0).
  { clear -Hok. intros n b k k' Hi Ht [child pm1 pm2 err l _ _ Hf]. split; [|done].
    eapply idle_add; [by apply idle_pm|exact Hf|simpl; lia|done]. }
  pose proof (idle_new sched init k0 Hok Hwf Hall Hinit E0) as Hi0.
  unfold NewOSKernel, NewProcessManager in E0. simpl in E0. injection E0 as <-.
  eapply Hspawn in H1 as [Hi1 Ht1]; [by eapply Hspawn|exact Hi0|done].
Qed.
End kernel.
Arguments OSKernel Sch : clear implicits.

(** The debugger never runs a process.  With any scheduler that keeps the
    promises of the interface, from the start of the debugger and after any
    sequence of its commands (step, fork, exec, kill, wait), a step advances the
    clock before it asks the scheduler and the scheduler admits a process only
    in the tick of its arrival, which has passed: every step reports an idle
    CPU, every process is still new, and init is shown as running for ever. *)
Theorem debugger_always_idle {Sch : Type} `{SchedulerLaws Sch} (sched : Sch) init k0 k
    (Hok : ∀ pid name t burst, s_ok (NewProcess pid name t burst))
    (Hwf : s_wf sched) (Hnone : allProcesses (s_core sched) = [])
    (Hinit : heap (s_core sched) init = NewProcess 1 "init" 0 100)
    (Hstart : debug_start sched init k0) (Hrun : rtc debug_step k0 k) :
  (Step k).1 = "[Tick " +:+ fmt_d (KCurrentTick k + 1) +:+ "] CPU Idle (No runnable processes)" ∧
  RunningProcess k = Some 1 ∧
  ∀ l, l ∈ allProcesses (s_core (KScheduler k)) →
    State (heap (s_core (KScheduler k)) l) = StateNew.
Proof.
  destruct (idle_start sched init k0 Hok Hwf Hnone Hinit Hstart) as [Hi _].
  assert (Hk : idle_inv k).
  { clear -Hok Hi Hrun. induction Hrun as [|k k1 k2 Hs _ IH]; [done|]. by eapply IH, idle_step. }
  destruct (idle_Step k Hk) as [Hm _]. destruct Hk as [_ I2 I3]. split_and!; [done|done|].
  intros l Hl. by apply (I2 l Hl).
Qed.

Definition debug_heap : ploc → Process := λ l,
  match l with
  | O => NewProcess 1 "init" 0 100
  | 1%nat => NewProcess 2 "http_server" 0 15
  | _ => NewProcess 3 "db_worker" 0 10
  end.

Lemma debugger_always_idle_witness :
  ∃ k, debug_start (NewRRScheduler debug_heap 2) 0%nat k ∧
    (Step (Step k).2).1 = "[Tick 2] CPU Idle (No runnable processes)".
Proof.
  assert (Hs : ∃ k, debug_start (NewRRScheduler debug_heap 2) 0%nat k ∧ KCurrentTick k = 0).
  { eexists. split.
    - econstructor; [reflexivity| |];
        [eapply (dbg_spawn _ _ _ 2) with (l := 1%nat)|eapply (dbg_spawn _ _ _ 3) with (l := 2%nat)];
        try reflexivity; (split; [reflexivity|]); simpl; set_solver.
    - reflexivity. }
  destruct Hs as (k & Hs & Ht). exists k. split; [done|].
  assert (Ht1 : KCurrentTick (Step k).2 = 1).
  { unfold Step. simpl. rewrite Ht. destruct (RR_Tick _ _) as [[[l|] d] s]; simpl; [|done].
    by destruct (bool_decide _). }
  destruct (debugger_always_idle (NewRRScheduler debug_heap 2) 0%nat k (Step k).2) as [E _].
  - done.
  - apply NewRR_wf.
  - done.
  - done.
  - done.
  - apply rtc_once. constructor.
  - rewrite E, Ht1. reflexivity.
Defined.

(** ** System calls *)

(** A system call enters the kernel through the trap gate and returns: the
    processor is in user mode with its registers untouched, and the dispatcher
    has handled the call with the number and arguments it was given. *)
Lemma TriggerSyscall_spec {Sch : Type} `{Scheduler Sch} pid num a b c d e f (k : OSKernel Sch) :
  let '(ret, err, _, sd) := Dispatch pid (mkRegs (u64 num) a b c d e f) (KSyscalls k) in
  ∃ msg k', TriggerSyscall pid num [a; b; c; d; e; f] k = Some (ret, msg, k') ∧
    CurrentMode (CPU k') = ModeUser ∧ unmoded (CPU k') = unmoded (CPU k) ∧ KSyscalls k' = sd ∧
    ProcManager k' = ProcManager k ∧ EventHistory k' = EventHistory k ++ [msg].
Proof.
  unfold TriggerSyscall. simpl.
  destruct (Dispatch pid (mkRegs (u64 num) a b c d e f) (KSyscalls k)) as [[[ret err] regs] sd].
  eexists _, _. split; [reflexivity|]. simpl. split_and!; try done.
  - apply ReturnToUserMode_mode.
  - by rewrite ReturnToUserMode_unmoded, SwitchToKernelMode_unmoded.
Qed.

(** ** The isolation experiment *)
Record IsolationExperimentResult := mkIsolation {
  ProcA_PID : Z; ProcB_PID : Z; IsoVirtualAddress : Z; ProcA_PFN : Z; ProcB_PFN : Z;
  ProcA_Physical : Z; ProcB_Physical : Z; ProcA_Value : string; ProcB_Value : string;
  CrossAccessTrap : bool; TrapMessage : string }.

Record MemoryIsolationLab := mkLab { PhysicalRAM : gmap Z string; LabPageSize : Z }.

Definition NewMemoryIsolationLab : MemoryIsolationLab := mkLab ∅ 4096.

(** The two page tables of the experiment. *)
Definition labTable (lab : MemoryIsolationLab) (pid vpn pfn : Z) : option PageTable :=
  pt ← NewPageTable pid 1024 (LabPageSize lab); MapPage vpn pfn true pt.

Definition RunIsolationTest (lab : MemoryIsolationLab)
    : option (IsolationExperimentResult * MemoryIsolationLab) :=
  let vAddr := 0x00401050 in
  if LabPageSize lab =? 0 then None else
  let vpn := vAddr / LabPageSize lab in
  let offset := vAddr mod LabPageSize lab in
  ptA ← labTable lab 100 vpn 12;
  let pAddrA := u64 (u64 (12 * LabPageSize lab) + offset) in
  ptB ← labTable lab 200 vpn 88;
  let pAddrB := u64 (u64 (88 * LabPageSize lab) + offset) in
  let ram := <[pAddrB := "Public_Data_B"]> (<[pAddrA := "Secret_Token_A"]> (PhysicalRAM lab)) in
  let valA := default "" (ram !! pAddrA) in
  let valB := default "" (ram !! pAddrB) in
  '(_, _, err, _) ← Translate 0x90000000 false ptB;
  let '(trap, msg) := match err with
    | Some e => (true, "HARDWARE TRAP (SIGSEGV / #PF): " +:+ err_msg e)
    | None => (false, "")
    end in
  Some (mkIsolation 100 200 vAddr 12 88 pAddrA pAddrB valA valB trap msg,
        mkLab ram (LabPageSize lab)).

(** The experiment reports two values at two physical addresses and a trap, but
    the page tables it builds have 1024 entries and the address lies in page
    0x401: neither table maps it, and translating it is an invalid-page error. *)
Lemma isolation_test_maps_nothing :
  (∃ res lab, RunIsolationTest NewMemoryIsolationLab = Some (res, lab) ∧
     ProcA_Value res = "Secret_Token_A" ∧ ProcB_Value res = "Public_Data_B" ∧
     ProcA_Physical res ≠ ProcB_Physical res ∧ CrossAccessTrap res = true) ∧
  ∀ pid pfn, ∃ pt e pt', labTable NewMemoryIsolationLab pid 0x401 pfn = Some pt ∧
    Translate 0x00401050 false pt = Some (0, None, Some e, pt') ∧ err_is e = err_is ErrInvalidPage.
Proof.
  split.
  - eexists _, _. split; [reflexivity|]. by vm_compute.
  - intros pid pfn. eexists _, _, _. split; [reflexivity|]. split; [reflexivity|]. done.
Qed.
