(* ===== verification/Gmp.v ===== *)
(** * The goroutine scheduler

    Models [src/pkg/cpu/gmp_runtime.go]: goroutines (G), threads (M) and logical
    processors (P), with local and global run queues, work stealing and the
    hand-off of a processor when its goroutine blocks in a system call.  All
    three kinds of object are only ever appended to their slices, so a pointer
    is an index.  The random generator is the interface of [SchedLottery]. *)

From S2P Require Import Prelude Steps SchedLottery.

Inductive GoroutineStatus := GIdle | GRunnable | GRunning | GSyscall | GWaiting | GDead.

#[export] Instance GoroutineStatus_eq_dec : EqDecision GoroutineStatus.
Proof. solve_decision. Defined.

Record Goroutine := mkGoroutine {
  gGID : Z; gName : string; Status : GoroutineStatus; gStackSize : Z; gPC : Z; gSP : Z;
  RemainingWork : Z; AssignedM : Z; AssignedP : Z; IsSyscall : bool; SyscallTicks : Z }.
#[export] Instance eta_Goroutine : Eta Goroutine := λ g,
  mkGoroutine (gGID g) (gName g) (Status g) (gStackSize g) (gPC g) (gSP g) (RemainingWork g)
    (AssignedM g) (AssignedP g) (IsSyscall g) (SyscallTicks g).

Record OSThread := mkM {
  MID : Z; OSStack : Z; CurG : option nat; BoundP : option nat; IsBlocked : bool }.
#[export] Instance eta_OSThread : Eta OSThread := λ m,
  mkM (MID m) (OSStack m) (CurG m) (BoundP m) (IsBlocked m).

Record LogicalProcessor := mkP {
  pPID : Z; LocalQueue : list nat; RunNext : option nat; BoundM : option nat; TickCount : Z }.
#[export] Instance eta_LogicalProcessor : Eta LogicalProcessor := λ p,
  mkP (pPID p) (LocalQueue p) (RunNext p) (BoundM p) (TickCount p).

Section runtime.
Context `{Rng R}.

Record GMPRuntime := mkRT {
  GOMAXPROCS : Z; GCount : Z; AllGs : list Goroutine; AllMs : list OSThread;
  AllPs : list LogicalProcessor; GlobalRunQueue : list nat; NetworkPoller : list nat;
  CompletedGs : list nat; WorkStealEvents : list string; HandoffEvents : list string; rt_rng : R }.
#[export] Instance eta_GMPRuntime : Eta GMPRuntime := λ r,
  mkRT (GOMAXPROCS r) (GCount r) (AllGs r) (AllMs r) (AllPs r) (GlobalRunQueue r)
    (NetworkPoller r) (CompletedGs r) (WorkStealEvents r) (HandoffEvents r) (rt_rng r).

Definition newP (i : nat) : LogicalProcessor := mkP (Z.of_nat i) [] None (Some i) 0.
Definition newM (i : nat) (p : option nat) : OSThread :=
  mkM (Z.of_nat i) (8 * 1024 * 1024) None p false.

Definition NewGMPRuntime (gomaxprocs : Z) : GMPRuntime :=
  let gomaxprocs := if gomaxprocs <=? 0 then 2 else gomaxprocs in
  mkRT gomaxprocs 0 [] ((λ i, newM i (Some i)) <$> seq 0 (Z.to_nat gomaxprocs))
    (newP <$> seq 0 (Z.to_nat gomaxprocs)) [] [] [] [] [] (rand_New 99).

Definition updG (g : nat) (f : Goroutine → Goroutine) (rt : GMPRuntime) : GMPRuntime :=
  rt <| AllGs ::= alter f g |>.
Definition updM (m : nat) (f : OSThread → OSThread) (rt : GMPRuntime) : GMPRuntime :=
  rt <| AllMs ::= alter f m |>.
Definition updP (p : nat) (f : LogicalProcessor → LogicalProcessor) (rt : GMPRuntime) : GMPRuntime :=
  rt <| AllPs ::= alter f p |>.

(** The fields [GID], [MID] and [PID] behind a pointer. *)
Definition gidOf (g : nat) (rt : GMPRuntime) : Z := default 0 (gGID <$> AllGs rt !! g).
Definition midOf (m : nat) (rt : GMPRuntime) : Z := default 0 (MID <$> AllMs rt !! m).
Definition pidOf (p : nat) (rt : GMPRuntime) : Z := default 0 (pPID <$> AllPs rt !! p).

(** [None] is the division by zero when there is no processor. *)
Definition SpawnGoroutine (name : string) (workUnits : Z) (isSyscall : bool) (rt : GMPRuntime)
    : option (nat * GMPRuntime) :=
  let rt := rt <| GCount ::= Z.succ |> in
  let g := length (AllGs rt) in
  let rt := rt <| AllGs ::= λ l, l ++
    [mkGoroutine (GCount rt) name GRunnable 2048 0 0 workUnits (-1) (-1) isSyscall 0] |> in
  if len (AllPs rt) =? 0 then None else
  let t := Z.to_nat (GCount rt mod len (AllPs rt)) in
  targetP ← AllPs rt !! t;
  Some (g, if len (LocalQueue targetP) <? 256
           then updP t (λ p, p <| LocalQueue ::= λ q, q ++ [g] |>) rt
           else rt <| GlobalRunQueue ::= λ q, q ++ [g] |>).

(** ** Finding work *)

(** The loop over the victims, from [startIdx + i] on. *)
Fixpoint stealLoop (tick : Z) (p : nat) (startIdx i : Z) (fuel : nat) (rt : GMPRuntime)
    : option nat * GMPRuntime :=
  match fuel with
  | O => (None, rt)
  | S fuel =>
      let victimIdx := Z.to_nat ((startIdx + i) mod len (AllPs rt)) in
      match AllPs rt !! victimIdx, AllPs rt !! p with
      | Some victimP, Some thief =>
          if negb (pPID victimP =? pPID thief) && (0 <? len (LocalQueue victimP)) then
            let stealCount := (len (LocalQueue victimP) + 1) / 2 in
            let keep := Z.to_nat (len (LocalQueue victimP) - stealCount) in
            let stolen := drop keep (LocalQueue victimP) in
            let rt := updP victimIdx (λ v, v <| LocalQueue ::= take keep |>) rt in
            let rt := rt <| WorkStealEvents ::= λ l, l ++
              ["[Tick " +:+ fmt_d tick +:+ "] Work Stealing: P" +:+ fmt_d (pPID thief) +:+ " stole " +:+
               fmt_d (len stolen) +:+ " Goroutine(s) from P" +:+ fmt_d (pPID victimP)] |> in
            match stolen with
            | g :: rest => (Some g, updP p (λ t, t <| LocalQueue ::= λ q, q ++ rest |>) rt)
            | [] => (None, rt)
            end
          else stealLoop tick p startIdx (i + 1) fuel rt
      | _, _ => (None, rt)
      end
  end.

Definition popGlobal (rt : GMPRuntime) : option nat * GMPRuntime :=
  match GlobalRunQueue rt with
  | g :: rest => (Some g, rt <| GlobalRunQueue := rest |>)
  | [] => (None, rt)
  end.

Definition findRunnableG (p : nat) (tick : Z) (rt : GMPRuntime) : option nat * GMPRuntime :=
  match AllPs rt !! p with
  | None => (None, rt)
  | Some pp =>
      if (TickCount pp mod 61 =? 0) && (0 <? len (GlobalRunQueue rt)) then popGlobal rt
      else match RunNext pp with
      | Some g => (Some g, updP p (λ q, q <| RunNext := None |>) rt)
      | None =>
          match LocalQueue pp with
          | g :: rest => (Some g, updP p (λ q, q <| LocalQueue := rest |>) rt)
          | [] =>
              if 0 <? len (GlobalRunQueue rt) then popGlobal rt
              else
                let numPs := len (AllPs rt) in
                if 1 <? numPs then
                  let '(startIdx, r) := Intn numPs (rt_rng rt) in
                  stealLoop tick p startIdx 0 (length (AllPs rt)) (rt <| rt_rng := r |>)
                else (None, rt)
          end
      end
  end.

(** The first thread that is neither blocked nor bound. *)
Definition acquireM (rt : GMPRuntime) : option nat :=
  fst <$> list_find (λ m, IsBlocked m = false ∧ BoundP m = None) (AllMs rt).

(** ** One tick *)
Definition bindM (p : nat) (rt : GMPRuntime) : GMPRuntime :=
  match AllPs rt !! p with
  | Some pp =>
      match BoundM pp with
      | Some _ => rt
      | None =>
          match acquireM rt with
          | Some m => updM m (λ x, x <| BoundP := Some p |>) (updP p (λ x, x <| BoundM := Some m |>) rt)
          | None => rt
          end
      end
  | None => rt
  end.

(** The system call of the goroutine [g] of thread [m]: the thread keeps the
    goroutine and blocks, the processor goes on with a new thread. *)
Definition handoff (p m g : nat) (tick : Z) (rt : GMPRuntime) : GMPRuntime :=
  let rt := updG g (λ x, x <| Status := GSyscall |>) rt in
  let rt := updM m (λ x, x <| IsBlocked := true |>) rt in
  let rt := rt <| HandoffEvents ::= λ l, l ++
    ["[Tick " +:+ fmt_d tick +:+ "] Handoff: G" +:+ fmt_d (gidOf g rt) +:+ " made syscall -> M" +:+
     fmt_d (midOf m rt) +:+ " blocked, P" +:+ fmt_d (pidOf p rt) +:+ " handed off to new M"] |> in
  let rt := updM m (λ x, x <| BoundP := None |>) rt in
  let m' := length (AllMs rt) in
  let rt := rt <| AllMs ::= λ l, l ++ [newM m' (Some p)] |> in
  updP p (λ x, x <| BoundM := Some m' |>) rt.

(** One unit of work of the goroutine [g] of thread [m]. *)
Definition work (m g : nat) (rt : GMPRuntime) : GMPRuntime :=
  let rt := updG g (λ x, x <| RemainingWork ::= Z.pred |>) rt in
  match AllGs rt !! g with
  | Some x =>
      if RemainingWork x <=? 0 then
        let rt := updG g (λ x, x <| Status := GDead |>) rt in
        let rt := rt <| CompletedGs ::= λ l, l ++ [g] |> in
        updM m (λ x, x <| CurG := None |>) rt
      else rt
  | None => rt
  end.

(** A processor whose thread has nothing to run looks for work. *)
Definition pickup (p : nat) (tick : Z) (rt : GMPRuntime) : GMPRuntime :=
  match AllPs rt !! p ≫= BoundM with
  | Some m =>
      match AllMs rt !! m ≫= CurG with
      | Some _ => rt
      | None =>
          let '(nextG, rt) := findRunnableG p tick rt in
          match nextG with
          | Some g =>
              let rt := updG g (λ x, x <| Status := GRunning |> <| AssignedM := midOf m rt |>
                                       <| AssignedP := pidOf p rt |>) rt in
              updM m (λ x, x <| CurG := Some g |>) rt
          | None => rt
          end
      end
  | None => rt
  end.

Definition stepP (tick : Z) (rt : GMPRuntime) (p : nat) : GMPRuntime :=
  let rt := updP p (λ x, x <| TickCount ::= Z.succ |>) rt in
  let rt := bindM p rt in
  match AllPs rt !! p ≫= BoundM with
  | Some m =>
      match AllMs rt !! m ≫= CurG with
      | Some g =>
          match AllGs rt !! g with
          | Some x =>
              if IsSyscall x && bool_decide (Status x = GRunning) && (SyscallTicks x =? 0)
              then handoff p m g tick rt
              else pickup p tick (if decide (Status x = GRunning) then work m g rt else rt)
          | None => rt
          end
      | None => pickup p tick rt
      end
  | None => pickup p tick rt
  end.

(** Progress of a blocked system call. *)
Definition stepM (rt : GMPRuntime) (m : nat) : GMPRuntime :=
  match AllMs rt !! m with
  | Some x =>
      match IsBlocked x, CurG x with
      | true, Some g =>
          let rt := updG g (λ y, y <| SyscallTicks ::= Z.succ |>) rt in
          match AllGs rt !! g with
          | Some y =>
              if 3 <=? SyscallTicks y then
                let rt := updM m (λ x, x <| IsBlocked := false |>) rt in
                let rt := updG g (λ y, y <| Status := GRunnable |> <| IsSyscall := false |>) rt in
                let rt := rt <| GlobalRunQueue ::= λ q, q ++ [g] |> in
                updM m (λ x, x <| CurG := None |>) rt
              else rt
          | None => rt
          end
      | _, _ => rt
      end
  | None => rt
  end.

Definition rt_Step (tick : Z) (rt : GMPRuntime) : GMPRuntime :=
  let rt := foldl (stepP tick) rt (seq 0 (length (AllPs rt))) in
  foldl stepM rt (seq 0 (length (AllMs rt))).
End runtime.
Arguments GMPRuntime R : clear implicits.

(** ** Where the goroutines are

    [holdings] lists every goroutine a queue, a thread or the list of completed
    goroutines refers to, with the status it should have there; [statuses] lists
    the goroutines created, with the status they have.  The invariant says that
    the two agree up to order. *)
Section theory.
Context `{Rng R}.
Implicit Types rt : GMPRuntime R.

Definition queued rt : list nat := concat (LocalQueue <$> AllPs rt) ++ GlobalRunQueue rt.
Definition held (m : OSThread) : option (nat * GoroutineStatus) :=
  (λ g, (g, if IsBlocked m then GSyscall else GRunning)) <$> CurG m.
Definition holdings rt : list (nat * GoroutineStatus) :=
  ((λ g, (g, GRunnable)) <$> queued rt) ++ omap held (AllMs rt) ++
  ((λ g, (g, GDead)) <$> CompletedGs rt).
Definition statuses_of (l : list Goroutine) : list (nat * GoroutineStatus) :=
  imap (λ i x, (i, Status x)) l.

Definition g_ok (x : Goroutine) : Prop :=
  match Status x with
  | GRunnable | GRunning => IsSyscall x = true → SyscallTicks x = 0
  | GSyscall => IsSyscall x = true ∧ 0 ≤ SyscallTicks x < 3
  | GDead => True
  | GIdle | GWaiting => False
  end.

(** Every processor has a thread of its own that is not blocked, and a thread
    that runs a goroutine belongs to a processor. *)
Record wired (ms : list OSThread) (ps : list LogicalProcessor) : Prop := {
  w_ps p pp : ps !! p = Some pp → RunNext pp = None ∧ pPID pp = Z.of_nat p ∧
    ∃ m y, BoundM pp = Some m ∧ ms !! m = Some y ∧ IsBlocked y = false;
  w_inj p q pp qq : ps !! p = Some pp → ps !! q = Some qq → BoundM pp = BoundM qq → p = q;
  w_ms m y : ms !! m = Some y → is_Some (CurG y) → IsBlocked y = false →
    ∃ p pp, ps !! p = Some pp ∧ BoundM pp = Some m }.

Record gmp_inv rt : Prop := {
  i_board : holdings rt ≡ₚ statuses_of (AllGs rt);
  i_gs : Forall g_ok (AllGs rt);
  i_wired : wired (AllMs rt) (AllPs rt);
  i_some : AllPs rt ≠ [] }.

(** *** Updates at an index *)
Lemma alter_split {A} (l : list A) i x :
  l !! i = Some x → ∃ a b, l = a ++ x :: b ∧ length a = i ∧ ∀ h, alter h i l = a ++ h x :: b.
Proof.
  intros Hi. exists (take i l), (drop (S i) l).
  pose proof (lookup_lt_Some _ _ _ Hi) as Hlt.
  assert (length (take i l) = i) as Hlen by (rewrite length_take; lia).
  split_and!; [by rewrite take_drop_middle|done|].
  intros h. pose proof (alter_app_r h (take i l) (x :: drop (S i) l) 0) as E.
  by rewrite take_drop_middle, Hlen, Nat.add_0_r in E.
Qed.

Lemma statuses_alter (l : list Goroutine) g x :
  l !! g = Some x → ∃ rest, statuses_of l ≡ₚ (g, Status x) :: rest ∧
    ∀ h, statuses_of (alter h g l) ≡ₚ (g, Status (h x)) :: rest.
Proof.
  intros (a & b & Hl & Hlen & Ha)%alter_split. unfold statuses_of.
  exists (imap (λ i x, (i, Status x)) a ++ imap (λ i x, (S (g + i), Status x)) b).
  split; [rewrite Hl|intros h; rewrite Ha];
    rewrite imap_app, imap_cons, Hlen, Nat.add_0_r, <- Permutation_middle;
    do 2 f_equiv; apply reflexive_eq, imap_ext; intros; cbn; repeat f_equal; lia.
Qed.

Lemma held_alter (l : list OSThread) m y :
  l !! m = Some y → ∃ rest, omap held l ≡ₚ option_list (held y) ++ rest ∧
    ∀ h, omap held (alter h m l) ≡ₚ option_list (held (h y)) ++ rest.
Proof.
  intros (a & b & Hl & _ & Ha)%alter_split. exists (omap held a ++ omap held b).
  split; [rewrite Hl|intros h; rewrite Ha]; rewrite omap_app; cbn;
    destruct (held _); cbn; by rewrite <- ?Permutation_middle.
Qed.

Lemma local_alter (ps : list LogicalProcessor) p pp :
  ps !! p = Some pp → ∃ rest, concat (LocalQueue <$> ps) ≡ₚ LocalQueue pp ++ rest ∧
    ∀ h, concat (LocalQueue <$> alter h p ps) ≡ₚ LocalQueue (h pp) ++ rest.
Proof.
  intros (a & b & Hl & _ & Ha)%alter_split.
  exists (concat (LocalQueue <$> a) ++ concat (LocalQueue <$> b)).
  split; [rewrite Hl|intros h; rewrite Ha]; rewrite fmap_app, concat_app; cbn;
    rewrite !(assoc (++)); f_equiv; apply Permutation_app_comm.
Qed.

Lemma sumZ_alter {A} (f : A → Z) h i (l : list A) x :
  l !! i = Some x → sumZ f (alter h i l) = sumZ f l - f x + f (h x).
Proof.
  intros (a & b & -> & _ & Ha)%alter_split. rewrite Ha, !sumZ_app, !sumZ_cons. lia.
Qed.

Lemma Forall_alter_at {A} (P : A → Prop) h i (l : list A) x :
  Forall P l → l !! i = Some x → P (h x) → Forall P (alter h i l).
Proof. intros HP Hi Hx. apply Forall_alter; [done|]. intros y Hy. by simplify_eq. Qed.

(** *** The wiring under the updates of a tick *)
Lemma wired_Ps ms ps ps' :
  (λ p, (RunNext p, pPID p, BoundM p)) <$> ps = (λ p, (RunNext p, pPID p, BoundM p)) <$> ps' →
  wired ms ps → wired ms ps'.
Proof.
  intros Heq [Hp Hi Hm].
  assert (∀ p, (λ p, (RunNext p, pPID p, BoundM p)) <$> ps !! p =
               (λ p, (RunNext p, pPID p, BoundM p)) <$> ps' !! p) as Hl.
  { intros p. by rewrite <- !list_lookup_fmap, Heq. }
  assert (∀ p pp, ps' !! p = Some pp → ∃ qq, ps !! p = Some qq ∧ RunNext qq = RunNext pp ∧
    pPID qq = pPID pp ∧ BoundM qq = BoundM pp) as Hb.
  { intros p pp E. specialize (Hl p). rewrite E in Hl.
    destruct (ps !! p) as [qq|]; [|done]. exists qq. by simplify_option_eq. }
  split.
  - intros p pp (qq & E & <- & <- & <-)%Hb. by apply Hp.
  - intros p q pp qq (p' & E1 & _ & _ & <-)%Hb (q' & E2 & _ & _ & <-)%Hb. by apply Hi.
  - intros m y E1 E2 E3. destruct (Hm m y E1 E2 E3) as (p & pp & E4 & E5). specialize (Hl p).
    rewrite E4 in Hl. destruct (ps' !! p) as [qq|] eqn:E; [|done].
    exists p, qq. simplify_option_eq. split; congruence.
Qed.

(** A thread may change as long as it stays or becomes unblocked, and runs
    something only if it belongs to a processor. *)
Lemma wired_M ms ps m h :
  wired ms ps →
  (∀ y, ms !! m = Some y → IsBlocked (h y) = false) →
  (∀ y, ms !! m = Some y → is_Some (CurG (h y)) → ∃ p pp, ps !! p = Some pp ∧ BoundM pp = Some m) →
  wired (alter h m ms) ps.
Proof.
  intros [Hp Hi Hm] Hb Hc. split; [|done|].
  - intros p pp (E1 & E2 & k & y & E3 & E4 & E5)%Hp. split_and!; [done..|]. exists k.
    destruct (decide (k = m)) as [->|].
    + exists (h y). split_and!; [done| |by apply Hb]. by rewrite list_lookup_alter_eq, E4.
    + exists y. by rewrite list_lookup_alter_ne.
  - intros k y. destruct (decide (k = m)) as [->|]; [|rewrite list_lookup_alter_ne by done; apply Hm].
    rewrite list_lookup_alter_eq. destruct (ms !! m) as [z|]; [|done].
    intros [= <-] E1 _. by eapply Hc.
Qed.

(** *** Taking a goroutine from a queue *)
Definition shape (ps : list LogicalProcessor) := (λ p, (RunNext p, pPID p, BoundM p)) <$> ps.

(** [rt'] is [rt] with the goroutine [r] taken out of the queues; there is none
    only if the queues are empty. *)
Record took (rt : GMPRuntime R) (r : option nat) (rt' : GMPRuntime R) : Prop := {
  t_gs : AllGs rt' = AllGs rt;
  t_ms : AllMs rt' = AllMs rt;
  t_done : CompletedGs rt' = CompletedGs rt;
  t_shape : shape (AllPs rt') = shape (AllPs rt);
  t_queued : queued rt ≡ₚ option_list r ++ queued rt';
  t_none : r = None → queued rt = [] ∧ AllPs rt' = AllPs rt }.

Lemma shape_alter ps p pp h :
  ps !! p = Some pp → RunNext (h pp) = RunNext pp → pPID (h pp) = pPID pp →
  BoundM (h pp) = BoundM pp → shape (alter h p ps) = shape ps.
Proof.
  intros (a & b & -> & _ & Ha)%alter_split E1 E2 E3. unfold shape.
  rewrite Ha, !fmap_app. cbn. by rewrite E1, E2, E3.
Qed.

Lemma popGlobal_took rt :
  GlobalRunQueue rt ≠ [] → took rt (popGlobal rt).1 (popGlobal rt).2.
Proof.
  intros Hne. unfold popGlobal. destruct (GlobalRunQueue rt) as [|g q] eqn:E; [done|].
  cbn [fst snd]. split; [done..| |done].
  unfold queued. rewrite E. cbn. by rewrite <- Permutation_middle.
Qed.

Lemma local_took rt p pp h g :
  AllPs rt !! p = Some pp → RunNext (h pp) = RunNext pp → pPID (h pp) = pPID pp →
  BoundM (h pp) = BoundM pp → LocalQueue pp = g :: LocalQueue (h pp) →
  took rt (Some g) (updP p h rt).
Proof.
  intros Hp E1 E2 E3 E4. destruct (local_alter _ _ _ Hp) as (rest & Hq & Hq').
  split; [done..|by apply (shape_alter _ _ pp)| |done].
  unfold queued, updP. cbn. rewrite Hq, Hq', E4. done.
Qed.

Lemma steal_took rt p v thief victim keep g rest ev :
  AllPs rt !! p = Some thief → AllPs rt !! v = Some victim → p ≠ v →
  drop keep (LocalQueue victim) = g :: rest →
  took rt (Some g) (updP p (λ t, t <| LocalQueue ::= λ q, q ++ rest |>)
    (updP v (λ t, t <| LocalQueue ::= take keep |>) rt <| WorkStealEvents ::= ev |>)).
Proof.
  intros Hp Hv Hne Hd. set (f1 := λ t, t <| LocalQueue ::= take keep |>).
  set (f2 := λ t, t <| LocalQueue ::= λ q, q ++ rest |>).
  assert (alter f1 v (AllPs rt) !! p = Some thief) as Hp' by by rewrite list_lookup_alter_ne.
  split; [done..| | |done].
  - cbn. rewrite (shape_alter _ p thief) by done. by apply (shape_alter _ v victim).
  - destruct (local_alter _ _ _ Hv) as (k1 & Q1 & Q1'), (local_alter _ _ _ Hp') as (k2 & Q2 & Q2').
    unfold queued, updP. cbn. rewrite Q2'. cbn. rewrite Q1.
    rewrite <- (take_drop keep (LocalQueue victim)), Hd.
    assert (take keep (LocalQueue victim) ++ k1 ≡ₚ LocalQueue thief ++ k2) as Hk
      by (rewrite <- Q2; symmetry; apply Q1').
    transitivity (g :: rest ++ (take keep (LocalQueue victim) ++ k1) ++ GlobalRunQueue rt);
      [solve_Permutation|]. rewrite Hk. solve_Permutation.
Qed.

Lemma mod_cover s n j : 0 ≤ j < n → ∃ k, 0 ≤ k < n ∧ (s + k) mod n = j.
Proof.
  intros Hj. exists ((j - s) mod n). split; [apply Z.mod_pos_bound; lia|].
  rewrite Zplus_mod_idemp_r, Z.mod_small; lia.
Qed.

Lemma concat_nil {A B} (f : A → list B) l :
  (∀ i x, l !! i = Some x → f x = []) → concat (f <$> l) = [].
Proof.
  induction l as [|x l IH]; intros Hl; [done|]. cbn. rewrite (Hl 0%nat x) by done.
  apply IH. intros i y Hy. by apply (Hl (S i)).
Qed.

Lemma stealLoop_took tick p s fuel : ∀ i rt thief,
  wired (AllMs rt) (AllPs rt) → AllPs rt !! p = Some thief → LocalQueue thief = [] →
  GlobalRunQueue rt = [] → 0 ≤ i → i + Z.of_nat fuel = len (AllPs rt) →
  (∀ k v, 0 ≤ k < i → AllPs rt !! Z.to_nat ((s + k) mod len (AllPs rt)) = Some v → LocalQueue v = []) →
  took rt (stealLoop tick p s i fuel rt).1 (stealLoop tick p s i fuel rt).2.
Proof.
  induction fuel as [|fuel IH]; intros i rt thief Hw Hp Hq Hg Hi Hlen Hseen.
  - cbn. assert (queued rt = []) as Hnil; [|by split; rewrite ?Hnil].
    unfold queued. rewrite Hg, app_nil_r. apply concat_nil. intros j v Hj.
    pose proof (lookup_lt_Some _ _ _ Hj). destruct (mod_cover s i (Z.of_nat j)) as (k & Hk & E);
      [unfold len in *; lia|]. apply (Hseen k v Hk).
    replace (len (AllPs rt)) with i by lia. by rewrite E, Nat2Z.id.
  - cbn [stealLoop]. set (v := Z.to_nat ((s + i) mod len (AllPs rt))).
    assert (0 < len (AllPs rt)) as Hn by lia.
    pose proof (Z.mod_pos_bound (s + i) (len (AllPs rt)) Hn) as Hv.
    destruct (lookup_lt_is_Some_2 (AllPs rt) v) as [victim Hvic]; [unfold v, len in *; lia|].
    rewrite Hvic, Hp. destruct (_ && _) eqn:Hb.
    + apply andb_prop in Hb as [Hne%negb_true_iff%Z.eqb_neq Hpos%Z.ltb_lt].
      assert (p ≠ v) as Hpv by (intros <-; rewrite Hvic in Hp; congruence).
      set (keep := Z.to_nat (len (LocalQueue victim) - (len (LocalQueue victim) + 1) / 2)).
      destruct (drop keep (LocalQueue victim)) as [|g rest] eqn:Hd; [|by eapply steal_took].
      apply (f_equal length) in Hd. rewrite length_drop in Hd. cbn in Hd.
      assert (0 < (len (LocalQueue victim) + 1) / 2) by (apply Z.div_str_pos; lia).
      unfold keep, len in *. lia.
    + apply (IH _ _ thief); [done..|lia|lia|]. intros k y Hk Hy.
      destruct (decide (k = i)) as [->|]; [|by apply (Hseen k); [lia|]].
      fold v in Hy. rewrite Hvic in Hy. simplify_eq.
      destruct (w_ps _ _ Hw _ _ Hvic) as (_ & E1 & _), (w_ps _ _ Hw _ _ Hp) as (_ & E2 & _).
      apply andb_false_iff in Hb as [Hb|Hb].
      * apply negb_false_iff, Z.eqb_eq in Hb. assert (v = p) as Hvp by (apply Nat2Z.inj; congruence).
        rewrite Hvp in Hvic. congruence.
      * destruct (LocalQueue y); [done|]. apply Z.ltb_ge in Hb. unfold len in Hb. cbn in Hb. lia.
Qed.

Lemma findRunnableG_took p tick rt :
  wired (AllMs rt) (AllPs rt) → (p < length (AllPs rt))%nat →
  took rt (findRunnableG p tick rt).1 (findRunnableG p tick rt).2.
Proof.
  intros Hw Hlt. destruct (lookup_lt_is_Some_2 _ _ Hlt) as [pp Hp]. unfold findRunnableG. rewrite Hp.
  destruct (w_ps _ _ Hw _ _ Hp) as (-> & _ & _).
  destruct (GlobalRunQueue rt) as [|g0 q0] eqn:Hg.
  2: { assert ((0 <? len (g0 :: q0)) = true) as -> by done. rewrite andb_true_r.
       case_if; [apply popGlobal_took; congruence|].
       destruct (LocalQueue pp) as [|g q] eqn:Hq; [apply popGlobal_took; congruence|].
       by apply (local_took _ _ pp). }
  rewrite andb_false_r. destruct (LocalQueue pp) as [|g q] eqn:Hq; [|by apply (local_took _ _ pp)].
  assert (∀ A, (0 <? len (@nil A)) = false) as -> by done. case_if.
  - destruct (Intn _ _) as [s r]. set (rt0 := rt <| rt_rng := r |>).
    pose proof (stealLoop_took tick p s (length (AllPs rt)) 0 rt0 pp) as Ht.
    destruct Ht; [done..|unfold len; cbn; lia|intros; lia|]. by split.
  - cbn [fst snd]. assert (queued rt = []) as Hnil; [|by split; rewrite ?Hnil].
    unfold queued. rewrite Hg, app_nil_r. apply concat_nil. intros j y Hj.
    pose proof (lookup_lt_Some _ _ _ Hj). unfold len in *.
    assert (j = p) as -> by lia. congruence.
Qed.

(** *** Progress

    The ticks a goroutine can still take: its work, one tick to be picked up,
    and the ticks of its system call. *)
Definition weight (x : Goroutine) : Z :=
  let r := Z.max (RemainingWork x) 1 in
  match Status x with
  | GRunnable => if IsSyscall x then r + 6 else r + 1
  | GRunning => if IsSyscall x then r + 5 else r
  | GSyscall => r + 1 + (3 - SyscallTicks x)
  | GDead => 0
  | GIdle | GWaiting => 1
  end.
Definition ticks_left rt : Z := sumZ weight (AllGs rt).

(** Progress: the same goroutines, with fewer ticks left. *)
Definition less rt rt' : Prop :=
  ticks_left rt' < ticks_left rt ∧ length (AllGs rt') = length (AllGs rt).

Lemma board_lookup rt g s :
  gmp_inv rt → (g, s) ∈ holdings rt → ∃ x, AllGs rt !! g = Some x ∧ Status x = s ∧ g_ok x.
Proof.
  intros Hi Hin. rewrite (i_board _ Hi) in Hin.
  apply elem_of_lookup_imap in Hin as (i & x & [= -> ->] & Hx). exists x.
  split_and!; [done..|]. eapply Forall_lookup_1; [apply Hi|done].
Qed.

(** One goroutine moves from one place to another. *)
Lemma move rt rt' g s s' h K :
  gmp_inv rt → holdings rt ≡ₚ (g, s) :: K → AllGs rt' = alter h g (AllGs rt) →
  holdings rt' ≡ₚ (g, s') :: K → wired (AllMs rt') (AllPs rt') → AllPs rt' ≠ [] →
  (∀ x, AllGs rt !! g = Some x → g_ok x → Status x = s →
    Status (h x) = s' ∧ g_ok (h x) ∧ weight (h x) < weight x) →
  gmp_inv rt' ∧ less rt rt'.
Proof.
  intros Hi Hh Hg Hh' Hw Hn Hx.
  destruct (board_lookup rt g s Hi) as (x & Hgx & Hs & Hok); [rewrite Hh; apply list_elem_of_here|].
  destruct (Hx x Hgx Hok Hs) as (Hs' & Hok' & Hlt).
  destruct (statuses_alter _ _ _ Hgx) as (rest & E & E').
  assert (K ≡ₚ rest) as HK.
  { apply (Permutation_cons_inv (a := (g, s))). by rewrite <- Hh, (i_board _ Hi), E, Hs. }
  split; [split; [| |done..]|].
  - by rewrite Hh', Hg, E', Hs', HK.
  - rewrite Hg. by eapply Forall_alter_at; [apply Hi|..].
  - unfold less, ticks_left. rewrite Hg, (sumZ_alter _ _ _ _ x), length_alter by done. lia.
Qed.

(** What a turn of the scheduler may leave alone. *)
Record same rt rt' : Prop := {
  s_gs : AllGs rt' = AllGs rt;
  s_ms : AllMs rt' = AllMs rt;
  s_bound : BoundM <$> AllPs rt' = BoundM <$> AllPs rt;
  s_queued : queued rt' = queued rt }.

#[local] Instance same_preorder : PreOrder same.
Proof.
  split; [by split|]. intros a b c [A1 A2 A3 A4] [B1 B2 B3 B4]. split; congruence.
Qed.

(** Nothing to do for processor [p]. *)
Definition quietP rt (p : nat) : Prop :=
  queued rt = [] ∧ ∀ m y, AllPs rt !! p ≫= BoundM = Some m → AllMs rt !! m = Some y → CurG y = None.

Lemma BoundM_lookup (ps ps' : list LogicalProcessor) (p : nat) :
  BoundM <$> ps' = BoundM <$> ps → ps' !! p ≫= BoundM = ps !! p ≫= BoundM.
Proof.
  intros Hb. apply (f_equal (λ l, l !! p)) in Hb. rewrite !list_lookup_fmap in Hb.
  by destruct (ps' !! p), (ps !! p); simplify_option_eq.
Qed.

Lemma same_quietP rt rt' p : same rt rt' → quietP rt p → quietP rt' p.
Proof.
  intros Hs [Hq Hc]. split; [by rewrite (s_queued _ _ Hs)|]. intros m y.
  rewrite (BoundM_lookup _ _ _ (s_bound _ _ Hs)), (s_ms _ _ Hs). apply Hc.
Qed.

Lemma shape_BoundM ps ps' : shape ps = shape ps' → BoundM <$> ps = BoundM <$> ps'.
Proof.
  intros Hs. apply (f_equal (fmap (λ x : option nat * Z * option nat, x.2))) in Hs.
  unfold shape in Hs. by rewrite <- !list_fmap_compose in Hs.
Qed.

Lemma shape_length ps ps' : shape ps = shape ps' → length ps = length ps'.
Proof. intros Hs. apply (f_equal length) in Hs. unfold shape in Hs. by rewrite !length_fmap in Hs. Qed.

Lemma length_ne_nil {A B} (l : list A) (k : list B) : length l = length k → k ≠ [] → l ≠ [].
Proof. destruct l, k; naive_solver. Qed.

Lemma bound rt p :
  gmp_inv rt → (p < length (AllPs rt))%nat →
  ∃ m y, AllPs rt !! p ≫= BoundM = Some m ∧ AllMs rt !! m = Some y ∧ IsBlocked y = false.
Proof.
  intros Hi [pp Hp]%lookup_lt_is_Some_2.
  destruct (w_ps _ _ (i_wired _ Hi) _ _ Hp) as (_ & _ & m & y & E1 & E2 & E3).
  exists m, y. by rewrite Hp.
Qed.

(** The outcome of a turn: the invariant, and fewer ticks left unless the turn
    changed nothing because there was nothing to do. *)
Definition outcome (Q : GMPRuntime R → Prop) rt rt' : Prop :=
  gmp_inv rt' ∧ length (AllPs rt') = length (AllPs rt) ∧
  (less rt rt' ∨ same rt rt' ∧ Q rt').

Lemma outcome_less Q rt rt' :
  gmp_inv rt' ∧ less rt rt' → length (AllPs rt') = length (AllPs rt) →
  outcome Q rt rt'.
Proof. intros [Hi Hlt] Hl. split_and!; [done..|by left]. Qed.

(** A thread of a processor starts to run a goroutine of the queues. *)
Lemma start_move rt rt1 p m y g mid pid :
  gmp_inv rt → took rt (Some g) rt1 → AllPs rt !! p ≫= BoundM = Some m →
  AllMs rt !! m = Some y → IsBlocked y = false → CurG y = None →
  let rt' := updM m (λ x, x <| CurG := Some g |>)
    (updG g (λ x, x <| Status := GRunning |> <| AssignedM := mid |> <| AssignedP := pid |>) rt1) in
  gmp_inv rt' ∧ less rt rt'.
Proof.
  intros Hi [Tg Tm Td Ts Tq _] Hm Hy Hb Hc rt'. symmetry in Ts.
  assert (wired (AllMs rt1) (AllPs rt1)) as Hw.
  { rewrite Tm. eapply wired_Ps; [exact Ts|apply Hi]. }
  destruct (held_alter (AllMs rt) m y Hy) as (rest & E & E').
  specialize (E' (λ x, x <| CurG := Some g |>)). unfold held in E, E'. cbn in E, E'.
  rewrite Hc in E. rewrite Hb in E'. cbn in E, E'.
  eapply (move rt _ g GRunnable GRunning _
    (((λ g, (g, GRunnable)) <$> queued rt1) ++ omap held (AllMs rt) ++
     ((λ g, (g, GDead)) <$> CompletedGs rt))); [done| |by rewrite <- Tg| | | |].
  - unfold holdings. by rewrite Tq.
  - unfold holdings, held. cbn. rewrite Tm, Td, E', E. change (queued rt') with (queued rt1).
    solve_Permutation.
  - apply wired_M; [done|by intros; cbn; simplify_eq/=; congruence|]. intros _ _ _.
    rewrite (BoundM_lookup _ _ _ (shape_BoundM _ _ Ts)) in Hm.
    apply bind_Some in Hm as (pp & ? & ?). by exists p, pp.
  - change (AllPs rt1 ≠ []). eapply length_ne_nil; [symmetry; by apply shape_length|apply Hi].
  - intros x _ Hok Hs. unfold g_ok, weight in *. cbn. rewrite Hs in *. split_and!; [done..|].
    destruct (IsSyscall x); lia.
Qed.

Lemma pickup_outcome p tick rt m y :
  gmp_inv rt → (p < length (AllPs rt))%nat →
  AllPs rt !! p ≫= BoundM = Some m → AllMs rt !! m = Some y → IsBlocked y = false → CurG y = None →
  outcome (λ rt', quietP rt' p) rt (pickup p tick rt).
Proof.
  intros Hi Hlt Hm Hy Hb Hc. unfold pickup. rewrite Hm, Hy. cbn [mbind option_bind]. rewrite Hc.
  pose proof (findRunnableG_took p tick rt (i_wired _ Hi) Hlt) as Ht.
  destruct (findRunnableG p tick rt) as [[g|] rt1]; cbn [fst snd] in *; pose proof Ht as [Tg Tm Td Ts Tq Tn].
  - apply outcome_less; [by eapply start_move|]. by apply shape_length.
  - destruct (Tn eq_refl) as [Hnil HP]. cbn in Tq. assert (queued rt1 = []) as Hnil1.
    { apply Permutation_nil. by rewrite <- Tq, Hnil. }
    assert (AllGs rt1 = AllGs rt) by done.
    split; [|split; [by apply shape_length|right]].
    + split; [|rewrite Tg; apply Hi|rewrite Tm, HP; apply Hi|rewrite HP; apply Hi].
      rewrite Tg, <- (i_board _ Hi). unfold holdings. by rewrite Hnil, Hnil1, Tm, Td.
    + split; [split; [done..|by rewrite HP|congruence]|]. split; [done|].
      intros m' y'. rewrite HP, Tm, Hm. intros [= <-]. rewrite Hy. by intros [= <-].
Qed.

(** The goroutine a thread holds, and the holdings with it in front. *)
Lemma holdings_M rt m y :
  AllMs rt !! m = Some y →
  ∃ rest, omap held (AllMs rt) ≡ₚ option_list (held y) ++ rest ∧
    (∀ h, omap held (alter h m (AllMs rt)) ≡ₚ option_list (held (h y)) ++ rest) ∧
    holdings rt ≡ₚ option_list (held y) ++
      ((λ g, (g, GRunnable)) <$> queued rt) ++ rest ++ ((λ g, (g, GDead)) <$> CompletedGs rt).
Proof.
  intros (rest & E & E')%held_alter. exists rest. split_and!; [done..|].
  unfold holdings. rewrite E. solve_Permutation.
Qed.

Lemma running_goroutine rt m y g :
  gmp_inv rt → AllMs rt !! m = Some y → CurG y = Some g →
  ∃ x, AllGs rt !! g = Some x ∧ Status x = (if IsBlocked y then GSyscall else GRunning) ∧ g_ok x.
Proof.
  intros Hi Hy Hc. apply (board_lookup rt); [done|].
  destruct (holdings_M rt m y Hy) as (rest & _ & _ & ->). unfold held. rewrite Hc. apply list_elem_of_here.
Qed.

Lemma work_move rt m y g x :
  gmp_inv rt → AllMs rt !! m = Some y → IsBlocked y = false → CurG y = Some g →
  AllGs rt !! g = Some x → Status x = GRunning → IsSyscall x = false →
  gmp_inv (work m g rt) ∧ less rt (work m g rt).
Proof.
  intros Hi Hy Hb Hc Hx Hs Hsys. destruct (holdings_M rt m y Hy) as (rest & E & E' & Hh).
  unfold held in Hh. rewrite Hc, Hb in Hh. cbn in Hh.
  assert (AllGs (updG g (λ x, x <| RemainingWork ::= Z.pred |>) rt) !! g =
    Some (x <| RemainingWork ::= Z.pred |>)) as Hx'.
  { change (alter (λ x, x <| RemainingWork ::= Z.pred |>) g (AllGs rt) !! g =
      Some (x <| RemainingWork ::= Z.pred |>)). by rewrite list_lookup_alter_eq, Hx. }
  unfold work. cbv zeta. rewrite Hx'.
  change (RemainingWork (x <| RemainingWork ::= Z.pred |>)) with (Z.pred (RemainingWork x)). case_if; go_bool.
  - eapply (move rt _ g GRunning GDead ((λ x, x <| Status := GDead |>) ∘ (λ x, x <| RemainingWork ::= Z.pred |>)));
      [done|exact Hh| | | |apply Hi|].
    + cbn. by rewrite list_alter_alter_eq.
    + unfold holdings. cbn. rewrite E'. unfold held. cbn. rewrite (fmap_app _ (CompletedGs rt)).
      change (queued _) with (queued rt). cbn. solve_Permutation.
    + apply wired_M; [apply Hi|by intros ? ?; simplify_eq/=|]. by intros ? ? [? [=]].
    + intros z Hz _ _. unfold g_ok, weight. cbn. simplify_eq. rewrite Hs. split_and!; [done..|].
      rewrite Hsys. lia.
  - eapply (move rt _ g GRunning GRunning); [done|exact Hh|reflexivity| |apply Hi|apply Hi|].
    + change (holdings _) with (holdings rt). exact Hh.
    + intros z Hz Hok _. unfold g_ok, weight in *. cbn. simplify_eq. rewrite Hs in *.
      split_and!; [done..|]. rewrite Hsys. cbn. lia.
Qed.

(** The wiring after a hand-off. *)
Lemma handoff_wired ms ps p pp m y h h' z :
  wired ms ps → ps !! p = Some pp → BoundM pp = Some m → ms !! m = Some y →
  IsBlocked (h y) = true → IsBlocked z = false → CurG z = None →
  RunNext (h' pp) = RunNext pp → pPID (h' pp) = pPID pp → BoundM (h' pp) = Some (length ms) →
  wired (alter h m ms ++ [z]) (alter h' p ps).
Proof.
  intros [Hps Hinj Hms] Hp Hm Hy Hhy Hz Hzc E1 E2 E3.
  assert (∀ q qq, alter h' p ps !! q = Some qq →
    (q = p ∧ qq = h' pp) ∨ (q ≠ p ∧ ps !! q = Some qq)) as Hcase.
  { intros q qq. destruct (decide (q = p)) as [->|].
    - rewrite list_lookup_alter_eq, Hp. intros [= <-]. by left.
    - rewrite list_lookup_alter_ne by done. by right. }
  assert (∀ q qq k, ps !! q = Some qq → BoundM qq = Some k → (k < length ms)%nat) as Hk.
  { intros q qq k Hq Hb. destruct (Hps q qq Hq) as (_ & _ & k' & y' & E4 & E5 & _).
    simplify_eq. by eapply lookup_lt_Some. }
  split.
  - intros q qq [[-> ->]|[Hne Hq]]%Hcase.
    + destruct (Hps p pp Hp) as (E4 & E5 & _). rewrite E1, E2. split_and!; [done..|].
      exists (length ms), z. split_and!; [done| |done].
      rewrite lookup_app_r by (rewrite length_alter; lia). by rewrite length_alter, Nat.sub_diag.
    + destruct (Hps q qq Hq) as (E4 & E5 & k & yk & E6 & E7 & E8). split_and!; [done..|].
      exists k, yk. split_and!; [done| |done].
      assert (k ≠ m) by (intros ->; apply Hne, (Hinj q p qq pp); congruence).
      apply lookup_app_l_Some. by rewrite list_lookup_alter_ne.
  - intros q r qq rr [[-> ->]|[Hq1 Hq]]%Hcase [[-> ->]|[Hr1 Hr]]%Hcase Hb; [done| | |by eapply Hinj].
    + rewrite E3 in Hb. symmetry in Hb. apply (Hk r) in Hb; [lia|done].
    + rewrite E3 in Hb. apply (Hk q) in Hb; [lia|done].
  - intros k yk Hkk Hc Hb. apply lookup_app_Some in Hkk as [Hkk|[_ Hkk]].
    2: { apply list_lookup_singleton_Some in Hkk as [_ <-]. rewrite Hzc in Hc. by destruct Hc. }
    destruct (decide (k = m)) as [->|Hne].
    { rewrite list_lookup_alter_eq, Hy in Hkk. simplify_eq/=. congruence. }
    rewrite list_lookup_alter_ne in Hkk by done.
    destruct (Hms k yk Hkk Hc Hb) as (q & qq & Hq & Hbq). exists q, qq.
    split; [|done]. rewrite list_lookup_alter_ne; [done|]. intros <-. congruence.
Qed.

Lemma handoff_move tick rt p pp m y g x :
  gmp_inv rt → AllPs rt !! p = Some pp → BoundM pp = Some m →
  AllMs rt !! m = Some y → IsBlocked y = false → CurG y = Some g →
  AllGs rt !! g = Some x → Status x = GRunning → IsSyscall x = true → SyscallTicks x = 0 →
  gmp_inv (handoff p m g tick rt) ∧ less rt (handoff p m g tick rt).
Proof.
  intros Hi Hp Hm Hy Hb Hc Hx Hs Hsys Ht. destruct (holdings_M rt m y Hy) as (rest & E & E' & Hh).
  unfold held in Hh. rewrite Hc, Hb in Hh. cbn in Hh.
  assert (∃ h, AllMs (handoff p m g tick rt) = alter h m (AllMs rt) ++ [newM (length (AllMs rt)) (Some p)] ∧
    h y = y <| IsBlocked := true |> <| BoundP := None |>) as (h & HM & Hhy).
  { eexists (_ ∘ _). unfold handoff, updM, updP, updG. cbn.
    rewrite list_alter_alter_eq, !length_alter. by split. }
  eapply (move rt _ g GRunning GSyscall); [done|exact Hh|reflexivity| | | |].
  - unfold holdings. rewrite HM, omap_app, E'. unfold held. rewrite Hhy. cbn. rewrite Hc. cbn.
    change (CompletedGs (handoff p m g tick rt)) with (CompletedGs rt).
    assert (queued (handoff p m g tick rt) ≡ₚ queued rt) as ->; [|solve_Permutation].
    destruct (local_alter _ _ _ Hp) as (k & Q & Q'). unfold queued, handoff, updP. cbn.
    by rewrite Q, Q'.
  - rewrite HM. eapply (handoff_wired _ _ p pp m y); [apply Hi|done..| | | | | |]; try done.
    + by rewrite Hhy.
    + cbn. by rewrite !length_alter.
  - unfold handoff, updP. cbn. eapply length_ne_nil; [apply length_alter|apply Hi].
  - intros z Hz Hok _. unfold g_ok, weight in *. cbn. simplify_eq. rewrite Hs, Hsys in *. cbn.
    rewrite Ht. split_and!; [done..|lia|lia].
Qed.

(** Progress of a blocked system call. *)
Definition quietM rt (m : nat) : Prop :=
  ∀ y, AllMs rt !! m = Some y → IsBlocked y = true → CurG y = None.

Lemma stepM_move rt m y g :
  gmp_inv rt → AllMs rt !! m = Some y → IsBlocked y = true → CurG y = Some g →
  gmp_inv (stepM rt m) ∧ less rt (stepM rt m).
Proof.
  intros Hi Hy Hb Hc. destruct (holdings_M rt m y Hy) as (rest & E & E' & Hh).
  destruct (running_goroutine rt m y g Hi Hy Hc) as (x & Hx & Hs & Hok). rewrite Hb in Hs.
  unfold held in Hh. rewrite Hc, Hb in Hh. cbn in Hh.
  assert (AllGs (updG g (λ y, y <| SyscallTicks ::= Z.succ |>) rt) !! g =
    Some (x <| SyscallTicks ::= Z.succ |>)) as Hx'.
  { change (alter (λ y, y <| SyscallTicks ::= Z.succ |>) g (AllGs rt) !! g =
      Some (x <| SyscallTicks ::= Z.succ |>)). by rewrite list_lookup_alter_eq, Hx. }
  unfold stepM. rewrite Hy, Hb, Hc. cbv zeta. rewrite Hx'.
  change (SyscallTicks (x <| SyscallTicks ::= Z.succ |>)) with (Z.succ (SyscallTicks x)).
  unfold g_ok in Hok. rewrite Hs in Hok. destruct Hok as [Hsys Ht]. case_if; go_bool.
  - eapply (move rt _ g GSyscall GRunnable ((λ y, y <| Status := GRunnable |> <| IsSyscall := false |>)
      ∘ (λ y, y <| SyscallTicks ::= Z.succ |>))); [done|exact Hh| | | |apply Hi|].
    + cbn. by rewrite list_alter_alter_eq.
    + unfold holdings. cbn. rewrite list_alter_alter_eq, E'. unfold held, queued. cbn.
      rewrite !fmap_app. cbn. solve_Permutation.
    + unfold updM. cbn. rewrite list_alter_alter_eq. apply wired_M; [apply Hi|done|]. by intros ? ? [? [=]].
    + intros z Hz _ _. unfold g_ok, weight. cbn. simplify_eq. rewrite Hs.
      split_and!; [done..|lia].
  - eapply (move rt _ g GSyscall GSyscall); [done|exact Hh|reflexivity| |apply Hi|apply Hi|].
    + change (holdings _) with (holdings rt). exact Hh.
    + intros z Hz _ _. unfold g_ok, weight. cbn. simplify_eq. rewrite Hs.
      split_and!; [done..|lia|lia|lia].
Qed.

(** *** A turn of a processor and of a thread *)
Lemma tick_inv rt p :
  gmp_inv rt → let rt0 := updP p (λ x, x <| TickCount ::= Z.succ |>) rt in
  gmp_inv rt0 ∧ same rt rt0 ∧ shape (AllPs rt0) = shape (AllPs rt).
Proof.
  intros Hi rt0.
  assert (shape (AllPs rt0) = shape (AllPs rt) ∧ LocalQueue <$> AllPs rt0 = LocalQueue <$> AllPs rt)
    as [Hs Hl].
  { unfold rt0, updP, shape. cbn. split; apply list_eq; intros i; rewrite !list_lookup_fmap;
      destruct (decide (i = p)) as [->|]; by rewrite ?list_lookup_alter_ne, ?list_lookup_alter_eq by done;
      destruct (AllPs rt !! p). }
  assert (queued rt0 = queued rt) as Hq by (unfold queued; by rewrite Hl).
  split_and!; [|split; [done..|by apply shape_BoundM|done]|done].
  split; [|apply Hi| |].
  - unfold holdings. rewrite Hq. apply Hi.
  - eapply wired_Ps; [symmetry; exact Hs|apply Hi].
  - eapply length_ne_nil; [by apply shape_length|apply Hi].
Qed.

Lemma outcome_same Q rt rt0 rt' :
  same rt rt0 → length (AllPs rt0) = length (AllPs rt) → outcome Q rt0 rt' → outcome Q rt rt'.
Proof.
  intros Hs Hl (Hi & Hl' & Hp). split_and!; [done|congruence|]. destruct Hp as [Hlt|[Hs' HQ]].
  - left. unfold less, ticks_left in *. by rewrite <- (s_gs _ _ Hs).
  - right. split; [by etrans|done].
Qed.

Lemma outcome_weaken Q rt rt0 rt' :
  less rt rt0 → length (AllPs rt0) = length (AllPs rt) →
  outcome Q rt0 rt' → outcome Q rt rt'.
Proof.
  intros Hlt Hl (Hi & Hl' & Hp). split_and!; [done|congruence|]. left. unfold less, ticks_left in *.
  destruct Hp as [[? ?]|[Hs _]]; [lia|]. by rewrite (s_gs _ _ Hs).
Qed.

(** A processor whose thread is busy has nothing to look for. *)
Lemma pickup_busy p tick rt m y g :
  AllPs rt !! p ≫= BoundM = Some m → AllMs rt !! m = Some y → CurG y = Some g → pickup p tick rt = rt.
Proof. intros Hm Hy Hc. unfold pickup. rewrite Hm, Hy. cbn [mbind option_bind]. by rewrite Hc. Qed.

Lemma work_frame m g rt :
  AllPs (work m g rt) = AllPs rt ∧ ∀ y, AllMs rt !! m = Some y → CurG y = Some g →
  ∃ y', AllMs (work m g rt) !! m = Some y' ∧ IsBlocked y' = IsBlocked y ∧
    (CurG y' = None ∨ CurG y' = Some g).
Proof.
  unfold work. cbv zeta. destruct (AllGs _ !! g) as [x|].
  2: { split; [done|]. intros y Hy Hc. exists y. auto. }
  case_if.
  2: { split; [done|]. intros y Hy Hc. exists y. auto. }
  split; [done|]. intros y Hy Hc. exists (y <| CurG := None |>). split_and!; [|done|by left].
  cbn. by rewrite list_lookup_alter_eq, Hy.
Qed.

Lemma work_outcome p tick rt m y g x :
  gmp_inv rt → (p < length (AllPs rt))%nat → AllPs rt !! p ≫= BoundM = Some m →
  AllMs rt !! m = Some y → IsBlocked y = false → CurG y = Some g →
  AllGs rt !! g = Some x → Status x = GRunning → IsSyscall x = false →
  outcome (λ rt', quietP rt' p) rt (pickup p tick (work m g rt)).
Proof.
  intros Hi Hlt Hm Hy Hb Hc Hx Hs Hsys.
  destruct (work_move rt m y g x) as [Hi' Hless]; [done..|].
  destruct (work_frame m g rt) as [HP (y' & Hy' & Hb' & Hc')%(λ H, H y Hy Hc)].
  rewrite <- HP in Hm. destruct Hc' as [Hc'|Hc'].
  - eapply outcome_weaken; [exact Hless|by rewrite HP|].
    eapply pickup_outcome; [done|by rewrite HP|done|done|congruence|done].
  - erewrite pickup_busy by done. apply outcome_less; [done|by rewrite HP].
Qed.

Lemma stepP_outcome tick rt p :
  gmp_inv rt → (p < length (AllPs rt))%nat →
  outcome (λ rt', quietP rt' p) rt (stepP tick rt p).
Proof.
  intros Hi0 Hlt0. unfold stepP. cbv zeta.
  destruct (tick_inv rt p Hi0) as (Hi & Hsame & Hshape).
  set (rt0 := updP p _ rt) in *. apply (outcome_same _ rt rt0); [done|by apply shape_length|].
  assert (p < length (AllPs rt0))%nat as Hlt by (by rewrite (shape_length _ _ Hshape)).
  clearbody rt0. destruct (bound rt0 p Hi Hlt) as (m & y & Hm & Hy & Hb).
  assert (bindM p rt0 = rt0) as ->.
  { unfold bindM. apply bind_Some in Hm as (pp & -> & ->). done. }
  rewrite Hm, Hy. cbn [mbind option_bind]. destruct (CurG y) as [g|] eqn:Hc; [|by eapply pickup_outcome].
  destruct (running_goroutine rt0 m y g Hi Hy Hc) as (x & Hx & Hs & Hok). rewrite Hb in Hs.
  rewrite Hx, Hs, bool_decide_true, decide_True by done. rewrite andb_true_r.
  unfold g_ok in Hok. rewrite Hs in Hok.
  destruct (IsSyscall x) eqn:Hsys; cbn [andb]; [|by eapply work_outcome].
  rewrite Hok by done. apply bind_Some in Hm as (pp & Hp & Hbm).
  apply outcome_less; [by eapply handoff_move; [..|apply Hok]|].
  unfold handoff, updP. cbn. by rewrite length_alter.
Qed.

Lemma stepM_outcome rt m : gmp_inv rt → outcome (λ rt', quietM rt' m) rt (stepM rt m).
Proof.
  intros Hi. destruct (AllMs rt !! m) as [y|] eqn:Hy.
  2: { assert (stepM rt m = rt) as -> by (unfold stepM; by rewrite Hy).
       split_and!; [done..|]. right. split; [done|]. intros ? ?. congruence. }
  destruct (IsBlocked y) eqn:Hb; [destruct (CurG y) as [g|] eqn:Hc|].
  - apply outcome_less; [by eapply stepM_move|]. unfold stepM. rewrite Hy, Hb, Hc. cbv zeta.
    destruct (AllGs _ !! g); [case_if|]; done.
  - assert (stepM rt m = rt) as -> by (unfold stepM; by rewrite Hy, Hb, Hc).
    split_and!; [done..|]. right. split; [done|]. intros ? ?. congruence.
  - assert (stepM rt m = rt) as -> by (unfold stepM; by rewrite Hy, Hb).
    split_and!; [done..|]. right. split; [done|]. intros ? ?. congruence.
Qed.

(** A loop over processors or threads. *)
Lemma loop_outcome (f : GMPRuntime R → nat → GMPRuntime R) (Q : GMPRuntime R → nat → Prop) n :
  (∀ rt rt' i, same rt rt' → Q rt i → Q rt' i) → ∀ l rt,
  (∀ rt i, i ∈ l → gmp_inv rt → length (AllPs rt) = n → outcome (λ rt', Q rt' i) rt (f rt i)) →
  gmp_inv rt → length (AllPs rt) = n →
  outcome (λ rt', ∀ i, i ∈ l → Q rt' i) rt (foldl f rt l).
Proof.
  intros HQ l. induction l as [|i l IH]; intros rt Hf Hi Hn; cbn [foldl].
  { split_and!; [done..|]. right. split; [done|]. intros i Hin. by apply elem_of_nil in Hin. }
  destruct (Hf rt i) as (Hi1 & Hl1 & Hp1); [apply list_elem_of_here|done..|].
  destruct (IH (f rt i)) as (Hi2 & Hl2 & Hp2);
    [intros; apply Hf; [by apply list_elem_of_further|done..]|done|congruence|].
  destruct Hp1 as [Hlt1|[Hs1 HQ1]].
  { eapply outcome_less; [|congruence]. split; [done|]. unfold less, ticks_left in *.
    destruct Hp2 as [?|[Hs _]]; [lia|]. by rewrite (s_gs _ _ Hs). }
  apply (outcome_same _ _ (f rt i)); [done..|]. split_and!; [done..|].
  destruct Hp2 as [Hlt2|[Hs2 HQ2]]; [by left|right]. split; [done|].
  intros j [->|Hj]%elem_of_cons; [by eapply HQ|by apply HQ2].
Qed.

(** *** A tick *)
Lemma sumZ_zero {A} (f : A → Z) l : (∀ x, x ∈ l → f x = 0) → sumZ f l = 0.
Proof.
  intros Hl. rewrite (sumZ_ext f (λ _, 0)) by done. unfold sumZ. clear Hl. by induction l.
Qed.

Lemma all_dead rt :
  gmp_inv rt → queued rt = [] → omap held (AllMs rt) = [] → ticks_left rt = 0.
Proof.
  intros Hi Hq Hh. pose proof (i_board _ Hi) as Hb. unfold holdings in Hb. rewrite Hq, Hh in Hb. cbn in Hb.
  unfold ticks_left. apply sumZ_zero.
  intros x (g & Hg)%list_elem_of_lookup.
  assert ((g, Status x) ∈ statuses_of (AllGs rt)) as Hin.
  { apply elem_of_lookup_imap. by exists g, x. }
  rewrite <- Hb in Hin. apply list_elem_of_fmap in Hin as (? & [= _ Hs] & _).
  unfold weight. by rewrite Hs.
Qed.

Lemma weight_nonneg x : g_ok x → 0 ≤ weight x ∧ (Status x ≠ GDead → 0 < weight x).
Proof. unfold g_ok, weight. destruct (Status x), (IsSyscall x); naive_solver lia. Qed.

Lemma ticks_left_nonneg rt : gmp_inv rt → 0 ≤ ticks_left rt.
Proof.
  intros Hi. apply sumZ_nonneg. intros x Hx. apply weight_nonneg.
  eapply Forall_forall; [apply Hi|done].
Qed.

Lemma statuses_fst l : fst <$> statuses_of l = seq 0 (length l).
Proof.
  unfold statuses_of. rewrite fmap_imap. apply list_eq. intros i. rewrite list_lookup_imap.
  destruct (l !! i) as [x|] eqn:Hx; cbn; symmetry.
  - apply lookup_seq. split; [done|]. by eapply lookup_lt_Some.
  - apply lookup_seq_ge. by apply lookup_ge_None.
Qed.

(** A goroutine that is not dead has a tick left. *)
Lemma zero_dead rt g s :
  gmp_inv rt → ticks_left rt = 0 → (g, s) ∈ holdings rt → s = GDead.
Proof.
  intros Hi Hz (x & Hx & <- & Hok)%(board_lookup rt); [|done].
  destruct (decide (Status x = GDead)) as [|Hne]; [done|exfalso].
  apply weight_nonneg in Hok as [_ Hpos]. specialize (Hpos Hne).
  pose proof (sumZ_alter weight (λ x, x <| Status := GDead |>) g (AllGs rt) x Hx) as E.
  assert (0 ≤ sumZ weight (alter (λ x, x <| Status := GDead |>) g (AllGs rt))) as Hn.
  { apply sumZ_nonneg. intros y Hy. apply weight_nonneg.
    eapply Forall_forall; [|exact Hy]. by eapply Forall_alter_at; [apply Hi|..]. }
  unfold ticks_left in Hz. rewrite Hz in E. change (weight (x <| Status := GDead |>)) with 0 in E. lia.
Qed.

Lemma zero_done rt :
  gmp_inv rt → ticks_left rt = 0 → CompletedGs rt ≡ₚ seq 0 (length (AllGs rt)).
Proof.
  intros Hi Hz. pose proof (i_board _ Hi) as Hb.
  assert (∀ g s, (g, s) ∈ holdings rt → s = GDead) as Hd by (intros; by eapply zero_dead).
  assert (fst <$> holdings rt ≡ₚ seq 0 (length (AllGs rt))) as <-.
  { by rewrite Hb, statuses_fst. }
  assert (queued rt = []) as Hq.
  { destruct (queued rt) as [|g q] eqn:E; [done|]. exfalso.
    assert (GRunnable = GDead); [|done]. apply (Hd g). unfold holdings. rewrite E. apply list_elem_of_here. }
  assert (omap held (AllMs rt) = []) as Hh.
  { destruct (omap held (AllMs rt)) as [|[g s] q] eqn:E; [done|]. exfalso.
    assert ((g, s) ∈ omap held (AllMs rt)) as Hin by (rewrite E; apply list_elem_of_here).
    assert (s = GDead) as ->.
    { apply (Hd g). unfold holdings. apply elem_of_app. right. apply elem_of_app. by left. }
    apply list_elem_of_omap in Hin as (y & _ & Hy). unfold held in Hy.
    destruct (CurG y), (IsBlocked y); simplify_eq/=. }
  unfold holdings. rewrite Hq, Hh. cbn. rewrite <- list_fmap_compose. cbn. by rewrite list_fmap_id.
Qed.

Lemma rt_Step_progress tick rt :
  gmp_inv rt → gmp_inv (rt_Step tick rt) ∧ length (AllGs (rt_Step tick rt)) = length (AllGs rt) ∧
    ticks_left (rt_Step tick rt) ≤ Z.max 0 (ticks_left rt - 1).
Proof.
  intros Hi. unfold rt_Step. cbv zeta.
  destruct (loop_outcome (stepP tick) quietP (length (AllPs rt))) with
    (l := seq 0 (length (AllPs rt))) (rt := rt) as (Hi1 & Hl1 & Hp1);
    [apply same_quietP| |done|done|].
  { intros rt' p Hp%elem_of_seq Hi' Hl'. apply stepP_outcome; [done|lia]. }
  set (rt1 := foldl (stepP tick) rt _) in *. clearbody rt1.
  destruct (loop_outcome stepM quietM (length (AllPs rt1))) with
    (l := seq 0 (length (AllMs rt1))) (rt := rt1) as (Hi2 & Hl2 & Hp2);
    [|by intros; apply stepM_outcome|done|done|].
  { intros a b m Hs Hq y. rewrite (s_ms _ _ Hs). apply Hq. }
  set (rt2 := foldl stepM rt1 _) in *. clearbody rt2. split; [done|].
  unfold less in *. pose proof (ticks_left_nonneg _ Hi2).
  destruct Hp1 as [Hp1|[S1 Q1]], Hp2 as [Hp2|[S2 Q2]].
  - lia.
  - pose proof (s_gs _ _ S2) as E. unfold ticks_left in *. rewrite E. lia.
  - pose proof (s_gs _ _ S1) as E. unfold ticks_left in *. rewrite E in *. lia.
  - assert (ticks_left rt2 = 0) as ->; [|rewrite (s_gs _ _ S2), (s_gs _ _ S1); lia].
    destruct (AllPs rt) as [|pp0 ps0] eqn:HP; [by destruct (i_some _ Hi)|].
    assert (∀ p, (p < length (AllPs rt2))%nat → quietP rt2 p) as HP2.
    { intros p Hp. eapply same_quietP; [exact S2|]. apply Q1, elem_of_seq. cbn in *. lia. }
    apply all_dead; [done|apply (HP2 0%nat); cbn in *; lia|].
    destruct (omap held (AllMs rt2)) as [|[g s] l] eqn:E; [done|exfalso].
    assert ((g, s) ∈ omap held (AllMs rt2)) as Hin by (rewrite E; apply list_elem_of_here).
    apply list_elem_of_omap in Hin as (y & (m & Hy)%list_elem_of_lookup & Hh). unfold held in Hh.
    destruct (CurG y) as [g'|] eqn:Hc; [|done]. pose proof (lookup_lt_Some _ _ _ Hy).
    destruct (IsBlocked y) eqn:Hb.
    + rewrite (Q2 m) in Hc; [done| |done..]. apply elem_of_seq. rewrite <- (s_ms _ _ S2). lia.
    + destruct (w_ms _ _ (i_wired _ Hi2) m y Hy) as (p & pp & Hp & Hm); [by eexists|done|].
      destruct (HP2 p) as [_ Hq]; [by eapply lookup_lt_Some|].
      rewrite (Hq m y) in Hc; [done| |done]. by rewrite Hp.
Qed.

(** *** The whole runtime *)
Lemma NewGMPRuntime_inv n : gmp_inv (NewGMPRuntime n).
Proof.
  unfold NewGMPRuntime. set (k := if n <=? 0 then 2 else n).
  assert (0 < k) as Hk by (unfold k; case_if; go_bool; lia). clearbody k.
  split; cbn [AllGs AllMs AllPs]; [|done| |].
  - unfold holdings, queued. cbn. rewrite concat_nil by (by intros i x (? & -> & _)%list_lookup_fmap_Some).
    cbn. rewrite app_nil_r. induction (seq 0 (Z.to_nat k)) as [|i l IH]; [done|]. exact IH.
  - split.
    + intros p pp (i & -> & Hi)%list_lookup_fmap_Some.
      apply lookup_seq in Hi as [-> Hlt]. split_and!; [done..|]. exists p. eexists.
      split_and!; [done|rewrite list_lookup_fmap, lookup_seq_lt by lia; done|done].
    + intros p q pp qq (i & -> & Hi)%list_lookup_fmap_Some (j & -> & Hj)%list_lookup_fmap_Some.
      apply lookup_seq in Hi as [-> _], Hj as [-> _]. by intros [=].
    + by intros m y (i & -> & Hi)%list_lookup_fmap_Some [? [=]].
  - replace (Z.to_nat k) with (S (Nat.pred (Z.to_nat k))) by lia. done.
Qed.

Lemma SpawnGoroutine_inv name w b rt :
  gmp_inv rt → ∃ rt', SpawnGoroutine name w b rt = Some (length (AllGs rt), rt') ∧ gmp_inv rt' ∧
    length (AllGs rt') = S (length (AllGs rt)).
Proof.
  intros Hi. unfold SpawnGoroutine. cbv zeta.
  set (x := mkGoroutine _ _ _ _ _ _ _ _ _ _ _).
  set (rt0 := rt <| GCount ::= Z.succ |> <| AllGs ::= λ l, l ++ [x] |>).
  change (AllPs rt0) with (AllPs rt). change (GCount rt0) with (Z.succ (GCount rt)).
  change (AllGs (rt <| GCount ::= Z.succ |>)) with (AllGs rt).
  assert (0 < len (AllPs rt)) as Hn.
  { pose proof (i_some _ Hi). destruct (AllPs rt); [done|]. unfold len. cbn. lia. }
  destruct (len (AllPs rt) =? 0) eqn:E0; [go_bool; lia|]. clear E0.
  set (t := Z.to_nat _).
  destruct (lookup_lt_is_Some_2 (AllPs rt) t) as [pp Hp].
  { pose proof (Z.mod_pos_bound (Z.succ (GCount rt)) (len (AllPs rt)) Hn). unfold t, len in *. lia. }
  clearbody t. rewrite Hp. cbn [mbind option_bind]. eexists. split; [reflexivity|].
  assert (statuses_of (AllGs rt ++ [x]) ≡ₚ (length (AllGs rt), GRunnable) :: statuses_of (AllGs rt)) as Hst.
  { unfold statuses_of. rewrite imap_app. cbn. rewrite Nat.add_0_r. solve_Permutation. }
  assert (g_ok x) as Hx by done.
  destruct (local_alter _ _ _ Hp) as (k & Q & Q').
  case_if; (split; [split|cbn; rewrite length_app; cbn; lia]).
  1,5: rewrite <- (i_board _ Hi) in Hst; etrans; [|symmetry; exact Hst]; unfold holdings, queued.
  - unfold updP. cbn. rewrite Q', Q. cbn. rewrite !fmap_app. solve_Permutation.
  - cbn. rewrite !fmap_app. cbn. solve_Permutation.
  - apply Forall_app. split; [apply Hi|by apply Forall_singleton].
  - eapply wired_Ps; [|apply Hi]. symmetry. by apply (shape_alter _ t pp).
  - eapply length_ne_nil; [apply length_alter|apply Hi].
  - apply Forall_app. split; [apply Hi|by apply Forall_singleton].
  - apply Hi.
  - apply Hi.
Qed.

(** The calls of a client of the runtime. *)
Inductive gmp_op := OpSpawn (name : string) (workUnits : Z) (isSyscall : bool) | OpStep (tick : Z).
Definition gmp_step (o : gmp_op) rt : option (GMPRuntime R) :=
  match o with
  | OpSpawn name w b => snd <$> SpawnGoroutine name w b rt
  | OpStep tick => Some (rt_Step tick rt)
  end.
Definition is_spawn (o : gmp_op) : bool := if o is OpSpawn _ _ _ then true else false.
Definition spawns (ops : list gmp_op) : nat :=
  length (filter (λ o, is_spawn o) ops).

Lemma spawns_cons o ops : spawns (o :: ops) = ((if is_spawn o then 1 else 0) + spawns ops)%nat.
Proof. unfold spawns. rewrite filter_cons. by destruct o. Qed.

Lemma gmp_run ops : ∀ rt, gmp_inv rt →
  ∃ rt', run gmp_step ops rt = Some rt' ∧ gmp_inv rt' ∧
    length (AllGs rt') = (length (AllGs rt) + spawns ops)%nat.
Proof.
  induction ops as [|[name w b|tick] ops IH]; intros rt Hi;
    rewrite ?spawns_cons; cbn [run gmp_step is_spawn].
  - exists rt. split_and!; [done..|]. unfold spawns. cbn. lia.
  - destruct (SpawnGoroutine_inv name w b rt Hi) as (rt1 & -> & Hi1 & Hl1). cbn [fmap option_fmap option_map snd mbind option_bind].
    destruct (IH rt1 Hi1) as (rt2 & -> & Hi2 & Hl2). exists rt2. split_and!; [done..|].
    lia.
  - destruct (rt_Step_progress tick rt Hi) as (Hi1 & Hl1 & _).
    cbn [mbind option_bind]. destruct (IH _ Hi1) as (rt2 & -> & Hi2 & Hl2). exists rt2. split_and!; [done..|].
    lia.
Qed.

Lemma steps_progress ticks : ∀ rt, gmp_inv rt →
  let rt' := foldl (λ r t, rt_Step t r) rt ticks in
  gmp_inv rt' ∧ length (AllGs rt') = length (AllGs rt) ∧
  ticks_left rt' ≤ Z.max 0 (ticks_left rt - len ticks).
Proof.
  induction ticks as [|t ticks IH]; intros rt Hi; cbn [foldl].
  - split_and!; [done..|]. unfold len. cbn. lia.
  - destruct (rt_Step_progress t rt Hi) as (Hi1 & Hl1 & Ht1).
    destruct (IH _ Hi1) as (Hi2 & Hl2 & Ht2). split_and!; [done|congruence|].
    rewrite len_cons. unfold len in *. lia.
Qed.

(** C3. Whatever sequence of spawns and ticks a client makes, on any number of
    processors and for any random generator: no call panics; every goroutine
    ever spawned is in exactly one of the local queues, the global queue, the
    threads and the completed list, the one its status says; and after at most
    [ticks_left] more ticks - for each goroutine its remaining work, one tick
    to be picked up and the ticks of its system call - all of them have
    completed, each exactly once. *)
Theorem gmp_completes gomaxprocs ops :
  ∃ rt, run gmp_step ops (NewGMPRuntime gomaxprocs) = Some rt ∧
    length (AllGs rt) = spawns ops ∧
    holdings rt ≡ₚ statuses_of (AllGs rt) ∧
    ∀ ticks, ticks_left rt ≤ len ticks →
      CompletedGs (foldl (λ r t, rt_Step t r) rt ticks) ≡ₚ seq 0 (spawns ops).
Proof.
  destruct (gmp_run ops _ (NewGMPRuntime_inv gomaxprocs)) as (rt & Hr & Hi & Hl). cbn in Hl.
  exists rt. split_and!; [done..|apply Hi|]. intros ticks Ht.
  destruct (steps_progress ticks rt Hi) as (Hi' & Hl' & Ht').
  rewrite <- Hl, <- Hl'. apply zero_done; [done|]. pose proof (ticks_left_nonneg _ Hi'). lia.
Qed.
End theory.

(** Three goroutines, one of which makes a system call, on two processors. *)
Definition lab_ops : list gmp_op :=
  [OpSpawn "worker-1" 3 false; OpSpawn "io" 2 true; OpStep 1; OpSpawn "worker-2" 4 false; OpStep 2].

(** A generator that counts. *)
Definition counting_rng : Rng Z.
Proof.
  refine {| rand_New := λ seed, seed; Intn := λ n r, ((r + 1) `mod` n, r + 1) |}.
  intros n r Hn. by apply Z.mod_pos_bound.
Defined.

Lemma gmp_completes_witness :
  ∃ rt, run (gmp_step (H := counting_rng)) lab_ops (NewGMPRuntime (H := counting_rng) 2) = Some rt ∧
    CompletedGs (foldl (λ r t, rt_Step (H := counting_rng) t r) rt (Z.of_nat <$> seq 3 12)) ≡ₚ seq 0 3.
Proof.
  destruct (gmp_completes (H := counting_rng) 2 lab_ops) as (rt & Hr & _ & _ & Hc).
  exists rt. split; [done|]. change 3%nat with (spawns lab_ops). apply (Hc (Z.of_nat <$> seq 3 12)).
  assert (ticks_left <$> run (gmp_step (H := counting_rng)) lab_ops
    (NewGMPRuntime (H := counting_rng) 2) = Some 12) as Ht
    by (vm_compute; reflexivity).
  rewrite Hr in Ht. apply (inj Some) in Ht as ->. reflexivity.
Defined.
