(* ===== verification/ReportsCpu.v ===== *)
(** * Reports of the CPU components

    The tables and boxes printed for the schedulers ([FormatMetricsTable] of
    [scheduler.go]), the context switcher ([ExplainContextSwitch] of
    [context_switch.go]) and the goroutine runtime ([RenderStatus] of
    [gmp_runtime.go]), all in [src/pkg/cpu]. *)

From S2P Require Import Prelude Floats Process SchedCore SchedProps SchedLottery Gmp.
From S2P Require Import Visualizer Drawing GoText Reports.

(** ** Scheduling metrics *)
Definition metricsRow (p : Process) : list string :=
  [fmt_d (PID p); Name p; fmt_d (ArrivalTime p); fmt_d (BurstTime p); fmt_d (StartTime p);
   fmt_d (FinishTime p); fmt_d (WaitingTime p); fmt_d (Turnaround p); fmt_d (ResponseTime p)].

Definition metricsTable (completed : list Process) : Table :=
  tableOf
    ["PID"; "Process Name"; "Arrival"; "Burst"; "Start"; "Finish"; "Wait"; "Turnaround";
     "Response"]
    ["center"; "left"; "right"; "right"; "right"; "right"; "right"; "right"; "right"]
    (metricsRow <$> completed).

Definition metricsSummary (schedName : string) (m : Metrics) : list string :=
  [ "Scheduler:            " +:+ Bold +:+ schedName +:+ Reset;
    "Total Duration:        " +:+ fmt_d (TotalTime m) +:+ " ms";
    "Avg Turnaround Time:   " +:+ fmt_f 2 (AvgTurnaroundTime m) +:+
      " ms (OSTEP Metric: Finish - Arrival)";
    "Avg Waiting Time:      " +:+ fmt_f 2 (AvgWaitingTime m) +:+ " ms (Time in READY queue)";
    "Avg Response Time:     " +:+ fmt_f 2 (AvgResponseTime m) +:+
      " ms (OSTEP Metric: First Run - Arrival)";
    "CPU Utilization:       " +:+ fmt_f 1 (CPUUtilization m) +:+ "%";
    "Throughput:            " +:+ fmt_f 3 (Throughput m) +:+ " procs/ms";
    "Total Context Switches:" +:+ fmt_d (TotalContextSwitches m) ].

Definition FormatMetricsTable (schedName : string) (m : Metrics) (completed : list Process) : string :=
  Render (metricsTable completed) +:+ newline +:+
  Box "Scheduling Benchmark Summary" (metricsSummary schedName m).

(** ** Context switches *)
Definition switchLines (r : SwitchRecord) : list string :=
  [ "1. Hardware Interrupt (Timer / Yield) fires: CPU switches to Kernel Mode (Ring 0)";
    "2. Save outgoing context: Registers (PC=0x" +:+ fmt_X (PC (RegistersSaved r)) +:+
      ", SP=0x" +:+ fmt_X (SP (RegistersSaved r)) +:+ ") pushed to Kernel Stack & PCB";
    "3. OS Scheduler chooses next entity: " +:+ ToEntity r ] ++
  match SType r with
  | SwitchProcess =>
    [ "4. Virtual Memory Switch: Update CR3 / TTBR0 register to point to incoming process Page Table";
      "5. Hardware Cache Impact: TLB (Translation Lookaside Buffer) flushed / ASID updated";
      "6. Cost: ~" +:+ fmt_d (CyclesCost r) +:+
        " CPU cycles (Heavy due to memory cache/TLB misses)" ]
  | SwitchThread =>
    [ "4. Address Space Remains UNCHANGED (Threads share Page Directory / Heap)";
      "5. Switch Stack Pointer (SP) and Thread Control Block (TCB)";
      "6. Cost: ~" +:+ fmt_d (CyclesCost r) +:+ " CPU cycles (Lightweight)" ]
  end ++
  [ "7. Restore incoming registers: Execute 'iret' / return from trap to User Mode (Ring 3)" ].

Definition ExplainContextSwitch (r : SwitchRecord) : string :=
  SubHeader ("Context Switch Event @ Tick " +:+ fmt_d (Timestamp r) +:+ " [" +:+ FromEntity r +:+
    " -> " +:+ ToEntity r +:+ "]") +:+
  Box "OS Mechanism Under The Hood" (switchLines r).

(** ** The goroutine runtime *)
Section gmp.
Context `{Rng R}.
Implicit Types rt : GMPRuntime R.

(** The thread bound to a processor and the goroutine it runs. *)
Definition boundStrings rt (p : LogicalProcessor) : string * string :=
  match m ← BoundM p; AllMs rt !! m with
  | None => ("None (Idle)", "None (Idle)")
  | Some m =>
      ("M" +:+ fmt_d (MID m) +:+ " [OS Stack: 8MB]",
       match g ← CurG m; AllGs rt !! g with
       | None => "None (Idle)"
       | Some g => "G" +:+ fmt_d (gGID g) +:+ " (" +:+ gName g +:+ ") [Stack: 2KB]"
       end)
  end.

Definition processorRow rt (p : LogicalProcessor) : list string :=
  let lrqStr := Join ((λ g, "G" +:+ fmt_d (gidOf g rt)) <$> LocalQueue p) ", " in
  let lrqStr := if bool_decide (lrqStr = ""%string) then "(empty)"%string else lrqStr in
  ["P" +:+ fmt_d (pPID p); fst (boundStrings rt p); snd (boundStrings rt p); lrqStr].

Definition gmpTable rt : Table :=
  tableOf
    ["Logical Processor (P)"; "Bound OS Thread (M)"; "Current Goroutine (G)";
     "Local Queue (LRQ)"]
    ["center"; "center"; "center"; "left"]
    (processorRow rt <$> AllPs rt).

Definition comparisonLines rt : list string :=
  [ "Active Goroutines (G): " +:+ fmt_d (len (AllGs rt)) +:+ "  ──► Total Stack Memory: ~" +:+
      fmt_d (len (AllGs rt) * 2) +:+ " KB (2KB initial per G)";
    "Active OS Threads (M): " +:+ fmt_d (len (AllMs rt)) +:+ "  ──► Total Stack Memory: ~" +:+
      fmt_d (len (AllMs rt) * 8) +:+ " MB (8MB fixed per M)";
    "Global Run Queue (GRQ): " +:+ fmt_d (len (GlobalRunQueue rt)) +:+ " Goroutine(s) waiting";
    "Work Stealing Events:   " +:+ fmt_d (len (WorkStealEvents rt));
    "Syscall Handoff Events: " +:+ fmt_d (len (HandoffEvents rt));
    "";
    "WHY GOROUTINES ARE SO FAST & LIGHTWEIGHT:";
    "• 1 Million Goroutines = ~2 GB RAM (Dynamically grows/shrinks via stack copying)";
    "• 1 Million OS Threads = ~8,000 GB RAM (8 TB) -> OS would immediately run Out of Memory (OOM)!";
    "• Goroutine switch cost: ~10-20 nanoseconds (user-space, 3 registers: PC, SP, DX)";
    "• OS Thread switch cost: ~1-2 microseconds (kernel trap, TLB invalidation, CPU pipelines flushed)" ].

Definition max (a b : Z) : Z := if b <? a then a else b.

(** The slice expression cannot be out of range: its bound is the maximum of 0
    and the length minus 4. *)
Definition RenderStatus rt : string :=
  SubHeader ("Go GMP M:N Runtime Model (GOMAXPROCS=" +:+ fmt_d (GOMAXPROCS rt) +:+ ")") +:+
  Render (gmpTable rt) +:+
  newline +:+ Box "GMP Runtime Memory & Architectural Comparison" (comparisonLines rt) +:+
  (if 0 <? len (WorkStealEvents rt) then
     newline +:+ Box "Recent Work-Stealing Logs"
       (drop (Z.to_nat (max 0 (len (WorkStealEvents rt) - 4))) (WorkStealEvents rt))
   else "").
End gmp.
