(* ===== verification/ReportsMemory.v ===== *)
(** * Reports of the memory components

    The tables and boxes of the files of [src/pkg/memory]: [RenderTLBStatus] and
    [HitRate] of [tlb.go], [RenderTwoLevelStatus] of [multilevel_pt.go],
    [RenderPageTable] of [paging.go], [RenderHeapMap] of [allocator.go],
    [RenderPhysicalMemory] of [page_replacement.go], [RenderMemoryMap] of
    [address_space.go] and [RenderStack] of [stack_heap.go].  The heap report is
    shown to account for every byte of the heap, and the hit rate to be a
    percentage. *)

From S2P Require Import Prelude Floats Visualizer Drawing GoText Reports.
From S2P Require Import Paging Tlb PageReplacement FreeList AddressSpace.
Import CallStacks.

(** ** The TLB *)
Definition HitRate (t : TLB) : float64 :=
  let total := Hits t + Misses t in
  if total =? 0 then f_of_int 0
  else fmul (fdiv (f_of_int (Hits t)) (f_of_int total)) (f_of_int 100).

Definition maxInt (a b : Z) : Z := if b <? a then a else b.

(** The cost of an access in cycles; every operation is rounded on its own. *)
Definition avgCycles (t : TLB) : float64 :=
  fadd (f_of_int 1)
    (fmul (fdiv (f_of_int (Misses t)) (f_of_int (maxInt 1 (Hits t + Misses t)))) (f_of_int 100)).

Definition tlbRow (i : nat) (e : TLBEntry) : list string :=
  if negb (te_Valid e) then
    ["#" +:+ fmt_d (Z.of_nat i); "-"; "-"; "-"; "-"; Badge "INVALID" BgBlack FgHiBlack; "-"]
  else
    [ "#" +:+ fmt_d (Z.of_nat i);
      fmt_d (te_ASID e);
      "0x" +:+ fmt_0X 4 (te_VPN e);
      "0x" +:+ fmt_0X 4 (te_PFN e);
      (if te_ReadWrite e then "RW" else "RO")%string;
      Badge "VALID" BgGreen FgHiWhite;
      fmt_d (te_LastAccess e) ].

Definition tlbTable (t : TLB) : Table :=
  tableOf
    ["Slot"; "ASID (PID)"; "VPN"; "PFN"; "R/W"; "Valid"; "Last Access"]
    ["center"; "center"; "center"; "center"; "center"; "center"; "right"]
    (imap tlbRow (TlbEntries t)).

Definition tlbStats (t : TLB) : list string :=
  [ "Total Lookups:     " +:+ fmt_d (Hits t + Misses t);
    "TLB Hits:          " +:+ FgHiGreen +:+ fmt_d (Hits t) +:+ Reset +:+
      " (Cost: 1 cycle per hit)";
    "TLB Misses:        " +:+ FgHiRed +:+ fmt_d (Misses t) +:+ Reset +:+
      " (Cost: ~100-200 cycles to walk page tables in RAM)";
    "TLB Hit Rate:      " +:+ (Bold +:+ FgHiCyan) +:+ fmt_f 2 (HitRate t) +:+ "%" +:+ Reset;
    "Effective Access:  " +:+ fmt_f 1 (avgCycles t) +:+ " CPU cycles (vs 100 cycles without TLB)";
    "";
    "WHY TLB IS CRITICAL FOR OS PERFORMANCE:";
    "• Without TLB: EVERY single memory load/store requires 2-4 memory accesses (page table walks) -> 300% slowdown!";
    "• With TLB: >99% hit rate -> nearly all memory accesses translate at hardware speed (1 cycle)!" ].

Definition RenderTLBStatus (t : TLB) : string :=
  SubHeader ("MMU Hardware TLB Cache (Capacity: " +:+ fmt_d (Tlb.Capacity t) +:+ " entries)") +:+
  Render (tlbTable t) +:+ newline +:+ Box "TLB Hardware Performance Metrics" (tlbStats t).

(** ** Page tables *)
Definition linearPTBytes : Z := 1024 * 1024 * 4.
Definition multiLevelPTBytes (t : MultiLevelPageTable) : Z := 1024 * 4 + AllocatedPTs t * 1024 * 4.
Definition savingsPercent (t : MultiLevelPageTable) : float64 :=
  fsub (f_of_int 100)
    (fmul (fdiv (f_of_int (multiLevelPTBytes t)) (f_of_int linearPTBytes)) (f_of_int 100)).

Definition twoLevelLines (t : MultiLevelPageTable) : list string :=
  [ "Active Page Directory Entries: " +:+ fmt_d (AllocatedPTs t) +:+ " / " +:+
      fmt_d (DirectorySize t);
    "Allocated Level-2 Page Tables: " +:+ fmt_d (AllocatedPTs t);
    "Memory Used by Linear PT:      " +:+ fmt_d (linearPTBytes / 1024) +:+
      " KB (4 MB flat array, mostly empty zeros!)";
    "Memory Used by Multi-Level PT: " +:+ fmt_d (multiLevelPTBytes t / 1024) +:+
      " KB (Directory + only allocated sub-tables)";
    "Memory Savings:                " +:+ fmt_f 2 (savingsPercent t) +:+ "% space reduction!";
    "";
    "WHY MULTI-LEVEL PAGING IS CRITICAL:";
    "• Most processes only use a tiny fraction of their virtual address space (Code + Small Heap + Stack).";
    "• Flat linear page tables force the OS to allocate page tables for all 4GB (or 256TB in 64-bit).";
    "• Multi-level paging allocates sub-tables ON-DEMAND, creating huge memory savings for sparse spaces." ].

Definition RenderTwoLevelStatus (t : MultiLevelPageTable) : string :=
  SubHeader "Two-Level Hierarchical Page Table (OSTEP Chapter 20)" +:+
  Box "Multi-Level Page Table Memory Efficiency" (twoLevelLines t).

Definition pteRow (vpn : nat) (e : PageTableEntry) : list string :=
  [ "0x" +:+ fmt_0X 4 (Z.of_nat vpn) +:+ " (" +:+ fmt_d (Z.of_nat vpn) +:+ ")";
    "0x" +:+ fmt_0X 4 (PFN e) +:+ " (" +:+ fmt_d (PFN e) +:+ ")";
    Badge "1" BgGreen FgHiWhite;
    if Present e then Badge "RAM" BgGreen FgHiWhite else Badge "DISK" BgRed FgHiWhite;
    (if ReadWrite e then "RW" else "RO")%string;
    (if Accessed e then "1" else "0")%string;
    (if Dirty e then "1" else "0")%string;
    if Present e then "In Physical RAM"%string
   else "Swapped (SwapIdx:" +:+
      fmt_d (SwapOffset e) +:+ ")" ].

(** The rows of the valid entries; the others are skipped. *)
Definition pageTableTable (pt : PageTable) : Table :=
  tableOf
    ["VPN"; "PFN"; "Valid"; "Present"; "R/W"; "Accessed"; "Dirty"; "Status"]
    ["center"; "center"; "center"; "center"; "center"; "center"; "center"; "left"]
    (concat (imap (λ vpn e, if Valid e then [pteRow vpn e] else []) (Entries pt))).

Definition RenderPageTable (pt : PageTable) : string :=
  SubHeader ("Process " +:+ fmt_d (PtPID pt) +:+ " Linear Page Table (Page Size: " +:+
    fmt_d (PageSize pt) +:+ " bytes)") +:+
  Render (pageTableTable pt).

(** ** Physical frames *)
Definition pfnLabel (mm : MemoryManager) (i : nat) : string :=
  let label := "Frame #" +:+ fmt_d (Z.of_nat i) in
  match Policy mm with
  | PolicyClock => if Z.of_nat i =? ClockHand mm then label +:+ Cyan " ◄ [Hand]" else label
  | _ => label
  end.

Definition frameRow (mm : MemoryManager) (i : nat) (f : FrameInfo) : list string :=
  if negb (IsOccupied f) then
    ["Frame #" +:+ fmt_d (Z.of_nat i); "-"; "-"; "-"; "-"; Badge "EMPTY" BgBlack FgHiBlack]
  else
    [ pfnLabel mm i;
      fmt_d (fi_PID f);
      "VPN " +:+ fmt_d (fi_VPN f);
      (if UseBit f then "1" else "0")%string;
      if IsDirty f then Red "Dirty (Swap Required)" else "Clean"%string;
      Badge "OCCUPIED" BgGreen FgHiWhite ].

Definition framesTable (mm : MemoryManager) : Table :=
  tableOf
    ["PFN (Frame)"; "PID"; "VPN (Page)"; "Use Bit (Clock)"; "Dirty"; "Status"]
    ["center"; "center"; "center"; "center"; "center"; "left"]
    (imap (frameRow mm) (PageReplacement.Frames mm)).

Definition swapStats (mm : MemoryManager) : list string :=
  [ "Page Faults:       " +:+ FgHiYellow +:+ fmt_d (PageFaults mm) +:+ Reset +:+
      " (Pages fetched from disk swap)";
    "Page Evictions:    " +:+ fmt_d (PageEvictions mm);
    "Swap Disk Reads:   " +:+ fmt_d (SwapReads mm);
    "Swap Disk Writes:  " +:+ fmt_d (SwapWrites mm) +:+ " (Dirty page sync)" ].

Definition RenderPhysicalMemory (mm : MemoryManager) : string :=
  SubHeader ("Physical RAM Frames (" +:+ fmt_d (NumFrames mm) +:+ " Total Frames, Policy: " +:+
    policy_string (Policy mm) +:+ ")") +:+
  Render (framesTable mm) +:+ newline +:+ Box "Page Fault & Swap I/O Metrics" (swapStats mm).

(** ** The heap *)
Definition heapRow (b : BlockHeader) : list string :=
  [ "0x" +:+ fmt_0X 8 (Addr b) +:+ " - 0x" +:+ fmt_0X 8 (u64 (u64 (Addr b + Size b) - 1));
    fmt_d (Size b);
    if IsAllocated b then Badge "ALLOCATED" BgYellow FgHiWhite
   else Badge "FREE" BgGreen FgHiWhite;
    (if IsAllocated b then "In Use (Object payload)" else "Free Chunk (Available)")%string ].

(** The variables of the loop over the blocks. *)
Record heapSums := mkSums { freeBytes : Z; freeBlocks : Z; allocBlocks : Z }.
#[export] Instance eta_heapSums : Eta heapSums := λ s,
  mkSums (freeBytes s) (freeBlocks s) (allocBlocks s).

Definition countBlock (b : BlockHeader) (s : heapSums) : heapSums :=
  if negb (IsAllocated b)
  then s <| freeBytes ::= λ n, u64 (n + Size b) |> <| freeBlocks ::= λ n, u64 (n + 1) |>
  else s <| allocBlocks ::= λ n, u64 (n + 1) |>.

(** The loop follows the list of headers; [None] is a dangling pointer or an
    exhausted fuel. *)
Fixpoint heapLoop (fuel : nat) (st : gmap nat BlockHeader) (curr : option nat)
    (rows : list (list string)) (s : heapSums) : option (list (list string) * heapSums) :=
  match curr with
  | None => Some (rows, s)
  | Some c =>
      match fuel with
      | O => None
      | S fuel =>
          b ← st !! c;
          heapLoop fuel st (Next b) (rows ++ [heapRow b]) (countBlock b s)
      end
  end.

Definition heapScan (a : FreeListAllocator) : option (list (list string) * heapSums) :=
  heapLoop (base.size (blocks a)) (blocks a) (Head a) [] (mkSums 0 0 0).

Definition heapTable (rows : list (list string)) : Table :=
  tableOf
    ["Address Range"; "Size (Bytes)"; "Status"; "Block Type"]
    ["center"; "right"; "center"; "left"]
    rows.

Definition fragLines (a : FreeListAllocator) (s : heapSums) : list string :=
  [ "Total Heap Size:       " +:+ fmt_d (FreeList.TotalSize a) +:+ " bytes";
    "Currently Allocated:   " +:+ fmt_d (AllocatedBytes a) +:+ " bytes (" +:+
      fmt_d (allocBlocks s) +:+ " blocks)";
    "Currently Free:        " +:+ fmt_d (freeBytes s) +:+ " bytes (" +:+ fmt_d (freeBlocks s) +:+
      " free chunks)";
    "External Fragmentation: " +:+ fmt_d (freeBlocks s) +:+ " fragmented free chunks";
    "";
    "FRAGMENTATION INSIGHTS (OSTEP Chapter 17):";
    "• External Fragmentation: Free space is chopped into tiny disjointed pieces.";
    "  Even if total free memory > requested size, allocation fails if no single chunk is contiguous!";
    "• Coalescing: When neighboring blocks are freed, the allocator merges them back into one large chunk." ].

Definition RenderHeapMap (a : FreeListAllocator) : option string :=
  '(rows, s) ← heapScan a;
  Some (SubHeader "Heap Allocator Free-List Blocks" +:+ Render (heapTable rows) +:+
        newline +:+ Box "Heap Memory Stats & Fragmentation Analysis" (fragLines a s)).

(** ** Address spaces and stacks *)
Definition RenderMemoryMap (as_ : AddressSpace) : string :=
  RenderAddressSpaceLayout (AddressSpace.TotalSize as_) (StackTop as_) (StackPtr as_)
    (AddressSpace.HeapStart as_) (HeapBreak as_) (DataEnd as_) (CodeEnd as_).

Section stack.
(** The type of the values of local variables, how [%v] prints them, and the
    order of the iteration over the variables of each frame. *)
Context {V : Type} (fmt_v : V → string) (ord : nat → MapOrder string V).

Definition varStr (i : nat) (f : StackFrame (gmap string V)) : string :=
  let varStr := Join ((λ kv, kv.1 +:+ "=" +:+ fmt_v kv.2) <$> visit (ord i) (LocalVariables f)) ", " in
  if bool_decide (varStr = ""%string) then "-"%string else varStr.

Definition stackRow (i : nat) (f : StackFrame (gmap string V)) : list string :=
  [ "#" +:+ fmt_d (Z.of_nat i);
    FunctionName f;
    "0x" +:+ fmt_0X 8 (StackPointer f);
    "0x" +:+ fmt_0X 8 (FramePointer f);
    "0x" +:+ fmt_0X 8 (ReturnAddress f);
    varStr i f ].

(** The frames are listed from the top of the stack down. *)
Definition stackTable (cs : CallStack (gmap string V)) : Table :=
  tableOf
    ["Frame"; "Function"; "SP (Top)"; "BP (Base)"; "Return Addr"; "Local Variables"]
    ["center"; "left"; "center"; "center"; "center"; "left"]
    (reverse (imap stackRow (Frames cs))).

Definition stackLines : list string :=
  [ "STACK vs HEAP MECHANICS (Why Threads Have Private Stacks):";
    "• Stack: Stores local variables, return pointers, and control flow.";
    "  - Allocation is $O(1)$ (just adjust RSP register: SUB RSP, bytes).";
    "  - Deallocation is automatic on return (ADD RSP, bytes). No GC needed.";
    "  - Every thread/goroutine MUST have its own Stack so function calls don't overwrite each other!";
    "• Heap: Stores objects whose lifecycle outlives the creating function frame (Escape Analysis).";
    "  - Shared among all threads in the same process.";
    "  - Requires synchronization (locks) or allocator buckets (tcmalloc / Go mcache).";
    "• Go Stack Growth (Contiguous Stacks):";
    "  - Go starts with tiny 2KB stack per goroutine.";
    "  - On stack overflow check (morestack), Go allocates a 2x contiguous stack,";
    "    copies all frames, fixes internal pointers, and deallocates the old stack!" ].

Definition RenderStack (cs : CallStack (gmap string V)) : string :=
  SubHeader "Call Stack Frames (High Memory ↓ Low Memory)" +:+
  match Frames cs with
  | [] => "  [Call Stack is currently empty]" +:+ newline
  | _ => Render (stackTable cs) +:+ newline +:+ Box "Deep Dive: Stack & Heap Internals" stackLines
  end.
End stack.

(** ** What the reports say *)

(** The hit rate is a number between 0 and 100, for all counters whose sum a
    [float64] represents. *)
Lemma HitRate_within t :
  0 ≤ Hits t → 0 ≤ Misses t → Hits t + Misses t < 2 ^ 53 → within (HitRate t) 100.
Proof.
  intros Hh Hm Hlt. unfold HitRate. destruct (Z.eqb_spec (Hits t + Misses t) 0); [done|].
  apply percent_within; lia.
Qed.

(** The same loop over the sequence of blocks. *)
Definition blkSums (bs : list blk) : heapSums :=
  mkSums (sumZ (λ k, if bAlloc k then 0 else bSize k) bs)
         (sumZ (λ k, if bAlloc k then 0 else 1) bs)
         (sumZ (λ k, if bAlloc k then 1 else 0) bs).

#[local] Arguments sumZ : simpl never.

Lemma heapLoop_seg fuel st p ls bs rows fb fk ab :
  seg st p ls bs None → (length ls ≤ fuel)%nat →
  0 ≤ fb → 0 ≤ fk → 0 ≤ ab →
  fb + sumZ bSize bs < u64_mod → fk + ab + len bs < u64_mod → Forall (λ k, 0 < bSize k) bs →
  heapLoop fuel st (first ls None) rows (mkSums fb fk ab) =
  Some (rows ++ ((λ k, heapRow (header k None None)) <$> bs),
        mkSums (fb + freeBytes (blkSums bs)) (fk + freeBlocks (blkSums bs))
               (ab + allocBlocks (blkSums bs))).
Proof.
  revert fuel p bs rows fb fk ab.
  induction ls as [|l ls IH]; intros fuel p [|k bs] rows fb fk ab; simpl; try done.
  { intros. destruct fuel; cbn; rewrite app_nil_r; unfold sumZ; cbn; by rewrite !Z.add_0_r. }
  intros [Hl Hs] Hf Hfb Hfk Hab Hb Hn Hpos. apply Forall_cons in Hpos as [Hk Hpos].
  destruct fuel as [|fuel]; [lia|]. cbn [heapLoop]. rewrite Hl. cbn [mbind option_bind Next header].
  rewrite sumZ_cons in Hb. rewrite len_cons in Hn.
  assert (0 ≤ sumZ bSize bs).
  { apply sumZ_nonneg. intros x Hx. rewrite Forall_forall in Hpos. specialize (Hpos x Hx). lia. }
  assert (0 ≤ len bs) by (unfold len; lia).
  assert (countBlock (header k (first ls None) p) (mkSums fb fk ab) =
          mkSums (fb + (if bAlloc k then 0 else bSize k)) (fk + (if bAlloc k then 0 else 1))
                 (ab + (if bAlloc k then 1 else 0))) as ->.
  { unfold countBlock. cbn [IsAllocated header Size]. destruct (bAlloc k); cbn -[u64];
      rewrite ?u64_id by (unfold is_u64; lia); f_equal; lia. }
  rewrite (IH fuel (Some l) bs); try done; try (destruct (bAlloc k); lia).
  f_equal. f_equal.
  - rewrite <- app_assoc. cbn. by unfold heapRow.
  - unfold blkSums. rewrite !sumZ_cons. cbn. f_equal; lia.
Qed.

(** Every byte of the heap is allocated or free, and every block is one of the
    two. *)
Lemma blkSums_total s bs e :
  tiled s bs e →
  freeBytes (blkSums bs) + sumZ usedBytes bs = e - s ∧ sumZ bSize bs = e - s ∧
  freeBlocks (blkSums bs) + allocBlocks (blkSums bs) = len bs ∧ len bs ≤ e - s ∧
  Forall (λ k, 0 < bSize k) bs.
Proof.
  revert s. induction bs as [|k bs IH]; intros s; cbn [tiled blkSums freeBytes freeBlocks allocBlocks].
  { intros ->. unfold sumZ, len. cbn. split; [lia|]. split; [lia|]. split; [done|]. split; [lia|done]. }
  intros (_ & Hk & Ht). destruct (IH _ Ht) as (H1 & H2 & H3 & H4 & H5). unfold usedBytes in *.
  cbn [blkSums freeBytes freeBlocks allocBlocks] in *. rewrite !sumZ_cons, len_cons.
  split; [destruct (bAlloc k); lia|]. split; [lia|]. split; [destruct (bAlloc k); lia|].
  split; [lia|]. by constructor.
Qed.

(** Complete coalescing leaves at most one free chunk more than blocks in use. *)
Lemma coalesced_count f bs :
  coalesced f bs →
  freeBlocks (blkSums bs) ≤ allocBlocks (blkSums bs) + (if f then 0 else 1).
Proof.
  revert f. induction bs as [|k bs IH]; intros f; cbn [coalesced]; [by destruct f|].
  intros [Hf Hc%IH]. unfold blkSums in *. cbn in *. rewrite !sumZ_cons. destruct f, (bAlloc k); cbn in *; done || lia.
Qed.

Lemma heapScan_refines a h :
  refines a h → heap_wf h →
  heapScan a = Some ((λ k, heapRow (header k None None)) <$> hBlocks h, blkSums (hBlocks h)).
Proof.
  intros [_ _ _ _ [ls Hr]] [Hs Ht He Htl _ _]. pose proof (repr_fuel _ _ _ Hr) as Hf.
  destruct Hr as [Hh _ Hseg]. destruct (blkSums_total _ _ _ Htl) as (_ & H2 & _ & H4 & H5).
  unfold heapScan. rewrite Hh, (heapLoop_seg _ _ _ _ _ _ _ _ _ Hseg Hf) by (done || lia). done.
Qed.

(** C21. The heap report accounts for the whole heap: after any sequence of Malloc
    and Free calls the loop over the block headers ends without a dangling
    pointer and lists every block of the heap once, in address order; the
    reported allocated and free bytes add up to the size of the heap, the
    reported block counts to the number of rows, and there is at most one free
    chunk more than blocks in use. *)
Theorem RenderHeapMap_accounts start total os
    (Hstart : 0 ≤ start) (Htotal : 0 < total ≤ u64_mod - 17) (Hend : start + total ≤ u64_mod)
    (Hos : Forall op_ok os) :
  ∃ rs a rows s, calls os (NewFreeListAllocator start total) = Some (rs, a) ∧
    heapScan a = Some (rows, s) ∧ is_Some (RenderHeapMap a) ∧
    rows = (λ k, heapRow (header k None None)) <$> hBlocks (snd (hcalls os (hNew start total))) ∧
    freeBytes s + AllocatedBytes a = FreeList.TotalSize a ∧ FreeList.TotalSize a = total ∧
    freeBlocks s + allocBlocks s = len rows ∧ freeBlocks s ≤ allocBlocks s + 1.
Proof.
  destruct (calls_refines os _ _ (New_refines start total)) as (a & E & Hr).
  pose proof (hcalls_wf os (hNew start total) (hNew_wf start total Hstart Htotal Hend) Hos) as Hwf.
  destruct (hcalls_range os (hNew start total)) as [Hs Ht].
  set (h := snd (hcalls os (hNew start total))) in *. cbn in Hs, Ht.
  pose proof (heapScan_refines a h Hr Hwf) as Hscan.
  destruct (blkSums_total _ _ _ (wf_tiled h Hwf)) as (H1 & _ & H3 & _).
  do 4 eexists. split; [exact E|]. split; [exact Hscan|]. split.
  { unfold RenderHeapMap. rewrite Hscan. cbn. eauto. }
  split; [done|]. split; [rewrite (rf_bytes a h Hr), (rf_total a h Hr), (wf_bytes h Hwf); lia|].
  split; [by rewrite (rf_total a h Hr)|].
  split; [unfold len in *; by rewrite length_fmap|]. apply (coalesced_count false), Hwf.
Qed.

Lemma RenderHeapMap_accounts_witness :
  let os := [OpMalloc 512 false; OpMalloc 1024 false; OpMalloc 256 false; OpFree 66048; OpFree 65536] in
  ∃ rs a rows s, calls os (NewFreeListAllocator 65536 4096) = Some (rs, a) ∧
    heapScan a = Some (rows, s) ∧ is_Some (RenderHeapMap a) ∧
    rows = (λ k, heapRow (header k None None)) <$> hBlocks (snd (hcalls os (hNew 65536 4096))) ∧
    freeBytes s + AllocatedBytes a = FreeList.TotalSize a ∧ FreeList.TotalSize a = 4096 ∧
    freeBlocks s + allocBlocks s = len rows ∧ freeBlocks s ≤ allocBlocks s + 1.
Proof.
  intros os. apply (RenderHeapMap_accounts 65536 4096 os); [lia|unfold u64_mod; lia|unfold u64_mod; lia|].
  unfold os. repeat constructor; unfold op_ok, is_u64, u64_mod; lia.
Defined.
