(* ===== verification/ReportsSync.v ===== *)
(** * Reports of the concurrency components

    [RenderRaceExplanation] of [race_demo.go], [RenderDiningStatus] of
    [dining_philosophers.go] and [RenderState] of [deadlock_banker.go], all in
    [src/pkg/concurrency]. *)

From S2P Require Import Prelude Visualizer Drawing GoText Reports.
From S2P Require Import Race Dining Banker.

(** ** The data race *)
Definition unsafeStatus (res : RaceResult) : string :=
  if LostUpdates res =? 0 then Badge "NO RACE OBSERVED" BgYellow FgHiWhite
  else Badge "DATA RACE DETECTED" BgRed FgHiWhite.

Definition raceTable (res : RaceResult) : Table :=
  tableOf
    ["Execution Mode"; "Goroutines"; "Iterations/G"; "Expected Count"; "Actual Count";
     "Lost Updates"; "Status"]
    ["left"; "right"; "right"; "right"; "right"; "right"; "center"]
   [[ "Unsafe (No Locks/Atomics)";
      fmt_d (NumGoroutines res);
      fmt_d (IterationsPerGoroutine res);
      fmt_d (ExpectedValue res);
      FgHiRed +:+ fmt_d (UnsafeActualValue res) +:+ Reset;
      FgHiRed +:+ fmt_d (LostUpdates res) +:+ Reset;
      unsafeStatus res ];
    [ "Safe (Hardware Atomics)";
      fmt_d (NumGoroutines res);
      fmt_d (IterationsPerGoroutine res);
      fmt_d (ExpectedValue res);
      FgHiGreen +:+ fmt_d (SafeActualValue res) +:+ Reset;
      "0";
      Badge "SYNCHRONIZED (CORRECT)" BgGreen FgHiWhite ]].

Definition assemblyTrace : list string :=
  [ "HARDWARE ROOT CAUSE: Non-Atomic Load-Modify-Store (x86 Assembly):";
    "  Step 1 [Thread 1]: mov eax, [counter]   ; Reads counter (e.g., 50) into CPU register";
    "  ──── CONTEXT SWITCH / HARDWARE INTERLEAVING ────";
    "  Step 2 [Thread 2]: mov eax, [counter]   ; Reads same counter (50)";
    "  Step 3 [Thread 2]: add eax, 1           ; Increments eax to 51";
    "  Step 4 [Thread 2]: mov [counter], eax   ; Writes 51 to RAM";
    "  ──── CONTEXT SWITCH BACK TO THREAD 1 ────";
    "  Step 5 [Thread 1]: add eax, 1           ; Increments its OWN local register (50+1=51)";
    "  Step 6 [Thread 1]: mov [counter], eax   ; OVERWRITES 51 to RAM (Lost Thread 2's update!)";
    "";
    "FIX: Mutual Exclusion (Mutex) or Hardware Atomic Instructions (LOCK CMPXCHG / LOCK XADD)." ].

Definition RenderRaceExplanation (res : RaceResult) : string :=
  SubHeader "Data Race & Concurrency Interleaving (OSTEP Chapter 26)" +:+
  Render (raceTable res) +:+ newline +:+ Box "Assembly Level Interleaving Breakdown" assemblyTrace.

(** ** The philosophers *)
Definition philosopherRow (dp : DiningPhilosophers) (i : nat) : list string :=
  [ "Philosopher " +:+ fmt_d (Z.of_nat i);
    "Fork " +:+ fmt_d (Z.of_nat i);
    "Fork " +:+ fmt_d (Z.of_nat (rightFork (NumPhilosophers dp) i));
    fmt_d (MealsEaten dp i);
    Badge "COMPLETED SAFELY" BgGreen FgHiWhite ].

Definition diningTable (dp : DiningPhilosophers) : Table :=
  tableOf
    ["Philosopher"; "Left Fork"; "Right Fork"; "Meals Completed"; "Status"]
    ["center"; "center"; "center"; "right"; "center"]
    (philosopherRow dp <$> seq 0 (NumPhilosophers dp)).

Definition diningTheory : list string :=
  [ "WHY DIJKSTRA'S RESOURCE HIERARCHY SOLVES DEADLOCK:";
    "• In the Naive approach: Every philosopher picks up Fork(i) then Fork(i+1).";
    "  This creates a directed cycle: P0->F0->P1->F1->P2->F2->P3->F3->P4->F4->P0 (Circular Wait!).";
    "• In the Resource Ordering approach: Mutexes are ordered strictly by integer ID.";
    "  Philosopher 4 acquires Fork 0 FIRST, then Fork 4.";
    "  This breaks the cycle because P4 and P0 now compete for Fork 0.";
    "  One of them wins Fork 0, leaving Fork 4 free for Philosopher 3 to eat and finish!";
    "• Result: Circular Wait condition is IMPOSSIBLE -> Deadlock is mathematically eliminated." ].

Definition RenderDiningStatus (dp : DiningPhilosophers) : string :=
  SubHeader "Dining Philosophers Problem & Solutions (OSTEP Chapter 31)" +:+
  Render (diningTable dp) +:+ newline +:+ Box "Mathematical Deadlock Elimination Proof" diningTheory.

(** ** The banker *)

(** [None] is an index out of range. *)
Fixpoint bankRows (n : nat) (i : Z) (b : BankersState) : option (list (list string)) :=
  match n with
  | O => Some []
  | S n =>
      al ← idx (Allocation b) i;
      mx ← idx (Max b) i;
      nd ← idx (Need b) i;
      rows ← bankRows n (i + 1) b;
      Some ([ "P" +:+ fmt_d i;
          fmt_v_ints al;
          fmt_v_ints mx;
          fmt_v_ints nd;
          (if i =? 0 then fmt_v_ints (Available b) else "") ] :: rows)
  end.

Definition bankTable (rows : list (list string)) : Table :=
  tableOf
    ["Process"; "Allocation"; "Max Claim"; "Need (Remaining)"; "Available"]
    ["center"; "center"; "center"; "center"; "center"]
    rows.

Definition coffman : list string :=
  [ "THE 4 COFFMAN CONDITIONS FOR DEADLOCK (Must ALL hold simultaneously):";
    "1. Mutual Exclusion: Resources cannot be shared simultaneously.";
    "2. Hold and Wait: Process holds one resource while waiting to acquire another.";
    "3. No Preemption: Resources cannot be forcibly taken from a holding process.";
    "4. Circular Wait: A closed loop of processes where each holds a resource needed by the next.";
    "";
    "DEADLOCK PREVENTION vs AVOIDANCE:";
    "• Prevention: Invalidate at least ONE of the 4 Coffman conditions (e.g. Total Resource Ordering).";
    "• Avoidance (Banker's): Dynamically check each request and grant ONLY if a Safe Sequence remains." ].

Definition RenderState (b : BankersState) : option string :=
  rows ← bankRows (Z.to_nat (NumProcesses b)) 0 b;
  Some (SubHeader "Dijkstra's Banker's Algorithm State Matrix" +:+
        Render (bankTable rows) +:+ newline +:+ Box "Deadlock Theory & Coffman Conditions" coffman).
