(* ===== verification/ReportsKernel.v ===== *)
(** * Reports of the kernel

    [RenderModeComparison] of [cpu_mode.go], [RenderIDT] of [trap_table.go],
    [RenderSyscallTable] of [syscall.go], [RenderProcessTree] of
    [process_lifecycle.go], [RenderDashboard] of [os_kernel.go] and
    [RenderIsolationReport] of [isolation.go], all in [src/pkg/kernel].  The
    process table is printed in the order in which Go iterates over maps, and is
    shown to list every process once in every such order. *)

From S2P Require Import Prelude Floats Visualizer Drawing GoText Reports ReportsMemory.
From S2P Require Import Process SchedCore Tlb PageReplacement Banker.
From S2P Require Import CpuMode Syscalls Lifecycle OsKernel.

(** ** Modes and traps *)
Definition modeTable : Table :=
  tableOf
    ["Dimension"; "User Mode (Ring 3)"; "Kernel Mode (Ring 0)"]
    ["left"; "left"; "left"]
   [["Privilege Level"; "Lowest (Restricted)"; "Highest (Full Supervisor)"];
    [ "Memory Access";
      "Virtual address space (User segments only)";
      "All Physical & Virtual memory (Direct)" ];
    [ "Privileged Instructions";
      Badge "BLOCKED (Traps #GP)" BgRed FgHiWhite;
      Badge "ALLOWED (Full)" BgGreen FgHiWhite ];
    [ "I/O Device Access";
      "Restricted (Must request via Syscall)";
      "Direct Hardware Bus (IN / OUT, MMIO)" ];
    [ "Interrupt Control";
      "Cannot disable interrupts";
      "Can disable/enable interrupts (CLI / STI)" ];
    [ "Stack Used";
      "User Space Stack";
      "Private Kernel Stack (Safe from user corruption)" ]].

Definition modeLines : list string :=
  [ "WHY DUAL-MODE CPU OPERATION IS CRITICAL:";
    "1. Crash Containment & Protection:";
    "   - If a user application has a bug (e.g. null pointer dereference), only that process dies.";
    "   - User code CANNOT corrupt other applications or the operating system kernel.";
    "2. Security Boundary:";
    "   - User code cannot read passwords from raw physical RAM or eavesdrop on network packets without kernel permission.";
    "3. Transition Mechanism:";
    "   - User applications enter Kernel Mode ONLY through controlled gates: System Calls (INT 0x80 / SYSCALL) and Traps." ].

Definition RenderModeComparison : string :=
  SubHeader "CPU Privilege Rings: User Mode (Ring 3) vs Kernel Mode (Ring 0)" +:+
  Render modeTable +:+ newline +:+ Box "Dual-Mode OS Security & Stability" modeLines.

Definition trapBadge (t : TrapType) : string :=
  match t with
  | TrapInterrupt => Badge "HARDWARE IRQ" BgYellow FgHiWhite
  | TrapSyscall => Badge "SYSCALL GATE" BgGreen FgHiWhite
  | TrapException => Badge "EXCEPTION" BgRed FgHiWhite
  end.

Definition idtRow (v : Z) (desc : TrapDescriptor) : list string :=
  [ "0x" +:+ fmt_0X 2 v +:+ " (" +:+ fmt_d v +:+ ")";
    DescName desc;
    trapBadge (DescType desc);
    Description desc;
    fmt_d (Count desc) ].

Definition idtVectors : list Z := [0; 6; 13; 14; 32; 33; 46; 0x80].

Definition idtTable (tt : TrapTable) : Table :=
  tableOf
    ["Vector"; "Name"; "Classification"; "Description"; "Fired Count"]
    ["center"; "left"; "center"; "left"; "right"]
    (omap (λ v, idtRow v <$> Descriptors tt !! v) idtVectors).

Definition idtLines : list string :=
  [ "TRAP / INTERRUPT DISPATCH MECHANISM (Hardware Step-by-Step):";
    "1. Trigger: Software (INT 0x80/SYSCALL), Hardware Device (Timer/NIC), or CPU Error (Div0/PageFault).";
    "2. Hardware Context Save: CPU hardware pushes SS, RSP, RFLAGS, CS, RIP onto the private KERNEL STACK.";
    "3. Privilege Transition: CPU clears CPL (Current Privilege Level) to Ring 0 (Kernel Mode).";
    "4. Vector Lookup: CPU indexes the IDT at 'IDTR_Base + (Vector * 16)' to find the ISR function address.";
    "5. ISR Execution: Kernel executes C/Go handler code.";
    "6. IRET / SYSRET: Hardware pops saved registers from kernel stack and restores User Mode (Ring 3)!" ].

Definition RenderIDT (tt : TrapTable) : string :=
  SubHeader "Interrupt Descriptor Table (IDT / Trap Vector Table)" +:+
  Render (idtTable tt) +:+ newline +:+ Box "Hardware Trap & Interrupt Sequence" idtLines.

(** ** System calls *)
Definition syscallRow (entry : SyscallEntry) : list string :=
  [fmt_d (Number entry); Bold +:+ (SysName entry) +:+ Reset; Signature entry;
   SysDescription entry; fmt_d (TotalCalls entry)].

Definition syscallTable (sd : SyscallDispatcher) : Table :=
  tableOf
    ["Syscall # (RAX)"; "Name"; "C Function Signature"; "Description"; "Calls"]
    ["center"; "left"; "left"; "left"; "right"]
    (omap (λ num : nat, syscallRow <$> SysTable sd !! Z.of_nat num) (seq 1 13)).

Definition callingConv : list string :=
  [ "SYSTEM CALL CALLING CONVENTION (x86-64 Linux ABI):";
    "• RAX = System Call Number (e.g. 1 for fork, 6 for write)";
    "• RDI = 1st Argument (e.g. file descriptor int fd)";
    "• RSI = 2nd Argument (e.g. user buffer address const void *buf)";
    "• RDX = 3rd Argument (e.g. byte count size_t count)";
    "• R10, R8, R9 = 4th, 5th, 6th Arguments";
    "• Return Value: Placed in RAX upon return (negative integer = -errno error code).";
    "";
    "KERNEL SECURITY (POINTER SANITIZATION):";
    "• The kernel MUST validate all user pointers before dereferencing them.";
    "• If a user passes an address >= 0xC0000000, kernel aborts with -EFAULT to prevent user from reading/writing kernel memory!" ].

Definition RenderSyscallTable (sd : SyscallDispatcher) : string :=
  SubHeader "Kernel System Call Dispatch Table (Syscall Table)" +:+
  Render (syscallTable sd) +:+ newline +:+ Box "Syscall Mechanism & Security" callingConv.

(** ** Processes *)
Definition UnixProcessState_string (s : UnixProcessState) : string :=
  match s with
  | ProcStateReady => "READY"
  | ProcStateRunning => "RUNNING"
  | ProcStateBlocked => "BLOCKED"
  | ProcStateZombie => "ZOMBIE"
  | ProcStateReaped => "REAPED"
  end.

Definition stateBadge (p : UnixProcess) : string :=
  if bool_decide (UState p = ProcStateZombie) then Badge "ZOMBIE" BgYellow FgHiWhite
  else Badge (UnixProcessState_string (UState p)) BgGreen FgHiWhite.

Section processes.
(** The orders of the iterations over the table and over the descriptors of
    each process. *)
Context (ord : MapOrder Z UnixProcess) (fdOrd : Z → MapOrder Z string).

Definition processRow (p : UnixProcess) : list string :=
  let fds := (λ e, fmt_d e.1 +:+ ":" +:+ e.2) <$> visit (fdOrd (UPID p)) (OpenFDs p) in
  [ fmt_d (UPID p);
    fmt_d (PPID p);
    UName p;
    stateBadge p;
    if bool_decide (UState p = ProcStateZombie) then fmt_d (ExitCode p) else "-"%string;
    Join fds ", ";
    if bool_decide (Children p = []) then "none"%string else fmt_v_ints (Children p) ].

Definition processTable (pm : ProcessManager) : Table :=
  tableOf
    ["PID"; "PPID"; "Process Name"; "State"; "Exit Code"; "Open Descriptors"; "Children"]
    ["center"; "center"; "left"; "center"; "center"; "left"; "left"]
    ((λ e, processRow e.2) <$> visit ord (Processes pm)).

Definition lifecycleTheory : list string :=
  [ "UNIX PROCESS LIFECYCLE (OSTEP Chapter 5):";
    "1. fork(): Duplicates calling process. Returns 0 to child, child PID to parent.";
    "2. execve(): Replaces process code/data/stack with a new executable (retains PID & FDs).";
    "3. exit(): Releases memory, sets state to ZOMBIE. Zombie PCB remains to store exit code.";
    "4. wait() / waitpid(): Parent reads child exit code and REAPS zombie PCB.";
    "5. Zombie Process: Terminated process whose parent has not yet called wait().";
    "6. Orphan Process: Process whose parent died; automatically adopted and reaped by init (PID 1)." ].

Definition RenderProcessTree (pm : ProcessManager) : string :=
  SubHeader "Unix Process Table & Lifecycle State" +:+
  Render (processTable pm) +:+ newline +:+ Box "Process Lifecycle Architecture" lifecycleTheory.

(** ** The dashboard *)
Context {Sch : Type} `{Scheduler Sch}.
Implicit Types k : OSKernel Sch.

Definition curPIDStr k : string :=
  match RunningProcess k with
  | Some pid => "PID " +:+ fmt_d pid +:+ " (" +:+ nameOf pid (ProcManager k) +:+ ")"
  | None => "IDLE"
  end.

Definition cpuState k : list string :=
  [ "CPU Privilege Mode:     " +:+ (Bold +:+ (CPUMode_String (CurrentMode (CPU k))) +:+ Reset);
    "Currently Running:      " +:+ FgHiGreen +:+ curPIDStr k +:+ Reset;
    "Program Counter (RIP):  0x" +:+ fmt_0X 8 (ProgramCounter (CPU k));
    "Stack Pointer (RSP):    0x" +:+ fmt_0X 8 (UserRSP (CPU k));
    "Page Table Root (CR3):  0x" +:+ fmt_0X 8 (CR3 (CPU k));
    "Active CPU Scheduler:   " +:+ s_Name (KScheduler k);
    "Interrupts Enabled:     " +:+ fmt_v_bool (InterruptsOn (CPU k)) ].

Definition memStats k : list string :=
  [ "Hardware TLB Hit Rate: " +:+ fmt_f 2 (HitRate (mmTLB (MemManager k))) +:+ "% (" +:+
      fmt_d (Hits (mmTLB (MemManager k))) +:+ " Hits / " +:+
      fmt_d (Misses (mmTLB (MemManager k))) +:+ " Misses)";
    "Total Page Faults:     " +:+ fmt_d (PageFaults (MemManager k));
    "Page Evictions:        " +:+ fmt_d (PageEvictions (MemManager k)) +:+ " (Policy: " +:+
      policy_string (Policy (MemManager k)) +:+ ")";
    "Swap Disk Reads/Writes:" +:+ fmt_d (SwapReads (MemManager k)) +:+ " / " +:+
      fmt_d (SwapWrites (MemManager k)) ].

(** The last five events. *)
Definition recentEvents k : list string :=
  let start := if 5 <? len (EventHistory k) then len (EventHistory k) - 5 else 0 in
  drop (Z.to_nat start) (EventHistory k).

Definition RenderDashboard k : string :=
  SectionHeader ("UNIFIED OS KERNEL LIVE DASHBOARD (TICK: " +:+ fmt_d (KCurrentTick k) +:+ ")") +:+
  Box "Hardware CPU & MMU State" (cpuState k) +:+
  newline +:+ RenderProcessTree (ProcManager k) +:+
  newline +:+ Box "Virtual Memory & Paging Subsystem" (memStats k) +:+
  (if 0 <? len (EventHistory k) then newline +:+ Box "Recent Kernel Event Logs" (recentEvents k)
   else "").
End processes.

(** ** The isolation experiment *)
Definition isolationTable (res : IsolationExperimentResult) : Table :=
  tableOf
    ["Process"; "Virtual Address"; "VPN"; "PFN (Hardware Frame)"; "Physical Address";
     "Stored Memory Payload"]
    ["center"; "center"; "center"; "center"; "center"; "left"]
   [[ "Process A (PID " +:+ fmt_d (ProcA_PID res) +:+ ")";
      "0x" +:+ fmt_0X 8 (IsoVirtualAddress res);
      "0x" +:+ fmt_0X 4 (IsoVirtualAddress res / 4096);
      "PFN " +:+ fmt_d (ProcA_PFN res);
      "0x" +:+ fmt_0X 8 (ProcA_Physical res);
      Green (quote +:+ ProcA_Value res +:+ quote) ];
    [ "Process B (PID " +:+ fmt_d (ProcB_PID res) +:+ ")";
      "0x" +:+ fmt_0X 8 (IsoVirtualAddress res);
      "0x" +:+ fmt_0X 4 (IsoVirtualAddress res / 4096);
      "PFN " +:+ fmt_d (ProcB_PFN res);
      "0x" +:+ fmt_0X 8 (ProcB_Physical res);
      Yellow (quote +:+ ProcB_Value res +:+ quote) ]].

Definition isolationLines (res : IsolationExperimentResult) : list string :=
  [ "VIRTUAL ADDRESS ISOLATION PROOF:";
    "• Process A Virtual 0x" +:+ fmt_0X 8 (IsoVirtualAddress res) +:+
      " ──► MMU Translation ──► Physical RAM 0x" +:+ fmt_0X 8 (ProcA_Physical res) +:+ " (" +:+
      quote +:+ ProcA_Value res +:+ quote +:+ ")";
    "• Process B Virtual 0x" +:+ fmt_0X 8 (IsoVirtualAddress res) +:+
      " ──► MMU Translation ──► Physical RAM 0x" +:+ fmt_0X 8 (ProcB_Physical res) +:+ " (" +:+
      quote +:+ ProcB_Value res +:+ quote +:+ ")";
    "";
    "KEY TAKEAWAYS (OSTEP Chapter 13 & 18):";
    "1. Transparency: Every program believes it has the entire 4GB/64-bit address space to itself.";
    "2. Complete Isolation: Even though both processes use the EXACT same virtual address 0x00401050,";
    "   they are physically separated in hardware RAM. Process B CANNOT see or overwrite Process A's data!";
    "3. Hardware Enforcement: Any attempt to access memory outside a process's page table causes an";
    "   instant Page Fault Exception (#PF / SIGSEGV):" +:+ newline +:+ "   " +:+
      Red (TrapMessage res) ].

Definition RenderIsolationReport (res : IsolationExperimentResult) : string :=
  SubHeader "Process Memory Isolation & Virtual Address Space Protection" +:+
  Render (isolationTable res) +:+ newline +:+
    Box "Hardware Isolation Architecture" (isolationLines res).

(** ** What the process table shows *)

(** C23. The process table shows the process tree: in whatever order Go iterates
    over the table and over the descriptors, there is exactly one row for each
    process, headed by its number and followed by its parent and, for a zombie
    and only for a zombie, its exit code; and every row has a cell for every
    column. *)
Theorem process_table (ord : MapOrder Z UnixProcess) (fdOrd : Z → MapOrder Z string) pm
    (Htree : tree pm) :
  let rows := Rows (processTable ord fdOrd pm) in
  rectangular (processTable ord fdOrd pm) ∧
  (head <$> rows) ≡ₚ (λ k, Some (fmt_d k)) <$> elements (dom (Processes pm)) ∧
  NoDup (head <$> rows) ∧
  ∀ k p, Processes pm !! k = Some p → ∃ row, row ∈ rows ∧
    row !! 0%nat = Some (fmt_d k) ∧ row !! 1%nat = Some (fmt_d (PPID p)) ∧
    row !! 4%nat = Some (if decide (zombie p) then fmt_d (ExitCode p) else "-"%string).
Proof.
  intros rows. unfold processTable in *.
  set (hs := ["PID"; "PPID"; "Process Name"; "State"; "Exit Code"; "Open Descriptors"; "Children"]%string) in *.
  set (al := ["center"; "center"; "left"; "center"; "center"; "left"; "left"]%string) in *.
  set (rs := (λ e, processRow fdOrd e.2) <$> visit ord (Processes pm)) in *.
  assert (rows = rs) as -> by apply (tableOf_fields hs al rs).
  assert ((head <$> rs) = (λ k, Some (fmt_d k)) <$> (fst <$> visit ord (Processes pm))) as Hhead.
  { unfold rs. rewrite <- !list_fmap_compose. apply list_fmap_ext. intros i [k p] Hk. simpl.
    do 2 f_equal. apply (po_pid _ _ _ _ (tr_procs pm Htree k p (proj1 (visit_lookup ord _ _ _)
      (list_elem_of_lookup_2 _ _ _ Hk)))). }
  assert ((head <$> rs) ≡ₚ (λ k, Some (fmt_d k)) <$> elements (dom (Processes pm))) as Hperm.
  { rewrite Hhead. apply fmap_Permutation. rewrite (visit_perm ord).
    apply NoDup_Permutation; [apply NoDup_fst_map_to_list|apply NoDup_elements|]. intros k.
    rewrite elem_of_elements, elem_of_dom, list_elem_of_fmap. split.
    - intros ([? p] & -> & Hp%elem_of_map_to_list). by exists p.
    - intros [p Hp]. exists (k, p). by rewrite elem_of_map_to_list. }
  split_and!.
  - apply tableOf_rectangular; [done|]. apply Forall_fmap, Forall_forall. intros e _. done.
  - done.
  - rewrite Hperm. apply NoDup_fmap_2; [|apply NoDup_elements]. by intros k1 k2 [= E%(inj pretty)].
  - intros k p Hk. exists (processRow fdOrd p). split_and!.
    + unfold rs. apply list_elem_of_fmap. exists (k, p). split; [done|]. by apply visit_lookup.
    + simpl. by rewrite (proj1 (po_pid _ _ _ _ (tr_procs pm Htree k p Hk))).
    + done.
    + simpl. unfold zombie. by destruct (decide (UState p = ProcStateZombie)) as [E|E];
        [rewrite bool_decide_eq_true_2|rewrite bool_decide_eq_false_2].
Qed.

Lemma process_table_witness :
  ∃ pm, NewProcessManager = Some pm ∧
    NoDup (head <$> Rows (processTable someOrder (λ _, someOrder) pm)).
Proof.
  destruct tree_new as (pm & E & Ht). exists pm. split; [done|].
  apply (process_table someOrder (λ _, someOrder) pm Ht).
Defined.
