(* ===== verification/ReportsIo.v ===== *)
(** * Reports of communication and I/O

    [RenderPipeStatus] of [pipe.go], [RenderQueueStatus] of [message_queue.go]
    and [RenderSharedMemoryDiagram] of [shared_memory.go] in [src/pkg/ipc], and
    [ExplainSelectOverhead] of [select_poll.go], [RenderEpollComparison] of
    [epoll.go] and [RenderNetpollerExplanation] of [netpoller.go] in
    [src/pkg/io]. *)

From Stdlib Require Import Ascii String.
From S2P Require Import Prelude Visualizer Drawing GoText Reports.
From S2P Require Import Pipe Ipc.

(** ** Pipes *)
Definition pipeRow (p : UnixPipe) : list string :=
  [ fmt_d (Capacity p) +:+ " bytes";
    fmt_d (len (Buffer p)) +:+ " bytes";
    fmt_d (TotalWritten p) +:+ " bytes";
    fmt_d (TotalRead p) +:+ " bytes";
    if ReadClosed p then Badge "CLOSED" BgRed FgHiWhite
    else Badge "OPEN (fd[0])" BgGreen FgHiWhite;
    if WriteClosed p then Badge "CLOSED (EOF)" BgYellow FgHiWhite
    else Badge "OPEN (fd[1])" BgGreen FgHiWhite ].

Definition pipeTable (p : UnixPipe) : Table :=
  tableOf
    ["Buffer Capacity"; "Buffered Bytes"; "Total Written"; "Total Read"; "Read End";
     "Write End"]
    ["center"; "center"; "center"; "center"; "center"; "center"]
    [pipeRow p].

Definition pipeInfo : list string :=
  [ "UNIX PIPE ARCHITECTURE (OSTEP Chapter 5):";
    "• Unidirectional Byte Stream: Created via 'pipe(int fds[2])'.";
    "  - fds[0] = Read end";
    "  - fds[1] = Write end";
    "• In-Kernel Ring Buffer: Data resides in kernel RAM without ever touching physical disk.";
    "• Synchronization Semantics:";
    "  - Read blocks automatically when pipe is empty.";
    "  - Write blocks automatically when pipe is full (Flow Control / Backpressure).";
    "  - Closing write end causes reader to receive EOF (0 bytes).";
    "  - Writing to a pipe with closed read end raises SIGPIPE / -EPIPE." ].

Definition RenderPipeStatus (p : UnixPipe) : string :=
  SubHeader "Unix Anonymous Pipe IPC (Kernel Ring Buffer)" +:+
  Render (pipeTable p) +:+ newline +:+ Box "Pipe IPC Internals & Semantics" pipeInfo.

(** ** Message queues *)
Definition messageRow (i : nat) (msg : IPCMessage) : list string :=
  ["#" +:+ fmt_d (Z.of_nat i); "Type " +:+ fmt_d (MsgType msg);
   "PID " +:+ fmt_d (SenderPID msg); quote +:+ Payload msg +:+ quote].

Definition queueTable (mq : MessageQueue) : Table :=
  tableOf
    ["Index"; "Msg Type"; "Sender PID"; "Message Payload"]
    ["center"; "center"; "center"; "left"]
    (imap messageRow (Messages mq) ++
     if len (Messages mq) =? 0 then [["-"; "-"; "-"; "(Queue is empty)"]] else []).

Definition RenderQueueStatus (mq : MessageQueue) : string :=
  SubHeader ("Kernel Message Queue (Queue ID: " +:+ fmt_d (QueueID mq) +:+ ", Capacity: " +:+
    fmt_d (MqCapacity mq) +:+ ")") +:+
  Render (queueTable mq).

(** ** Shared memory *)

(** [string] of a slice of bytes *)
Definition bytes_string (bs : list Z) : string := bytes_of (chr <$> bs).

Definition payloadStr (seg : SharedMemorySegment) : string :=
  let payloadStr := TrimRight (bytes_string (PhysicalData seg)) (Ascii.ascii_of_nat 0) in
  if bool_decide (payloadStr = ""%string) then "(empty)"%string else payloadStr.

Definition mappingRow (seg : SharedMemorySegment) (m : ProcessMapping) : list string :=
  [ "Process (PID " +:+ fmt_d (MapPID m) +:+ ")";
    "0x" +:+ fmt_0X 8 (VirtualAddress m);
    "0x" +:+ fmt_0X 4 (VirtualAddress m / 4096);
    Green ("PFN " +:+ fmt_d (PhysicalPFN seg) +:+ " (Shared)");
    Cyan "Zero-Copy (Direct RAM)";
    quote +:+ payloadStr seg +:+ quote ].

Definition sharedTable (seg : SharedMemorySegment) (mappings : list ProcessMapping) : Table :=
  tableOf
    ["Process"; "Virtual Address"; "VPN"; "Mapped Hardware PFN"; "Access Speed"; "Payload"]
    ["center"; "center"; "center"; "center"; "center"; "left"]
    (mappingRow seg <$> mappings).

Definition sharedTheory : list string :=
  [ "HOW SHARED MEMORY ACHIEVES ZERO-COPY IPC:";
    "• Pipes & Sockets require 2 memory copies + 2 system calls:";
    "  - Process A (User Space) ──► sys_write (Copy 1) ──► Kernel Buffer ──► sys_read (Copy 2) ──► Process B (User Space)";
    "• Shared Memory requires ZERO memory copies and ZERO system calls during read/write:";
    "  - Both Process A and Process B have page table entries pointing to the EXACT same physical frame (PFN).";
    "  - Process A writes directly to memory bus; Process B sees it at hardware clock speed!";
    "• Synchronization Requirement:";
    "  - Because there is no kernel mediation on read/write, processes MUST synchronize using IPC Semaphores / Futexes to prevent race conditions." ].

Definition RenderSharedMemoryDiagram (shmID : Z) (smm : SharedMemoryManager) : string :=
  match ShmSegments smm !! shmID with
  | None => "Segment not found" +:+ newline
  | Some seg =>
      SubHeader ("Shared Memory IPC: Physical Frame Mappings (ShmID: " +:+ fmt_d shmID +:+ ")") +:+
      Render (sharedTable seg (default [] (Mappings smm !! shmID))) +:+
      newline +:+ Box "Zero-Copy Shared Memory Architecture" sharedTheory
  end.

(** ** Multiplexing *)
Definition ExplainSelectOverhead (totalFDs : Z) : string :=
  "SELECT/POLL SCALING BOTTLENECK (O(N)):" +:+ newline +:+ "• To monitor " +:+ fmt_d totalFDs +:+
    " descriptors, user space must copy an entire " +:+ fmt_d totalFDs +:+
    "-element array/bitmap into kernel space." +:+ newline +:+
    "• Kernel iterates through ALL " +:+ fmt_d totalFDs +:+
    " descriptors one by one to check status." +:+ newline +:+
    "• Even if only 1 descriptor has activity, CPU does " +:+ fmt_d totalFDs +:+
    " checks on every call -> Destroys scalability at C10K!".

(** [activeFDs] is not used. *)
Definition epollTable (totalFDs activeFDs : Z) : Table :=
  tableOf
    ["I/O Mechanism"; "Complexity"; "Kernel Structure"; "Scans on Event"; "Active FD Retrieval";
     "C10K Scalability"]
    ["left"; "center"; "left"; "center"; "center"; "center"]
   [["select()"; "O(N)"; "Bitmask (FD_SET)"; fmt_d totalFDs +:+ " FDs"; "O(N) full scan";
     Badge "POOR" BgRed FgHiWhite];
    ["poll()"; "O(N)"; "Array of pollfd"; fmt_d totalFDs +:+ " FDs"; "O(N) full scan";
     Badge "POOR" BgRed FgHiWhite];
    [ "epoll() / kqueue";
      "O(1)";
      "RB-Tree + Ready-List";
      "0 (O(1))";
      "O(1) Ready-List only";
      Badge "EXCELLENT" BgGreen FgHiWhite ]].

Definition epollLines : list string :=
  [ "HOW EPOLL ACHIEVES O(1) PERFORMANCE UNDER THE HOOD:";
    "1. In-Kernel Interest List (Red-Black Tree):";
    "   - File descriptors are registered once with epoll_ctl(). No copying large arrays every loop!";
    "2. Device Driver Callback Integration:";
    "   - When a network packet arrives on the NIC, the hardware interrupt invokes ep_poll_callback().";
    "   - The kernel adds ONLY the activated socket to the epoll Ready List (Doubly-Linked List).";
    "3. epoll_wait() returns ONLY the Ready List:";
    "   - If 100,000 connections are idle and 2 receive data, epoll_wait returns in O(1) with 2 events!";
    "   - select() and poll() would wastefully iterate through all 100,000 descriptors." ].

Definition RenderEpollComparison (totalFDs activeFDs : Z) : string :=
  SubHeader "I/O Multiplexing Scaling: Select/Poll vs Epoll" +:+
  Render (epollTable totalFDs activeFDs) +:+ newline +:+
    Box "Epoll Architecture Deep Dive" epollLines.

Definition netpollerLines : list string :=
  [ "THE BRILLIANCE OF GO's NETPOLLER ARCHITECTURE:";
    "• In C/C++ or traditional Java:";
    "  - Developers must write complex asynchronous callback state machines or event loops (like epoll_wait directly).";
    "  - Or allocate 1 OS thread per connection (10,000 threads = crash).";
    "• In Go:";
    "  - You write clean, sequential, synchronous code: 'data, err := conn.Read()'";
    "  - Runtime Netpoller catches 'EAGAIN' and parks the G into kernel epoll.";
    "  - The OS thread M is instantly freed to run other user Goroutines!";
    "  - When network data arrives, sysmon / epoll wakes the G and puts it in P's queue.";
    "• Zero blocking OS threads, zero memory waste, infinite concurrency scalability!" ].

Definition RenderNetpollerExplanation : string :=
  SubHeader "Go Runtime Netpoller: Epoll + Goroutines Integration" +:+
  Box "How Go Dominates High-Concurrency Network Systems" netpollerLines.

(** ** What the diagram shows of a segment *)
Lemma TrimRight_app s1 s2 c :
  TrimRight s2 c = ""%string → TrimRight (s1 +:+ s2) c = TrimRight s1 c.
Proof.
  intros Hs. induction s1 as [|a s1 IH]; [done|]. rewrite app_cons_str. cbn [TrimRight]. by rewrite IH.
Qed.

Lemma bytes_string_app l1 l2 : bytes_string (l1 ++ l2) = bytes_string l1 +:+ bytes_string l2.
Proof.
  unfold bytes_string. induction l1 as [|b l1 IH]; [done|].
  change (String (chr b) (bytes_of (chr <$> (l1 ++ l2))) =
    (String (chr b) (bytes_of (chr <$> l1))) +:+ bytes_of (chr <$> l2)).
  by rewrite app_cons_str, IH.
Qed.

Lemma chr_nonzero b : 0 < b < 256 → chr b ≠ Ascii.ascii_of_nat 0.
Proof.
  intros Hb E. apply (f_equal Ascii.N_of_ascii) in E. unfold chr in E.
  rewrite Ascii.N_ascii_embedding in E by lia. change (Ascii.N_of_ascii (Ascii.ascii_of_nat 0)) with 0%N in E. lia.
Qed.

(** A message that fits into a new segment, and does not end in a zero byte, is
    shown as it was written. *)
Lemma payload_roundtrip data last seg n :
  PhysicalData seg = replicate n 0 → (length data < n)%nat → 0 < last < 256 →
  payloadStr (WriteSync (data ++ [last]) seg) = bytes_string (data ++ [last]).
Proof.
  intros Hd Hn Hl. unfold payloadStr. simpl. unfold copyBytes.
  rewrite Hd, length_replicate, take_ge, drop_replicate by (rewrite length_app; simpl; lia).
  rewrite bytes_string_app, TrimRight_app.
  2: { generalize (n - length (data ++ [last]))%nat. intros k. unfold bytes_string.
       induction k as [|k IH]; [done|].
       change (bytes_of (chr <$> replicate (S k) 0)) with (String (chr 0) (bytes_of (chr <$> replicate k 0))).
       cbn [TrimRight]. by rewrite IH. }
  assert (TrimRight (bytes_string (data ++ [last])) (Ascii.ascii_of_nat 0) = bytes_string (data ++ [last]))
    as ->.
  { induction data as [|b data IH].
    - unfold bytes_string. cbn. destruct (Ascii.eqb_spec (chr last) (Ascii.ascii_of_nat 0)) as [E|_]; [|done].
      by apply chr_nonzero in E.
    - change (bytes_string ((b :: data) ++ [last])) with (String (chr b) (bytes_string (data ++ [last]))).
      cbn [TrimRight]. rewrite IH by (simpl in Hn; lia). by destruct data. }
  rewrite bool_decide_eq_false_2; [done|]. by destruct data.
Qed.
