(* ===== verification/Parallel.v ===== *)
(** * Concurrency and parallelism

    Models [src/pkg/parallelism/comparison.go]: the benchmark with its four
    phases, and the report.  The clock, the number of processors and the
    functions [math.Sin] and [math.Cos] are arguments.  The goroutines of the
    phase with a mutex and of the phase with atomic additions are transition
    systems; [sync.Mutex] is a flag that a goroutine sets when it finds it
    clear. *)

From S2P Require Import Prelude Floats Visualizer Drawing GoText Reports Steps Race.

#[local] Arguments sumZ : simpl never.

(** ** Durations

    A [time.Duration] is a number of nanoseconds; [Duration_String] is its
    method [String], which [%v] uses. *)
Definition fmtFrac (v : Z) (prec : nat) : string :=
  let digits := TrimRight (pad_zeros prec (fmt_d (v `mod` 10 ^ Z.of_nat prec))) (Ascii.ascii_of_nat 48) in
  if bool_decide (v `mod` 10 ^ Z.of_nat prec = 0) then ""%string else "." +:+ digits.

Definition fmtUnit (u : Z) (prec : nat) (unit : string) : string :=
  fmt_d (u / 10 ^ Z.of_nat prec) +:+ fmtFrac u prec +:+ unit.

Definition Duration_String (d : Z) : string :=
  let u := Z.abs d in
  (if d <? 0 then "-" else "") +:+
  if u <? 1000000000 then
    if u =? 0 then "0s"%string
    else if u <? 1000 then fmtUnit u 0 "ns"
    else if u <? 1000000 then fmtUnit u 3 "µs"
    else fmtUnit u 6 "ms"
  else
    let secs := u / 1000000000 in
    let mins := secs / 60 in
    let hours := mins / 60 in
    (if 0 <? hours then fmt_d hours +:+ "h" else "") +:+
    (if 0 <? mins then fmt_d (mins `mod` 60) +:+ "m" else "") +:+
    fmt_d (secs `mod` 60) +:+ fmtFrac u 9 +:+ "s".

(** ** The benchmark *)
Record BenchmarkResult := mkBenchmark {
  NumCores : Z; TaskCount : Z; IterationsPerTask : Z; DurationSingleCore : Z;
  DurationMultiCore : Z; SpeedupFactor : float64; LockContendedDuration : Z; LockFreeDuration : Z }.

(** The result is not used; only the time it takes is. *)
Definition cpuIntensiveWork (sin cos : float64 → float64) (iters : Z) : float64 :=
  foldl (λ sum i, let x := f_of_int (Z.of_nat i) in fadd sum (fmul (sin x) (cos x)))
    (f_of_int 0) (seq 1 (Z.to_nat iters)).

(** [for j := 0; j < iters/10; j++] *)
Definition taskRounds (iters : Z) : nat := Z.to_nat (Z.quot iters 10).

(** A goroutine of the third phase between [mu.Lock()], the two halves of
    [contendedCounter++] and [mu.Unlock()]. *)
Inductive task_pc := TLock | TLoad | TStore (v : Z) | TUnlock.

Record contention := mkContention {
  mu : bool; contendedCounter : Z; task_pcs : nat → task_pc; task_j : nat → nat }.
#[export] Instance eta_contention : Eta contention := λ s,
  mkContention (mu s) (contendedCounter s) (task_pcs s) (task_j s).

Definition contention_start : contention := mkContention false 0 (λ _, TLock) (λ _, O).

Definition contended_step (iters : Z) (t : nat) (s : contention) : option contention :=
  match task_pcs s t with
  | TLock =>
      if (task_j s t <? taskRounds iters)%nat && negb (mu s)
      then Some (s <| mu := true |> <| task_pcs ::= <[t := TLoad]> |>) else None
  | TLoad => Some (s <| task_pcs ::= <[t := TStore (contendedCounter s)]> |>)
  | TStore v => Some (s <| contendedCounter := i64 (v + 1) |> <| task_pcs ::= <[t := TUnlock]> |>)
  | TUnlock =>
      Some (s <| mu := false |> <| task_pcs ::= <[t := TLock]> |>
              <| task_j ::= <[t := S (task_j s t)]> |>)
  end.

(** The fourth phase has one step per round, [atomic.AddInt64]. *)
Definition atomic_step (iters : Z) (t : nat) (r : race) : option race :=
  safe_step (taskRounds iters) t r.

(** [single], [multi], [contended] and [lockFree] are what [time.Since] returns
    after each phase.  [None] is the panic of a wait group with a negative
    counter. *)
Definition RunComparisonBenchmark (taskCount iters numCPU single multi contended lockFree : Z)
    : option BenchmarkResult :=
  if taskCount <? 0 then None else
  Some (mkBenchmark numCPU taskCount iters single multi
          (fdiv (f_of_int single) (f_of_int multi)) contended lockFree).

(** ** The report *)
Definition benchmarkTable (res : BenchmarkResult) : Table :=
  tableOf
    ["Mode / Strategy"; "GOMAXPROCS"; "Tasks"; "Elapsed Time"; "Speedup"; "Execution Model"]
    ["left"; "center"; "right"; "right"; "right"; "left"]
   [[ "Concurrency Only";
      "1 Core";
      fmt_d (TaskCount res);
      Duration_String (DurationSingleCore res);
      "1.00x";
      "Time-sliced interleaving on 1 CPU" ];
    [ "True Parallelism";
      fmt_d (NumCores res) +:+ " Cores";
      fmt_d (TaskCount res);
      Duration_String (DurationMultiCore res);
      fmt_f 2 (SpeedupFactor res) +:+ "x";
      Green "Hardware parallel execution" ];
    [ "Mutex Contention";
      fmt_d (NumCores res) +:+ " Cores";
      fmt_d (TaskCount res);
      Duration_String (LockContendedDuration res);
      "-";
      Red "Serialized by heavy Lock (Amdahl's Law)" ];
    [ "Lock-Free Atomics";
      fmt_d (NumCores res) +:+ " Cores";
      fmt_d (TaskCount res);
      Duration_String (LockFreeDuration res);
      "-";
      Cyan "Hardware cache-line atomic scaling" ]].

Definition parallelTheory : list string :=
  [ "CONCURRENCY vs PARALLELISM (Rob Pike):";
    "• Concurrency is about STRUCTURE: composing independent execution units (goroutines/threads).";
    "  - A program can be 100% concurrent running on a single 1-core CPU via context switching.";
    "• Parallelism is about EXECUTION: running multiple computations at the EXACT same physical instant on multi-core hardware.";
    "";
    "AMDAHL'S LAW & LOCK CONTENTION:";
    "• Adding 64 CPU cores DOES NOT guarantee 64x speedup if tasks contend on shared mutexes!";
    "• Critical sections serialize execution -> multi-core threads spend all their time sleeping/spinning.";
    "• High-performance OS & Go architectures minimize shared state (share memory by communicating via channels)." ].

Definition RenderBenchmarkReport (res : BenchmarkResult) : string :=
  SubHeader "Concurrency vs Parallelism Live Hardware Benchmark" +:+
  Render (benchmarkTable res) +:+ newline +:+ Box "Core Architectural Principles" parallelTheory.

Example Duration_examples :
  Duration_String 0 = "0s" ∧ Duration_String 1500000000 = "1.5s" ∧
  Duration_String 2345678 = "2.345678ms" ∧ Duration_String (- 100) = "-100ns" ∧
  Duration_String 3723000000000 = "1h2m3s".
Proof. by vm_compute. Qed.

(** ** The counters are exact *)
Definition inside (p : task_pc) : bool := match p with TLock => false | _ => true end.
Definition stored (p : task_pc) : bool := match p with TUnlock => true | _ => false end.

Section phases.
Context (n : nat) (iters : Z).
Abbreviation K := (taskRounds iters).

(** The mutex is set exactly while one task is inside, a task that has read the
    counter holds its current value, and the counter is the number of stores. *)
Record contention_inv (s : contention) : Prop := mk_contention_inv {
  ci_mutex : count inside n (task_pcs s) = Z.b2z (mu s);
  ci_read : ∀ t v, (t < n)%nat → task_pcs s t = TStore v → v = contendedCounter s;
  ci_counter : contendedCounter s = i64 (total n (task_j s) + count stored n (task_pcs s));
  ci_round : ∀ t, (t < n)%nat →
    (task_j s t ≤ K)%nat ∧ (inside (task_pcs s t) = true → (task_j s t < K)%nat) }.

Lemma inside_one s t u :
  contention_inv s → (t < n)%nat → (u < n)%nat →
  inside (task_pcs s t) = true → inside (task_pcs s u) = true → u = t.
Proof.
  intros Hi Ht Hu Hti Hui. destruct (decide (u = t)) as [|Hne]; [done|].
  pose proof (ci_mutex s Hi) as Hm.
  assert (0 < count inside n (<[t := TLock]> (task_pcs s))) as Hp.
  { apply count_pos. exists u. by rewrite fn_lookup_insert_ne. }
  rewrite count_insert, Hti in Hp by done. cbn in Hp. destruct (mu s); cbn in *; lia.
Qed.

Lemma contention_start_inv : contention_inv contention_start.
Proof.
  assert (∀ f : task_pc → bool, f TLock = false → count f n (λ _, TLock) = 0) as Hc.
  { intros f Hf. unfold count. rewrite Hf. induction (seq 0 n); [done|]. by rewrite sumZ_cons. }
  split; cbn.
  - by apply Hc.
  - done.
  - rewrite Hc, (total_const n _ 0) by done. by rewrite Z.mul_0_r.
  - intros t Ht. split; [lia|done].
Qed.

Lemma contended_step_inv t s s' :
  contention_inv s → among n (contended_step iters) t s = Some s' → contention_inv s'.
Proof.
  intros Hi [Ht Hst]%among_Some. pose proof Hi as [I1 I2 I3 I4]. unfold contended_step in Hst.
  pose proof (λ u, inside_one s t u Hi Ht) as Hone. destruct (I4 t Ht) as [Hj Hjt].
  destruct (task_pcs s t) as [| |v|] eqn:E.
  - destruct (task_j s t <? K)%nat eqn:Ej; [|done]. destruct (mu s) eqn:Em; [done|].
    injection Hst as <-. apply Nat.ltb_lt in Ej. split; cbn.
    + rewrite count_insert, E by done. cbn in *. lia.
    + intros u v Hu. rewrite pc_insert. case_decide; [done|]. by apply I2.
    + rewrite count_insert, E by done. cbn. by rewrite Z.sub_0_r, Z.add_0_r.
    + intros u Hu. rewrite pc_insert. case_decide as Hut; [subst u|by apply I4]. done.
  - injection Hst as <-. split; cbn.
    + rewrite count_insert, E by done. cbn. lia.
    + intros u v Hu. rewrite pc_insert. case_decide; [by intros [= <-]|]. by apply I2.
    + rewrite count_insert, E by done. cbn. by rewrite Z.sub_0_r, Z.add_0_r.
    + intros u Hu. rewrite pc_insert. case_decide as Hut; [subst u; auto|by apply I4].
  - injection Hst as <-. specialize (I2 t v Ht E). subst v. split; cbn.
    + rewrite count_insert, E by done. cbn. lia.
    + intros u v Hu. rewrite pc_insert. case_decide as Hut; [done|]. intros Eu.
      destruct Hut. apply Hone; [done..|by rewrite Eu].
    + rewrite count_insert, E, I3, i64_succ by done. cbn. f_equal. lia.
    + intros u Hu. rewrite pc_insert. case_decide as Hut; [subst u; auto|by apply I4].
  - injection Hst as <-. specialize (Hjt eq_refl). split; cbn.
    + rewrite count_insert, E by done. cbn. destruct (mu s); cbn in *; [lia|].
      assert (0 < count inside n (task_pcs s)); [apply count_pos; exists t; by rewrite E|lia].
    + intros u v Hu. rewrite pc_insert. case_decide; [done|]. by apply I2.
    + rewrite count_insert, E, total_insert by done. cbn. rewrite I3. f_equal. lia.
    + intros u Hu. rewrite !pc_insert. case_decide as Hut; [subst u|by apply I4]. split; [lia|done].
Qed.

(** The number of steps taken so far. *)
Definition task_stage (p : task_pc) : Z :=
  match p with TLock => 0 | TLoad => 1 | TStore _ => 2 | TUnlock => 3 end.
Definition progress (s : contention) : Z :=
  sumZ (λ t, 4 * Z.of_nat (task_j s t) + task_stage (task_pcs s t)) (seq 0 n).

Lemma progress_step t s s' :
  among n (contended_step iters) t s = Some s' → progress s' = progress s + 1.
Proof.
  intros [Ht Hst]%among_Some. unfold progress.
  apply (sumZ_update_one _ _ (seq 0 n) t).
  - apply NoDup_ListNoDup, seq_NoDup.
  - apply elem_of_seq. lia.
  - unfold contended_step in Hst. destruct (task_pcs s t) eqn:E;
      [destruct (_ && _); [|done]|..]; injection Hst as <-; cbn;
      rewrite !fn_lookup_insert; cbn; lia.
  - intros u _ Hu. unfold contended_step in Hst.
    destruct (task_pcs s t) eqn:E; [destruct (_ && _); [|done]|..]; injection Hst as <-; cbn;
      by rewrite !fn_lookup_insert_ne.
Qed.

Lemma progress_bound s : contention_inv s → progress s ≤ 4 * Z.of_nat n * Z.of_nat K.
Proof.
  intros [_ _ _ I4]. transitivity (sumZ (λ _ : nat, 4 * Z.of_nat K) (seq 0 n)).
  - apply sumZ_le. intros t [_ Ht]%elem_of_seq. destruct (I4 t) as [Hj Hi]; [lia|].
    destruct (task_pcs s t); cbn in *; try specialize (Hi eq_refl); lia.
  - clear. generalize 0%nat. induction n as [|m IH]; intros k; [unfold sumZ; cbn; lia|].
    cbn [seq]. rewrite sumZ_cons. specialize (IH (S k)). lia.
Qed.

Lemma contended_stuck s :
  contention_inv s → (∀ t, among n (contended_step iters) t s = None) →
  ∀ t, (t < n)%nat → task_pcs s t = TLock ∧ task_j s t = K.
Proof.
  intros [I1 _ _ I4] Hstuck.
  assert (∀ t, (t < n)%nat → contended_step iters t s = None) as Hs.
  { intros t Ht. specialize (Hstuck t). unfold among in Hstuck.
    by destruct (Nat.ltb_spec t n); [|lia]. }
  assert (∀ t, (t < n)%nat → task_pcs s t = TLock) as Hl.
  { intros t Ht. specialize (Hs t Ht). unfold contended_step in Hs. by destruct (task_pcs s t). }
  assert (mu s = false) as Hmu.
  { destruct (mu s); [|done]. assert (0 < count inside n (task_pcs s)) as Hp by (cbn in I1; lia).
    apply count_pos in Hp as (t & Ht & Hp). by rewrite Hl in Hp. }
  intros t Ht. split; [by apply Hl|]. specialize (Hs t Ht). unfold contended_step in Hs.
  rewrite Hl, Hmu, andb_true_r in Hs by done. destruct (I4 t Ht) as [Hj _].
  destruct (Nat.ltb_spec (task_j s t) K); [done|lia].
Qed.

Lemma contended_run sched s s' :
  contention_inv s → run (among n (contended_step iters)) sched s = Some s' →
  contention_inv s' ∧ progress s' = progress s + len sched.
Proof.
  revert s. induction sched as [|t sched IH]; intros s Hi; cbn [run].
  { intros [= <-]. split; [done|]. unfold len. cbn. lia. }
  destruct (among n (contended_step iters) t s) as [s1|] eqn:E; cbn; [|done]. intros Hr.
  destruct (IH s1) as [H1 H2]; [by eapply contended_step_inv|done|]. split; [done|].
  rewrite H2, (progress_step _ _ _ E), len_cons. lia.
Qed.

Lemma atomic_run sched r r' :
  run (among n (atomic_step iters)) sched r = Some r' →
  total n (iter r') = total n (iter r) + len sched ∧
  ((∀ t, (iter r t ≤ K)%nat) → ∀ t, (iter r' t ≤ K)%nat).
Proof.
  revert r. induction sched as [|t sched IH]; intros r; cbn [run].
  { intros [= <-]. split; [unfold len; cbn; lia|done]. }
  destruct (among n (atomic_step iters) t r) as [r1|] eqn:E; cbn; [|done]. intros Hr.
  apply among_Some in E as [Ht Hst]. unfold atomic_step, safe_step in Hst.
  destruct (Nat.ltb_spec (iter r t) K) as [Hlt|]; [|done]. injection Hst as <-.
  destruct (IH _ Hr) as [H1 H2]. cbn in H1, H2. split.
  - rewrite H1, total_insert, len_cons by done. lia.
  - intros Hall. apply H2. intros u. rewrite pc_insert. case_decide; [lia|done].
Qed.
End phases.

(** C20. Both counting phases of the benchmark end, under every schedule of the
    goroutines, with a counter that has not lost an update: no schedule is
    longer than four steps per round with the mutex and one step per round with
    atomic additions, and when no goroutine can take a step any more all have
    returned and the counter is the number of tasks times the rounds of each. *)
Theorem benchmark_counters (n : nat) (iters : Z) (sched1 sched2 : list nat) s r :
  run (among n (contended_step iters)) sched1 contention_start = Some s →
  run (among n (atomic_step iters)) sched2 race_start = Some r →
  let k := Z.of_nat (taskRounds iters) in
  (len sched1 ≤ 4 * Z.of_nat n * k ∧
   ((∀ t, among n (contended_step iters) t s = None) →
    (∀ t, (t < n)%nat → task_j s t = taskRounds iters) ∧
    contendedCounter s = i64 (Z.of_nat n * k))) ∧
  (len sched2 ≤ Z.of_nat n * k ∧
   ((∀ t, among n (atomic_step iters) t r = None) →
    race_done n (taskRounds iters) r ∧ counter r = i64 (Z.of_nat n * k))).
Proof.
  intros Hr1 Hr2 k. split.
  - destruct (contended_run n iters _ _ _ (contention_start_inv n iters) Hr1) as [Hi Hp].
    pose proof (progress_bound n iters s Hi) as Hb.
    assert (progress n contention_start = 0) as Hz.
    { unfold progress. cbn. induction (seq 0 n); [done|]. by rewrite sumZ_cons. }
    split; [unfold k; lia|]. intros Hstuck. pose proof (contended_stuck n iters s Hi Hstuck) as Hd.
    split; [intros t Ht; by apply Hd|]. rewrite (ci_counter n iters s Hi).
    rewrite (total_const n _ (taskRounds iters)) by (intros; by apply Hd).
    assert (count stored n (task_pcs s) = 0) as ->; [|by rewrite Z.add_0_r].
    pose proof (count_nonneg stored n (task_pcs s)).
    destruct (Z.eq_dec (count stored n (task_pcs s)) 0) as [|Hne]; [done|].
    assert (0 < count stored n (task_pcs s)) as (t & Ht & Hst)%count_pos by lia.
    by rewrite (proj1 (Hd t Ht)) in Hst.
  - destruct (atomic_run n iters _ _ _ Hr2) as [Ht Hall]. cbn in Ht.
    rewrite (total_const n (λ _, O) 0) in Ht by done.
    assert (∀ t, (iter r t ≤ taskRounds iters)%nat) as Hle by (apply Hall; cbn; lia).
    pose proof (total_bound n (taskRounds iters) (iter r) Hle) as Hb. split; [unfold k; lia|].
    intros Hstuck. assert (race_done n (taskRounds iters) r) as Hd.
    { intros t Htn. specialize (Hstuck t). specialize (Hle t).
      unfold among, atomic_step, safe_step in Hstuck. destruct (Nat.ltb_spec t n); [|lia].
      destruct (Nat.ltb_spec (iter r t) (taskRounds iters)); [done|lia]. }
    split; [done|]. rewrite (safe_inv n (taskRounds iters) r); [by rewrite (total_const n _ (taskRounds iters))|].
    eapply run_reachable; [apply reach_init|exact Hr2].
Qed.

Lemma benchmark_counters_witness :
  ∃ s r, run (among 2 (contended_step 10)) [0; 0; 0; 0; 1; 1; 1; 1]%nat contention_start = Some s ∧
    run (among 2 (atomic_step 10)) [1; 0]%nat race_start = Some r ∧
    len [0; 0; 0; 0; 1; 1; 1; 1]%nat ≤ 4 * Z.of_nat 2 * 1 ∧ len [1; 0]%nat ≤ Z.of_nat 2 * 1.
Proof.
  eexists _, _. split; [reflexivity|]. split; [reflexivity|].
  destruct (benchmark_counters 2 10 [0; 0; 0; 0; 1; 1; 1; 1]%nat [1; 0]%nat _ _ eq_refl eq_refl)
    as [[H1 _] [H2 _]]. done.
Defined.
