(* ===== verification/Debugger.v ===== *)
(** * The interactive debugger

    [runInteractiveDebugger] of [src/cmd/os-sim/main.go] as a program that reads
    the standard input and prints: the start of the kernel, the loop that reads
    a line, and one branch per command.  The session is shown to end without a
    panic on every input, and the kernel to be idle throughout. *)

From Stdlib Require Import Ascii String.
From stdpp Require Import functions.
From S2P Require Import Prelude Visualizer Drawing GoText Reports ReportsKernel.
From S2P Require Import Process SchedCore SchedTheory SchedRR Lifecycle OsKernel.

(** How a program ends: with a result, in a panic, or waiting for goroutines
    that the schedule it is given does not take to their end; [NoFuel] is the
    bound of a loop that was too small. *)
Inductive ending (A : Type) :=
  | Returns (a : A)
  | Panics (out : string)
  | Blocks (out : string)
  | NoFuel.
Arguments Returns {A}.
Arguments Panics {A}.
Arguments Blocks {A}.
Arguments NoFuel {A}.

Definition println (s : string) : string := s +:+ newline.

(** The orders in which one command iterates over the maps it prints. *)
Record Orders := mkOrders { procOrd : MapOrder Z UnixProcess; fdOrds : Z → MapOrder Z string }.

(** ** The kernel and its memory

    [dnext] is the next location at which [cpu.NewProcess] allocates. *)
Record debugger := mkDbg { dk : OSKernel RRScheduler; dnext : ploc }.
#[export] Instance eta_debugger : Eta debugger := λ d, mkDbg (dk d) (dnext d).

Definition store_process (l : ploc) (p : Process) (s : RRScheduler) : RRScheduler :=
  mkRR (rr_core s <| heap ::= <[l := p]> |>) (rr_Quantum s) (rr_currentSlice s).

(** [k.Scheduler.AddProcess(cpu.NewProcess(...))]. *)
Definition addNew (p : Process) (d : debugger) : debugger :=
  mkDbg (add_process (dnext d) (dk d <| KScheduler ::= store_process (dnext d) p |>)) (S (dnext d)).

Definition set_pm (pm : ProcessManager) (d : debugger) : debugger :=
  d <| dk ::= λ k, k <| ProcManager := pm |> |>.

(** One of the two processes the debugger starts with; a failing [Fork] would
    return a nil pointer. *)
Definition spawn (name : string) (burst : Z) (d : debugger) : option debugger :=
  '(r, pm) ← Fork 1 (ProcManager (dk d));
  match r with
  | Err _ => None
  | Ok p2 =>
      '(_, pm) ← Exec p2 name [] pm;
      Some (addNew (NewProcess p2 name 0 burst) (set_pm pm d))
  end.

(** Location 0 holds init; the others are written before they are read. *)
Definition bootMemory : ploc → Process := λ _, NewProcess 1 "init" 0 100.

Definition startDebugger : option debugger :=
  k ← NewOSKernel (NewRRScheduler bootMemory 2) 0%nat;
  d ← spawn "http_server" 15 (mkDbg k 1%nat);
  spawn "db_worker" 10 d.

(** ** The commands *)
Definition is_one_of (cmd : string) (names : list string) : bool := bool_decide (cmd ∈ names).

Fixpoint stepLoop (n : nat) (d : debugger) : string * debugger :=
  match n with
  | O => (""%string, d)
  | S n =>
      let '(msg, k) := Step (dk d) in
      let '(out, d) := stepLoop n (d <| dk := k |>) in
      (println ("  " +:+ msg) +:+ out, d)
  end.

Definition stepCount (args : list string) : Z :=
  match args with
  | a :: _ => let '(n, err) := Atoi a in
              if bool_decide (err = None) && (0 <? n) then n else 1
  | [] => 1
  end.

Definition forkCommand (d : debugger) : option (string * debugger) :=
  let parentPID := default 1 (RunningProcess (dk d)) in
  '(r, pm) ← Fork parentPID (ProcManager (dk d));
  match r with
  | Err e => Some (println (Red ("Fork error: " +:+ err_msg e)), set_pm pm d)
  | Ok child =>
      let d := addNew (NewProcess child (nameOf child pm) (KCurrentTick (dk d)) 8) (set_pm pm d) in
      Some (println (Green ("Forked child PID " +:+ fmt_d child +:+ " under parent PID " +:+
                            fmt_d parentPID)), d)
  end.

Definition execCommand (args : list string) (d : debugger) : option (string * debugger) :=
  match args with
  | [] => Some (println (Red "Usage: exec <binary_name>"), d)
  | name :: _ =>
      match RunningProcess (dk d) with
      | None => Some (println (Red "No running process to exec"), d)
      | Some pid =>
          '(_, pm) ← Exec pid name [] (ProcManager (dk d));
          Some (println (Green ("PID " +:+ fmt_d pid +:+ " executed new binary '" +:+ name +:+ "'")),
                set_pm pm d)
      end
  end.

Definition targetPID (args : list string) (d : debugger) : Z :=
  match args with
  | a :: _ => (Atoi a).1
  | [] => default 1 (RunningProcess (dk d))
  end.

Definition killCommand (args : list string) (d : debugger) : option (string * debugger) :=
  let target := targetPID args d in
  '(err, pm) ← Exit target 0 (ProcManager (dk d));
  Some (match err with
        | Some e => println (Red ("Exit error: " +:+ err_msg e))
        | None => println (Yellow ("PID " +:+ fmt_d target +:+ " exited -> ZOMBIE"))
        end, set_pm pm d).

Definition waitCommand (args : list string) (d : debugger) : string * debugger :=
  let parentPID := match args with a :: _ => (Atoi a).1 | [] => 1 end in
  let '(reaped, exitCode, err, pm) := Wait parentPID (ProcManager (dk d)) in
  (match err with
   | Some e => println (Red ("Wait error: " +:+ err_msg e))
   | None => println (Green ("Parent PID " +:+ fmt_d parentPID +:+ " reaped Zombie child PID " +:+
               fmt_d reaped +:+ " (Exit Code: " +:+ fmt_d exitCode +:+ ")"))
   end, set_pm pm d).

(** The [switch]: what is printed, whether the debugger returns, and the state. *)
Definition dbgCommand (lower : Z → Z) (o : Orders) (name : string) (args : list string)
    (d : debugger) : option (string * bool * debugger) :=
  let cmd := ToLower lower name in
  let go (r : option (string * debugger)) := '(out, d) ← r; Some (out, false, d) in
  if is_one_of cmd ["s"; "step"] then go (Some (stepLoop (Z.to_nat (stepCount args)) d))
  else if is_one_of cmd ["dash"; "d"] then
    go (Some (println (RenderDashboard (procOrd o) (fdOrds o) (dk d)), d))
  else if is_one_of cmd ["fork"; "f"] then go (forkCommand d)
  else if is_one_of cmd ["exec"; "e"] then go (execCommand args d)
  else if is_one_of cmd ["kill"; "exit"] then go (killCommand args d)
  else if is_one_of cmd ["wait"; "w"] then go (Some (waitCommand args d))
  else if is_one_of cmd ["ps"] then
    go (Some (println (RenderProcessTree (procOrd o) (fdOrds o) (ProcManager (dk d))), d))
  else if is_one_of cmd ["q"; "quit"; "exit-dbg"] then Some (""%string, true, d)
  else if is_one_of cmd ["help"; "h"] then
    go (Some (println "Commands: step [N], dash, fork, exec <name>, kill <pid>, wait [parentPID], ps, quit", d))
  else go (Some (println "Unknown command. Type 'help' for options.", d)).

(** ** The session *)
Section session.
(** [lower] is the case table of Unicode beyond ASCII, and [os i] gives the
    orders of the iterations over maps in command [i]. *)
Context (lower : Z → Z) (os : nat → Orders).

Definition prompt : string := HiCyan (newline +:+ "[os-kernel-dbg]> ") +:+ Reset.

Fixpoint dbgLoop (fuel i : nat) (out : string) (d : debugger) (scanner : Scanner)
    (stdin : list string) : ending (string * debugger * list string) :=
  match fuel with
  | O => NoFuel
  | S fuel =>
      let out := out +:+ prompt in
      match Scan scanner stdin with
      | (None, _, stdin) => Returns (out, d, stdin)
      | (Some line, scanner, stdin) =>
          match Fields (TrimSpace line) with
          | [] => dbgLoop fuel (S i) out d scanner stdin
          | name :: args =>
              match dbgCommand lower (os i) name args d with
              | None => Panics out
              | Some (text, true, d) => Returns (out +:+ text, d, stdin)
              | Some (text, false, d) => dbgLoop fuel (S i) (out +:+ text) d scanner stdin
              end
          end
      end
  end.

Definition debuggerHelp : string :=
  HiYellow "Debugger Commands:" +:+
  " [s/step] advance tick | [fork] fork child | [exec <name>] exec | [kill <pid>] exit | [wait] reap zombie | [dash] redraw | [q/quit] return".

(** Each turn of the loop consumes a line of the input. *)
Definition runInteractiveDebugger (stdin : list string)
    : ending (string * debugger * list string) :=
  let out := println (SectionHeader "UNIFIED OS KERNEL: STEP-BY-STEP INTERACTIVE DEBUGGER") in
  match startDebugger with
  | None => Panics out
  | Some d =>
      let out := out +:+ println (RenderDashboard (procOrd (os 0%nat)) (fdOrds (os 0%nat)) (dk d)) +:+
                 println debuggerHelp in
      dbgLoop (S (Z.to_nat (slen (unread NewScanner stdin)))) 1 out d NewScanner stdin
  end.
End session.

(** ** The invariant of a session

    The kernel is idle, the processes form a tree, memory is handed out once,
    and the scheduler holds one control block for every process ever created. *)
Record dbg_inv (d : debugger) : Prop := mk_dbg_inv {
  di_idle : idle_inv (dk d);
  di_tree : tree (ProcManager (dk d));
  di_tick : 0 ≤ KCurrentTick (dk d);
  di_fresh : ∀ l, l ∈ allProcesses (rr_core (KScheduler (dk d))) → (l < dnext d)%nat;
  di_known : len (allProcesses (rr_core (KScheduler (dk d)))) = NextPID (ProcManager (dk d)) - 1 }.

Lemma store_wf l p s : l ∉ allProcesses (rr_core s) → RR_wf s → RR_wf (store_process l p s).
Proof.
  intros Hl [[W1 W2 W3 W4 W5 W6 W7] Hs]. split; [|exact Hs].
  assert (∀ j, j ∈ allProcesses (rr_core s) → <[l := p]> (heap (rr_core s)) j = heap (rr_core s) j)
    as Hh by (intros j Hj; apply fn_lookup_insert_ne; by intros ->).
  assert (∀ j, j ∈ queued (rr_core s) → <[l := p]> (heap (rr_core s)) j = heap (rr_core s) j)
    as Hq by auto.
  unfold queued in Hq. split; simpl; [done..| | | |].
  - intros j Hj. rewrite Hq by set_solver. auto.
  - intros j Hj. rewrite Hq by (rewrite Hj; set_solver). auto.
  - intros j Hj. rewrite Hq by set_solver. auto.
  - intros j Hj. rewrite Hh by done. auto.
Qed.

Lemma idle_store k l p :
  l ∉ allProcesses (rr_core (KScheduler k)) → idle_inv k →
  idle_inv (k <| KScheduler ::= store_process l p |>).
Proof.
  intros Hl [I1 I2 I3]. split; [by apply store_wf| |done].
  intros j Hj. unfold missed. simpl. rewrite fn_lookup_insert_ne by (by intros ->). by apply I2.
Qed.

(** A new process, of which the process table knows one more than the scheduler. *)
Lemma addNew_inv pid name t burst pm d :
  dbg_inv d → tree pm → NextPID pm = NextPID (ProcManager (dk d)) + 1 → t ≤ KCurrentTick (dk d) →
  dbg_inv (addNew (NewProcess pid name t burst) (set_pm pm d)) ∧
  KCurrentTick (dk (addNew (NewProcess pid name t burst) (set_pm pm d))) = KCurrentTick (dk d).
Proof.
  intros [D1 D2 D3 D4 D5] Ht Hn Htick. split; [|done].
  assert (Hl : dnext d ∉ allProcesses (rr_core (KScheduler (dk d)))) by (intros ?%D4; lia).
  split; simpl.
  - apply (idle_add _ _ pid name t burst); [|split; simpl; [apply fn_lookup_insert|done]|done|done].
    destruct (idle_store (dk d) (dnext d) (NewProcess pid name t burst) Hl D1) as [J1 J2 J3]. by split.
  - done.
  - done.
  - intros l [Hj%D4| ->%list_elem_of_singleton]%elem_of_app; lia.
  - unfold len in *. rewrite length_app. simpl. lia.
Qed.

Lemma set_pm_inv pm d :
  dbg_inv d → tree pm → NextPID pm = NextPID (ProcManager (dk d)) → dbg_inv (set_pm pm d).
Proof. intros [D1 D2 D3 D4 D5] Ht Hn. split; simpl; [by apply idle_pm|done..|lia]. Qed.

(** Init can always fork and exec. *)
Lemma init_ready pm : tree pm → ∃ p, Processes pm !! 1 = Some p ∧ UState p = ProcStateReady.
Proof.
  intros Ht. destruct (tr_root pm Ht) as [p Hp]. exists p. split; [done|].
  by apply (po_init _ _ _ _ (tr_procs pm Ht 1 p Hp)).
Qed.

Lemma Fork_init pm :
  tree pm → ∃ pm', Fork 1 pm = Some (Ok (NextPID pm), pm') ∧ tree pm' ∧
    NextPID pm' = NextPID pm + 1 ∧
    ∃ p, Processes pm' !! NextPID pm = Some p ∧ UState p = ProcStateReady.
Proof.
  intros Ht. destruct (init_ready pm Ht) as (p & Hp & Hr).
  destruct (proj2 (Fork_ok 1 pm p Ht Hp) Hr) as (pm' & c & q & E & Ht' & Hps & Hn & Hc & Hnil & _).
  exists pm'. split_and!; [done..|]. exists c. rewrite Hps, lookup_insert_eq. split; [done|].
  unfold Fork in E. rewrite Hp in E. destruct (UAddressSpace p); [|done]. simpl in E.
  destruct (clonePages _ _ _ _); [|done]. simpl in E. injection E as <-. simpl in Hps.
  assert (Hcc := f_equal (λ m, m !! NextPID pm) Hps). simpl in Hcc. rewrite !lookup_insert_eq in Hcc.
  by injection Hcc as <-.
Qed.

Lemma Exec_ready pid name args pm p :
  tree pm → Processes pm !! pid = Some p → UState p = ProcStateReady →
  ∃ pm', Exec pid name args pm = Some (None, pm') ∧ tree pm' ∧ NextPID pm' = NextPID pm.
Proof.
  intros Ht Hp Hr. destruct (proj2 (Exec_ok pid name args pm p Ht Hp) Hr) as (pm' & E & Ht').
  exists pm'. split_and!; [done..|]. unfold Exec in E. rewrite Hp in E.
  destruct (UAddressSpace p); [|done]. simpl in E. by injection E as <-.
Qed.

Lemma Exit_total pid code pm :
  tree pm → ∃ err pm', Exit pid code pm = Some (err, pm') ∧ tree pm' ∧ NextPID pm' = NextPID pm.
Proof.
  intros Ht. destruct (Processes pm !! pid) as [p|] eqn:Hp.
  - destruct (decide (pid = 1)) as [->|Hne].
    + eexists _, pm. unfold Exit. by rewrite Hp, (tr_initpid pm Ht).
    + destruct (Exit_eq pid code pm p Ht Hp Hne) as (pm' & E & Hi & Hn & _ & Hps).
      exists None, pm'. split_and!; [done| |done]. by eapply tree_exit.
  - eexists _, pm. unfold Exit. by rewrite Hp.
Qed.

Lemma Wait_next pid pm : NextPID (Wait pid pm).2 = NextPID pm.
Proof. unfold Wait. repeat (case_match; try done). Qed.

(** *** Each command *)
Lemma spawn_inv name burst d :
  dbg_inv d → KCurrentTick (dk d) = 0 →
  ∃ d', spawn name burst d = Some d' ∧ dbg_inv d' ∧ KCurrentTick (dk d') = 0.
Proof.
  intros Hd Htick. destruct (Fork_init _ (di_tree d Hd)) as (pm1 & E1 & Ht1 & Hn1 & p & Hp & Hr).
  destruct (Exec_ready _ name [] pm1 p Ht1 Hp Hr) as (pm2 & E2 & Ht2 & Hn2).
  destruct (addNew_inv (NextPID (ProcManager (dk d))) name 0 burst pm2 d Hd Ht2) as [Hi Hk]; [lia..|].
  eexists. unfold spawn. rewrite E1. simpl. rewrite E2. simpl.
  split; [done|]. split; [exact Hi|]. by rewrite Hk.
Qed.

Lemma startDebugger_inv : ∃ d, startDebugger = Some d ∧ dbg_inv d.
Proof.
  assert (∃ k, NewOSKernel (NewRRScheduler bootMemory 2) 0%nat = Some k ∧ dbg_inv (mkDbg k 1) ∧
    KCurrentTick k = 0) as (k & Ek & Hk & Htick).
  { destruct (NewOSKernel (NewRRScheduler bootMemory 2) 0%nat) as [k|] eqn:Ek; [|done].
    exists k. split; [done|].
    assert (idle_inv k) as Hi by (by apply (idle_new (NewRRScheduler bootMemory 2) 0%nat k); [|apply NewRR_wf|..]).
    destruct tree_new as (pm & Epm & Ht). unfold NewOSKernel in Ek. rewrite Epm in Ek.
    unfold NewProcessManager in Epm. simpl in Epm. injection Epm as <-. injection Ek as <-.
    split; [|done]. split; [exact Hi|exact Ht|done| |done].
    intros l ->%list_elem_of_singleton. simpl. lia. }
  destruct (spawn_inv "http_server" 15 _ Hk Htick) as (d1 & E1 & H1 & T1).
  destruct (spawn_inv "db_worker" 10 _ H1 T1) as (d2 & E2 & H2 & _).
  exists d2. unfold startDebugger. rewrite Ek. simpl. rewrite E1. simpl. done.
Qed.

Lemma Step_inv d : dbg_inv d → dbg_inv (d <| dk := (Step (dk d)).2 |>).
Proof.
  intros [D1 D2 D3 D4 D5]. destruct (idle_Step (dk d) D1) as [_ Hi].
  pose proof (idle_tick (Z.succ (KCurrentTick (dk d))) (KScheduler (dk d)) (ii_wf _ D1)) as Ht.
  revert Hi. unfold Step. simpl.
  change (RR_Tick (Z.succ (KCurrentTick (dk d))) (KScheduler (dk d))) with
    (s_Tick (Z.succ (KCurrentTick (dk d))) (KScheduler (dk d))) in *.
  destruct (s_Tick _ _) as [[r dl] s'].
  destruct Ht as (-> & Hwf & Hall & Hheap).
  { intros l Hl. destruct (ii_missed _ D1 l Hl). split; [done|lia]. }
  simpl. intros Hi. change (allProcesses (rr_core s') = allProcesses (rr_core (KScheduler (dk d)))) in Hall.
  split; simpl; [done|done|lia|by rewrite Hall|by rewrite Hall].
Qed.

Lemma stepLoop_inv n d : dbg_inv d → dbg_inv (stepLoop n d).2.
Proof.
  revert d. induction n as [|n IH]; intros d Hd; [done|]. cbn [stepLoop].
  pose proof (Step_inv d Hd) as Hs. destruct (Step (dk d)) as [msg k].
  specialize (IH _ Hs). simpl in IH. by destruct (stepLoop n _) as [out d'].
Qed.

Lemma forkCommand_inv d : dbg_inv d → ∃ out d', forkCommand d = Some (out, d') ∧ dbg_inv d'.
Proof.
  intros Hd. unfold forkCommand. rewrite (ii_running _ (di_idle d Hd)). simpl.
  destruct (Fork_init _ (di_tree d Hd)) as (pm & -> & Ht & Hn & _). simpl.
  eexists _, _. split; [done|]. by apply addNew_inv.
Qed.

Lemma execCommand_inv args d :
  dbg_inv d → ∃ out d', execCommand args d = Some (out, d') ∧ dbg_inv d'.
Proof.
  intros Hd. unfold execCommand. destruct args as [|name args]; [by eauto|].
  rewrite (ii_running _ (di_idle d Hd)).
  destruct (init_ready _ (di_tree d Hd)) as (p & Hp & Hr).
  destruct (Exec_ready 1 name [] _ p (di_tree d Hd) Hp Hr) as (pm & -> & Ht & Hn). simpl.
  eexists _, _. split; [done|]. by apply set_pm_inv.
Qed.

Lemma killCommand_inv args d :
  dbg_inv d → ∃ out d', killCommand args d = Some (out, d') ∧ dbg_inv d'.
Proof.
  intros Hd. unfold killCommand.
  destruct (Exit_total (targetPID args d) 0 _ (di_tree d Hd)) as (err & pm & -> & Ht & Hn). simpl.
  eexists _, _. split; [done|]. by apply set_pm_inv.
Qed.

Lemma waitCommand_inv args d : dbg_inv d → dbg_inv (waitCommand args d).2.
Proof.
  intros Hd. unfold waitCommand.
  set (pid := match args with a :: _ => (Atoi a).1 | [] => 1 end).
  pose proof (Wait_tree pid _ (di_tree d Hd)) as Ht.
  pose proof (Wait_next pid (ProcManager (dk d))) as Hn.
  destruct (Wait pid (ProcManager (dk d))) as [[[r c] e] pm]. by apply set_pm_inv.
Qed.

Lemma dbgCommand_inv lower o name args d :
  dbg_inv d → ∃ out quit d', dbgCommand lower o name args d = Some (out, quit, d') ∧ dbg_inv d'.
Proof.
  intros Hd. unfold dbgCommand.
  assert (∀ r : option (string * debugger), (∃ out d', r = Some (out, d') ∧ dbg_inv d') →
    ∃ out quit d', ('(out, d) ← r; Some (out, false, d)) = Some (out, quit, d') ∧ dbg_inv d') as Hgo
    by (intros r (out & d' & -> & Hi); eexists _, _, _; by split).
  assert (∀ x : string * debugger, dbg_inv x.2 → ∃ out d', Some x = Some (out, d') ∧ dbg_inv d') as Hsome
    by (intros [out d'] Hi; by eexists _, _).
  repeat case_if; try (apply Hgo);
    auto using stepLoop_inv, forkCommand_inv, execCommand_inv, killCommand_inv, waitCommand_inv.
  by eexists _, _, _.
Qed.

(** *** The loop *)
Lemma dbgLoop_inv lower os fuel i out d sc stdin :
  dbg_inv d → slen (unread sc stdin) < Z.of_nat fuel →
  ∃ out' d' stdin', dbgLoop lower os fuel i out d sc stdin = Returns (out', d', stdin') ∧ dbg_inv d' ∧
    stdin' `suffix_of` stdin.
Proof.
  revert i out d sc stdin. induction fuel as [|fuel IH]; intros i out d sc stdin Hd Hf.
  { pose proof (slen_nonneg (unread sc stdin)). lia. }
  cbn [dbgLoop]. destruct (Scan sc stdin) as [[o sc'] stdin'] eqn:Es.
  pose proof (Scan_suffix _ _ _ _ _ Es) as Hsuf. destruct o as [line|]; [|by eauto 6].
  apply Scan_shorter in Es.
  assert (∀ i out d, dbg_inv d → ∃ out' d' rest, dbgLoop lower os fuel i out d sc' stdin' =
    Returns (out', d', rest) ∧ dbg_inv d' ∧ rest `suffix_of` stdin) as Hgo.
  { intros i' out1 d1 Hd1. destruct (IH i' out1 d1 sc' stdin' Hd1) as (o' & d' & r & E & Hi & Hr); [lia|].
    exists o', d', r. split_and!; [done..|by etrans]. }
  destruct (Fields (TrimSpace line)) as [|name args]; [by apply Hgo|].
  destruct (dbgCommand_inv lower (os i) name args d Hd) as (text & [|] & d' & -> & Hd'); [by eauto 6|].
  by apply Hgo.
Qed.

Lemma runInteractiveDebugger_inv lower os stdin :
  ∃ out d rest, runInteractiveDebugger lower os stdin = Returns (out, d, rest) ∧ dbg_inv d ∧
    rest `suffix_of` stdin.
Proof.
  destruct startDebugger_inv as (d0 & E & H0). unfold runInteractiveDebugger. rewrite E.
  apply dbgLoop_inv; [exact H0|lia].
Qed.

(** C16. The debugger is total.  For every input, delivered in any pieces, with
    every order of the iterations over maps and every case table: the session
    ends by itself when the input is used up or on a command to quit, no
    command panics, and at the end the processes form a tree, the scheduler
    holds one control block for every process ever created, each of them still
    new, and another step would report an idle CPU. *)
Theorem debugger_session lower os stdin :
  ∃ out d rest, runInteractiveDebugger lower os stdin = Returns (out, d, rest) ∧
    rest `suffix_of` stdin ∧ tree (ProcManager (dk d)) ∧ RunningProcess (dk d) = Some 1 ∧
    len (allProcesses (rr_core (KScheduler (dk d)))) = NextPID (ProcManager (dk d)) - 1 ∧
    (∀ l, l ∈ allProcesses (rr_core (KScheduler (dk d))) →
       State (heap (rr_core (KScheduler (dk d))) l) = StateNew) ∧
    (Step (dk d)).1 =
      "[Tick " +:+ fmt_d (KCurrentTick (dk d) + 1) +:+ "] CPU Idle (No runnable processes)".
Proof.
  destruct (runInteractiveDebugger_inv lower os stdin) as (out & d & rest & E & Hd & Hr).
  exists out, d, rest. split; [done|]. destruct (idle_Step _ (di_idle d Hd)) as [Hs _].
  destruct Hd as [[I1 I2 I3] D2 D3 D4 D5]. split_and!; try done.
  intros l Hl. by apply (I2 l).
Qed.

(** ** What is typed is what is done *)

(** The commands with a number, and what they are to do with it. *)
Inductive numbered := NStep | NKill | NWait.

Definition numbered_name (c : numbered) : string :=
  match c with NStep => "step" | NKill => "kill" | NWait => "wait" end.

Definition numbered_effect (c : numbered) (z : Z) (d : debugger) : option debugger :=
  match c with
  | NStep => Some (stepLoop (Z.to_nat (if 0 <? z then z else 1)) d).2
  | NKill => '(_, pm) ← Exit z 0 (ProcManager (dk d)); Some (set_pm pm d)
  | NWait => Some (set_pm (Wait z (ProcManager (dk d))).2 d)
  end.

Lemma numbered_command lower o c z d :
  is_i64 z →
  (λ r, r.2) <$> dbgCommand lower o (numbered_name c) [fmt_d z] d = numbered_effect c z d ∧
  ∀ out quit d', dbgCommand lower o (numbered_name c) [fmt_d z] d = Some (out, quit, d') → quit = false.
Proof.
  intros Hz. destruct c; unfold dbgCommand;
    [change (ToLower lower (numbered_name NStep)) with "step"%string
    |change (ToLower lower (numbered_name NKill)) with "kill"%string
    |change (ToLower lower (numbered_name NWait)) with "wait"%string]; cbn [is_one_of]; cbn -[fmt_d stepLoop].
  - rewrite Atoi_fmt_d by done. rewrite bool_decide_eq_true_2 by done. cbn [andb].
    destruct (stepLoop _ d) as [out d']. split; [done|]. by intros ??? [= <- <- <-].
  - unfold killCommand, targetPID. rewrite Atoi_fmt_d by done. cbn [fst].
    destruct (Exit z 0 _) as [[err pm]|]; simpl; [|done]. split; [done|]. by intros ??? [= <- <- <-].
  - unfold waitCommand. rewrite Atoi_fmt_d by done. cbn [fst].
    destruct (Wait z _) as [[[r c] e] pm]. split; [done|]. by intros ??? [= <- <- <-].
Qed.

Lemma numbered_line c z :
  is_i64 z → let s := numbered_name c +:+ " " +:+ fmt_d z in
  str_all printable s = true ∧ slen s < MaxScanTokenSize ∧
  Fields (TrimSpace s) = [numbered_name c; fmt_d z].
Proof.
  intros Hz. destruct (fmt_d_graphic z) as [Hg Hne]. pose proof (fmt_d_slen z Hz) as Hl.
  assert (str_all graphic (numbered_name c) = true ∧ numbered_name c ≠ ""%string ∧
    slen (numbered_name c) = 4) as (Hc & Hcne & Hcl) by (by destruct c).
  split_and!.
  - by rewrite !str_all_app, (graphic_printable _ Hc), (graphic_printable _ Hg).
  - rewrite !slen_app, Hcl. unfold MaxScanTokenSize. change (slen " ") with 1. lia.
  - rewrite TrimSpace_words by done.
    change (numbered_name c +:+ " " +:+ fmt_d z) with (Join [numbered_name c; fmt_d z] " ").
    apply Fields_Join. by repeat constructor.
Qed.

(** C19. A number that is typed is the number that is used.  When the input, in
    whatever pieces it arrives, continues with the line [step n], [kill n] or
    [wait n] for any 64-bit [n] in decimal, the next turn of the loop reads
    exactly that line and performs that operation with that number: [n] steps
    (one if [n] is not positive), the exit of process [n], the wait of
    process [n]; then the loop goes on with the rest of the input. *)
Theorem typed_number lower os fuel i out d sc stdin c n rest
    (Hn : is_i64 n)
    (Hin : unread sc stdin = numbered_name c +:+ " " +:+ fmt_d n +:+ newline +:+ rest) :
  ∃ sc' stdin', unread sc' stdin' = rest ∧
    match numbered_effect c n d with
    | None => dbgLoop lower os (S fuel) i out d sc stdin = Panics (out +:+ prompt)
    | Some d' => ∃ text, dbgLoop lower os (S fuel) i out d sc stdin =
        dbgLoop lower os fuel (S i) ((out +:+ prompt) +:+ text) d' sc' stdin'
    end.
Proof.
  destruct (numbered_line c n Hn) as (Hp & Hl & Hf).
  destruct (Scan sc stdin) as [[o sc'] stdin'] eqn:Es.
  destruct (Scan_next _ _ _ _ _ Es) as [Ho Hr]. rewrite Hin in Ho, Hr.
  replace (numbered_name c +:+ " " +:+ fmt_d n +:+ newline +:+ rest) with
    ((numbered_name c +:+ " " +:+ fmt_d n) +:+ String (Ascii.ascii_of_nat 10) rest) in Ho, Hr
    by (by rewrite <- !app_assoc_str).
  rewrite printable_line in Ho, Hr by done. exists sc', stdin'. split; [by eapply Hr|].
  cbn [dbgLoop]. rewrite Es, Ho. cbn [fst fmap option_fmap option_map]. rewrite Hf.
  destruct (numbered_command lower (os i) c n d Hn) as [He Hq].
  destruct (dbgCommand lower (os i) (numbered_name c) [fmt_d n] d) as [[[text quit] d']|];
    simpl in He; rewrite <- He; [|done].
  rewrite (Hq _ _ _ eq_refl). by exists text.
Qed.

Definition anyOrders : Orders := mkOrders someOrder (λ _, someOrder).

Lemma typed_number_witness :
  ∃ d, startDebugger = Some d ∧
  ∃ sc' stdin' text d', unread sc' stdin' = "ps"%string ∧ numbered_effect NKill 3 d = Some d' ∧
    dbgLoop (λ r, r) (λ _, anyOrders) 2 1 "" d NewScanner ["ki"; "ll 3" +:+ newline +:+ "ps"] =
    dbgLoop (λ r, r) (λ _, anyOrders) 1 2 (("" +:+ prompt) +:+ text) d' sc' stdin'.
Proof.
  destruct startDebugger_inv as (d & E & Hd). exists d. split; [done|].
  destruct (typed_number (λ r, r) (λ _, anyOrders) 1 1 "" d NewScanner
    ["ki"; "ll 3" +:+ newline +:+ "ps"] NKill 3 "ps" ltac:(done) eq_refl)
    as (sc' & stdin' & Hu & He).
  destruct (Exit_total 3 0 _ (di_tree d Hd)) as (err & pm & Ex & _).
  unfold numbered_effect in *. rewrite Ex in *. destruct He as [text He].
  by exists sc', stdin', text, (set_pm pm d).
Defined.
