(* ===== verification/LabsKernel.v ===== *)
(** * The labs of the kernel

    [runModeLab], [runSyscallLab], [runLifecycleLab], [runIsolationLab] and
    [runIPCLab] of [src/cmd/os-sim/main.go]: each runs its components and gives
    the text it prints; [None] is a panic. *)

From Stdlib Require Import Ascii String.
From stdpp Require Import functions.
From S2P Require Import Prelude Visualizer Drawing GoText Reports ReportsMemory ReportsKernel ReportsIo.
From S2P Require Import NetIo Paging Pipe Ipc CpuMode Syscalls Lifecycle OsKernel Debugger.

(** A [fmt.Println] per text. *)
Definition prints (ls : list string) : string := String.concat "" (println <$> ls).

(** A line that is printed on a condition. *)
Definition when (b : bool) (s : string) : list string := if b then [s] else [].

(** [%v] of an error *)
Definition fmt_err (e : option error) : string := from_option err_msg "<nil>" e.

(** ** Modes *)
Definition haltInst : CPUInstruction := mkInst InstPrivilegedHalt "HLT (Stop CPU)" true.

(** What the lab prints, and the processor it leaves. *)
Definition runModeLab : string * HardwareCPU :=
  let cpuHw := NewHardwareCPU in
  let tt := NewTrapTable in
  let '(err1, cpuHw) := ExecuteInstruction haltInst cpuHw in
  let cpuHw := SwitchToKernelMode 0x80 cpuHw in
  let '(err2, cpuHw) := ExecuteInstruction haltInst cpuHw in
  let cpuHw := ReturnToUserMode cpuHw in
  (prints (
     [ SectionHeader "LAB: USER MODE (RING 3) vs KERNEL MODE (RING 0)";
       RenderModeComparison;
       SubHeader "Step 1: Attempting to run Privileged HLT in User Mode (Ring 3)..." ] ++
     match err1 with
     | Some e => ["  " +:+ Red ("TRAP TRIGGERED: " +:+ err_msg e)]
     | None => []
     end ++
     [ SubHeader "Step 2: Switching to Kernel Mode via INT 0x80 Syscall Trap...";
       Green "  CPU is now in KERNEL MODE (Ring 0)";
       SubHeader "Step 3: Re-executing Privileged Instruction in Kernel Mode..." ] ++
     when (bool_decide (err2 = None)) (Green "  Instruction executed successfully in Kernel Mode!") ++
     [newline +:+ RenderIDT tt]), cpuHw).

(** ** System calls *)
Definition runSyscallLab : string :=
  let sd := NewSyscallDispatcher in
  let '(ret1, _, regs1, sd1) := Dispatch 101 (mkRegs SysGetPID 0 0 0 0 0 0) sd in
  let '(ret2, _, regs2, sd2) := Dispatch 101 (mkRegs SysWrite 1 0x00401000 28 0 0 0) sd1 in
  let '(_, err, regs3, _) := Dispatch 101 (mkRegs SysWrite 1 0xC0005000 28 0 0 0) sd2 in
  prints
    [ SectionHeader "LAB: SYSTEM CALL DISPATCHER & CALLING CONVENTIONS";
      RenderSyscallTable sd;
      SubHeader "Executing Step-by-Step Simulated Syscalls";
      "  • getpid() ──► PID: " +:+ FgHiGreen +:+ fmt_d ret1 +:+ Reset +:+ " (RAX=" +:+
        fmt_d (RAX regs1) +:+ ")";
      "  • write(fd=1, buf=0x00401000, count=28) ──► Written: " +:+ FgHiGreen +:+ fmt_d ret2 +:+
        " bytes" +:+ Reset +:+ " (RAX=" +:+ fmt_d (RAX regs2) +:+ ")";
      "  • write(fd=1, buf=0xC0005000) ──► " +:+
        Red ("REJECTED: " +:+ fmt_err err +:+ " (RAX=" +:+ fmt_d (RAX regs3) +:+ ")") ].

(** ** Processes *)

(** [os i] are the orders of the iterations over maps in the [i]-th table. *)
Definition runLifecycleLab (os : nat → Orders) : option (string * ProcessManager) :=
  let tree i pm := RenderProcessTree (procOrd (os i)) (fdOrds (os i)) pm in
  pm0 ← NewProcessManager;
  '(r, pm1) ← Fork 1 pm0;
  child1 ← match r with Ok c => Some c | Err _ => None end;
  '(_, pm2) ← Exec child1 "web_server" ["web_server"; "--port"; "8080"] pm1;
  '(_, pm3) ← Exit child1 0 pm2;
  let '(reapedPID, exitCode, _, pm4) := Wait 1 pm3 in
  Some (prints
    [ SectionHeader "LAB: UNIX PROCESS LIFECYCLE (FORK, EXEC, EXIT, WAIT, ZOMBIES)";
      tree 0%nat pm0;
      HiCyan (newline +:+ "Step 1: Init (PID 1) executes fork() to create child process...");
      tree 1%nat pm1;
      HiCyan (newline +:+ "Step 2: Child (PID " +:+ fmt_d child1 +:+ ") executes execve('web_server')...");
      tree 2%nat pm2;
      HiCyan (newline +:+ "Step 3: Web server (PID " +:+ fmt_d child1 +:+
              ") exits with code 0 ──► Enters ZOMBIE state...");
      tree 3%nat pm3;
      HiCyan (newline +:+ "Step 4: Parent (PID 1) calls wait() to reap Zombie child...");
      "  Parent reaped child PID " +:+ FgHiGreen +:+ fmt_d reapedPID +:+ Reset +:+
        " with exit status " +:+ fmt_d exitCode +:+ " (PCB deleted)";
      tree 4%nat pm4 ], pm4).

(** ** Isolation *)
Definition runIsolationLab : option string :=
  '(res, _) ← RunIsolationTest NewMemoryIsolationLab;
  Some (prints [ SectionHeader "LAB: PROCESS MEMORY ISOLATION & PROTECTION FAULTS";
                 RenderIsolationReport res ]).

(** ** Communication *)

(** The first half: a pipe that the lab writes and reads itself.  A call that
    waits would wait for ever: [None].  The threads to wake are none. *)
Definition pipeLab : option string :=
  let pipe := NewUnixPipe 64 in
  match Write_ 0 (λ _, 0%nat) (string_bytes "Hello from Process A!") pipe with
  | (WriteWait _ _, _) => None
  | (Wrote _ _, pipe) =>
      let shown := RenderPipeStatus pipe in
      '(buf) ← (Read_ 0 0 64 pipe).1;
      Some (prints
        [ HiCyan "Writing 26 bytes to in-kernel Pipe buffer...";
          shown;
          "  [Process B] Read from pipe: " +:+ quote +:+ FgHiGreen +:+ bytes_string buf +:+ Reset +:+
            quote +:+ " (" +:+ fmt_d (len buf) +:+ " bytes)" ])
  end.

(** The second half: a segment that is attached twice and then written; [seg]
    is a pointer into the table of segments. *)
Definition sharedLab : option (string * SharedMemoryManager * (nat → PageTable)) :=
  '(seg, smm) ← CreateSegment 64 NewSharedMemoryManager;
  pt1 ← NewPageTable 10 1024 4096;
  pt2 ← NewPageTable 20 1024 4096;
  let pts : nat → PageTable := λ i, if decide (i = 0%nat) then pt1 else pt2 in
  '(_, pts, smm) ← Attach seg 10 0x00500000 0 pts smm;
  '(_, pts, smm) ← Attach seg 20 0x00700000 1 pts smm;
  let smm := smm <| ShmSegments ::=
    alter (WriteSync (string_bytes "High-Speed Zero-Copy Token")) seg |> in
  Some (println (RenderSharedMemoryDiagram seg smm), smm, pts).

Definition runIPCLab : option string :=
  out1 ← pipeLab;
  '(out2, _, _) ← sharedLab;
  Some (println (SectionHeader "LAB: INTER-PROCESS COMMUNICATION (PIPES & SHARED MEMORY)") +:+
        out1 +:+ out2).

(** ** What the labs do *)

(** The privileged instruction traps in user mode and runs in kernel mode; the
    processor ends in user mode. *)
Lemma runModeLab_mode :
  CurrentMode runModeLab.2 = ModeUser ∧
  ∃ e, (ExecuteInstruction haltInst NewHardwareCPU).1 = Some e ∧ err_is e = err_is ErrPrivilegeViolation.
Proof. split; [done|]. by eexists. Qed.

(** The lifecycle lab comes to its end in every order of the iterations, and
    leaves init alone in a tree. *)
Lemma runLifecycleLab_total os :
  ∃ out pm, runLifecycleLab os = Some (out, pm) ∧ tree pm ∧ dom (Processes pm) = {[1]} ∧
    UPID <$> Reaped pm !! 2 = Some 2.
Proof.
  unfold runLifecycleLab. destruct tree_new as (pm0 & E0 & T0). rewrite E0. cbn [mbind option_bind].
  destruct (Fork 1 pm0) as [[r1 pm1]|] eqn:E1; [|vm_compute in E0; injection E0 as <-; vm_compute in E1; done].
  assert (tree pm1) as T1 by (apply (pm_step_tree (OpFork 1) pm0); [done|cbn; by rewrite E1]).
  assert (r1 = Ok 2) as -> by (vm_compute in E0; injection E0 as <-; vm_compute in E1; by injection E1 as <- _).
  cbn [mbind option_bind].
  destruct (Exec 2 "web_server" ["web_server"; "--port"; "8080"] pm1) as [[r2 pm2]|] eqn:E2.
  2: { vm_compute in E0; injection E0 as <-; vm_compute in E1; injection E1 as <-; vm_compute in E2; done. }
  assert (tree pm2) as T2 by (eapply (pm_step_tree (OpExec 2 _ _) pm1); [done|cbn; by rewrite E2]).
  cbn [mbind option_bind].
  destruct (Exit_total 2 0 pm2 T2) as (err & pm3 & E3 & T3 & _). rewrite E3. cbn [mbind option_bind].
  pose proof (Wait_tree 1 pm3 T3) as T4.
  destruct (Wait 1 pm3) as [[[reaped code] err4] pm4] eqn:E4. simpl in T4.
  eexists _, pm4. split; [done|]. split; [done|].
  vm_compute in E0; injection E0 as <-; vm_compute in E1; injection E1 as <-; vm_compute in E2;
    injection E2 as <- <-; vm_compute in E3; injection E3 as <- <-; vm_compute in E4;
    injection E4 as <- <- <- <-. done.
Qed.

(** The attachments of the IPC lab succeed and are listed, but the addresses lie
    beyond the 1024 entries of the page tables: neither table maps anything. *)
Lemma sharedLab_maps_nothing :
  ∃ out smm pts, sharedLab = Some (out, smm, pts) ∧
    (MapPID <$> default [] (Mappings smm !! 1)) = [10; 20] ∧
    Forall (λ e, e = zeroPTE) (Entries (pts 0%nat)) ∧ Forall (λ e, e = zeroPTE) (Entries (pts 1%nat)).
Proof.
  destruct sharedLab as [[[out smm] pts]|] eqn:E; [|vm_compute in E; done].
  exists out, smm, pts. split; [done|]. vm_compute in E. injection E as _ <- <-.
  split; [done|]. split; by repeat constructor.
Qed.
