(* ===== verification/Labs.v ===== *)
(** * The labs of processor, memory, concurrency and I/O

    [runCPULab], [runGMPLab], [runMemoryLab], [runPagingLab],
    [runConcurrencyLab], [runDeadlockLab], [runIOLab] and [runBenchmarkLab] of
    [src/cmd/os-sim/main.go].  What a lab prints is a function of what the
    source leaves open: the random generator, the order of iterations over maps,
    the schedule of the goroutines, the clock. *)

From Stdlib Require Import Ascii String.
From stdpp Require Import functions.
From S2P Require Import Prelude Floats Visualizer Drawing GoText Reports.
From S2P Require Import Process SchedCore SchedTheory SchedFIFO SchedSJF SchedRR SchedLottery SchedMLFQ SchedProps.
From S2P Require Import Steps Mutexes Race Gmp CondVars Dining Banker Paging Tlb PageReplacement FreeList AddressSpace.
From S2P Require Import ReportsCpu ReportsMemory ReportsSync ReportsIo Parallel Debugger LabsKernel.
Import CallStacks.

(** ** Scheduling *)

(** The body of the loop over the schedulers. *)
Definition runScheduler `{Scheduler Sch} (s : Sch) : string * Sch :=
  let s0 := add_all lab_jobs s in
  let '(_, s1) := drive 100 0 s0 in
  (println (SubHeader ("Running " +:+ s_Name s)) +:+
   println "Gantt Timeline Chart:" +:+
   RenderGanttChart (GetGantt s1) +:+
   println (FormatMetricsTable (s_Name s1) (GetMetrics s1) (heap (s_core s1) <$> GetCompleted s1)), s1).

(** The control blocks of [procs] themselves; the schedulers run clones. *)
Definition labMemory (l : ploc) : Process := default (NewProcess 0 "" 0 0) (lab_procs !! l).

Definition runCPULab (R : Type) `{Rng R} : string :=
  let '(rec, _, _) := SwitchProcessContext 10 (Some 0%nat) (Some 1%nat) labMemory NewContextSwitcher in
  println (SectionHeader "LAB 1: CPU VIRTUALIZATION & SCHEDULING") +:+
  (runScheduler (NewFIFOScheduler lab_heap)).1 +:+
  (runScheduler (NewSJFScheduler lab_heap)).1 +:+
  (runScheduler (NewSTCFScheduler lab_heap)).1 +:+
  (runScheduler (NewRRScheduler lab_heap 2)).1 +:+
  (runScheduler (NewMLFQScheduler lab_heap 30)).1 +:+
  (runScheduler (NewLotteryScheduler (R := R) lab_heap 2 42)).1 +:+
  println (ExplainContextSwitch rec).

(** ** Goroutines *)
Definition gmpCalls : list gmp_op :=
  ((λ i, OpSpawn ("worker_" +:+ fmt_d i) 4 false) <$> seqZ 1 5) ++
  [OpSpawn "disk_read_syscall" 6 true] ++ (OpStep <$> seqZ 0 15).

Definition runGMPLab (R : Type) `{Rng R} : option string :=
  rt ← run gmp_step gmpCalls (NewGMPRuntime (R := R) 2);
  Some (prints
    [ SectionHeader "LAB 2: GO RUNTIME M:N SCHEDULER (GMP MODEL)";
      HiCyan "Spawning Goroutines (G1..G5 CPU tasks + G6 Blocking Syscall)...";
      RenderStatus rt ]).

(** ** Memory *)

(** The three frames; the local variables are integers. *)
Definition labStack : CallStack (gmap string Z) :=
  let cs := NewCallStack 0xFFFF (16 * 1024) in
  let cs := (PushFrame "main" 0x00400000 64 (<["argc" := 1]> {["status" := 0]}) cs).2 in
  let cs := (PushFrame "processData" 0x00401200 48 (<["bufferSize" := 1024]> {["count" := 5]}) cs).2 in
  (PushFrame "calculateHash" 0x00402400 32 {["seed" := 0xDEADBEEF]} cs).2.

(** The allocator before and after the two calls of [Free]. *)
Definition labHeap : option (FreeListAllocator * FreeListAllocator) :=
  let fla := NewFreeListAllocator 0x00010000 4096 in
  '(b1, _, fla) ← Malloc 512 false fla;
  '(b2, _, fla) ← Malloc 1024 false fla;
  '(_, _, fla) ← Malloc 256 false fla;
  '(_, fla2) ← Free b2 fla;
  '(_, fla2) ← Free b1 fla2;
  Some (fla, fla2).

Definition runMemoryLab (ord : nat → MapOrder string Z) : option string :=
  '(fla, fla2) ← labHeap;
  map1 ← RenderHeapMap fla;
  map2 ← RenderHeapMap fla2;
  Some (prints
    [ SectionHeader "LAB 3: MEMORY VIRTUALIZATION & ALLOCATORS";
      RenderMemoryMap (NewAddressSpace 101 (64 * 1024) 0x00200000);
      RenderStack fmt_d ord labStack;
      SubHeader "Allocated 3 Heap Blocks (b1:512B, b2:1024B, b3:256B)";
      map1;
      HiYellow (newline +:+ "Freeing middle block (b2) and first block (b1) to demonstrate Coalescing...");
      map2 ]).

(** ** Paging *)

(** [pt.Entries[i].Present = false] after [pt.MapPage(uint64(i), 0, true)]. *)
Definition swapOut (pt : PageTable) (i : Z) : option PageTable :=
  pt ← MapPage i 0 true pt;
  if i <? len (Entries pt)
  then Some (pt <| Entries ::= upd_idx (λ e, e <| Present := false |>) i |>) else None.

Fixpoint swapOutAll (pages : list Z) (pt : PageTable) : option PageTable :=
  match pages with
  | [] => Some pt
  | i :: pages => pt ← swapOut pt i; swapOutAll pages pt
  end.

(** The accesses; their results are not used. *)
Fixpoint accessAll (pages : list Z) (pt : PageTable) (mm : MemoryManager) : option MemoryManager :=
  match pages with
  | [] => Some mm
  | page :: pages =>
      '(_, _, pt, mm) ← AccessMemory pt (page * 4096) (page mod 2 =? 1) mm;
      accessAll pages pt mm
  end.

Definition labTLB : TLB :=
  let tlb := Insert 1 1 14 false (Insert 1 0 10 true (NewTLB 4)) in
  (Lookup 1 1 (Lookup 1 2 (Lookup 1 0 tlb).2).2).2.

Definition runPagingLab : option string :=
  pt ← NewPageTable 1 16 4096;
  pt ← MapPage 0 10 true pt; pt ← MapPage 1 14 false pt; pt ← MapPage 2 22 true pt;
  mlpt ← ml_Map 0x00400000 50 true (NewMultiLevelPageTable 1);
  mlpt ← ml_Map 0x7FFF0000 80 true mlpt;
  pt2 ← swapOutAll (seqZ 0 6) pt;
  mm ← accessAll [0; 1; 2; 3; 0; 4] pt2 (NewMemoryManager 3 PolicyClock 4);
  Some (prints
    [ SectionHeader "LAB 4: HARDWARE PAGING, MULTI-LEVEL PT, TLB & CLOCK";
      RenderPageTable pt;
      RenderTwoLevelStatus mlpt;
      RenderTLBStatus labTLB;
      HiCyan "Simulating page accesses: 0, 1, 2, 3, 0, 4 (Frame capacity = 3)...";
      RenderPhysicalMemory mm ]).

(** ** Concurrency *)

(** The producer is thread 1, the consumer, which prints, is thread 0.  A
    thread that is not in a call makes the next one, until it has made five;
    [time.Sleep] only delays. *)
Definition consumer : nat := 0.
Definition producer : nat := 1.

Definition labCall (t : nat) (b : BoundedBuffer) : option bb_call :=
  if decide (t = consumer) then if len (gets b) <? 5 then Some CGet else None
  else if len (puts b) <? 5 then Some (CPut ((len (puts b) + 1) * 10)) else None.

Definition buffer_step (t : nat) (b : BoundedBuffer) : option BoundedBuffer :=
  match bb_pcs b t with
  | BIdle => c ← labCall t b; bb_step (t, c) b
  | _ => bb_step (t, CGet) b
  end.

Definition consumed (b : BoundedBuffer) : bool :=
  (5 <=? len (gets b)) && match bb_pcs b consumer with BIdle => true | _ => false end.

(** The items of the calls of [Get] that have returned. *)
Definition printed (b : BoundedBuffer) : list Z :=
  match bb_pcs b consumer with
  | BSignal _ | BUnlock => take (pred (length (gets b))) (gets b)
  | _ => gets b
  end.

Definition extracted (val : Z) : string :=
  "  [Consumer] Extracted item: " +:+ FgHiGreen +:+ fmt_d val +:+ Reset +:+ " from bounded buffer".

(** [unsafe] and [safe] are the final values of the counters of the race. *)
Definition concurrencyIntro (unsafe safe : Z) : string :=
  prints
    [ SectionHeader "LAB 5: CONCURRENCY, DATA RACES & SYNCHRONIZATION";
      HiCyan "Executing live parallel Data Race test (10 Goroutines x 10,000 iterations)...";
      RenderRaceExplanation (RunDataRaceDemo 10 (Z.to_nat 10000) unsafe safe);
      SubHeader "Producer-Consumer with Mesa-Semantics Condition Variable" ].

(** [sched] schedules producer and consumer; the lab returns when the consumer
    has all it asked for. *)
Definition runConcurrencyLab (unsafe safe : Z) (sched : list nat) : ending string :=
  match run (among 2 buffer_step) sched (NewBoundedBuffer 3) with
  | None => Blocks (concurrencyIntro unsafe safe)
  | Some b =>
      let out := concurrencyIntro unsafe safe +:+ prints (extracted <$> printed b) in
      if consumed b then Returns out else Blocks out
  end.

(** ** Deadlock *)
Definition labBank : option BankersState :=
  b ← NewBankersState 5 ["CPU"; "Disk"; "Memory"] [10; 5; 7];
  b ← SetProcessClaim 0 [7; 5; 3] [0; 1; 0] b;
  b ← SetProcessClaim 1 [3; 2; 2] [2; 0; 0] b;
  b ← SetProcessClaim 2 [9; 0; 2] [3; 0; 2] b;
  b ← SetProcessClaim 3 [2; 2; 2] [2; 1; 1] b;
  SetProcessClaim 4 [4; 3; 3] [0; 0; 2] b.

Definition bankLab : option string :=
  b ← labBank;
  state ← RenderState b;
  '(isSafe, seq, log) ← CheckSafeState b;
  Some (println state +:+
        println ("Safe State: " +:+ fmt_v_bool isSafe +:+ newline +:+ "Sequence: P" +:+
                 fmt_v_ints seq +:+ newline +:+ log)).

(** [wg.Wait()] returns when every philosopher has left its loop. *)
Definition finished_meals (goal : nat) (dp : DiningPhilosophers) : bool :=
  forallb (λ id, (goal <=? meal dp id)%nat) (seq 0 (NumPhilosophers dp)).

(** [sched] is the schedule of the philosophers. *)
Definition runDeadlockLab (sched : list nat) : ending string :=
  let intro := println (SectionHeader "LAB 6: DEADLOCK AVOIDANCE & DINING PHILOSOPHERS") in
  match bankLab with
  | None => Panics intro
  | Some bank =>
      let dp := NewDiningPhilosophers 5 in
      match run (RunSafeResourceHierarchy 5 dp) sched dp with
      | None => Blocks (intro +:+ bank)
      | Some dp =>
          if finished_meals 5 dp then Returns (intro +:+ bank +:+ println (RenderDiningStatus dp))
          else Blocks (intro +:+ bank)
      end
  end.

(** ** I/O and parallelism *)
Definition runIOLab : string :=
  prints [ SectionHeader "LAB 7: I/O MULTIPLEXING, EPOLL & GO NETPOLLER";
           RenderEpollComparison 10000 2;
           RenderNetpollerExplanation ].

Definition runBenchmarkLab (numCPU single multi contended lockFree : Z) : option string :=
  benchRes ← RunComparisonBenchmark 8 200000 numCPU single multi contended lockFree;
  Some (prints
    [ SectionHeader "LAB 8: CONCURRENCY vs TRUE PARALLELISM BENCHMARK";
      HiCyan "Running live hardware benchmarks across single core vs multi-core...";
      RenderBenchmarkReport benchRes ]).

(** ** What the labs do *)

(** *** Scheduling *)
Lemma runScheduler_completes `{SchedulerLaws Sch} (s : Sch) :
  s_wf s → heap (s_core s) = lab_heap → procs s = [] → Forall (λ l, s_ok (lab_heap l)) lab_jobs →
  GetCompleted (runScheduler s).2 ≡ₚ lab_jobs ∧
  ∀ l, l ∈ lab_jobs → finished (proc (runScheduler s).2 l).
Proof.
  intros Hwf Hh Hp Hok. pose proof (lab_loaded s Hwf Hh Hp Hok) as Hl.
  destruct (add_all_spec lab_jobs s) as [Hh' Hp']. rewrite Hp in Hp'.
  change ([] ++ lab_jobs) with lab_jobs in Hp'.
  destruct (drive_finishes 100 _ Hl) as (s' & Hd & Hc & Hf).
  { unfold total_burst, last_arrival, proc. rewrite Hp', Hh', Hh. by vm_compute. }
  unfold runScheduler. rewrite Hd. rewrite Hp' in Hc, Hf. done.
Qed.

(** The CPU lab runs to its end.  Under each of the six schedulers, and
    whatever the random generator of the lottery returns, the three jobs all
    complete within the hundred ticks of the loop, with consistent times. *)
Theorem cpu_lab_completes (R : Type) `{Rng R} :
  let all_done {Sch : Type} `{Scheduler Sch} (s : Sch) :=
    GetCompleted (runScheduler s).2 ≡ₚ lab_jobs ∧
    ∀ l, l ∈ lab_jobs → finished (proc (runScheduler s).2 l) in
  all_done (NewFIFOScheduler lab_heap) ∧ all_done (NewSJFScheduler lab_heap) ∧
  all_done (NewSTCFScheduler lab_heap) ∧ all_done (NewRRScheduler lab_heap 2) ∧
  all_done (NewMLFQScheduler lab_heap 30) ∧ all_done (NewLotteryScheduler (R := R) lab_heap 2 42).
Proof.
  intros all_done.
  split; [apply runScheduler_completes; [apply new_core_wf|done|done|by repeat constructor]|].
  split; [apply runScheduler_completes; [apply new_core_wf|done|done|by repeat constructor]|].
  split; [apply runScheduler_completes; [apply new_core_wf|done|done|by repeat constructor]|].
  split; [apply runScheduler_completes; [apply NewRR_wf|done|done|by repeat constructor]|].
  split; [apply runScheduler_completes; [apply NewMLFQ_wf|done|done|by repeat constructor]|].
  apply runScheduler_completes; [|done|done|by repeat constructor].
  split; [apply new_core_wf|]. by intros l ?%elem_of_nil.
Qed.

(** *** Producer and consumer *)

(** What the producer is about to put in, if it is in a call. *)
Definition in_put (item : Z) (p : bb_pc) : Prop :=
  match p with
  | BLock (CPut x) | BCheck (CPut x) | BWaitUnlock (CPut x) | BPark (CPut x) | BAppend x => x = item
  | BSignal (CPut _) | BUnlock | BIdle => True
  | _ => False
  end.

Definition in_get (p : bb_pc) : Prop :=
  match p with
  | BLock CGet | BCheck CGet | BWaitUnlock CGet | BPark CGet | BFirst | BPop _ => True
  | BSignal CGet | BUnlock | BIdle => True
  | _ => False
  end.

(** The items the producer has put in are the first ones of its loop. *)
Record lab_inv (b : BoundedBuffer) : Prop := mk_lab_inv {
  li_bb : bb_inv 3 b;
  li_puts : puts b = (λ i, (i + 1) * 10) <$> seqZ 0 (len (puts b));
  li_limit : len (puts b) ≤ 5;
  li_producer : in_put ((len (puts b) + 1) * 10) (bb_pcs b producer);
  li_more : match bb_pcs b producer with
            | BIdle | BSignal _ | BUnlock => True | _ => len (puts b) < 5 end;
  li_consumer : in_get (bb_pcs b consumer) }.

(** The statement that follows. *)
Definition next_pc (c : bb_call) (p p' : bb_pc) : Prop :=
  match p with
  | BIdle => p' = BLock c
  | BLock c => p' = BLock c ∨ p' = BCheck c
  | BCheck c => p' = BWaitUnlock c ∨ p' = match c with CPut x => BAppend x | CGet => BFirst end
  | BWaitUnlock c => p' = BWaitUnlock c ∨ p' = BPark c
  | BPark c => p' = BLock c
  | BAppend x => p' = BSignal (CPut x)
  | BFirst => ∃ x, p' = BPop x
  | BPop _ => p' = BSignal CGet
  | BSignal _ => p' = BUnlock
  | BUnlock => p' = BUnlock ∨ p' = BIdle
  end.

Lemma bb_goto_effect t p b b' :
  bb_pcs b' = bb_pcs b → (∀ u, u ≠ t → bb_pcs (bb_goto t p b') u = bb_pcs b u) ∧
  bb_pcs (bb_goto t p b') t = p.
Proof.
  intros E. unfold bb_goto. simpl. rewrite E. split; [intros u Hu|]; rewrite pc_insert;
    by rewrite ?decide_False, ?decide_True by done.
Qed.

Lemma bb_mutex_effect t ret p b b' :
  bb_mutex t ret p b = Some b' →
  (∀ u, u ≠ t → bb_pcs b' u = bb_pcs b u) ∧ (bb_pcs b' t = bb_pcs b t ∨ bb_pcs b' t = p) ∧
  puts b' = puts b.
Proof.
  unfold bb_mutex. destruct (mutex_step t (mu_ b)) as [m|]; [|done]. simpl.
  destruct (ret (pcs m t)); intros [= <-]; [|by auto].
  destruct (bb_goto_effect t p b (b <| mu_ := m |>) eq_refl) as [H1 H2]. auto.
Qed.

Lemma bb_step_effect t c b b' :
  bb_step (t, c) b = Some b' →
  (∀ u, u ≠ t → bb_pcs b' u = bb_pcs b u) ∧ next_pc c (bb_pcs b t) (bb_pcs b' t) ∧
  puts b' = match bb_pcs b t with BAppend x => puts b ++ [x] | _ => puts b end.
Proof.
  intros Hs. unfold bb_step in Hs. unfold next_pc.
  assert (∀ p b1, bb_pcs b1 = bb_pcs b → bb_goto t p b1 = b' →
    (∀ u, u ≠ t → bb_pcs b' u = bb_pcs b u) ∧ bb_pcs b' t = p ∧ puts b' = puts b1) as Hgo.
  { intros p b1 E <-. destruct (bb_goto_effect t p b b1 E). done. }
  destruct (bb_pcs b t) as [|c0|c0|c0|c0|item| |item|c0|] eqn:Ep.
  - injection Hs as Hs. by apply Hgo in Hs.
  - destruct (bb_mutex_effect _ _ _ _ _ Hs) as (? & [E|E] & ?); rewrite ?Ep in E; auto.
  - injection Hs as Hs. destruct c0; case_match; apply Hgo in Hs as (? & -> & ->); auto.
  - destruct (bb_mutex_effect _ _ _ _ _ Hs) as (? & [E|E] & ?); rewrite ?Ep in E; auto.
  - destruct (bool_decide _); [|done]. injection Hs as Hs. by apply Hgo in Hs as (? & -> & ->).
  - injection Hs as Hs. by apply Hgo in Hs as (? & -> & ->).
  - destruct (head (buffer b)) as [x|]; [|done]. injection Hs as Hs.
    apply Hgo in Hs as (? & -> & ->); eauto.
  - injection Hs as Hs. by apply Hgo in Hs as (? & -> & ->).
  - injection Hs as Hs. unfold cv_Signal in Hs.
    destruct c0; repeat case_match; by apply Hgo in Hs as (? & -> & ->).
  - destruct (bb_mutex_effect _ _ _ _ _ Hs) as (? & [E|E] & ?); rewrite ?Ep in E; auto.
Qed.

Lemma buffer_step_call t b b' :
  buffer_step t b = Some b' → ∃ c, bb_step (t, c) b = Some b' ∧
    (bb_pcs b t = BIdle → labCall t b = Some c).
Proof.
  unfold buffer_step. destruct (bb_pcs b t) eqn:E; try (intros Hs; by exists CGet).
  destruct (labCall t b) as [c|]; [|done]. simpl. intros Hs. exists c. by rewrite E in Hs |- *.
Qed.

Lemma seqZ_puts n x : 0 ≤ n → x = (n + 1) * 10 →
  ((λ i, (i + 1) * 10) <$> seqZ 0 n) ++ [x] = (λ i, (i + 1) * 10) <$> seqZ 0 (n + 1).
Proof. intros Hn ->. rewrite seqZ_app by lia. by rewrite fmap_app. Qed.

(** The cases of [next_pc] for a thread at [bb_pcs b t]. *)
Ltac next_cases b t Hn :=
  unfold next_pc, in_put, in_get, producer, consumer in *; destruct (bb_pcs b t) as [|[]|[]|[]|[]| | | |[]|] eqn:?;
  try done; repeat match type of Hn with
  | _ ∨ _ => destruct Hn as [Hn|Hn]
  | ∃ _, _ => destruct Hn as [? Hn]
  end; rewrite ?Hn.

Lemma lab_inv_step t b b' : lab_inv b → among 2 buffer_step t b = Some b' → lab_inv b'.
Proof.
  intros [L1 L2 L3 L4 L5 L6] [Ht (c & Hs & Hc)%buffer_step_call]%among_Some.
  pose proof (bb_step_inv _ _ _ _ L1 Hs) as Hb.
  destruct (bb_step_effect _ _ _ _ Hs) as (Ho & Hn & Hp). unfold producer, consumer in *.
  assert (0 ≤ len (puts b)) as H0 by (unfold len; lia).
  destruct t as [|[|t]]; [| |lia]; clear Ht.
  - rewrite <- (Ho 1%nat) in L4, L5 by done.
    assert (puts b' = puts b ∧ in_get (bb_pcs b' 0%nat)) as [E Hg].
    { assert (bb_pcs b 0%nat = BIdle → c = CGet) as Hget.
      { intros Hi. specialize (Hc Hi). unfold labCall in Hc. rewrite decide_True in Hc by done.
        destruct (len (gets b) <? 5); by simplify_eq. }
      clear -Hn Hp Hget L6. next_cases b 0%nat Hn; rewrite ?Hget by done; done. }
    split; rewrite ?E; done.
  - rewrite <- (Ho 0%nat) in L6 by done.
    assert (len (puts b') = len (puts b) ∧ puts b' = puts b ∨
      len (puts b') = len (puts b) + 1 ∧ bb_pcs b 1%nat = BAppend ((len (puts b) + 1) * 10)) as Hl.
    { unfold in_put in L4. rewrite Hp. destruct (bb_pcs b 1%nat) as [|[]|[]|[]|[]| | | |[]|]; try auto.
      right. subst. rewrite len_snoc. auto. }
    assert (bb_pcs b 1%nat = BIdle → c = CPut ((len (puts b) + 1) * 10) ∧ len (puts b) < 5) as Hput.
    { intros Hi. specialize (Hc Hi). unfold labCall in Hc. rewrite decide_False in Hc by done.
      destruct (Z.ltb_spec (len (puts b)) 5); by simplify_eq. }
    clear Hc. destruct Hl as [[_ E]|[E Ep]].
    + rewrite <- E in *. split; try done.
      * clear Hp L5. next_cases b 1%nat Hn; try done. by destruct (Hput eq_refl) as [-> _].
      * clear Hp L4. next_cases b 1%nat Hn; try done. by destruct (Hput eq_refl) as [_ ?].
    + rewrite Ep in *. simpl in Hn, Hp, L5. split; unfold producer; rewrite ?Hn; try done; [|lia].
      rewrite E, Hp, L2 at 1. by apply seqZ_puts.
Qed.

(** Three items are put in and taken out, then the other two. *)
Definition lab_schedule : list nat :=
  replicate 30 producer ++ replicate 33 consumer ++ replicate 20 producer ++ replicate 22 consumer.

(** The producer fails the compare-and-swap of [Lock] while the consumer, who
    finds the buffer empty, holds the mutex; the consumer releases it and waits,
    and only then does the producer queue up at the mutex. *)
Definition lab_hang : list nat :=
  [consumer; consumer; producer; producer] ++ replicate 6 consumer ++ replicate 4 producer.

Lemma lab_hang_stuck :
  ∃ b, run (among 2 buffer_step) lab_hang (NewBoundedBuffer 3) = Some b ∧ consumed b = false ∧
    ∀ t, among 2 buffer_step t b = None.
Proof.
  destruct (run (among 2 buffer_step) lab_hang (NewBoundedBuffer 3)) as [b|] eqn:E; [|vm_compute in E; done].
  exists b. split; [done|]. vm_compute in E. injection E as <-. split; [done|].
  by intros [|[|t]].
Qed.

(** C17. The producer and the consumer of the concurrency lab, under every
    schedule of their statements: when the lab returns it has printed 10, 20,
    30, 40, 50 in this order, and there are schedules under which it returns;
    but there is also a schedule after which neither goroutine can take a step,
    so that the lab deadlocks before the consumer has got its first item. *)
Theorem concurrency_lab (unsafe safe : Z) :
  (∀ sched out, runConcurrencyLab unsafe safe sched = Returns out →
     out = concurrencyIntro unsafe safe +:+ prints (extracted <$> [10; 20; 30; 40; 50])) ∧
  (∃ out, runConcurrencyLab unsafe safe lab_schedule = Returns out) ∧
  (∀ more out, runConcurrencyLab unsafe safe (lab_hang ++ more) ≠ Returns out) ∧
  ∃ b, run (among 2 buffer_step) lab_hang (NewBoundedBuffer 3) = Some b ∧ gets b = [].
Proof.
  split_and!.
  - intros sched out. unfold runConcurrencyLab.
    destruct (run (among 2 buffer_step) sched (NewBoundedBuffer 3)) as [b|] eqn:E; [|done].
    destruct (consumed b) eqn:Ec; [|done]. intros [= <-].
    enough (printed b = [10; 20; 30; 40; 50]) as -> by done. assert (lab_inv b) as [L1 L2 L3 _ _ _].
    { eapply run_inv; [|intros; by eapply lab_inv_step|exact E]. split; try done. split; try done. apply inv_init. }
    unfold consumed in Ec. apply andb_true_iff in Ec as [Hg%Z.leb_le Hp]. unfold printed.
    destruct (bb_pcs b consumer); try done. pose proof (bi_fifo _ _ L1) as Hf.
    assert (len (puts b) = len (gets b) + len (buffer b)) as Hl
      by (rewrite Hf; unfold len; rewrite length_app; lia).
    assert (buffer b = []) as Hb by (destruct (buffer b); [done|unfold len in *; simpl in *; lia]).
    rewrite Hb, app_nil_r in Hf. rewrite <- Hf, L2. replace (len (puts b)) with 5 by (rewrite Hf in *; lia).
    done.
  - unfold runConcurrencyLab.
    destruct (run (among 2 buffer_step) lab_schedule (NewBoundedBuffer 3)) as [b|] eqn:E; [|vm_compute in E; done].
    assert (consumed b = true) as -> by (vm_compute in E; injection E as <-; done). by eexists.
  - intros more out. unfold runConcurrencyLab. rewrite run_app.
    destruct lab_hang_stuck as (b & -> & Hc & Hs). cbn [mbind option_bind].
    destruct more as [|t more]; cbn [run]; [by rewrite Hc|]. by rewrite Hs.
  - destruct (run (among 2 buffer_step) lab_hang (NewBoundedBuffer 3)) as [b|] eqn:E; [|vm_compute in E; done].
    exists b. split; [done|]. vm_compute in E. by injection E as <-.
Qed.

(** *** The philosophers *)
Lemma finished_meals_true n goal dp :
  din_inv hierarchyOrder goal n dp →
  (finished_meals goal dp = true ↔ ∀ id, (id < n)%nat → (goal ≤ meal dp id)%nat).
Proof.
  intros [Hn _ _ _]. unfold finished_meals. rewrite forallb_forall, Hn. split.
  - intros H id Hid. apply Nat.leb_le, H, in_seq. lia.
  - intros H id Hid%in_seq. apply Nat.leb_le, H. lia.
Qed.

Lemma finished_eaten n goal dp id :
  din_inv hierarchyOrder goal n dp → finished_meals goal dp = true → (id < n)%nat →
  MealsEaten dp id = Z.of_nat goal.
Proof.
  intros Hi Hf Hid. pose proof (proj1 (finished_meals_true n goal dp Hi) Hf id Hid) as Hm.
  destruct Hi as [_ _ D3 D4]. destruct (D4 id Hid) as [D5 D6].
  rewrite (D3 id Hid). destruct (phil_pcs dp id); try lia; exfalso; specialize (D6 ltac:(done)); lia.
Qed.

(** While somebody is at the table somebody can move. *)
Lemma dining_progress n goal dp :
  (2 ≤ n)%nat → din_inv hierarchyOrder goal n dp → finished_meals goal dp = false →
  ∃ id dp', (id < n)%nat ∧ phil_step hierarchyOrder goal id dp = Some dp'.
Proof.
  intros Hn Hi Hf.
  destruct (decide (Exists (λ id, is_Some (phil_step hierarchyOrder goal id dp)) (seq 0 n))) as [He|He].
  { apply Exists_exists in He as (id & Hid%elem_of_seq & dp' & Hs). exists id, dp'. split; [lia|done]. }
  exfalso. assert (∀ id, (id < n)%nat → phil_step hierarchyOrder goal id dp = None) as Hblk.
  { intros id Hid. apply eq_None_not_Some. intros Hs. apply He, Exists_exists.
    exists id. split; [apply elem_of_seq; lia|done]. }
  destruct (hierarchy_finished n goal dp Hn Hi Hblk) as [Hforks Hm].
  assert (finished_meals goal dp = true); [|congruence].
  apply (finished_meals_true n); [done|]. intros id Hid. specialize (Hm id Hid).
  destruct (phil_blocked _ _ _ _ (Hblk id Hid)) as [[Hp [?|Hk]]|[Hp Hk]]; [done|..];
    by rewrite Hforks in Hk.
Qed.

Lemma dining_extends (z : Z) goal sched dp :
  2 ≤ z →
  run (RunSafeResourceHierarchy goal (NewDiningPhilosophers z)) sched (NewDiningPhilosophers z) = Some dp →
  ∃ more dp', run (RunSafeResourceHierarchy goal (NewDiningPhilosophers z)) (sched ++ more)
    (NewDiningPhilosophers z) = Some dp' ∧ finished_meals goal dp' = true.
Proof.
  intros Hz. set (step := RunSafeResourceHierarchy goal (NewDiningPhilosophers z)).
  assert (∀ k sched dp, total_work goal (Z.to_nat z) dp ≤ Z.of_nat k →
    run step sched (NewDiningPhilosophers z) = Some dp →
    ∃ more dp', run step (sched ++ more) (NewDiningPhilosophers z) = Some dp' ∧
      finished_meals goal dp' = true) as Hind.
  { induction k as [|k IH]; intros sched0 dp0 Hk Hr;
      destruct (hierarchy_run_inv z goal sched0 dp0 Hz Hr) as [Hi Hw];
      (destruct (finished_meals goal dp0) eqn:Ef;
         [exists [], dp0; by rewrite app_nil_r|]);
      destruct (dining_progress (Z.to_nat z) goal dp0 ltac:(lia) Hi Ef) as (id & dp1 & Hid & Hs);
      (assert (run step (sched0 ++ [id]) (NewDiningPhilosophers z) = Some dp1) as Hr1;
         [rewrite run_app, Hr; cbn [mbind option_bind run];
          unfold step, RunSafeResourceHierarchy, among; simpl;
          destruct (Z.leb_spec z 0); [lia|]; destruct (Nat.ltb_spec id (Z.to_nat z)); [|lia]; by rewrite Hs|]);
      destruct (hierarchy_run_inv z goal _ _ Hz Hr1) as [Hi1 Hw1];
      pose proof (total_work_nonneg _ _ _ Hi1) as Hn1; rewrite len_snoc in Hw1; [lia|].
    destruct (IH (sched0 ++ [id]) dp1 ltac:(lia) Hr1) as (more & dp' & Hr' & Hf').
    exists (id :: more), dp'. by rewrite <- app_assoc in Hr'. }
  intros Hr. apply (Hind (Z.to_nat (total_work goal (Z.to_nat z) dp)) sched dp); [|done].
  destruct (hierarchy_run_inv z goal sched dp Hz Hr) as [Hi _].
  pose proof (total_work_nonneg _ _ _ Hi). lia.
Qed.

Lemma bankLab_total : is_Some bankLab.
Proof. by vm_compute; eexists. Qed.

(** The text of the lab: the table shows five meals for everybody. *)
Definition deadlockText : string :=
  println (SectionHeader "LAB 6: DEADLOCK AVOIDANCE & DINING PHILOSOPHERS") +:+ default ""%string bankLab +:+
  println (RenderDiningStatus (NewDiningPhilosophers 5 <| MealsEaten := λ _, 5 |>)).

Lemma runDeadlockLab_finished sched dp :
  run (RunSafeResourceHierarchy 5 (NewDiningPhilosophers 5)) sched (NewDiningPhilosophers 5) = Some dp →
  runDeadlockLab sched = if finished_meals 5 dp then Returns deadlockText
    else Blocks (println (SectionHeader "LAB 6: DEADLOCK AVOIDANCE & DINING PHILOSOPHERS") +:+
                 default ""%string bankLab).
Proof.
  intros Hr. unfold runDeadlockLab, deadlockText. destruct bankLab_total as [bank ->]. cbv zeta.
  rewrite Hr. destruct (finished_meals 5 dp) eqn:Ef; [|done]. do 4 f_equal.
  destruct (hierarchy_run_inv 5 5 sched dp ltac:(lia) Hr) as [Hi _].
  unfold RenderDiningStatus. do 2 f_equal. unfold diningTable. f_equal. f_equal.
  rewrite (di_n _ _ _ _ Hi). simpl. unfold philosopherRow.
  by rewrite !(finished_eaten 5 5 dp _ Hi Ef), (di_n _ _ _ _ Hi) by lia.
Qed.

(** C18. The deadlock lab always gets to its end: no schedule of the
    philosophers makes it panic, no schedule has more than 125 steps, every
    schedule can be continued to one with which the lab returns, and when it
    returns it has printed the same text, with five meals for everybody. *)
Theorem deadlock_lab sched :
  (∀ out, runDeadlockLab sched ≠ Panics out) ∧
  (∀ out, runDeadlockLab sched = Returns out → out = deadlockText) ∧
  (∀ dp, run (RunSafeResourceHierarchy 5 (NewDiningPhilosophers 5)) sched (NewDiningPhilosophers 5) =
           Some dp →
     len sched ≤ 125 ∧ ∃ more, runDeadlockLab (sched ++ more) = Returns deadlockText).
Proof.
  split_and!.
  - intros out. unfold runDeadlockLab. destruct bankLab_total as [bank ->]. by repeat case_match.
  - intros out. destruct (run (RunSafeResourceHierarchy 5 (NewDiningPhilosophers 5)) sched
      (NewDiningPhilosophers 5)) as [dp|] eqn:Hr.
    + rewrite (runDeadlockLab_finished _ _ Hr). case_match; naive_solver.
    + unfold runDeadlockLab. destruct bankLab_total as [bank ->]. cbv zeta. by rewrite Hr.
  - intros dp Hr. destruct (hierarchy_run_inv 5 5 sched dp ltac:(lia) Hr) as [Hi Hw].
    pose proof (total_work_nonneg _ _ _ Hi). split; [lia|].
    destruct (dining_extends 5 5 sched dp ltac:(lia) Hr) as (more & dp' & Hr' & Hf).
    exists more. by rewrite (runDeadlockLab_finished _ _ Hr'), Hf.
Qed.
