(* ===== verification/Main.v ===== *)
(** * The program

    [main], [printUsage], [runAllLabs] and [runInteractiveMenu] of
    [src/cmd/os-sim/main.go]: the choice of a lab by argument or menu, with the
    standard input shared between the scanner of the menu and the one the
    debugger opens.  The program is shown to end on every input. *)

From Stdlib Require Import Ascii String.
From S2P Require Import Prelude Visualizer Drawing GoText Reports.
From S2P Require Import SchedLottery Steps Gmp Lifecycle ReportsMemory ReportsKernel Debugger LabsKernel Labs.

(** What a run of a lab finds in its surroundings: the case table of Unicode
    beyond ASCII, the orders of iterations over maps, the outcome of the races,
    the schedules of goroutines, the number of processors and the measured
    times. *)
Record Env := mkEnv {
  lower : Z → Z; orders : nat → Orders; varOrder : nat → MapOrder string Z;
  raceUnsafe : Z; raceSafe : Z; bufferSched : list nat; diningSched : list nat;
  numCPU : Z; singleTime : Z; multiTime : Z; contendedTime : Z; lockFreeTime : Z }.

(** The labs that do not read the input. *)
Inductive Lab :=
  | LabMode | LabSyscall | LabLifecycle | LabIsolation | LabIPC | LabCPU | LabGMP | LabMemory
  | LabPaging | LabConcurrency | LabDeadlock | LabIO | LabBenchmark.

(** A lab that may panic; the text printed up to there is left out. *)
Definition returned (o : option string) : ending string :=
  match o with Some out => Returns out | None => Panics "" end.

(** Two programs in sequence. *)
Definition and_then (e1 : ending string) (e2 : ending string) : ending string :=
  match e1 with
  | Returns out1 =>
      match e2 with
      | Returns out2 => Returns (out1 +:+ out2)
      | Panics out2 => Panics (out1 +:+ out2)
      | Blocks out2 => Blocks (out1 +:+ out2)
      | NoFuel => NoFuel
      end
  | e => e
  end.

Section program.
(** The state of the random generators. *)
Context (R : Type) `{Rng R}.

Definition runLab (e : Env) (l : Lab) : ending string :=
  match l with
  | LabMode => Returns runModeLab.1
  | LabSyscall => Returns runSyscallLab
  | LabLifecycle => returned (fst <$> runLifecycleLab (orders e))
  | LabIsolation => returned runIsolationLab
  | LabIPC => returned runIPCLab
  | LabCPU => Returns (runCPULab R)
  | LabGMP => returned (runGMPLab R)
  | LabMemory => returned (runMemoryLab (varOrder e))
  | LabPaging => returned runPagingLab
  | LabConcurrency => runConcurrencyLab (raceUnsafe e) (raceSafe e) (bufferSched e)
  | LabDeadlock => runDeadlockLab (diningSched e)
  | LabIO => Returns runIOLab
  | LabBenchmark =>
      returned (runBenchmarkLab (numCPU e) (singleTime e) (multiTime e) (contendedTime e) (lockFreeTime e))
  end.

Definition allLabs : list Lab :=
  [ LabMode; LabSyscall; LabLifecycle; LabIsolation; LabIPC; LabCPU; LabGMP; LabMemory; LabPaging;
    LabConcurrency; LabDeadlock; LabIO; LabBenchmark ].

Definition runAllLabs (e : Env) : ending string :=
  foldr (λ l, and_then (runLab e l)) (Returns ""%string) allLabs.

(** What a name or a number selects. *)
Inductive Choice := RunLab (l : Lab) | RunDebugger | RunAll | Help | Quit | Unknown.

(** The text a choice prints and what is left of the input. *)
Definition runDebugger (e : Env) (stdin : list string) : ending (string * list string) :=
  match runInteractiveDebugger (lower e) (orders e) stdin with
  | Returns (out, _, stdin) => Returns (out, stdin)
  | Panics out => Panics out
  | Blocks out => Blocks out
  | NoFuel => NoFuel
  end.

Definition keeping (stdin : list string) (e : ending string) : ending (string * list string) :=
  match e with
  | Returns out => Returns (out, stdin)
  | Panics out => Panics out
  | Blocks out => Blocks out
  | NoFuel => NoFuel
  end.

(** ** The command line *)
Definition printUsage : string :=
  prints
    [ SectionHeader "OS SIMULATOR & LAB (OSTEP in Go)";
      HiCyan "Usage: os-sim [command]";
      newline +:+ "Available Labs & Interactive Modules:";
      "  mode         - User Mode vs Kernel Mode, Ring 0/3 Privileges & Traps";
      "  syscall      - System Calls, Dispatch Table & Register Calling Convention (RAX, RDI..)";
      "  lifecycle    - Process Lifecycle (fork, exec, wait, exit, Zombies & Orphans)";
      "  isolation    - Process Memory Isolation & Protection Fault (#PF/SIGSEGV)";
      "  ipc          - Inter-Process Communication (Unix Pipes & Zero-Copy Shared Memory)";
      "  cpu          - CPU Virtualization, Context Switch & Schedulers (FIFO, SJF, STCF, RR, MLFQ, Lottery)";
      "  gmp          - Go M:N GMP Runtime (Goroutines G, Threads M, Processors P, Work Stealing)";
      "  memory       - Memory Virtualization (Address Space, Stack vs Heap, Allocators)";
      "  paging       - Hardware Paging, Multi-Level Page Tables, TLB Cache, Page Replacement (Clock/LRU)";
      "  concurrency  - Data Race Demonstration, Atomics, Mutexes, Semaphores, Condition Variables";
      "  deadlock     - Banker's Algorithm, Coffman Conditions, Dining Philosophers";
      "  io           - I/O Multiplexing (Blocking, Select/Poll, Epoll O(1) Ready-List, Netpoller)";
      "  bench        - Concurrency vs Parallelism Real Hardware Multi-Core Benchmarks";
      "  debug        - Step-by-Step Interactive Unified OS Debugger & Shell";
      "  all          - Run all labs in sequence (Full Guided Tour)";
      "  help         - Show this help message" ].

Definition commands : list (list string * Choice) :=
  [ (["cpu"], RunLab LabCPU); (["gmp"], RunLab LabGMP); (["memory"], RunLab LabMemory);
    (["paging"], RunLab LabPaging); (["concurrency"], RunLab LabConcurrency);
    (["deadlock"], RunLab LabDeadlock); (["io"], RunLab LabIO); (["bench"], RunLab LabBenchmark);
    (["mode"], RunLab LabMode); (["syscall"], RunLab LabSyscall);
    (["lifecycle"], RunLab LabLifecycle); (["isolation"], RunLab LabIsolation);
    (["ipc"], RunLab LabIPC); (["debug"], RunDebugger); (["all"], RunAll);
    (["help"; "--help"; "-h"], Help) ]%string.

(** The [switch] over strings: the first case that lists the name. *)
Fixpoint choose (name : string) (cases : list (list string * Choice)) : Choice :=
  match cases with
  | [] => Unknown
  | (names, c) :: cases => if is_one_of name names then c else choose name cases
  end.

Definition runCommand (e : Env) (arg : string) (stdin : list string) : ending string :=
  match choose (ToLower (lower e) arg) commands with
  | RunLab l => runLab e l
  | RunAll => runAllLabs e
  | RunDebugger =>
      match runDebugger e stdin with
      | Returns (out, _) => Returns out
      | Panics out => Panics out
      | Blocks out => Blocks out
      | NoFuel => NoFuel
      end
  | Help => Returns printUsage
  | _ => Returns (println ("Unknown command: " +:+ arg) +:+ printUsage)
  end.

(** ** The menu *)
Definition menuText : string :=
  prints
    [ SectionHeader "OS SIMULATOR & LAB: INTERACTIVE CONSOLE";
      Bold +:+ "Select an Operating System Lab to run:" +:+ Reset;
      HiCyan "── Operating System Kernel & Hardware Boundary ────────────────────────";
      "  [1] User Mode vs Kernel Mode & Traps (Ring 0 vs Ring 3)";
      "  [2] System Calls Dispatcher & Register Calling Convention";
      "  [3] Unix Process Lifecycle (fork, exec, exit, wait, Zombies & Orphans)";
      "  [4] Process Memory Isolation & Protection Faults";
      "  [5] Inter-Process Communication (Unix Pipes & Shared Memory)";
      "  [6] Unified OS Kernel Step-by-Step Interactive Debugger";
      HiYellow (newline +:+ "── CPU, Memory & Concurrency Fundamentals (OSTEP) ─────────────────────");
      "  [7] CPU Scheduling & Context Switching (FIFO, SJF, STCF, RR, MLFQ, Lottery)";
      "  [8] Go Runtime M:N Scheduler (GMP Model, Work Stealing, Stack Dynamics)";
      "  [9] Memory Virtualization (Address Space, Stack vs Heap, Free-List & Buddy)";
      " [10] Hardware Paging, Multi-Level Page Tables, TLB Cache & Clock Replacement";
      " [11] Concurrency Primitives, Data Races, Atomics, Mutex, Semaphores, CondVar";
      " [12] Deadlock Avoidance, Banker's Algorithm & Dining Philosophers";
      " [13] I/O Models, Epoll O(1) Architecture & Go Netpoller Integration";
      " [14] Concurrency vs True Parallelism Multi-Core Hardware Benchmarks";
      " [15] Run Complete Guided Tour (All Labs)";
      "  [0] Exit" ] +:+
  HiYellow (newline +:+ "Enter choice (0-15): ") +:+ Reset.

Definition menuItems : list (list string * Choice) :=
  [ (["1"], RunLab LabMode); (["2"], RunLab LabSyscall); (["3"], RunLab LabLifecycle);
    (["4"], RunLab LabIsolation); (["5"], RunLab LabIPC); (["6"], RunDebugger);
    (["7"], RunLab LabCPU); (["8"], RunLab LabGMP); (["9"], RunLab LabMemory);
    (["10"], RunLab LabPaging); (["11"], RunLab LabConcurrency); (["12"], RunLab LabDeadlock);
    (["13"], RunLab LabIO); (["14"], RunLab LabBenchmark); (["15"], RunAll);
    (["0"; "exit"; "quit"], Quit) ]%string.

(** What a choice other than leaving does. *)
Definition runChoice (e : Env) (c : Choice) (stdin : list string) : ending (string * list string) :=
  match c with
  | RunLab l => keeping stdin (runLab e l)
  | RunAll => keeping stdin (runAllLabs e)
  | RunDebugger => runDebugger e stdin
  | _ => Returns (println (Red "Invalid selection. Please choose 0-15."), stdin)
  end.

(** The loop; [env i] is the surroundings in turn [i]. *)
Fixpoint menuLoop (fuel i : nat) (env : nat → Env) (out : string) (scanner : Scanner)
    (stdin : list string) : ending string :=
  match fuel with
  | O => NoFuel
  | S fuel =>
      let out := out +:+ menuText in
      match Scan scanner stdin with
      | (None, _, _) => Returns out
      | (Some line, scanner, stdin) =>
          match choose (TrimSpace line) menuItems with
          | Quit =>
              Returns (out +:+ println (Green (newline +:+ "Thank you for exploring Operating Systems with Go!")))
          | c =>
              match runChoice (env i) c stdin with
              | Returns (text, stdin) =>
                  let out := out +:+ text +:+ Gray (newline +:+ "Press Enter to return to menu...") in
                  let '(_, scanner, stdin) := Scan scanner stdin in
                  menuLoop fuel (S i) env out scanner stdin
              | Panics text => Panics (out +:+ text)
              | Blocks text => Blocks (out +:+ text)
              | NoFuel => NoFuel
              end
          end
      end
  end.

(** Each turn of the loop consumes a line of the input. *)
Definition runInteractiveMenu (env : nat → Env) (stdin : list string) : ending string :=
  menuLoop (S (Z.to_nat (slen (unread NewScanner stdin)))) 0 env "" NewScanner stdin.

(** [args] is [os.Args]: the name of the program and its arguments. *)
Definition main (env : nat → Env) (args stdin : list string) : ending string :=
  match args with
  | _ :: arg :: _ => runCommand (env 0%nat) arg stdin
  | _ => runInteractiveMenu env stdin
  end.
End program.

(** ** The program ends *)

(** A surrounding in which the goroutines of the two labs that wait for them do
    not come to their end. *)
Definition waits (e : Env) : Prop :=
  (∀ out, runConcurrencyLab (raceUnsafe e) (raceSafe e) (bufferSched e) ≠ Returns out) ∨
  (∀ out, runDeadlockLab (diningSched e) ≠ Returns out).

(** It returns, or it waits for goroutines. *)
Definition ends {A : Type} (e : Env) (r : ending A) : Prop :=
  (∃ a, r = Returns a) ∨ (∃ out, r = Blocks out) ∧ waits e.

Section ends.
Context (R : Type) `{Rng R}.

Lemma runGMPLab_total : is_Some (runGMPLab R).
Proof.
  unfold runGMPLab. destruct (gmp_run gmpCalls _ (NewGMPRuntime_inv 2)) as (rt & -> & _). by eexists.
Qed.

Lemma runMemoryLab_total ord : is_Some (runMemoryLab ord).
Proof.
  unfold runMemoryLab. destruct labHeap as [[fla fla2]|] eqn:E; [|vm_compute in E; done].
  cbn [mbind option_bind].
  destruct (RenderHeapMap fla) as [m1|] eqn:E1; [|vm_compute in E; injection E as <- <-; vm_compute in E1; done].
  cbn [mbind option_bind].
  destruct (RenderHeapMap fla2) as [m2|] eqn:E2; [|vm_compute in E; injection E as <- <-; vm_compute in E2; done].
  by eexists.
Qed.

Lemma is_Some_bool {A} (o : option A) : bool_decide (is_Some o) = true → is_Some o.
Proof. apply bool_decide_eq_true. Qed.

Lemma returned_ends e o : is_Some o → ends e (returned o).
Proof. intros [out ->]. left. by eexists. Qed.

Lemma runConcurrencyLab_ends e :
  ends e (runConcurrencyLab (raceUnsafe e) (raceSafe e) (bufferSched e)).
Proof.
  destruct (runConcurrencyLab (raceUnsafe e) (raceSafe e) (bufferSched e)) as [out|out|out|] eqn:Ed;
    [left; by eexists| |right; split; [by eexists|left; intros o; by rewrite Ed]|];
    unfold runConcurrencyLab in Ed; by repeat case_match.
Qed.

Lemma runDeadlockLab_ends e : ends e (runDeadlockLab (diningSched e)).
Proof.
  destruct (runDeadlockLab (diningSched e)) as [out|out|out|] eqn:Ed;
    [left; by eexists| |right; split; [by eexists|right; intros o; by rewrite Ed]|];
    unfold runDeadlockLab in Ed; destruct bankLab_total as [bank Hb]; rewrite Hb in Ed; by repeat case_match.
Qed.

Lemma Returns_ends {A} e (a : A) : ends e (Returns a).
Proof. left. by exists a. Qed.

Lemma runLab_ends e l : ends e (runLab R e l).
Proof.
  destruct l; cbn [runLab].
  - apply Returns_ends.
  - apply Returns_ends.
  - apply returned_ends.
    destruct (runLifecycleLab_total (orders e)) as (out & pm & -> & _). by exists out.
  - apply returned_ends, is_Some_bool. by vm_compute.
  - apply returned_ends, is_Some_bool. by vm_compute.
  - apply Returns_ends.
  - apply returned_ends, runGMPLab_total.
  - apply returned_ends, runMemoryLab_total.
  - apply returned_ends, is_Some_bool. by vm_compute.
  - apply runConcurrencyLab_ends.
  - apply runDeadlockLab_ends.
  - apply Returns_ends.
  - apply returned_ends. unfold runBenchmarkLab. eexists. reflexivity.
Qed.

Lemma runAllLabs_ends e : ends e (runAllLabs R e).
Proof.
  unfold runAllLabs. induction allLabs as [|l ls IH]; cbn [foldr]; [left; by eexists|].
  destruct (runLab_ends e l) as [[out ->]|[[out ->] Hw]]; [|right; split; [by eexists|done]].
  destruct IH as [[out' ->]|[[out' ->] Hw]]; cbn [and_then]; [left|right]; eauto.
Qed.

Lemma runDebugger_returns e stdin :
  ∃ out rest, runDebugger e stdin = Returns (out, rest) ∧ rest `suffix_of` stdin.
Proof.
  unfold runDebugger.
  destruct (runInteractiveDebugger_inv (lower e) (orders e) stdin) as (out & d & rest & -> & _ & Hr). eauto.
Qed.

Lemma runChoice_ends e c stdin :
  ends e (runChoice R e c stdin) ∧
  ∀ out rest, runChoice R e c stdin = Returns (out, rest) → rest `suffix_of` stdin.
Proof.
  assert (∀ r, ends e r → ends e (keeping stdin r) ∧
    ∀ out rest, keeping stdin r = Returns (out, rest) → rest `suffix_of` stdin) as Hk.
  { intros r [[out ->]|[[out ->] Hw]]; cbn [keeping]; (split; [|by intros ?? [= _ ->]]); [left|right]; eauto. }
  assert (∀ text : string, ends e (Returns (text, stdin)) ∧
    ∀ out rest, Returns (text, stdin) = Returns (out, rest) → rest `suffix_of` stdin) as Hr.
  { intros text. split; [apply Returns_ends|]. by intros ?? [= _ <-]. }
  destruct c; cbn [runChoice].
  - apply Hk, runLab_ends.
  - destruct (runDebugger_returns e stdin) as (out & rest & -> & Hsuf).
    split; [apply Returns_ends|]. by intros ?? [= _ <-].
  - apply Hk, runAllLabs_ends.
  - apply Hr.
  - apply Hr.
  - apply Hr.
Qed.

Lemma menuLoop_ends fuel i env out sc stdin :
  slen (unread sc stdin) < Z.of_nat fuel →
  ∃ j, ends (env j) (menuLoop R fuel i env out sc stdin).
Proof.
  revert i out sc stdin. induction fuel as [|fuel IH]; intros i out sc stdin Hf.
  { pose proof (slen_nonneg (unread sc stdin)). lia. }
  cbn [menuLoop]. destruct (Scan sc stdin) as [[[line|] sc1] stdin1] eqn:Es; [|exists i; left; by eexists].
  apply Scan_shorter in Es. set (c := choose (TrimSpace line) menuItems).
  assert (∃ j, ends (env j)
    match runChoice R (env i) c stdin1 with
    | Returns (text, stdin) =>
        let out := (out +:+ menuText) +:+ text +:+ Gray (newline +:+ "Press Enter to return to menu...") in
        let '(_, scanner, stdin) := Scan sc1 stdin in menuLoop R fuel (S i) env out scanner stdin
    | Panics text => Panics ((out +:+ menuText) +:+ text)
    | Blocks text => Blocks ((out +:+ menuText) +:+ text)
    | NoFuel => NoFuel
    end) as Hgo; [|destruct c; try exact Hgo; exists i; left; by eexists].
  destruct (runChoice_ends (env i) c stdin1) as [[[[text rest] Er]|[[text Er] Hw]] Hs]; rewrite Er.
  2: { exists i. right. eauto. }
  specialize (Hs _ _ Er). destruct (Scan sc1 rest) as [[o sc2] stdin2] eqn:E2. cbv zeta.
  apply Scan_le in E2. apply (unread_suffix sc1) in Hs. apply IH. lia.
Qed.

(** C15. The program ends.  For every command line and every standard input,
    delivered in any pieces, whatever the random generators, the orders of
    iterations over maps, the measured times and the schedules are: the program
    does not panic and its loops stop, after the last line of the input at the
    latest.  It returns, unless it runs the concurrency or the deadlock lab
    under a schedule that does not take their goroutines to the end. *)
Theorem main_total (env : nat → Env) (args stdin : list string) :
  ∃ i, ends (env i) (main R env args stdin).
Proof.
  assert (∃ i, ends (env i) (runInteractiveMenu R env stdin)) as Hm by (apply menuLoop_ends; lia).
  destruct args as [|prog [|arg args]]; [done..|]. exists 0%nat. cbn [main]. unfold runCommand.
  destruct (choose _ commands).
  - apply runLab_ends.
  - destruct (runDebugger_returns (env 0%nat) stdin) as (out & rest & -> & _). apply Returns_ends.
  - apply runAllLabs_ends.
  - apply Returns_ends.
  - apply Returns_ends.
  - apply Returns_ends.
Qed.
End ends.

(** When the whole input arrives in one piece, the scanner of the menu has read
    all of it by the time it selects the debugger, which then sees the end of
    the file at once. *)
Lemma menu_starves_debugger rest :
  Scan NewScanner ["6" +:+ newline +:+ rest] = (Some "6"%string, mkScanner rest false, []).
Proof. done. Qed.
